(* ===== verification/_CoqProject ===== *)
-Q . S2P
Prelude.v
Json.v
Expr.v
Sha256.v
Ir.v
Reliability.v
Workflow.v
Trace.v
RunState.v
RunStep.v
RunTrace.v
RunCalm.v
RunEffects.v
RunBounds.v
RunBudget.v
Restore.v
RunReplay.v
Drive.v
Lease.v
Scheduler.v
Timer.v
Replay.v
Patch.v
PatchInverse.v
Resource.v
Bundle.v
CanonText.v
BundleLaws.v
Resolver.v
ResolverLaws.v
LockLaws.v
Keys.v
Zip.v
Utf8.v
Directory.v
Disk.v
Store.v
StoreLaws.v
Scenario.v
Services.v
PatchCases.v
BundleCases.v
ProviderCases.v
StoreCases.v
Engine.v
CSpi.v
CSpiLaws.v
CConvert.v
CApi.v
CRun.v
CApiLaws.v
COwners.v
CRunCases.v
CApiCases.v
CHandles.v
Bindings.v
BindingRuns.v
BindingCalls.v
PyStore.v
Format.v
Cli.v
BindingCases.v
CliCases.v
