(* ===== verification/Prelude.v ===== *)
(** * DAGE: a verification library for the workflow runtime

    DAGE runs workflows: directed graphs of nodes (tools, conditions, parallel
    branches, subflows, human steps) written in JSON.  A workflow is validated and
    compiled, a run of it is driven step by step, possibly from many threads, its
    state is saved in checkpoints from which another process can take it over, and
    its events can be replayed.  Workflows are shipped in bundles that are signed,
    resolved against repositories, locked and cached.  This library models that
    program (C++, under src/), the C interface around it, the command line tool and the
    parts of the language bindings that own native objects, as Rocq functions and step
    relations and proves what makes each part correct.

    ** How the model is written

    Pure code is a function, code that can fail returns [res E A] ([exc] where it
    throws, [Result] where it returns an error value), code over mutable state is an
    [act E S A], which keeps the state reached when it leaves early.  Concurrency is
    an inductive step relation whose steps are the critical sections of the source,
    in any order.  Integers are [Z] with the wrap-around of their width written out
    ([u64] and the like), doubles are SpecFloat values, a std::map is an association
    list sorted by its keys ([om_get], [om_set]), bytes are the characters of a
    string.  Code outside the repository is a class or a record of functions: jsoncpp
    is [JsonLib] with the laws [JsonLaws], OpenSSL is [Crypto], zlib is [Zlib],
    executors, clocks and host callbacks are fields of [Host], the file system is a
    tree ([Directory.file]) or a disk that others change and whose calls may fail
    ([Disk.Moment]).  [JsonRef] and [CanonText.JsonText] are instances of [JsonLib]
    that satisfy the laws and on which the cases are evaluated.

    ** Files and what they model

    - Prelude: outcomes, effects, record update, strings, machine integers, sorted
      maps, the tactics [simplify_res] and [solve_keeps], the hint databases.
    - Json: JSON values, the interface to jsoncpp and its reference instance.
    - Expr: expressions and templates (src/dage.cpp: lookup_path, eval_expr,
      resolve_template).
    - Sha256: src/sha256.cpp, on 32-bit words.
    - Ir: the compiled workflow and its compiler (src/ir.cpp).
    - Reliability: cancellation, the state stores in memory and in files, the record
      format (src/reliability.cpp).
    - Workflow: Engine::validate and Engine::load (src/dage.cpp).
    - Trace: sampling, redaction, the asynchronous sink, spans (src/trace.cpp,
      src/opentelemetry.cpp).
    - RunState, RunStep: the state of a run, checkpoints, and Run::execute_step with
      all its branches; RunTrace, RunCalm, RunEffects, RunBounds and RunBudget prove
      its properties one after the other.
    - Restore: Engine::restore_run, create_replay_run, Run::snapshot; RunReplay: the
      steps of a run that replays recorded outcomes.
    - Drive: execute_async, resume, cancel and selective_rerun as a step relation in
      which the scheduler may refuse tasks and steps may throw.
    - Lease, Scheduler, Timer: resource leases (src/resource_lease.cpp), the thread
      pool (src/scheduler.cpp), timers and completions (src/dage.cpp).
    - Replay: trace replay and shadow comparison; Patch, PatchInverse: patches, their
      analysis and inverses, workflow differences (src/dage.cpp).
    - Resource: resource paths and the provider in memory (src/resource_provider.cpp).
    - Bundle, CanonText, BundleLaws: bundles, canonical JSON, signed text, merging of
      configurations (src/bundle.cpp).
    - Resolver, ResolverLaws, LockLaws, Keys: versions, signatures, keyring, lock
      files, resolution, rollback plans (src/bundle_resolver.cpp).
    - Zip, Utf8, Directory: the ZIP and directory providers and repositories
      (src/tool_resource_providers.cpp).
    - Disk, Store, StoreLaws: atomic documents, the bundle cache and the production
      profile over system calls (src/bundle_store.cpp).
    - Engine: registration, settings, creation of runs, Mermaid and DOT export
      (src/dage.cpp: Engine, Workflow).
    - Format: the normal form Engine::load establishes and Workflow::normalized_json.
    - CSpi, CSpiLaws: the adapters that turn C callbacks of a host into stores, sinks,
      leases, resources, repositories, keys and executors (src/c_api.cpp).
    - CConvert, CApi, CApiLaws: the translation of values, errors and structures, and
      the entry points on engines, workflows, bundles, patches and traces; CRun: the
      entry points on runs, as a session of host calls over the relation of Drive;
      COwners: who frees registered userdata; CHandles: scheduler tasks and completions
      as handles that are consumed (src/c_api.cpp, include/dage/dage.h).
    - Bindings, BindingRuns, BindingCalls, PyStore: the guards of the Python, Node,
      Java, C# and Rust bindings around native completions, scheduler tasks, runs and
      engines, the execution of a run by two calls of the C interface, and the Python
      state store (bindings/).
    - Cli: the command line tool (tools/dage_cli.cpp).
    - Scenario, Services, PatchCases, BundleCases, ProviderCases, StoreCases, CRunCases,
      CApiCases, BindingCases, CliCases: the theorems applied at concrete inputs, and
      cases in which the code falls short.

    ** What the theorems show

    - Runs: a write outside is preceded by a saved checkpoint that announces it;
      executors are only called as policy, mode and permissions allow; shadow runs
      do not write; replays execute nothing and take the recorded outcomes in order;
      steps terminate within the step limit; calls are bounded by steps and retries;
      events are numbered without gaps.
    - Driving: an execution is answered at most once, unless the scheduler refuses its
      first task; no wake-up is lost but by a refusal, an exception or a task left over
      from an earlier execution.
    - Recovery: a checkpoint reads back as the run, only nodes that may run again
      are restarted, and a run is taken over once.
    - Documents: validation rejects dangling references and unbounded cycles of edges
      reachable from the entry by edges; patches apply only to what they were written
      for; renaming is complete; the inverse of a patch restores the digest where it is
      accepted; accepted traces have no gaps and give the outcomes of their events.
    - Services: units of a resource are conserved, the pool runs what it accepts in
      order, a timer fires once and not before its computed due time, trace events are accounted for.
    - Bundles: canonical texts are unambiguous; the signed text determines the
      resources as long as names hold no line breaks; a resolved graph is closed,
      locked and signed as required; a lock reproduces its resolution.
    - Providers and store: a directory refines the provider in memory; reading an
      archive stays inside it and within the limits; a document is replaced
      atomically; the cache is addressed by content at every moment, so also after
      a crash; collection spares what is retained.
    - C interface: every output of a run reaches the host once, whatever buffers it
      offers; what a callback hands over is released once; a store of callbacks refines
      the store they implement; a graph handed out is locked and vetted by the host.
    - Bindings: no native completion is deleted or answered twice in any of the five
      bindings, unless a Rust spawner refused its task; registered objects are freed
      once but for refused Java ones; the output of a run is read whole; closing a Java
      run waits for its native call; where a Python scheduler raises its task is deleted
      twice.
    - Command line: the commands agree with validation; formatted workflows are stable.

    ** Bounds and fuel

    Recursion that is not structural has fuel, and each such function has a theorem
    that enough fuel gives an outcome: [eval_fuel] (the text's length) for
    expressions, the step limit for a run ([step_terminates]), the number of
    bundles a repository serves for a resolution ([resolve_terminates]), twice the
    length of a text for the canonical decoder, one turn per character for paths
    and writes.  [None] as an outcome ([partial]) is fuel that ran out or a read
    outside an object; [zip_reads_inside] and [resolve_terminates] exclude it.

    ** Not modelled

    - C memory below its handles and buffers: a pointer is null or points to what it
      should, a buffer is the list of its bytes, a foreign object is known by the
      releases called on it.  A callback of a host answers as a function of its
      arguments.
    - A folder of the bundle cache is opened, listed and read at one moment; a run and
      its children have each a copy of the recorded outcomes the code shares, of which
      each takes only those of its own invocation.
    - In bindings/: declarations of native types and entry points, conversions of
      strings and numbers, methods that forward one call, and the executors of the
      host languages, which appear as the choices they leave (started, refused, raised).
    - benchmarks/, fuzz/, examples/, tests/ and the scripts under tools/: harnesses
      around the library.
    - The Windows branches of src/tool_resource_providers.cpp and
      src/bundle_store.cpp.
    - The memory model: each critical section is atomic; data races outside mutexes
      are not looked for.  Exhaustion of memory is not modelled. *)

From Stdlib Require Export Ascii ZArith Lia.
From stdpp Require Export base gmap strings list pretty sorting.
#[export] Set Default Goal Selector "!".
#[export] Set Warnings "-register-all,-clear-no-such-hyp".

(** ** Scope, hint database and record update

    [r <| f := v |>] is [r] with its field [f] replaced, [upd f g r] applies [g]
    to the field.  A record opts in with an instance of [Settable], its
    eta-expansion; the setter of each projection is computed from it. *)
Declare Scope dage_scope.
Delimit Scope dage_scope with dage.
Open Scope dage_scope.

Create HintDb dage.
Create HintDb keeps.
Create Rewrite HintDb dage.

#[global] Arguments String.append !_ _ /.

Class Settable (R : Type) := eta_of : R -> R.
Class Setter {R T : Type} (proj : R -> T) := upd : (T -> T) -> R -> R.
Arguments upd {R T} proj {_} _ _.

Ltac derive_setter :=
  lazymatch goal with
  | |- @Setter ?R ?T ?proj =>
    let e := eval hnf in (@eta_of R _) in
    let p := eval pattern proj in e in
    lazymatch p with
    | ?k _ =>
      let b := eval cbv beta in (fun (f : T -> T) (r : R) => k (fun x => f (proj x)) r) in
      exact b
    end
  end.
#[global] Hint Extern 0 (Setter _) => derive_setter : typeclass_instances.

Notation "r <| f := v |>" := (upd f (fun _ => v) r)
  (at level 1, f at level 0, v at level 200, left associativity) : dage_scope.

(** ** Outcomes

    [res E A] is the outcome of code that can fail.  [Result A] is
    include/dage/result.hpp's [dage::Result<A>], whose failures carry an [Error];
    [exc A] is the outcome of a C++ function that may throw. *)
Inductive res (E A : Type) : Type :=
| Ok (a : A)
| Err (e : E).
Arguments Ok {E A} a.
Arguments Err {E A} e.

#[export] Instance res_ret {E} : MRet (res E) := fun _ a => Ok a.
#[export] Instance res_bind {E} : MBind (res E) := fun _ _ f m =>
  match m with Ok a => f a | Err e => Err e end.
#[export] Instance res_fmap {E} : FMap (res E) := fun _ _ f m =>
  match m with Ok a => Ok (f a) | Err e => Err e end.

Definition is_ok {E A} (m : res E A) : bool := match m with Ok _ => true | Err _ => false end.

(** [or_else m d] is [m]'s value, or [d] where [m] failed. *)
Definition or_else {E A} (m : res E A) (d : A) : A := match m with Ok a => a | Err _ => d end.

Record Error := mkError {
  err_category : string;
  err_code : string;
  err_message : string;
  err_retryable : bool
}.
#[export] Instance eta_Error : Settable Error :=
  fun r => mkError (err_category r) (err_code r) (err_message r) (err_retryable r).
#[export] Instance Error_eq_dec : EqDecision Error.
Proof. solve_decision. Defined.

Abbreviation Result A := (res Error A).

(** The exceptions the sources throw or catch by type; [what] is [e.what()]. *)
Inductive exn :=
| LogicError (what : string)
| RuntimeError (what : string)
| InvalidArgument (what : string)
| OutOfRange (what : string)
| PatchValidationError (code path message : string).
Abbreviation exc A := (res exn A).

Definition what (e : exn) : string :=
  match e with
  | LogicError w | RuntimeError w | InvalidArgument w | OutOfRange w => w
  | PatchValidationError code _ message => String.append code (String.append ": " message)
  end.

Lemma bind_Ok {E A B} (m : res E A) (f : A -> res E B) b :
  m ≫= f = Ok b <-> exists a, m = Ok a /\ f a = Ok b.
Proof. split; [destruct m; [by eauto|done]|by intros (a & -> & Hf)]. Qed.

Lemma bind_Err {E A B} (m : res E A) (f : A -> res E B) e :
  m ≫= f = Err e <-> m = Err e \/ exists a, m = Ok a /\ f a = Err e.
Proof.
  split; [destruct m; simpl; [by eauto|intros [= ->]; by left]|].
  by intros [->|(a & -> & Hf)].
Qed.

Lemma fmap_Ok {E A B} (m : res E A) (f : A -> B) b :
  f <$> m = Ok b <-> exists a, m = Ok a /\ b = f a.
Proof.
  split; [destruct m; simpl; [|done]|intros (a & -> & ->); done].
  intros [=]; eauto.
Qed.

(** [simplify_res] takes hypotheses about outcomes apart. *)
Ltac simplify_res :=
  repeat match goal with
  | H : Ok _ = Ok _ |- _ => injection H as H; subst
  | H : Err _ = Err _ |- _ => injection H as H; subst
  | H : Ok _ = Err _ |- _ => discriminate H
  | H : Err _ = Ok _ |- _ => discriminate H
  | H : mret _ = _ |- _ => unfold mret, res_ret in H
  | H : _ ≫= _ = Ok _ |- _ =>
    let a := fresh "a" in apply bind_Ok in H as (a & ? & ?)
  | H : (match ?x with (_, _) => _ end) = _ |- _ => is_var x; destruct x
  | H : _ <$> _ = Ok _ |- _ =>
    let a := fresh "a" in apply fmap_Ok in H as (a & ? & ?); subst
  end.

(** Code the model may have no outcome for: [None] is a recursion cut off before it
    returned, or a read outside an object. *)
Definition partial A : Type := option (exc A).
Definition and_then {A B} (m : partial A) (f : A -> partial B) : partial B :=
  match m with None => None | Some (Err e) => Some (Err e) | Some (Ok a) => f a end.
Definition throws {A} (what : string) : partial A := Some (Err (RuntimeError what)).

Lemma and_then_Ok {A B} (m : partial A) (f : A -> partial B) b :
  and_then m f = Some (Ok b) -> exists a, m = Some (Ok a) /\ f a = Some (Ok b).
Proof. destruct m as [[a|e]|]; cbn; [eauto|done..]. Qed.
Lemma and_then_Some {A B} (m : partial A) (f : A -> partial B) :
  is_Some m -> (forall a, m = Some (Ok a) -> is_Some (f a)) -> is_Some (and_then m f).
Proof. intros [[a|e] ->] Hf; cbn; eauto. Qed.

(** ** Effectful code

    [act E S A] is code over a mutable state [S] that can leave early with an [E];
    the state reached is kept either way, as it is in the sources. *)
Definition act (E S A : Type) : Type := S -> res E A * S.

#[export] Instance act_ret {E S} : MRet (act E S) := fun _ a s => (Ok a, s).
#[export] Instance act_bind {E S} : MBind (act E S) := fun _ _ f m s =>
  match m s with (Ok a, s') => f a s' | (Err e, s') => (Err e, s') end.
#[export] Instance act_fmap {E S} : FMap (act E S) := fun _ _ f m s =>
  match m s with (Ok a, s') => (Ok (f a), s') | (Err e, s') => (Err e, s') end.

Definition lift {E S A} (m : res E A) : act E S A := fun s => (m, s).
Definition leave {E S A} (e : E) : act E S A := fun s => (Err e, s).
Definition get_state {E S} : act E S S := fun s => (Ok s, s).
Definition gets {E S A} (f : S -> A) : act E S A := fun s => (Ok (f s), s).
Definition modify {E S} (f : S -> S) : act E S unit := fun s => (Ok tt, f s).
Definition when {E S} (b : bool) (m : act E S unit) : act E S unit := if b then m else mret tt.

Fixpoint for_each {E S A} (f : A -> act E S unit) (l : list A) : act E S unit :=
  match l with
  | [] => mret tt
  | x :: l' => f x ;; for_each f l'
  end.

(** [keeps_on C R m]: where [m] returns, or leaves with an exit [C] covers, [R]
    relates the state before to the state after; [keeps] covers every exit.  A
    preorder is kept by a sequence whose parts keep it. *)
Definition keeps_on {E S A} (C : E -> Prop) (R : S -> S -> Prop) (m : act E S A) : Prop :=
  forall s, match m s with (Ok _, s') => R s s' | (Err e, s') => C e -> R s s' end.
Abbreviation keeps := (keeps_on (fun _ => True)).

Section Keeps.
Context {E S : Type} (C : E -> Prop) (R : S -> S -> Prop) `{!PreOrder R}.

Lemma keeps_ret {A} (a : A) : keeps_on C R (mret a).
Proof. intros s. simpl. reflexivity. Qed.
Lemma keeps_lift {A} (m : res E A) : keeps_on C R (lift m).
Proof. intros s. simpl. destruct m; intros; reflexivity. Qed.
Lemma keeps_leave {A} (e : E) : keeps_on (A:=A) C R (leave e).
Proof. intros s. simpl. reflexivity. Qed.
Lemma keeps_get : keeps_on C R get_state.
Proof. intros s. simpl. reflexivity. Qed.
Lemma keeps_gets {A} (f : S -> A) : keeps_on C R (gets f).
Proof. intros s. simpl. reflexivity. Qed.
Lemma keeps_modify (f : S -> S) : (forall s, R s (f s)) -> keeps_on C R (modify f).
Proof. intros H s. apply H. Qed.
Lemma keeps_bind {A B} (m : act E S A) (f : A -> act E S B) :
  keeps_on C R m -> (forall a, keeps_on C R (f a)) -> keeps_on C R (m ≫= f).
Proof.
  intros Hm Hf s. specialize (Hm s). unfold mbind, act_bind.
  destruct (m s) as [[a|e] s'] eqn:E1; simpl in *; [|done]. specialize (Hf a s').
  destruct (f a s') as [[b|e] s'']; [by etrans|]. intros He. etrans; [done|]. by apply Hf.
Qed.
Lemma keeps_fmap {A B} (g : A -> B) (m : act E S A) : keeps_on C R m -> keeps_on C R (g <$> m).
Proof. intros Hm s. specialize (Hm s). unfold fmap, act_fmap. destruct (m s) as [[a|e] s']; done. Qed.
Lemma keeps_when b (m : act E S unit) : keeps_on C R m -> keeps_on C R (when b m).
Proof. intros H. destruct b; [done|]. apply keeps_ret. Qed.
Lemma keeps_for_each {A} (f : A -> act E S unit) l :
  (forall x, keeps_on C R (f x)) -> keeps_on C R (for_each f l).
Proof.
  intros H. induction l as [|x l IH]; simpl; [apply keeps_ret|]. apply keeps_bind; [apply H|done].
Qed.
End Keeps.

Lemma keeps_run {E S A} (R : S -> S -> Prop) (m : act E S A) s : keeps R m -> R s (m s).2.
Proof. intros H. specialize (H s). destruct (m s) as [[a|e] s']; [done|]. by apply H. Qed.

Lemma keeps_weaken {E S A} (C : E -> Prop) (R R' : S -> S -> Prop) (m : act E S A) :
  (forall s s', R s s' -> R' s s') -> keeps_on C R m -> keeps_on C R' m.
Proof. intros HR Hm s. specialize (Hm s). destruct (m s) as [[a|e] s']; auto. Qed.

(** Where the continuation relies on what its predecessor established. *)
Lemma keeps_bind_post {E S A B} (C : E -> Prop) (R : S -> S -> Prop) `{!PreOrder R} (Q : A -> S -> Prop)
    (m : act E S A) (f : A -> act E S B) :
  keeps_on C R m -> (forall s a s', m s = (Ok a, s') -> Q a s') ->
  (forall a, keeps_on C (fun s s' => Q a s -> R s s') (f a)) -> keeps_on C R (m ≫= f).
Proof.
  intros Hm HQ Hf s. specialize (Hm s). unfold mbind, act_bind.
  destruct (m s) as [[a|e] s'] eqn:E1; [|done]. specialize (Hf a s'). specialize (HQ s a s' E1).
  destruct (f a s') as [[b|e] s'']; [etrans; [done|by apply Hf]|]. intros He. etrans; [done|by apply Hf].
Qed.

Lemma keeps_bind_from {E S A B} (C : E -> Prop) (R : S -> S -> Prop) (m : act E S A) (f : A -> act E S B) :
  keeps_on C R m ->
  (forall s0 a s1, m s0 = (Ok a, s1) -> R s0 s1 ->
     match f a s1 with (Ok _, s') => R s0 s' | (Err e, s') => C e -> R s0 s' end) ->
  keeps_on C R (m ≫= f).
Proof.
  intros Hm Hf s. specialize (Hm s). specialize (Hf s). unfold mbind, act_bind.
  destruct (m s) as [[a|e] s']; [|done]. by apply Hf.
Qed.

(** An action read from a later state, for a relation that reaches back to an earlier one. *)
Lemma keeps_from {E S A} (C : E -> Prop) (R R' : S -> S -> Prop) (m : act E S A) s0 s1 :
  keeps_on C R m -> (forall s', R s1 s' -> R' s0 s') ->
  match m s1 with (Ok _, s') => R' s0 s' | (Err e, s') => C e -> R' s0 s' end.
Proof. intros Hm HR. specialize (Hm s1). destruct (m s1) as [[a|e] s']; auto. Qed.

Lemma bind_inv {E S A B} (m : act E S A) (f : A -> act E S B) s b s' :
  (m ≫= f) s = (Ok b, s') -> exists a s1, m s = (Ok a, s1) /\ f a s1 = (Ok b, s').
Proof. unfold mbind, act_bind. destruct (m s) as [[a|e] s1]; [eauto|done]. Qed.

(** A relation that only matters from states where [P] holds, for a [P] it preserves. *)
Definition given {S} (P : S -> Prop) (R : S -> S -> Prop) (s s' : S) : Prop := P s -> R s s'.
Lemma given_preorder {S} (P : S -> Prop) (R : S -> S -> Prop) :
  PreOrder R -> (forall s s', P s -> R s s' -> P s') -> PreOrder (given P R).
Proof.
  intros [Hr Ht] HP. split; [intros s _; apply Hr|].
  intros x y z Hxy Hyz Hx. specialize (Hxy Hx). etrans; [done|]. apply Hyz. by eapply HP.
Qed.

(** [solve_keeps] follows the structure of the code; the hints of [keeps] close the
    operations already treated, and what remains is each assignment's own goal. *)
Ltac keeps_step :=
  lazymatch goal with
  | |- forall _, _ => intro
  | |- PreOrder _ => typeclasses eauto
  | |- keeps_on _ _ (mret _) => apply keeps_ret
  | |- keeps_on _ _ (_ ≫= _) => apply keeps_bind
  | |- keeps_on _ _ (_ <$> _) => apply keeps_fmap
  | |- keeps_on _ _ (lift _) => apply keeps_lift
  | |- keeps_on _ _ (leave _) => apply keeps_leave
  | |- keeps_on _ _ get_state => apply keeps_get
  | |- keeps_on _ _ (gets _) => apply keeps_gets
  | |- keeps_on _ _ (when _ _) => apply keeps_when
  | |- keeps_on _ _ (for_each _ _) => apply keeps_for_each
  | |- keeps_on _ _ (if ?b then _ else _) => destruct b
  | |- keeps_on _ _ (match ?x with _ => _ end) => destruct x
  | |- keeps_on _ _ (modify _) => fail
  | |- keeps_on _ _ _ => solve [auto with keeps]
  end.
Ltac solve_keeps := repeat keeps_step.

(** ** Machine integers

    [std::uint64_t] and [std::size_t] are integers of [Z] taken modulo [2^64],
    [std::uint32_t] modulo [2^32]; [i32] and [i64] read a bit pattern as two's
    complement. *)
Definition u64_max : Z := 18446744073709551615.
Definition u32_max : Z := 4294967295.
Definition u64 (z : Z) : Z := z mod 2 ^ 64.
Definition u32 (z : Z) : Z := z mod 2 ^ 32.
Definition i64 (z : Z) : Z := (z + 2 ^ 63) mod 2 ^ 64 - 2 ^ 63.
Definition i32 (z : Z) : Z := (z + 2 ^ 31) mod 2 ^ 32 - 2 ^ 31.
Definition is_u64 (z : Z) : Prop := (0 <= z < 2 ^ 64)%Z.

Lemma u64_small z : is_u64 z -> u64 z = z.
Proof. intros H. unfold u64. apply Z.mod_small, H. Qed.

Lemma u64_range z : is_u64 (u64 z).
Proof. apply Z.mod_pos_bound. lia. Qed.

Lemma u64_succ_ne z : u64 (z + 1) <> z.
Proof.
  intros E. pose proof (u64_range (z + 1)) as Hr. rewrite E in Hr. unfold u64, is_u64 in *.
  destruct (decide (z + 1 = 2 ^ 64)%Z) as [Hz|]; [|rewrite Z.mod_small in E; lia].
  rewrite Hz, Z.mod_same in E; lia.
Qed.
Lemma u64_succ_inj x y : is_u64 x -> is_u64 y -> u64 (x + 1) = u64 (y + 1) -> x = y.
Proof.
  unfold is_u64, u64. intros Hx Hy H.
  destruct (decide (x = 2 ^ 64 - 1)%Z) as [->|]; destruct (decide (y = 2 ^ 64 - 1)%Z) as [->|];
    try done; repeat rewrite ?Z.mod_small, ?Z.mod_same in H by lia;
    rewrite ?(Z.mod_small (_ + 1)) in H by lia; lia.
Qed.
#[export] Hint Resolve u64_range : dage.

(** ** Strings

    C++ strings are [string]; a byte is an [ascii], compared as an unsigned
    number, which is what [std::string]'s comparison does. *)
Definition str_len (s : string) : Z := Z.of_nat (String.length s).
Definition str_empty (s : string) : bool := match s with EmptyString => true | _ => false end.

(** [s.find(pat, pos)]; [None] is [npos]. *)
Definition str_find (pat : string) (pos : nat) (s : string) : option nat := String.index pos pat s.
Definition str_contains (pat s : string) : bool :=
  match str_find pat 0 s with Some _ => true | None => false end.

(** [s.substr(pos)] and [s.substr(pos, len)] for [pos <= s.size()]. *)
Definition str_from (pos : nat) (s : string) : string :=
  String.substring pos (String.length s - pos) s.
Definition str_upto (len : nat) (s : string) : string := String.substring 0 len s.
Definition str_last (s : string) : option ascii := String.get (String.length s - 1) s.
Definition str_prefix (pre s : string) : bool := String.prefix pre s.
Definition str_suffix (suf s : string) : bool :=
  Nat.leb (String.length suf) (String.length s)
  && String.eqb (str_from (String.length s - String.length suf) s) suf.

Fixpoint str_forallb (p : ascii -> bool) (s : string) : bool :=
  match s with
  | EmptyString => true
  | String c s' => p c && str_forallb p s'
  end.

Definition code (c : ascii) : Z := Z.of_N (Ascii.N_of_ascii c).
Definition chr (z : Z) : ascii := Ascii.ascii_of_N (Z.to_N z).
Definition in_range (lo hi : ascii) (c : ascii) : bool :=
  (code lo <=? code c)%Z && (code c <=? code hi)%Z.

(** [std::to_string]. *)
Definition to_string (z : Z) : string := pretty z.

Definition dquote : ascii := "034"%char.
Definition nl : string := String "010"%char EmptyString.

Lemma str_eqb_refl s : String.eqb s s = true.
Proof. apply String.eqb_refl. Qed.
#[export] Hint Rewrite str_eqb_refl : dage.

Lemma str_compare_refl s : String.compare s s = Eq.
Proof.
  induction s as [|c s IH]; simpl; [done|].
  unfold Ascii.compare. by rewrite N.compare_refl.
Qed.

Lemma str_compare_trans (a b c : string) :
  String.compare a b = Lt -> String.compare b c = Lt -> String.compare a c = Lt.
Proof.
  revert b c. induction a as [|x a IH]; intros [|y b] [|z c]; simpl; try done. unfold Ascii.compare.
  destruct (N.compare_spec (N_of_ascii x) (N_of_ascii y)); destruct (N.compare_spec (N_of_ascii y) (N_of_ascii z));
    try done; intros H1 H2; destruct (N.compare_spec (N_of_ascii x) (N_of_ascii z)); try done; try lia.
  by eapply IH.
Qed.

Lemma app_nil_str s : (s +:+ "")%string = s.
Proof. induction s; simpl; congruence. Qed.
#[export] Hint Rewrite app_nil_str : dage.

Lemma str_app_assoc (a b c : string) : ((a +:+ b) +:+ c = a +:+ (b +:+ c))%string.
Proof. induction a; simpl; congruence. Qed.

Lemma str_length_app (a b : string) : String.length (a +:+ b) = String.length a + String.length b.
Proof. induction a; simpl; congruence. Qed.

Lemma str_prefix_app a b : String.prefix a (a +:+ b) = true.
Proof.
  induction a; simpl; [by destruct b|]. destruct (Ascii.ascii_dec a a); [done|congruence].
Qed.

Lemma substring_0_app a b : String.substring 0 (String.length a) (a +:+ b) = a.
Proof. induction a; simpl; [by destruct b|congruence]. Qed.

Lemma substring_all s : String.substring 0 (String.length s) s = s.
Proof. induction s; simpl; congruence. Qed.

Lemma substring_app_r a b n : String.substring (String.length a) n (a +:+ b) = String.substring 0 n b.
Proof. induction a; simpl; done. Qed.

Lemma str_from_app a b : str_from (String.length a) (a +:+ b) = b.
Proof.
  unfold str_from. rewrite substring_app_r, str_length_app.
  replace (_ + _ - _) with (String.length b) by lia. apply substring_all.
Qed.

Lemma length_substring n m s :
  String.length (String.substring n m s) = Nat.min m (String.length s - n).
Proof.
  revert n m. induction s as [|c s IH]; intros [|n] [|m]; simpl; rewrite ?IH; try lia. done.
Qed.

Lemma length_str_upto n s : String.length (str_upto n s) = Nat.min n (String.length s).
Proof. unfold str_upto. rewrite length_substring. lia. Qed.

Lemma length_str_from n s : String.length (str_from n s) = String.length s - n.
Proof. unfold str_from. rewrite length_substring. lia. Qed.

(** A match lies inside the text, not before the position searched from. *)
Lemma str_find_bound pat pos s p :
  str_find pat pos s = Some p -> pat <> EmptyString -> p + String.length pat <= String.length s.
Proof.
  intros H Hne. apply String.index_correct1 in H.
  apply (f_equal String.length) in H. rewrite length_substring in H.
  assert (0 < String.length pat) by (destruct pat; simpl; [done|lia]). lia.
Qed.

Lemma str_find_prefix pat s : String.prefix pat s = true -> str_find pat 0 s = Some 0.
Proof.
  unfold str_find. destruct s as [|c s]; [by destruct pat|]. intros H. cbn [String.index]. by rewrite H.
Qed.

Lemma str_find_ge pat pos s p : str_find pat pos s = Some p -> pos <= p.
Proof.
  unfold str_find. revert pat pos p. induction s as [|c s IH]; intros pat [|pos] p; simpl; try lia; [done|].
  destruct (String.index pos pat s) eqn:E; intros [=]; subst. apply IH in E. lia.
Qed.

(** ** Ordered maps

    A [std::map] with string keys whose iteration order the code observes is an
    association list sorted by key.  Lookup, insertion and erasure need no
    sortedness for their laws. *)
Section OrderedMap.
Context {A : Type}.
Implicit Types (k : string) (m : list (string * A)).

Fixpoint om_get k m : option A :=
  match m with
  | [] => None
  | (k', v) :: m' => if String.eqb k k' then Some v else om_get k m'
  end.

Fixpoint om_set k (v : A) m : list (string * A) :=
  match m with
  | [] => [(k, v)]
  | (k', v') :: m' =>
    match String.compare k k' with
    | Eq => (k, v) :: m'
    | Lt => (k, v) :: (k', v') :: m'
    | Gt => (k', v') :: om_set k v m'
    end
  end.

Definition om_del k m : list (string * A) :=
  List.filter (fun p => negb (String.eqb k p.1)) m.

Definition om_mem k m : bool := match om_get k m with Some _ => true | None => false end.

Definition om_sorted m : Prop := StronglySorted (fun a b => String.compare a b = Lt) m.*1.

Lemma om_get_set_eq k v m : om_get k (om_set k v m) = Some v.
Proof.
  induction m as [|[k' v'] m IH]; simpl; [by rewrite str_eqb_refl|].
  destruct (String.compare k k') eqn:E; simpl; rewrite ?str_eqb_refl; try done.
  destruct (String.eqb_spec k k') as [->|]; [|done]. by rewrite str_compare_refl in E.
Qed.

Lemma om_get_set_ne k k' v m : k <> k' -> om_get k' (om_set k v m) = om_get k' m.
Proof.
  intros Hne. induction m as [|[k2 v2] m IH]; simpl.
  - destruct (String.eqb_spec k' k); congruence.
  - destruct (String.compare k k2) eqn:E; simpl.
    + apply String.compare_eq_iff in E as ->. destruct (String.eqb_spec k' k2); congruence.
    + destruct (String.eqb_spec k' k); congruence.
    + by rewrite IH.
Qed.

Lemma om_get_set k k' v m :
  om_get k' (om_set k v m) = if decide (k = k') then Some v else om_get k' m.
Proof. case_decide; subst; [apply om_get_set_eq|by apply om_get_set_ne]. Qed.

Lemma om_get_del_eq k m : om_get k (om_del k m) = None.
Proof.
  induction m as [|[k' v'] m IH]; simpl; [done|].
  destruct (String.eqb_spec k k') as [->|Hne]; simpl; [done|].
  destruct (String.eqb_spec k k'); [congruence|done].
Qed.

Lemma om_get_del_ne k k' m : k <> k' -> om_get k' (om_del k m) = om_get k' m.
Proof.
  intros Hne. induction m as [|[k2 v2] m IH]; simpl; [done|].
  destruct (String.eqb_spec k k2) as [->|]; simpl; rewrite IH; [|done].
  destruct (String.eqb_spec k' k2); congruence.
Qed.

Lemma om_set_keys k v m x : x ∈ (om_set k v m).*1 <-> x = k \/ x ∈ m.*1.
Proof.
  induction m as [|[k' v'] m IH]; simpl; [set_solver|].
  destruct (String.compare k k') eqn:E; simpl.
  - apply String.compare_eq_iff in E as ->. set_solver.
  - set_solver.
  - rewrite !elem_of_cons, IH. set_solver.
Qed.

(** Inserting in increasing key order appends. *)
Lemma om_set_snoc k v m :
  Forall (fun p => String.compare p.1 k = Lt) m -> om_set k v m = m ++ [(k, v)].
Proof.
  induction 1 as [|[k' v'] m Hlt _ IH]; simpl; [done|]. simpl in Hlt.
  rewrite String.compare_antisym, Hlt. simpl. by rewrite IH.
Qed.

Lemma om_mem_keys k m : om_mem k m = true <-> k ∈ m.*1.
Proof.
  unfold om_mem. induction m as [|[k' v'] m IH]; simpl; [set_solver|].
  rewrite elem_of_cons. destruct (String.eqb_spec k k'); [naive_solver|].
  rewrite IH. naive_solver.
Qed.

(** A sorted map is determined by its lookups, and rebuilt by inserting its entries. *)
Lemma om_get_None k m : k ∉ m.*1 -> om_get k m = None.
Proof.
  induction m as [|[k' v'] m IH]; simpl; [done|]. intros Hk.
  destruct (String.eqb_spec k k') as [->|]; [set_solver|]. apply IH. set_solver.
Qed.
Lemma om_set_sorted k v m : om_sorted m -> om_sorted (om_set k v m).
Proof.
  unfold om_sorted. induction m as [|[k' v'] m IH]; simpl; intros Hs; [repeat constructor|].
  apply StronglySorted_inv in Hs as [Hs Hlt]. destruct (String.compare k k') eqn:E; simpl.
  - apply String.compare_eq_iff in E as ->. by constructor.
  - constructor; [by constructor|]. constructor; [done|]. eapply Forall_impl; [done|]. simpl. intros x Hx.
    by eapply str_compare_trans.
  - constructor; [by apply IH|]. apply Forall_forall. intros x Hx. apply om_set_keys in Hx as [->|Hx].
    + by rewrite String.compare_antisym, E.
    + by eapply Forall_forall in Hlt.
Qed.
Lemma om_del_sorted k m : om_sorted m -> om_sorted (om_del k m).
Proof.
  unfold om_sorted, om_del. induction m as [|[k' v] m IH]; simpl; intros Hs; [constructor|].
  apply StronglySorted_inv in Hs as [Hs Hf]. destruct (String.eqb _ _); simpl; [by apply IH|]. constructor; [by apply IH|].
  apply Forall_forall. intros x ([y w] & -> & Hx)%list_elem_of_fmap. apply list_elem_of_In, filter_In in Hx as [Hx _].
  apply (proj1 (Forall_forall _ _) Hf). apply list_elem_of_In in Hx. by apply (list_elem_of_fmap_2 fst m (y, w)).
Qed.
Lemma om_ext m m' : om_sorted m -> om_sorted m' -> (forall k, om_get k m = om_get k m') -> m = m'.
Proof.
  unfold om_sorted. revert m'. induction m as [|[k v] m IH]; intros [|[k' v'] m'] Hs Hs' Hg; simpl in *.
  - done.
  - specialize (Hg k'). by rewrite str_eqb_refl in Hg.
  - specialize (Hg k). by rewrite str_eqb_refl in Hg.
  - apply StronglySorted_inv in Hs as [Hs Hlt]. apply StronglySorted_inv in Hs' as [Hs' Hlt'].
    rewrite Forall_forall in Hlt, Hlt'.
    assert (k = k') as <-.
    { pose proof (Hg k) as H1. pose proof (Hg k') as H2. rewrite str_eqb_refl in H1, H2.
      destruct (String.eqb_spec k k') as [|Hne]; [done|]. destruct (String.eqb_spec k' k) as [|_]; [done|].
      destruct (decide (k ∈ m'.*1)) as [Hin|]; [|by rewrite (om_get_None k m') in H1].
      destruct (decide (k' ∈ m.*1)) as [Hin'|]; [|by rewrite (om_get_None k' m) in H2].
      apply Hlt' in Hin. apply Hlt in Hin'. rewrite String.compare_antisym, Hin in Hin'. done. }
    pose proof (Hg k) as H1. rewrite str_eqb_refl in H1. injection H1 as <-. f_equal. apply IH; [done..|].
    intros x. specialize (Hg x). destruct (String.eqb_spec x k) as [E|]; [|done]. subst x.
    rewrite !om_get_None; [done| |]; intros Hin; [apply Hlt' in Hin|apply Hlt in Hin];
      by rewrite str_compare_refl in Hin.
Qed.
Lemma om_sets_get k l m :
  NoDup l.*1 -> om_get k (foldl (fun m p => om_set p.1 p.2 m) m l) =
    match om_get k l with Some v => Some v | None => om_get k m end.
Proof.
  revert m. induction l as [|[k' v'] l IH]; intros m Hd; simpl; [done|].
  apply NoDup_cons in Hd as [Hk Hd]. rewrite IH by done. rewrite om_get_set.
  destruct (String.eqb_spec k k') as [->|Hne]; [|by rewrite decide_False].
  rewrite om_get_None by done. by rewrite decide_True.
Qed.
Lemma om_sets_sorted l m : om_sorted m -> om_sorted (foldl (fun m p => om_set p.1 p.2 m) m l).
Proof. revert m. induction l as [|[k v] l IH]; intros m Hm; simpl; [done|]. by apply IH, om_set_sorted. Qed.
Lemma om_sorted_NoDup m : om_sorted m -> NoDup m.*1.
Proof.
  unfold om_sorted. induction 1 as [|k l Hs IH Hlt]; constructor; [|done]. rewrite Forall_forall in Hlt.
  intros Hin. apply Hlt in Hin. by rewrite str_compare_refl in Hin.
Qed.
Lemma om_sets_over m m' :
  om_sorted m -> om_sorted m' -> (forall k, k ∈ m'.*1 -> k ∈ m.*1) ->
  foldl (fun m p => om_set p.1 p.2 m) m' m = m.
Proof.
  intros Hm Hm' Hk. apply om_ext; [by apply om_sets_sorted|done|]. intros k.
  rewrite om_sets_get by by apply om_sorted_NoDup.
  destruct (om_get k m) eqn:E; [done|]. apply om_get_None. intros Hin%Hk%om_mem_keys.
  unfold om_mem in Hin. by rewrite E in Hin.
Qed.
Lemma om_get_app k m m' : om_get k (m ++ m') = match om_get k m with Some v => Some v | None => om_get k m' end.
Proof. induction m as [|[k' v] m IH]; simpl; [done|]. by destruct (String.eqb k k'). Qed.
Lemma om_get_elem k v m : om_sorted m -> (k, v) ∈ m -> om_get k m = Some v.
Proof.
  intros Hs%om_sorted_NoDup Hin. induction m as [|[k' v'] m IH]; [set_solver|]. rewrite fmap_cons in Hs.
  apply NoDup_cons in Hs as [Hk Hs]. cbn [om_get fst] in *. apply elem_of_cons in Hin as [[= -> ->]|Hin]; [by rewrite str_eqb_refl|].
  destruct (String.eqb_spec k k') as [->|]; [|by apply IH]. destruct Hk. by apply (list_elem_of_fmap_2 fst m (k', v)).
Qed.
Lemma om_sets_self m : om_sorted m -> foldl (fun m p => om_set p.1 p.2 m) [] m = m.
Proof. intros Hm. apply om_sets_over; [done|constructor|set_solver]. Qed.

End OrderedMap.
#[export] Hint Rewrite @om_get_set_eq @om_get_del_eq : dage.
