(* ===== verification/Json.v ===== *)
(** * JSON values

    The sources keep documents, run state and node values as [Json::Value] of the
    jsoncpp library.  This file has jsoncpp's documented data model (the value
    kinds, member and element access, what throws on a value of the wrong kind)
    and makes what the library decides by itself a parameter, the class
    [JsonLib]: parsing, printing, conversions between kinds and the texts of its
    exceptions.  [JsonLaws] names the documented behaviour theorems rely on;
    [JsonRef] is an instance that satisfies it.  [parse_json], [write_json] and
    [json_nesting_depth] are src/dage.cpp's. *)

From Stdlib Require Import SpecFloat.
From S2P Require Import Prelude.

(** A C++ [double] is an IEEE binary64 number. *)
Abbreviation double := spec_float.
Definition dzero : double := S754_zero false.
Definition d_eqb (a b : double) : bool := SFeqb a b.
Definition d_ltb (a b : double) : bool := SFltb a b.
Definition d_leb (a b : double) : bool := SFleb a b.
Definition d_add (a b : double) : double := SFadd 53 1024 a b.
Definition d_sub (a b : double) : double := SFsub 53 1024 a b.
Definition d_mul (a b : double) : double := SFmul 53 1024 a b.
Definition d_of_Z (z : Z) : double := binary_normalize 53 1024 z 0 false.
Definition d_finite (a : double) : bool :=
  match a with S754_zero _ | S754_finite _ _ _ => true | _ => false end.

(** ** Values *)
Inductive json :=
| JNull
| JInt (z : Z)
| JUInt (z : Z)
| JReal (d : double)
| JString (s : string)
| JBool (b : bool)
| JArray (l : list json)
| JObject (m : list (string * json)).

Section JsonInd.
Context (P : json -> Prop).
Context (Hnull : P JNull) (Hint : forall z, P (JInt z)) (Huint : forall z, P (JUInt z)).
Context (Hreal : forall d, P (JReal d)) (Hstr : forall s, P (JString s)).
Context (Hbool : forall b, P (JBool b)).
Context (Harr : forall l, Forall P l -> P (JArray l)).
Context (Hobj : forall m, Forall (fun p => P p.2) m -> P (JObject m)).

Fixpoint json_rect' (v : json) : P v :=
  match v with
  | JNull => Hnull
  | JInt z => Hint z
  | JUInt z => Huint z
  | JReal d => Hreal d
  | JString s => Hstr s
  | JBool b => Hbool b
  | JArray l =>
    Harr l ((fix go l : Forall P l :=
               match l with
               | [] => Forall_nil_2 _
               | x :: l' => Forall_cons_2 _ _ _ (json_rect' x) (go l')
               end) l)
  | JObject m =>
    Hobj m ((fix go m : Forall (fun p => P p.2) m :=
               match m with
               | [] => Forall_nil_2 _
               | p :: m' => Forall_cons_2 _ _ _ (json_rect' p.2) (go m')
               end) m)
  end.
End JsonInd.

(** [operator==]: the kinds agree and the payloads are equal, doubles as numbers. *)
Fixpoint json_eqb (a b : json) : bool :=
  match a, b with
  | JNull, JNull => true
  | JInt x, JInt y | JUInt x, JUInt y => Z.eqb x y
  | JReal x, JReal y => d_eqb x y
  | JString x, JString y => String.eqb x y
  | JBool x, JBool y => Bool.eqb x y
  | JArray l, JArray l' =>
    (fix go l l' := match l, l' with
                    | [], [] => true
                    | x :: l, y :: l' => json_eqb x y && go l l'
                    | _, _ => false
                    end) l l'
  | JObject m, JObject m' =>
    (fix go m m' := match m, m' with
                    | [], [] => true
                    | (k, x) :: m, (k', y) :: m' => String.eqb k k' && json_eqb x y && go m m'
                    | _, _ => false
                    end) m m'
  | _, _ => false
  end.

Definition is_null (v : json) : bool := match v with JNull => true | _ => false end.
Definition is_bool (v : json) : bool := match v with JBool _ => true | _ => false end.
Definition is_string (v : json) : bool := match v with JString _ => true | _ => false end.
Definition is_array (v : json) : bool := match v with JArray _ => true | _ => false end.
Definition is_object (v : json) : bool := match v with JObject _ => true | _ => false end.
Definition is_numeric (v : json) : bool :=
  match v with JInt _ | JUInt _ | JReal _ => true | _ => false end.

Definition jsize (v : json) : Z :=
  match v with
  | JArray l => Z.of_nat (length l)
  | JObject m => Z.of_nat (length m)
  | _ => 0
  end.
Definition jempty (v : json) : bool :=
  match v with
  | JNull => true
  | JArray l => match l with [] => true | _ => false end
  | JObject m => match m with [] => true | _ => false end
  | _ => false
  end.

(** The elements a range-based [for] visits. *)
Definition jitems (v : json) : list json :=
  match v with JArray l => l | JObject m => m.*2 | _ => [] end.

(** ** The library *)
Class JsonLib := {
  jl_parse : string -> res string json;          (** [CharReader::parse]; errors on failure *)
  jl_parse_limited : Z -> string -> res string json;  (** the same with [stackLimit] set *)
  jl_write : bool -> json -> string;             (** [writeString]; indented when [true] *)
  jl_write_ascii : json -> string;               (** compact, [emitUTF8] off *)
  jl_what : string -> string;                    (** text of the [LogicError] of an operation *)
  jl_as_string : json -> exc string;
  jl_as_bool : json -> exc bool;
  jl_as_int : json -> exc Z;
  jl_as_uint : json -> exc Z;
  jl_as_int64 : json -> exc Z;
  jl_as_uint64 : json -> exc Z;
  jl_as_double : json -> exc double;
  jl_is_uint : json -> bool;
  jl_is_uint64 : json -> bool;
  jl_is_int64 : json -> bool
}.

Section Access.
Context {J : JsonLib}.

Definition jl_throw {A} (op : string) : exc A := Err (LogicError (jl_what op)).

(** [isMember(k)] *)
Definition jmember (k : string) (v : json) : exc bool :=
  match v with
  | JNull => Ok false
  | JObject m => Ok (om_mem k m)
  | _ => jl_throw "find"
  end.

(** [v[k]] read, null when absent; [v.get(k, d)] *)
Definition jget (k : string) (v : json) : exc json :=
  match v with
  | JNull => Ok JNull
  | JObject m => Ok (default JNull (om_get k m))
  | _ => jl_throw "find"
  end.
Definition jget_or (k : string) (d : json) (v : json) : exc json :=
  match v with
  | JNull => Ok d
  | JObject m => Ok (default d (om_get k m))
  | _ => jl_throw "find"
  end.

(** [v[k] = x], [v.removeMember(k)], [v.getMemberNames()] *)
Definition jset (k : string) (x : json) (v : json) : exc json :=
  match v with
  | JNull => Ok (JObject [(k, x)])
  | JObject m => Ok (JObject (om_set k x m))
  | _ => jl_throw "resolveReference"
  end.
Definition jremove (k : string) (v : json) : exc json :=
  match v with
  | JNull => Ok JNull
  | JObject m => Ok (JObject (om_del k m))
  | _ => jl_throw "removeMember"
  end.
Definition jmembers (v : json) : exc (list string) :=
  match v with
  | JNull => Ok []
  | JObject m => Ok m.*1
  | _ => jl_throw "getMemberNames"
  end.

(** [v[i]] read and [v.append(x)] *)
Definition jat (i : nat) (v : json) : exc json :=
  match v with
  | JNull => Ok JNull
  | JArray l => Ok (default JNull (l !! i))
  | _ => jl_throw "operator[]"
  end.
Definition jappend (x : json) (v : json) : exc json :=
  match v with
  | JNull => Ok (JArray [x])
  | JArray l => Ok (JArray (l ++ [x]))
  | _ => jl_throw "append"
  end.

(** [v[k1][k2]...[kn] = x]: a missing intermediate member becomes an object. *)
Fixpoint jset_path (ks : list string) (x : json) (v : json) : exc json :=
  match ks with
  | [] => Ok x
  | k :: ks' =>
    sub ← jget k v;
    sub' ← jset_path ks' x sub;
    jset k sub' v
  end.
Fixpoint jget_path (ks : list string) (v : json) : exc json :=
  match ks with
  | [] => Ok v
  | k :: ks' => sub ← jget k v; jget_path ks' sub
  end.

Lemma jget_jset_eq k x v v' : jset k x v = Ok v' -> jget k v' = Ok x.
Proof.
  destruct v; cbn [jset]; intros E; try done; injection E as <-; cbn [jget om_get].
  - by rewrite str_eqb_refl.
  - by rewrite om_get_set_eq.
Qed.
Lemma jget_jset_ne k k' x v v' : k <> k' -> jset k x v = Ok v' -> jget k' v' = jget k' v.
Proof.
  intros Hne. destruct v; cbn [jset jget]; intros E; try done; injection E as <-; cbn [jget om_get].
  - by destruct (String.eqb_spec k' k); [congruence|].
  - by rewrite om_get_set_ne.
Qed.
Lemma jget_jremove_eq k v v' : jremove k v = Ok v' -> jget k v' = Ok JNull.
Proof. destruct v; cbn [jremove]; intros E; try done; injection E as <-; cbn [jget]; [done|]. by rewrite om_get_del_eq. Qed.
Lemma jget_jremove_ne k k' v v' : k <> k' -> jremove k v = Ok v' -> jget k' v' = jget k' v.
Proof. intros Hne. destruct v; cbn [jremove]; intros E; try done; injection E as <-; cbn [jget]; [done|]. by rewrite om_get_del_ne. Qed.
Lemma jget_set_path ks x v v' : jset_path ks x v = Ok v' -> jget_path ks v' = Ok x.
Proof.
  revert v v'. induction ks as [|k ks IH]; cbn [jset_path jget_path]; intros v v' E; [by injection E as <-|].
  simplify_res. erewrite jget_jset_eq by done. cbn. by eapply IH.
Qed.
(** A path that parts from the one written keeps its value. *)
Lemma jget_set_path_ne pre k k' x v v' :
  k <> k' -> jset_path (pre ++ [k]) x v = Ok v' -> jget_path (pre ++ [k']) v' = jget_path (pre ++ [k']) v.
Proof.
  intros Hne. revert v v'. induction pre as [|p pre IH]; cbn [app jset_path jget_path]; intros v v' E; simplify_res.
  - by erewrite jget_jset_ne by done.
  - erewrite jget_jset_eq by done. match goal with H : jget p v = _ |- _ => rewrite H end. cbn. by apply IH.
Qed.

(** [v.get(k, d).asString()] and its like, the commonest reads of the sources. *)
Definition get_string (k d : string) (v : json) : exc string :=
  x ← jget_or k (JString d) v; jl_as_string x.
Definition get_bool (k : string) (d : bool) (v : json) : exc bool :=
  x ← jget_or k (JBool d) v; jl_as_bool x.
Definition get_uint64 (k : string) (d : Z) (v : json) : exc Z :=
  x ← jget_or k (JInt d) v; jl_as_uint64 x.
Definition get_uint (k : string) (d : Z) (v : json) : exc Z :=
  x ← jget_or k (JInt d) v; jl_as_uint x.
Definition get_int (k : string) (d : Z) (v : json) : exc Z :=
  x ← jget_or k (JInt d) v; jl_as_int x.
Definition get_int64 (k : string) (d : Z) (v : json) : exc Z :=
  x ← jget_or k (JInt d) v; jl_as_int64 x.

(** src/dage.cpp: [parse_json] and [write_json], and [Value::parse(write_json(v,false))],
    the copy the runtime makes of every value that crosses an interface. *)
Definition parse_json (text : string) : exc json :=
  if (16 * 1024 * 1024 <? str_len text)%Z then Err (RuntimeError "JSON exceeds 16 MiB limit")
  else match jl_parse text with
       | Ok root => Ok root
       | Err errors => Err (RuntimeError errors)
       end.

Definition write_json (v : json) (styled : bool) : string := jl_write styled v.

Definition copy_value (v : json) : exc json := parse_json (write_json v false).
End Access.

(** src/dage.cpp: the depth of bracket nesting outside string literals. *)
Record depth_scan := mkScan { sc_depth : Z; sc_max : Z; sc_quoted : bool; sc_escaped : bool }.

Definition depth_step (st : depth_scan) (c : ascii) : depth_scan :=
  if sc_quoted st then
    if sc_escaped st then mkScan (sc_depth st) (sc_max st) true false
    else if Ascii.eqb c "\" then mkScan (sc_depth st) (sc_max st) true true
    else if Ascii.eqb c dquote then mkScan (sc_depth st) (sc_max st) false false
    else st
  else if Ascii.eqb c dquote then mkScan (sc_depth st) (sc_max st) true (sc_escaped st)
  else if Ascii.eqb c "{" || Ascii.eqb c "[" then
    mkScan (sc_depth st + 1) (Z.max (sc_max st) (sc_depth st + 1)) false (sc_escaped st)
  else if (Ascii.eqb c "}" || Ascii.eqb c "]") && negb (sc_depth st =? 0)%Z then
    mkScan (sc_depth st - 1) (sc_max st) false (sc_escaped st)
  else st.

Fixpoint depth_scan_from (st : depth_scan) (s : string) : depth_scan :=
  match s with
  | EmptyString => st
  | String c s' => depth_scan_from (depth_step st c) s'
  end.
Definition json_nesting_depth (text : string) : Z :=
  sc_max (depth_scan_from (mkScan 0 0 false false) text).

(** ** Documented behaviour of the library

    [text_ok d v]: a value jsoncpp prints and reads back: integers within 64 bits,
    finite numbers and texts the library accepts ([real_ok], [str_ok]), members
    sorted by key, nesting at most [d].  [canon v] is what is read back: the text
    does not say whether an integer was signed, the parser takes the signed kind
    where it fits. *)
Section TextOk.
Context (str_ok : string -> Prop) (real_ok : double -> Prop).

Fixpoint text_ok (d : nat) (v : json) : Prop :=
  match d with
  | O => False
  | S d' =>
    match v with
    | JNull | JBool _ => True
    | JInt z => (- 2 ^ 63 <= z < 2 ^ 63)%Z
    | JUInt z => (0 <= z < 2 ^ 64)%Z
    | JReal x => real_ok x
    | JString s => str_ok s
    | JArray l => Forall (text_ok d') l
    | JObject m => om_sorted m /\ Forall (fun p => str_ok p.1 /\ text_ok d' p.2) m
    end
  end.
End TextOk.
#[global] Arguments text_ok : simpl never.
#[global] Opaque text_ok.

Fixpoint canon (v : json) : json :=
  match v with
  | JUInt z => if (z <? 2 ^ 63)%Z then JInt z else v
  | JArray l => JArray (canon <$> l)
  | JObject m => JObject (prod_map id canon <$> m)
  | _ => v
  end.

(** jsoncpp's documented conversions and the print/parse round trip. *)
Class JsonLaws (J : JsonLib) := {
  jl_str_ok : string -> Prop;
  jl_real_ok : double -> Prop;
  jl_parse_write : forall styled v,
    text_ok jl_str_ok jl_real_ok 1000 v -> jl_parse (jl_write styled v) = Ok (canon v);
  jl_parse_write_ascii : forall v,
    text_ok jl_str_ok jl_real_ok 1000 v -> jl_parse (jl_write_ascii v) = Ok (canon v);
  jl_parse_limited_parse : forall depth text v, jl_parse_limited depth text = Ok v -> jl_parse text = Ok v;
  jl_as_string_string : forall s, jl_as_string (JString s) = Ok s;
  jl_as_string_null : jl_as_string JNull = Ok ""%string;
  jl_as_string_composite : forall v, is_array v || is_object v -> is_ok (jl_as_string v) = false;
  jl_as_bool_bool : forall b, jl_as_bool (JBool b) = Ok b;
  jl_as_bool_null : jl_as_bool JNull = Ok false;
  jl_as_uint_int : forall z, (0 <= z <= u32_max)%Z -> jl_as_uint (JInt z) = Ok z;
  jl_as_uint_uint : forall z, (0 <= z <= u32_max)%Z -> jl_as_uint (JUInt z) = Ok z;
  jl_as_int_int : forall z, (- 2 ^ 31 <= z < 2 ^ 31)%Z -> jl_as_int (JInt z) = Ok z;
  jl_as_int64_int : forall z, (- 2 ^ 63 <= z < 2 ^ 63)%Z -> jl_as_int64 (JInt z) = Ok z;
  jl_as_uint64_int : forall z, (0 <= z <= u64_max)%Z -> jl_as_uint64 (JInt z) = Ok z;
  jl_as_uint64_uint : forall z, (0 <= z <= u64_max)%Z -> jl_as_uint64 (JUInt z) = Ok z;
  jl_as_uint64_null : jl_as_uint64 JNull = Ok 0%Z
}.

(** ** A reference instance

    A self-delimiting text form for every value, with the conversions jsoncpp
    documents.  It shows that [JsonLaws] can be met and makes witnesses run. *)
Module JsonRef.
Fixpoint put_pos (p : positive) (k : string) : string :=
  match p with
  | xH => String "e" k
  | xO p' => String "0" (put_pos p' k)
  | xI p' => String "1" (put_pos p' k)
  end.
Definition put_Z (z : Z) (k : string) : string :=
  match z with
  | Z0 => String "z" k
  | Zpos p => String "+" (put_pos p k)
  | Zneg p => String "-" (put_pos p k)
  end.
Fixpoint put_str (s : string) (k : string) : string :=
  match s with
  | EmptyString => String ";" k
  | String c s' => String "'" (String c (put_str s' k))
  end.
Definition put_bool (b : bool) (k : string) : string := String (if b then "t" else "f")%char k.
Definition put_real (d : double) (k : string) : string :=
  match d with
  | S754_zero s => String "z" (put_bool s k)
  | S754_infinity s => String "i" (put_bool s k)
  | S754_nan => String "n" k
  | S754_finite s m e => String "m" (put_bool s (put_pos m (put_Z e k)))
  end.
Definition put_list (f : json -> string -> string) : list json -> string -> string :=
  fix go l k := match l with
                | [] => String "]" k
                | x :: l' => String "," (f x (go l' k))
                end.
Definition put_members (f : json -> string -> string) : list (string * json) -> string -> string :=
  fix go m k := match m with
                | [] => String "}" k
                | (key, x) :: m' => String "," (put_str key (f x (go m' k)))
                end.
Fixpoint put (v : json) (k : string) : string :=
  match v with
  | JNull => String "n" k
  | JInt z => String "i" (put_Z z k)
  | JUInt z => String (if (z <? 2 ^ 63)%Z then "i" else "u")%char (put_Z z k)
  | JReal d => String "r" (put_real d k)
  | JString s => String "s" (put_str s k)
  | JBool b => put_bool b k
  | JArray l => String "[" (put_list put l k)
  | JObject m => String "{" (put_members put m k)
  end.

Fixpoint take_pos (s : string) : option (positive * string) :=
  match s with
  | String c s' =>
    if Ascii.eqb c "e" then Some (xH, s')
    else if Ascii.eqb c "0" then '(p, r) ← take_pos s'; Some (xO p, r)
    else if Ascii.eqb c "1" then '(p, r) ← take_pos s'; Some (xI p, r)
    else None
  | EmptyString => None
  end.
Definition take_Z (s : string) : option (Z * string) :=
  match s with
  | String c s' =>
    if Ascii.eqb c "z" then Some (0%Z, s')
    else if Ascii.eqb c "+" then '(p, r) ← take_pos s'; Some (Zpos p, r)
    else if Ascii.eqb c "-" then '(p, r) ← take_pos s'; Some (Zneg p, r)
    else None
  | EmptyString => None
  end.
Fixpoint take_str (s : string) : option (string * string) :=
  match s with
  | String c s' =>
    if Ascii.eqb c ";" then Some (EmptyString, s')
    else if Ascii.eqb c "'" then
      match s' with
      | String x s'' => '(t, r) ← take_str s''; Some (String x t, r)
      | EmptyString => None
      end
    else None
  | EmptyString => None
  end.
Definition take_bool (s : string) : option (bool * string) :=
  match s with
  | String c s' =>
    if Ascii.eqb c "t" then Some (true, s') else if Ascii.eqb c "f" then Some (false, s') else None
  | EmptyString => None
  end.
Definition take_real (s : string) : option (double * string) :=
  match s with
  | String c s' =>
    if Ascii.eqb c "z" then '(b, r) ← take_bool s'; Some (S754_zero b, r)
    else if Ascii.eqb c "i" then '(b, r) ← take_bool s'; Some (S754_infinity b, r)
    else if Ascii.eqb c "n" then Some (S754_nan, s')
    else if Ascii.eqb c "m" then
      '(b, r) ← take_bool s'; '(m, r) ← take_pos r; '(e, r) ← take_Z r; Some (S754_finite b m e, r)
    else None
  | EmptyString => None
  end.

Fixpoint take (n : nat) (s : string) : option (json * string) :=
  match n, s with
  | S n', String c s' =>
    if Ascii.eqb c "n" then Some (JNull, s')
    else if Ascii.eqb c "i" then '(z, r) ← take_Z s'; Some (JInt z, r)
    else if Ascii.eqb c "u" then '(z, r) ← take_Z s'; Some (JUInt z, r)
    else if Ascii.eqb c "r" then '(d, r) ← take_real s'; Some (JReal d, r)
    else if Ascii.eqb c "s" then '(t, r) ← take_str s'; Some (JString t, r)
    else if Ascii.eqb c "[" then '(l, r) ← take_list n' s'; Some (JArray l, r)
    else if Ascii.eqb c "{" then '(m, r) ← take_members n' s'; Some (JObject m, r)
    else '(b, r) ← take_bool s; Some (JBool b, r)
  | _, _ => None
  end
with take_list (n : nat) (s : string) : option (list json * string) :=
  match n, s with
  | S n', String c s' =>
    if Ascii.eqb c "]" then Some ([], s')
    else if Ascii.eqb c "," then
      '(x, r) ← take n' s'; '(l, r) ← take_list n' r; Some (x :: l, r)
    else None
  | _, _ => None
  end
with take_members (n : nat) (s : string) : option (list (string * json) * string) :=
  match n, s with
  | S n', String c s' =>
    if Ascii.eqb c "}" then Some ([], s')
    else if Ascii.eqb c "," then
      '(k, r) ← take_str s'; '(x, r) ← take n' r; '(m, r) ← take_members n' r; Some ((k, x) :: m, r)
    else None
  | _, _ => None
  end.

Definition print (v : json) : string := put v EmptyString.
Definition parse (s : string) : res string json :=
  match take (S (String.length s)) s with
  | Some (v, EmptyString) => Ok v
  | _ => Err "syntax error"%string
  end.

Lemma take_put_pos p k : take_pos (put_pos p k) = Some (p, k).
Proof. induction p as [p IH|p IH|]; cbn; rewrite ?IH; done. Qed.
Lemma take_put_Z z k : take_Z (put_Z z k) = Some (z, k).
Proof. destruct z; cbn; rewrite ?take_put_pos; done. Qed.
Lemma take_put_str s k : take_str (put_str s k) = Some (s, k).
Proof. induction s as [|c s IH]; cbn; rewrite ?IH; done. Qed.
Lemma take_put_bool b k : take_bool (put_bool b k) = Some (b, k).
Proof. by destruct b. Qed.
Lemma length_put_pos p k : String.length k <= String.length (put_pos p k).
Proof. induction p; cbn; lia. Qed.
Lemma length_put_Z z k : String.length k <= String.length (put_Z z k).
Proof. destruct z as [|p|p]; cbn; try lia; pose proof (length_put_pos p k); lia. Qed.
Lemma length_put_str s k : String.length k <= String.length (put_str s k).
Proof. induction s; cbn; lia. Qed.
#[local] Arguments put_pos : simpl never.
#[local] Arguments take_pos : simpl never.
#[local] Arguments put_Z : simpl never.
#[local] Arguments take_Z : simpl never.
#[local] Arguments put_str : simpl never.
#[local] Arguments take_str : simpl never.
#[local] Arguments put_bool : simpl never.
#[local] Arguments take_bool : simpl never.

Lemma take_put_real d k : take_real (put_real d k) = Some (d, k).
Proof.
  destruct d; simpl; rewrite ?take_put_bool; simpl; rewrite ?take_put_pos; simpl;
    rewrite ?take_put_Z; done.
Qed.

Lemma length_put v k : String.length k <= String.length (put v k).
Proof.
  revert k. induction v as [|z|z|d|s|b|l IH|m IH] using json_rect'; intros k; simpl; try lia.
  - pose proof (length_put_Z z k). lia.
  - pose proof (length_put_Z z k). lia.
  - destruct d as [s|s| |s m e]; simpl; unfold put_bool; simpl; try lia.
    pose proof (length_put_pos m (put_Z e k)). pose proof (length_put_Z e k). lia.
  - pose proof (length_put_str s k). lia.
  - induction IH as [|x l Hx _ IHl]; simpl; [lia|]. pose proof (Hx (put_list put l k)). lia.
  - induction IH as [|[key x] m Hx _ IHm]; simpl in *; [lia|].
    pose proof (Hx (put_members put m k)).
    pose proof (length_put_str key (put x (put_members put m k))). lia.
Qed.

(** With fuel above the text's length the reader consumes exactly the value. *)
Definition reads (v : json) : Prop :=
  forall k n, String.length (put v k) < n -> take n (put v k) = Some (canon v, k).

Lemma take_put_list l k n :
  Forall reads l -> String.length (put_list put l k) < n ->
  take_list n (put_list put l k) = Some (canon <$> l, k).
Proof.
  intros IH. revert n. induction IH as [|x l Hx _ IHl]; intros [|n] Hn; simpl in *; try lia; [done|].
  rewrite Hx by lia. simpl. rewrite IHl; [done|].
  pose proof (length_put x (put_list put l k)). lia.
Qed.

Lemma take_put_members m k n :
  Forall (fun p => reads p.2) m -> String.length (put_members put m k) < n ->
  take_members n (put_members put m k) = Some (prod_map id canon <$> m, k).
Proof.
  intros IH. revert n.
  induction IH as [|[key x] m Hx _ IHm]; intros [|n] Hn; simpl in *; try lia; [done|].
  rewrite take_put_str. simpl. pose proof (length_put_str key (put x (put_members put m k))).
  rewrite Hx by lia. simpl. rewrite IHm; [done|].
  pose proof (length_put x (put_members put m k)). lia.
Qed.

Lemma take_put v : reads v.
Proof.
  induction v as [|z|z|d|s|b|l IH|m IH] using json_rect'; intros k [|n] Hn; try lia; cbn in *.
  - reflexivity.
  - by rewrite take_put_Z.
  - destruct (z <? 2 ^ 63)%Z; cbn; by rewrite take_put_Z.
  - by rewrite take_put_real.
  - by rewrite take_put_str.
  - by destruct b.
  - by rewrite take_put_list by (done || lia).
  - by rewrite take_put_members by (done || lia).
Qed.

Lemma parse_print v : parse (print v) = Ok (canon v).
Proof. unfold parse, print. by rewrite (take_put v EmptyString) by lia. Qed.

Definition conv_error {A} : exc A := Err (LogicError "not convertible").
Definition as_string (v : json) : exc string :=
  match v with
  | JNull => Ok ""%string
  | JString s => Ok s
  | JBool b => Ok (if b then "true" else "false")%string
  | JInt z | JUInt z => Ok (pretty z)
  | _ => conv_error
  end.
Definition as_bool (v : json) : exc bool :=
  match v with
  | JNull => Ok false
  | JBool b => Ok b
  | JInt z | JUInt z => Ok (negb (z =? 0)%Z)
  | JReal d => Ok (negb (d_eqb d dzero))
  | _ => conv_error
  end.
Definition as_range (lo hi : Z) (v : json) : exc Z :=
  match v with
  | JNull => Ok 0%Z
  | JBool b => Ok (if b then 1 else 0)%Z
  | JInt z | JUInt z => if (lo <=? z)%Z && (z <=? hi)%Z then Ok z else conv_error
  | _ => conv_error
  end.
Definition as_double (v : json) : exc double :=
  match v with
  | JNull => Ok dzero
  | JInt z | JUInt z => Ok (d_of_Z z)
  | JReal d => Ok d
  | JBool b => Ok (if b then d_of_Z 1 else dzero)
  | _ => conv_error
  end.
Definition in_bounds (lo hi : Z) (v : json) : bool :=
  match v with JInt z | JUInt z => (lo <=? z)%Z && (z <=? hi)%Z | _ => false end.

#[global] Instance lib : JsonLib := {|
  jl_parse := parse;
  jl_parse_limited := fun _ => parse;
  jl_write := fun _ => print;
  jl_write_ascii := print;
  jl_what := fun op => op;
  jl_as_string := as_string;
  jl_as_bool := as_bool;
  jl_as_int := as_range (- 2 ^ 31) (2 ^ 31 - 1);
  jl_as_uint := as_range 0 u32_max;
  jl_as_int64 := as_range (- 2 ^ 63) (2 ^ 63 - 1);
  jl_as_uint64 := as_range 0 u64_max;
  jl_as_double := as_double;
  jl_is_uint := in_bounds 0 u32_max;
  jl_is_uint64 := in_bounds 0 u64_max;
  jl_is_int64 := in_bounds (- 2 ^ 63) (2 ^ 63 - 1)
|}.

Lemma as_range_ok lo hi z : (lo <= z <= hi)%Z -> as_range lo hi (JInt z) = Ok z.
Proof. intros H. simpl. by replace (_ && _) with true by lia. Qed.
Lemma as_range_ok' lo hi z : (lo <= z <= hi)%Z -> as_range lo hi (JUInt z) = Ok z.
Proof. apply as_range_ok. Qed.

#[global] Instance laws : JsonLaws lib.
Proof.
  refine {| jl_str_ok := fun _ => True; jl_real_ok := fun _ => True |}.
  1: { intros styled v _. apply parse_print. }
  1: { intros v _. apply parse_print. }
  1: { intros depth text v H. exact H. }
  all: try (intros; reflexivity).
  1: { intros []; done. }
  all: intros z Hz; (apply as_range_ok || apply as_range_ok'); lia.
Defined.
End JsonRef.
