(* ===== verification/Expr.v ===== *)
(** * Conditions, references and templates (src/dage.cpp)

    The reference resolver [lookup_path], the condition evaluator [eval_expr] and
    its operands, the template resolver [resolve_template] and the token
    replacement of idempotency keys.  The seven documents every one of them takes
    are the fields of [scope].  Loops and recursions that follow positions in a
    text take fuel; [None] is "out of fuel", and each is shown to return with fuel
    one above the text's length, which is what the definitions without fuel
    give it. *)

From S2P Require Import Prelude Json.
Open Scope string_scope.
Open Scope list_scope.

Record scope := mkScope {
  sc_workflow_input : json;
  sc_input : json;
  sc_output : json;
  sc_error : json;
  sc_nodes : json;
  sc_state : json;
  sc_run : json
}.

Definition is_blank (c : ascii) : bool :=
  Ascii.eqb c " " || Ascii.eqb c "009" || Ascii.eqb c "013" || Ascii.eqb c "010".

Fixpoint ltrim (s : string) : string :=
  match s with
  | EmptyString => EmptyString
  | String c s' => if is_blank c then ltrim s' else s
  end.
Fixpoint rtrim (s : string) : string :=
  match s with
  | EmptyString => EmptyString
  | String c s' =>
    match rtrim s' with
    | EmptyString => if is_blank c then EmptyString else String c EmptyString
    | r => String c r
    end
  end.
Definition trim (s : string) : string := rtrim (ltrim s).

(** The keys a path names after its first dot; a final empty key is not visited. *)
Fixpoint split_dots (s : string) : list string :=
  match s with
  | EmptyString => [EmptyString]
  | String c s' =>
    if Ascii.eqb c "." then EmptyString :: split_dots s'
    else match split_dots s' with
         | k :: ks => String c k :: ks
         | [] => [String c EmptyString]
         end
  end.
Definition path_keys (s : string) : list string :=
  let ks := split_dots s in
  match last ks with
  | Some EmptyString => take (length ks - 1) ks
  | _ => ks
  end.

Fixpoint descend (ks : list string) (cur : json) : json :=
  match ks with
  | [] => cur
  | k :: ks' =>
    match cur with
    | JObject m => match om_get k m with Some v => descend ks' v | None => JNull end
    | _ => JNull
    end
  end.

Definition lookup_path (path : string) (e : scope) : json :=
  let dot := str_find "." 0 path in
  let root := match dot with Some d => str_upto d path | None => path end in
  let keys := match dot with Some d => path_keys (str_from (d + 1) path) | None => [] end in
  let from cur := descend keys cur in
  if String.eqb root "workflow" then from (JObject [("input", sc_workflow_input e)])
  else if String.eqb root "input" then from (sc_input e)
  else if String.eqb root "output" then from (sc_output e)
  else if String.eqb root "error" then from (sc_error e)
  else if String.eqb root "nodes" then from (sc_nodes e)
  else if String.eqb root "state" then from (sc_state e)
  else if String.eqb root "run" then from (sc_run e)
  else JNull.

Section Eval.
Context {J : JsonLib}.

Definition truthy (v : json) : exc bool :=
  if is_bool v then jl_as_bool v
  else if is_null v then Ok false
  else if is_numeric v then d ← jl_as_double v; Ok (negb (d_eqb d dzero))
  else if is_string v then s ← jl_as_string v; Ok (negb (str_empty s))
  else Ok (negb (jempty v)).

Definition quoted_by (q : ascii) (t : string) : bool :=
  match String.get 0 t, str_last t with
  | Some a, Some b => Ascii.eqb a q && Ascii.eqb b q
  | _, _ => false
  end.

Definition literal (text : string) : json :=
  let t := trim text in
  if String.eqb t "true" then JBool true
  else if String.eqb t "false" then JBool false
  else if String.eqb t "null" then JNull
  else if Nat.leb 2 (String.length t) && (quoted_by "'" t || quoted_by dquote t) then
    JString (String.substring 1 (String.length t - 2) t)
  else match parse_json t with Ok parsed => parsed | Err _ => JString t end.

Definition ordered {A} (ltb : A -> A -> bool) (leb : A -> A -> bool) (op : string) (x y : A)
  : option bool :=
  if String.eqb op ">" then Some (ltb y x)
  else if String.eqb op ">=" then Some (leb y x)
  else if String.eqb op "<" then Some (ltb x y)
  else if String.eqb op "<=" then Some (leb x y)
  else None.

Definition compare_strings (a b : json) (op : string) : exc bool :=
  x ← jl_as_string a; y ← jl_as_string b;
  Ok (default false (ordered String.ltb String.leb op x y)).

Definition compare (a b : json) (op : string) : exc bool :=
  if String.eqb op "==" || String.eqb op "!=" then
    eq ← (if is_numeric a && is_numeric b
          then x ← jl_as_double a; y ← jl_as_double b; Ok (d_eqb x y)
          else Ok (json_eqb a b));
    Ok (if String.eqb op "==" then eq else negb eq)
  else if is_numeric a && is_numeric b then
    x ← jl_as_double a; y ← jl_as_double b;
    match ordered d_ltb d_leb op x y with
    | Some r => Ok r
    | None => compare_strings a b op
    end
  else compare_strings a b op.

Definition ends_with_paren (s : string) : bool :=
  match str_last s with Some c => Ascii.eqb c ")" | None => false end.

Definition eval_operand (raw : string) (e : scope) : json :=
  let text := trim raw in
  if str_prefix "length(" text && Nat.ltb 8 (String.length text) && ends_with_paren text then
    JUInt (jsize (lookup_path (trim (String.substring 7 (String.length text - 8) text)) e))
  else
    let v := lookup_path text e in
    if str_contains "." text && negb (is_null v) then v else literal text.

(** The operands around the first comparison operator of [ops] that occurs. *)
Definition find_op (expr : string) : option (string * nat) :=
  let fix go ops := match ops with
                    | [] => None
                    | op :: ops' => match str_find op 0 expr with
                                    | Some p => Some (op, p)
                                    | None => go ops'
                                    end
                    end in
  go ["=="; "!="; ">="; "<="; ">"; "<"].

(** [f(args)]: the text between the parenthesis after [f] and the last one. *)
Definition call_args (f expr : string) : option string :=
  let pre := f +:+ "(" in
  if str_prefix pre expr && ends_with_paren expr
  then Some (String.substring (String.length pre) (String.length expr - String.length pre - 1) expr)
  else None.

Definition contains_value (a b : json) : exc bool :=
  match a with
  | JArray l => Ok (existsb (fun x => json_eqb x b) l)
  | JObject _ => k ← jl_as_string b; jmember k a
  | _ => x ← jl_as_string a; y ← jl_as_string b; Ok (str_contains y x)
  end.

(** The two-argument functions; the needle is a literal. *)
Definition eval_binary (f : json -> json -> exc bool) (args : string) (e : scope) : exc bool :=
  match str_find "," 0 args with
  | None => Ok false
  | Some comma => f (lookup_path (trim (str_upto comma args)) e) (literal (str_from (comma + 1) args))
  end.
Definition on_strings (f : string -> string -> bool) (a b : json) : exc bool :=
  x ← jl_as_string a; y ← jl_as_string b; Ok (f x y).

Definition eval_atom (expr : string) (e : scope) : exc bool :=
  match find_op expr with
  | Some (op, p) =>
    compare (eval_operand (str_upto p expr) e)
            (eval_operand (str_from (p + String.length op) expr) e) op
  | None =>
    match call_args "contains" expr, call_args "starts_with" expr, call_args "ends_with" expr with
    | Some args, _, _ => eval_binary contains_value args e
    | None, Some args, _ => eval_binary (on_strings (fun x y => str_prefix y x)) args e
    | None, None, Some args => eval_binary (on_strings (fun x y => str_suffix y x)) args e
    | None, None, None =>
      match call_args "exists" expr, call_args "empty" expr, call_args "length" expr with
      | Some a, _, _ => Ok (negb (is_null (lookup_path (trim a) e)))
      | None, Some a, _ => let v := lookup_path (trim a) e in Ok (is_null v || jempty v)
      | None, None, Some a => Ok (negb (jsize (lookup_path (trim a) e) =? 0)%Z)
      | None, None, None => truthy (lookup_path expr e)
      end
    end
  end.

(** [${ ... }] around a condition is optional. *)
Definition unwrap (wrapped : string) : string :=
  let expr := trim wrapped in
  if Nat.leb 3 (String.length expr) && str_prefix "${" expr
     && match str_last expr with Some c => Ascii.eqb c "}" | None => false end
  then trim (String.substring 2 (String.length expr - 3) expr)
  else expr.

Fixpoint eval_fuel (n : nat) (wrapped : string) (e : scope) : option (exc bool) :=
  match n with
  | O => None
  | S n' =>
    let expr := unwrap wrapped in
    match str_find " or " 0 expr with
    | Some p =>
      match eval_fuel n' (str_upto p expr) e with
      | Some (Ok false) => eval_fuel n' (str_from (p + 4) expr) e
      | r => r
      end
    | None =>
      match str_find " and " 0 expr with
      | Some p =>
        match eval_fuel n' (str_upto p expr) e with
        | Some (Ok true) => eval_fuel n' (str_from (p + 5) expr) e
        | r => r
        end
      | None =>
        if str_prefix "not " expr then
          match eval_fuel n' (str_from 4 expr) e with
          | Some r => Some (negb <$> r)
          | None => None
          end
        else Some (eval_atom expr e)
      end
    end
  end.

Definition out_of_fuel {A} : exc A := Err (RuntimeError "out of fuel").
Definition eval_expr (wrapped : string) (e : scope) : exc bool :=
  default out_of_fuel (eval_fuel (S (String.length wrapped)) wrapped e).

(** The references of a text, replaced one after the other; what a replacement
    inserts is not searched again. *)
Definition splice (v : json) : exc string :=
  if is_string v then jl_as_string v else Ok (write_json v false).

Fixpoint expand_fuel (n : nat) (rest : string) (e : scope) : option (exc string) :=
  match n with
  | O => None
  | S n' =>
    match str_find "${" 0 rest with
    | None => Some (Ok rest)
    | Some start =>
      match str_find "}" (start + 2) rest with
      | None => Some (Ok rest)
      | Some stop =>
        let v := lookup_path (trim (String.substring (start + 2) (stop - start - 2) rest)) e in
        match expand_fuel n' (str_from (stop + 1) rest) e with
        | None => None
        | Some tail => Some (mid ← splice v; t ← tail; Ok (str_upto start rest +:+ mid +:+ t))
        end
      end
    end
  end.
Definition expand (s : string) (e : scope) : exc string :=
  default out_of_fuel (expand_fuel (S (String.length s)) s e).

Fixpoint resolve_template (value : json) (e : scope) : exc json :=
  match value with
  | JString s =>
    if Nat.leb 3 (String.length s) && str_prefix "${" s
       && match str_last s with Some c => Ascii.eqb c "}" | None => false end
    then Ok (lookup_path (trim (String.substring 2 (String.length s - 3) s)) e)
    else JString <$> expand s e
  | JArray l =>
    JArray <$> (fix go l := match l with
                            | [] => Ok []
                            | x :: l' => y ← resolve_template x e; ys ← go l'; Ok (y :: ys)
                            end) l
  | JObject m =>
    JObject <$> (fix go m acc := match m with
                                 | [] => Ok acc
                                 | (k, x) :: m' => y ← resolve_template x e; go m' (om_set k y acc)
                                 end) m []
  | v => Ok v
  end.
End Eval.

(** [replace_token]: every occurrence, left to right, not searching what was inserted. *)
Fixpoint replace_fuel (n : nat) (rest token replacement : string) : option string :=
  match n with
  | O => None
  | S n' =>
    match str_find token 0 rest with
    | None => Some rest
    | Some p =>
      tail ← replace_fuel n' (str_from (p + String.length token) rest) token replacement;
      Some (str_upto p rest +:+ replacement +:+ tail)
    end
  end.
Definition replace_token (value token replacement : string) : string :=
  default value (replace_fuel (S (String.length value)) value token replacement).

(** ** Every evaluation returns *)
Lemma length_ltrim s : String.length (ltrim s) <= String.length s.
Proof. induction s as [|c s IH]; simpl; [done|]. destruct (is_blank c); simpl; lia. Qed.
Lemma length_rtrim s : String.length (rtrim s) <= String.length s.
Proof.
  induction s as [|c s IH]; simpl; [done|].
  destruct (rtrim s); [destruct (is_blank c)|]; simpl in *; lia.
Qed.
Lemma length_trim s : String.length (trim s) <= String.length s.
Proof. unfold trim. pose proof (length_rtrim (ltrim s)). pose proof (length_ltrim s). lia. Qed.
Lemma length_unwrap s : String.length (unwrap s) <= String.length s.
Proof.
  unfold unwrap. pose proof (length_trim s). destruct (_ && _ && _); [|done].
  pose proof (length_trim (String.substring 2 (String.length (trim s) - 3) (trim s))) as Ht.
  rewrite length_substring in Ht. lia.
Qed.

Section EvalFacts.
Context {J : JsonLib}.
Implicit Types (e : scope) (w : string).

(** What [eval_expr] does after unwrapping, with [rec] for its recursive calls. *)
Definition eval_cases (rec : string -> exc bool) (expr : string) (e : scope) : exc bool :=
  match str_find " or " 0 expr with
  | Some p => b ← rec (str_upto p expr); if (b : bool) then Ok true else rec (str_from (p + 4) expr)
  | None =>
    match str_find " and " 0 expr with
    | Some p => b ← rec (str_upto p expr); if (b : bool) then rec (str_from (p + 5) expr) else Ok false
    | None => if str_prefix "not " expr then negb <$> rec (str_from 4 expr) else eval_atom expr e
    end
  end.

Lemma prefix_length pre s : String.prefix pre s = true -> String.length pre <= String.length s.
Proof.
  revert s. induction pre as [|c pre IH]; intros [|d s]; simpl; try done; [lia|].
  destruct (Ascii.ascii_dec c d); [|done]. intros H%IH. lia.
Qed.

(** Closes the goals that a recursive call's text is shorter. *)
Ltac shorter :=
  rewrite ?length_str_upto, ?length_str_from;
  repeat match goal with
  | H : str_find _ _ _ = Some _ |- _ => apply str_find_bound in H; [|done]
  | H : str_prefix _ _ = true |- _ => apply prefix_length in H
  end;
  match goal with
  | |- context [unwrap ?w] => pose proof (length_unwrap w)
  | H : context [unwrap ?w] |- _ => pose proof (length_unwrap w)
  end; simpl in *; lia.

Lemma eval_fuel_total n w e : String.length w < n ->
  exists r, forall m, n <= m -> eval_fuel m w e = Some r.
Proof.
  revert w. induction n as [|n IH]; intros w Hn; [lia|].
  assert (Hcase : exists r, forall m, n <= m -> eval_fuel (S m) w e = Some r).
  { simpl. destruct (str_find " or " 0 (unwrap w)) as [p|] eqn:Hor.
    { destruct (IH (str_upto p (unwrap w))) as [r1 Hr1]; [shorter|].
      destruct (IH (str_from (p + 4) (unwrap w))) as [r2 Hr2]; [shorter|].
      exists (match r1 with Ok false => r2 | r => r end). intros m Hm.
      rewrite Hr1, Hr2 by done. by destruct r1 as [[]|]. }
    destruct (str_find " and " 0 (unwrap w)) as [p|] eqn:Hand.
    { destruct (IH (str_upto p (unwrap w))) as [r1 Hr1]; [shorter|].
      destruct (IH (str_from (p + 5) (unwrap w))) as [r2 Hr2]; [shorter|].
      exists (match r1 with Ok true => r2 | r => r end). intros m Hm.
      rewrite Hr1, Hr2 by done. by destruct r1 as [[]|]. }
    destruct (str_prefix "not " (unwrap w)) eqn:Hnot; [|by exists (eval_atom (unwrap w) e)].
    destruct (IH (str_from 4 (unwrap w))) as [r1 Hr1]; [shorter|].
    exists (negb <$> r1). intros m Hm. by rewrite Hr1. }
  destruct Hcase as [r Hr]. exists r. intros [|m] Hm; [lia|]. apply Hr. lia.
Qed.

Lemma eval_fuel_expr n w e : String.length w < n -> eval_fuel n w e = Some (eval_expr w e).
Proof.
  intros Hn. destruct (eval_fuel_total (S (String.length w)) w e) as [r Hr]; [lia|].
  unfold eval_expr. by rewrite (Hr n), (Hr (S (String.length w))) by lia.
Qed.

(** the evaluator returns on every text and satisfies the recursion of the source. *)
Theorem eval_expr_unfold w e :
  eval_expr w e = eval_cases (fun s => eval_expr s e) (unwrap w) e.
Proof.
  unfold eval_expr at 1, eval_cases. simpl.
  destruct (str_find " or " 0 (unwrap w)) as [p|] eqn:Hor.
  { rewrite !eval_fuel_expr by shorter. simpl.
    destruct (eval_expr (str_upto p (unwrap w)) e) as [[]|]; reflexivity. }
  destruct (str_find " and " 0 (unwrap w)) as [p|] eqn:Hand.
  { rewrite !eval_fuel_expr by shorter. simpl.
    destruct (eval_expr (str_upto p (unwrap w)) e) as [[]|]; reflexivity. }
  destruct (str_prefix "not " (unwrap w)) eqn:Hnot; [|reflexivity].
  rewrite eval_fuel_expr by shorter. reflexivity.
Qed.

(** *** Templates *)
Lemma expand_fuel_total n s e : String.length s < n ->
  exists r, forall m, n <= m -> expand_fuel m s e = Some r.
Proof.
  revert s. induction n as [|n IH]; intros s Hn; [lia|].
  assert (Hcase : exists r, forall m, n <= m -> expand_fuel (S m) s e = Some r).
  { simpl. destruct (str_find "${" 0 s) as [start|] eqn:Hs; [|by eexists].
    destruct (str_find "}" (start + 2) s) as [stop|] eqn:He; [|by eexists].
    destruct (IH (str_from (stop + 1) s)) as [r Hr].
    { apply str_find_bound in He; [|done]. rewrite length_str_from. simpl in *. lia. }
    eexists. intros m Hm. by rewrite Hr. }
  destruct Hcase as [r Hr]. exists r. intros [|m] Hm; [lia|]. apply Hr. lia.
Qed.

Lemma expand_no_reference s e : str_contains "${" s = false -> expand s e = Ok s.
Proof.
  unfold str_contains, expand. simpl. by destruct (str_find "${" 0 s).
Qed.

(** A value none of whose texts holds a reference. *)
Fixpoint ground (v : json) : Prop :=
  match v with
  | JString s => str_contains "${" s = false
  | JArray l => (fix go l := match l with [] => True | x :: l' => ground x /\ go l' end) l
  | JObject m =>
    om_sorted m /\ (fix go m := match m with [] => True | p :: m' => ground p.2 /\ go m' end) m
  | _ => True
  end.

Lemma resolve_members (m acc : list (string * json)) e :
  Forall (fun p => resolve_template p.2 e = Ok p.2) m -> om_sorted (acc ++ m) ->
  (fix go (m acc : list (string * json)) := match m with
     | [] => Ok acc
     | (k, x) :: m' => y ← resolve_template x e; go m' (om_set k y acc)
     end) m acc = Ok (acc ++ m).
Proof.
  revert acc. induction m as [|[k x] m IH]; intros acc Hm Hs; [by rewrite app_nil_r|].
  apply Forall_cons in Hm as [Hx Hm]. simpl in Hx. rewrite Hx. simpl.
  replace (acc ++ (k, x) :: m) with ((acc ++ [(k, x)]) ++ m) in * by by rewrite <-app_assoc.
  rewrite om_set_snoc; [by apply IH|].
  unfold om_sorted in Hs. rewrite fmap_app, fmap_app in Hs. simpl in Hs.
  apply StronglySorted_app_1_l in Hs. clear -Hs. apply Forall_forall. intros p Hp.
  eapply (StronglySorted_app_1_elem_of (fun a b => String.compare a b = Lt) acc.*1 [k]); [exact Hs| |set_solver].
  apply list_elem_of_fmap. by exists p.
Qed.

(** resolving a value without references changes nothing. *)
Theorem resolve_template_ground v e : ground v -> resolve_template v e = Ok v.
Proof.
  induction v as [|z|z|d|s|b|l IH|m IH] using json_rect'; simpl; try done.
  - intros Hs. rewrite expand_no_reference by done.
    destruct (str_prefix "${" s) eqn:Hp; [|by rewrite andb_false_r].
    unfold str_contains in Hs. by rewrite str_find_prefix in Hs.
  - intros Hg. revert Hg. induction IH as [|x l Hx _ IHl]; [done|].
    intros [Hgx Hgl]. rewrite Hx by done. simpl. specialize (IHl Hgl).
    apply fmap_Ok in IHl as (l' & -> & [= ->]). done.
  - intros [Hs Hg]. rewrite resolve_members with (acc := []); [done| |done].
    clear Hs. revert Hg. induction IH as [|p m Hp _ IHm]; intros Hg; constructor; naive_solver.
Qed.

(** A text that begins with a reference and ends with another is looked up as one path. *)
Theorem two_references_null e :
  sc_input e = JObject [("a", JString "x"); ("b", JString "y")] ->
  resolve_template (JString "${input.a}-${input.b}") e = Ok JNull.
Proof. intros He. cbn. by rewrite He. Qed.
End EvalFacts.
