(* ===== verification/Sha256.v ===== *)
(** * SHA-256 (src/sha256.cpp)

    [sha256_digest] on 32-bit words kept as [Z] modulo [2^32].  The runtime uses
    the text form of the digest ("sha256:" and 64 hexadecimal digits) as the
    identity of workflows, bundles and checkpoints; the theorems fix that form and
    the padding of the message. *)

From S2P Require Import Prelude.
Open Scope string_scope.
Open Scope list_scope.
Open Scope Z_scope.

Definition rotr (value bits : Z) : Z :=
  Z.lor (Z.shiftr value bits) (u32 (Z.shiftl value (32 - bits))).

(** The round constants of sha256.cpp, lines 12 to 20, written in decimal. *)
Definition k : list Z := [
  1116352408; 1899447441; 3049323471; 3921009573; 961987163; 1508970993; 2453635748; 2870763221;
  3624381080; 310598401; 607225278; 1426881987; 1925078388; 2162078206; 2614888103; 3248222580;
  3835390401; 4022224774; 264347078; 604807628; 770255983; 1249150122; 1555081692; 1996064986;
  2554220882; 2821834349; 2952996808; 3210313671; 3336571891; 3584528711; 113926993; 338241895;
  666307205; 773529912; 1294757372; 1396182291; 1695183700; 1986661051; 2177026350; 2456956037;
  2730485921; 2820302411; 3259730800; 3345764771; 3516065817; 3600352804; 4094571909; 275423344;
  430227734; 506948616; 659060556; 883997877; 958139571; 1322822218; 1537002063; 1747873779;
  1955562222; 2024104815; 2227730452; 2361852424; 2428436474; 2756734187; 3204031479; 3329325298].

Definition at_ (l : list Z) (i : nat) : Z := default 0 (l !! i).
Definition size_of (data : list Z) : Z := Z.of_nat (length data).

Fixpoint bytes_of (s : string) : list Z :=
  match s with
  | EmptyString => []
  | String c s' => code c :: bytes_of s'
  end.

(** [while((data.size()%64)!=56) data.push_back(0)], at most 63 times. *)
Fixpoint pad_zeros (fuel : nat) (data : list Z) : list Z :=
  if size_of data mod 64 =? 56 then data
  else match fuel with
       | O => data
       | S fuel' => pad_zeros fuel' (data ++ [0])
       end.

(** The length in bits, most significant byte first. *)
Definition length_bytes (bit_size : Z) : list Z :=
  (fun i => Z.shiftr bit_size (8 * i) mod 256) <$> [7; 6; 5; 4; 3; 2; 1; 0].

Definition padded (data : list Z) : list Z :=
  pad_zeros 63 (data ++ [0x80]) ++ length_bytes (u64 (size_of data * 8)).

Definition word_at (data : list Z) (p : nat) : Z :=
  Z.lor (Z.lor (Z.lor (Z.shiftl (at_ data p) 24) (Z.shiftl (at_ data (p + 1)) 16))
               (Z.shiftl (at_ data (p + 2)) 8)) (at_ data (p + 3)).

Fixpoint extend (n : nat) (w : list Z) : list Z :=
  match n with
  | O => w
  | S n' =>
    let i := length w in
    let w15 := at_ w (i - 15) in let w2 := at_ w (i - 2) in
    let s0 := Z.lxor (Z.lxor (rotr w15 7) (rotr w15 18)) (Z.shiftr w15 3) in
    let s1 := Z.lxor (Z.lxor (rotr w2 17) (rotr w2 19)) (Z.shiftr w2 10) in
    extend n' (w ++ [u32 (at_ w (i - 16) + s0 + at_ w (i - 7) + s1)])
  end.
Definition schedule (data : list Z) (offset : nat) : list Z :=
  extend 48 ((fun i => word_at data (offset + i * 4)%nat) <$> seq 0 16).

Record hash8 := mkHash { ha : Z; hb : Z; hc : Z; hd : Z; he : Z; hf : Z; hg : Z; hh : Z }.

Definition hash_init : hash8 :=
  mkHash 0x6a09e667 0xbb67ae85 0x3c6ef372 0xa54ff53a 0x510e527f 0x9b05688c 0x1f83d9ab 0x5be0cd19.

Definition not32 (z : Z) : Z := Z.lxor z u32_max.

Definition round (w : list Z) (v : hash8) (i : nat) : hash8 :=
  let s1 := Z.lxor (Z.lxor (rotr (he v) 6) (rotr (he v) 11)) (rotr (he v) 25) in
  let ch := Z.lxor (Z.land (he v) (hf v)) (Z.land (not32 (he v)) (hg v)) in
  let t1 := u32 (hh v + s1 + ch + at_ k i + at_ w i) in
  let s0 := Z.lxor (Z.lxor (rotr (ha v) 2) (rotr (ha v) 13)) (rotr (ha v) 22) in
  let maj := Z.lxor (Z.lxor (Z.land (ha v) (hb v)) (Z.land (ha v) (hc v))) (Z.land (hb v) (hc v)) in
  let t2 := u32 (s0 + maj) in
  mkHash (u32 (t1 + t2)) (ha v) (hb v) (hc v) (u32 (hd v + t1)) (he v) (hf v) (hg v).

Definition add8 (h v : hash8) : hash8 :=
  mkHash (u32 (ha h + ha v)) (u32 (hb h + hb v)) (u32 (hc h + hc v)) (u32 (hd h + hd v))
         (u32 (he h + he v)) (u32 (hf h + hf v)) (u32 (hg h + hg v)) (u32 (hh h + hh v)).

Definition compress (data : list Z) (h : hash8) (offset : nat) : hash8 :=
  add8 h (fold_left (round (schedule data offset)) (seq 0 64) h).

(** The loop over the 64-byte blocks of the padded message. *)
Definition blocks (data : list Z) : list nat := (fun i => i * 64)%nat <$> seq 0 (length data / 64).
Definition hash_bytes (data : list Z) : hash8 :=
  let p := padded data in fold_left (compress p) (blocks p) hash_init.

Definition hex_digit (z : Z) : ascii := if z <? 10 then chr (48 + z) else chr (87 + z).

(** [std::hex << std::setfill('0') << std::setw(8)] of a 32-bit word. *)
Definition hex8 (w : Z) : string :=
  fold_right (fun i s => String (hex_digit (Z.shiftr w (4 * i) mod 16)) s) EmptyString
    [7; 6; 5; 4; 3; 2; 1; 0].

Definition words (h : hash8) : list Z := [ha h; hb h; hc h; hd h; he h; hf h; hg h; hh h].

Definition sha256_digest (input : string) : string :=
  "sha256:" +:+ fold_right (fun w s => hex8 w +:+ s) EmptyString (words (hash_bytes (bytes_of input))).

Example sha256_empty :
  sha256_digest "" = "sha256:e3b0c44298fc1c149afbf4c8996fb92427ae41e4649b934ca495991b7852b855".
Proof. vm_compute. reflexivity. Qed.
Example sha256_abc :
  sha256_digest "abc" = "sha256:ba7816bf8f01cfea414140de5dae2223b00361a396177a9cb410ff61f20015ad".
Proof. vm_compute. reflexivity. Qed.
Example sha256_two_blocks :
  sha256_digest "abcdbcdecdefdefgefghfghighijhijkijkljklmklmnlmnomnopnopq"
  = "sha256:248d6a61d20638b8e5c026930c3e6039a33ce45964ff2167f6ecedd419db06c1".
Proof. vm_compute. reflexivity. Qed.

Lemma pad_zeros_spec n data :
  (Z.of_nat n >= (56 - size_of data) mod 64)%Z -> size_of (pad_zeros n data) mod 64 = 56.
Proof.
  revert data. induction n as [|n IH]; intros data Hn; simpl;
    destruct (Z.eqb_spec (size_of data mod 64) 56) as [|Hne]; try done.
  - exfalso. apply Hne. assert ((56 - size_of data) mod 64 = 0) as E
      by (pose proof (Z.mod_pos_bound (56 - size_of data) 64); lia).
    apply Z.mod_divide in E as [q Hq]; [|done].
    replace (size_of data) with (56 + (- q) * 64) by lia. by rewrite Z_mod_plus_full.
  - apply IH. unfold size_of in *. rewrite length_app. cbn [length]. rewrite Nat2Z.inj_add.
    pose proof (Z.mod_pos_bound (56 - Z.of_nat (length data)) 64).
    assert ((56 - Z.of_nat (length data)) mod 64 <> 0).
    { intros E. apply Z.mod_divide in E as [q Hq]; [|done]. apply Hne.
      replace (Z.of_nat (length data)) with (56 + (- q) * 64) by lia. by rewrite Z_mod_plus_full. }
    replace (56 - (Z.of_nat (length data) + Z.of_nat 1)) with ((56 - Z.of_nat (length data)) - 1) by lia.
    rewrite Zminus_mod, (Z.mod_small 1) by lia. rewrite Z.mod_small; lia.
Qed.

(** the padded message is a whole number of 64-byte blocks, so the block loop
    of [sha256_digest] never reads past its end. *)
Theorem padded_blocks data : (64 | size_of (padded data)).
Proof.
  unfold padded, size_of. rewrite length_app, Nat2Z.inj_add. fold (size_of (pad_zeros 63 (data ++ [128]))).
  apply Z.mod_divide; [done|].
  rewrite Z.add_mod, pad_zeros_spec by (done || pose proof (Z.mod_pos_bound (56 - size_of (data ++ [128])) 64); lia).
  reflexivity.
Qed.

Definition is_hex (c : ascii) : bool := in_range "0" "9" c || in_range "a" "f" c.

Lemma hex_digit_hex z : 0 <= z < 16 -> is_hex (hex_digit z) = true.
Proof.
  intros H. assert (z ∈ [0;1;2;3;4;5;6;7;8;9;10;11;12;13;14;15]) as E.
  { rewrite !elem_of_cons. lia. }
  clear H. revert z E. apply Forall_forall. by repeat constructor.
Qed.

Lemma hex8_form w s :
  String.length (hex8 w +:+ s) = (8 + String.length s)%nat
  /\ (str_forallb is_hex s = true -> str_forallb is_hex (hex8 w +:+ s) = true).
Proof.
  split; [reflexivity|]. intros Hs. cbn -[hex_digit is_hex Z.mul].
  rewrite !hex_digit_hex by (apply Z.mod_pos_bound; lia). done.
Qed.

(** a digest is "sha256:" followed by exactly 64 lower-case hexadecimal digits,
    for every input. *)
Theorem sha256_digest_form input :
  exists hex, sha256_digest input = ("sha256:" +:+ hex)%string
    /\ String.length hex = 64%nat /\ str_forallb is_hex hex = true.
Proof.
  eexists. split; [reflexivity|]. unfold words. cbn [fold_right].
  split; rewrite ?str_length_app; [reflexivity|].
  repeat (apply hex8_form). done.
Qed.
#[global] Arguments sha256_digest : simpl never.
