(* ===== verification/Ir.v ===== *)
(** * Compiled workflows (src/ir.cpp, include/dage/ir.hpp)

    [compile] turns a normalised workflow document into the records the runtime
    executes, charging every string and value against a byte budget.  The theorems
    show that an accepted workflow stays within the budget by a reference count of
    its own bytes, that [find_node] is the index of exactly the document's nodes,
    and that the digest ignores the revision marker. *)

From S2P Require Import Prelude Json Sha256.
Open Scope string_scope.
Open Scope list_scope.
Open Scope Z_scope.

Inductive NodeType :=
| Llm | Tool | Transform | Condition | Parallel | Join | Subflow | Human | Start | End_ | Noop | Custom.
Inductive EffectKind := Pure | LocalState | ExternalRead | ExternalWrite | Irreversible.
Inductive ReplayPolicy := Safe | Idempotent | AtMostOnce | Manual | Forbidden.
#[export] Instance NodeType_eq_dec : EqDecision NodeType.
Proof. solve_decision. Defined.
#[export] Instance EffectKind_eq_dec : EqDecision EffectKind.
Proof. solve_decision. Defined.
#[export] Instance ReplayPolicy_eq_dec : EqDecision ReplayPolicy.
Proof. solve_decision. Defined.

Record EdgeIR := mkEdge {
  e_target : string; e_condition : string; e_otherwise : bool;
  e_set_values : json; e_loop : json; e_max_hits : Z
}.
Record NodeIR := mkNode {
  n_id : string; n_name : string; n_executor : string; n_idempotency_key : string;
  n_parallel_join : string; n_type : NodeType; n_enabled : bool; n_executor_guarantees : bool;
  n_input : json; n_config : json; n_parallel_policy : json;
  n_effect : EffectKind; n_replay : ReplayPolicy;
  n_timeout_ms : Z; n_retry_delay_ms : Z; n_retry_jitter_ms : Z; n_max_attempts : Z;
  n_retry_backoff : string; n_next : list EdgeIR; n_error : list EdgeIR; n_branches : list string
}.
Record WorkflowIR := mkWorkflow {
  w_id : string; w_entry : string; w_digest : string;
  w_max_steps : Z; w_timeout_ms : Z; w_max_parallel : Z;
  w_nodes : list NodeIR; w_index : list (string * nat)
}.

Definition find_node (ir : WorkflowIR) (id : string) : option NodeIR :=
  i ← om_get id (w_index ir); w_nodes ir !! i.

Definition node_type_table : list (string * NodeType) :=
  [("llm", Llm); ("tool", Tool); ("transform", Transform); ("condition", Condition);
   ("parallel", Parallel); ("join", Join); ("subflow", Subflow); ("human", Human);
   ("start", Start); ("end", End_); ("noop", Noop); ("custom", Custom)].

Definition node_type (type : string) : exc NodeType :=
  match om_get type node_type_table with
  | Some t => Ok t
  | None => Err (RuntimeError "unknown node type")
  end.

Definition effect_kind (value : string) : EffectKind :=
  if String.eqb value "pure" then Pure
  else if String.eqb value "local_state" then LocalState
  else if String.eqb value "external_read" then ExternalRead
  else if String.eqb value "external_write" then ExternalWrite
  else if String.eqb value "irreversible" then Irreversible
  else Pure.

Definition replay_policy (value : string) : ReplayPolicy :=
  if String.eqb value "safe" then Safe
  else if String.eqb value "idempotent" then Idempotent
  else if String.eqb value "at_most_once" then AtMostOnce
  else if String.eqb value "manual" then Manual
  else if String.eqb value "forbidden" then Forbidden
  else Safe.

Section Compile.
Context {J : JsonLib}.

Definition parse (text : string) : exc json :=
  match jl_parse text with Ok root => Ok root | Err errors => Err (RuntimeError errors) end.

Definition value_of (value : json) : exc json := parse_json (jl_write_ascii value).

Definition as_edge (value : json) : json :=
  if is_string value then JObject [("to", value)] else value.

Definition edge_values (node : json) (field : string) : exc (list json) :=
  present ← jmember field node;
  if negb present then Ok [] else
  value ← jget field node;
  Ok match value with
     | JString _ => [as_edge value]
     | JObject _ => [value]
     | JArray l => as_edge <$> l
     | _ => []
     end.

(** [account(amount)]: the bytes charged so far are threaded through the calls. *)
Definition account (max_accounted_bytes accounted amount : Z) : exc Z :=
  if (max_accounted_bytes <? accounted) || (max_accounted_bytes - accounted <? amount) then
    let observed := if u64_max - accounted <? amount then "overflow" else to_string (accounted + amount) in
    Err (RuntimeError ("WORKFLOW_IR_BYTES_LIMIT: observed=" +:+ observed +:+
                       " limit=" +:+ to_string max_accounted_bytes))
  else Ok (accounted + amount).

Definition value_bytes (v : json) : Z := str_len (write_json v false).

Fixpoint add_edges (max accounted : Z) (l : list json) : exc (Z * list EdgeIR) :=
  match l with
  | [] => Ok (accounted, [])
  | e :: l' =>
    target ← get_string "to" "" e;
    condition ← get_string "when" "" e;
    otherwise ← get_bool "otherwise" false e;
    set_json ← jget_or "set" (JObject []) e; set_values ← value_of set_json;
    loop_json ← jget_or "loop" (JObject []) e; loop ← value_of loop_json;
    max_hits ← get_uint "max_hits" 0 e;
    accounted ← account max accounted
      (128 + str_len target + str_len condition + value_bytes set_values + value_bytes loop);
    '(accounted, rest) ← add_edges max accounted l';
    Ok (accounted, mkEdge target condition otherwise set_values loop max_hits :: rest)
  end.

Fixpoint account_all (max accounted : Z) (branches : list string) : exc Z :=
  match branches with
  | [] => Ok accounted
  | b :: rest => accounted ← account max accounted (str_len b + 16); account_all max accounted rest
  end.

Fixpoint map_exc {A B} (f : A -> exc B) (l : list A) : exc (list B) :=
  match l with
  | [] => Ok []
  | x :: l' => y ← f x; ys ← map_exc f l'; Ok (y :: ys)
  end.

(** One iteration of the loop over the node names. *)
Definition compile_node (max accounted : Z) (id : string) (source : json) : exc (Z * NodeIR) :=
  name ← get_string "name" id source;
  type_json ← jget "type" source; type_name ← jl_as_string type_json; type ← node_type type_name;
  enabled ← get_bool "enabled" true source;
  executor ← get_string "executor" "" source;
  input_json ← jget_or "input" (JObject []) source; input ← value_of input_json;
  config_json ← jget_or "config" (JObject []) source; config ← value_of config_json;
  timeout_ms ← get_uint64 "timeout_ms" 0 source;
  retry ← jget "retry" source;
  max_attempts ← get_uint "max_attempts" 1 retry;
  retry_delay_ms ← get_uint64 "delay_ms" 0 retry;
  retry_jitter_ms ← get_uint64 "jitter_ms" 0 retry;
  retry_backoff ← get_string "backoff" "fixed" retry;
  effects ← jget_or "effects" (JObject []) source;
  kind ← get_string "kind" "pure" effects;
  replay ← get_string "replay" "safe" effects;
  idempotency_key ← get_string "idempotency_key" "" effects;
  guarantees ← get_bool "executor_guarantees_idempotency" false effects;
  accounted ← account max accounted
    (256 + str_len id + str_len name + str_len executor + str_len idempotency_key
     + str_len retry_backoff + value_bytes input + value_bytes config);
  next_json ← edge_values source "next";
  '(accounted, next) ← add_edges max accounted next_json;
  error_json ← edge_values source "on_error";
  '(accounted, error) ← add_edges max accounted error_json;
  branches_json ← jget "branches" source;
  branches ← (if is_array branches_json then map_exc jl_as_string (jitems branches_json) else Ok []);
  join ← get_string "join" "" source;
  policy_json ← jget_or "policy" (JObject []) source; policy ← value_of policy_json;
  accounted ← account max accounted (str_len join + value_bytes policy);
  accounted ← account_all max accounted branches;
  Ok (accounted,
      mkNode id name executor idempotency_key join type enabled guarantees input config policy
        (effect_kind kind) (replay_policy replay) timeout_ms retry_delay_ms retry_jitter_ms
        max_attempts retry_backoff next error branches).

Fixpoint compile_nodes (max accounted : Z) (nodes : json) (names : list string)
    (index : list (string * nat)) (done : list NodeIR) : exc (Z * list NodeIR * list (string * nat)) :=
  match names with
  | [] => Ok (accounted, done, index)
  | id :: rest =>
    source ← jget id nodes;
    '(accounted, node) ← compile_node max accounted id source;
    compile_nodes max accounted nodes rest (om_set id (length done) index) (done ++ [node])
  end.

(** [WorkflowIRCompiler::compile], with the bytes charged beside the workflow. *)
Definition compile_accounted (normalized : string) (max : Z) : exc (Z * WorkflowIR) :=
  root ← parse normalized;
  semantic ← jremove "x_revision" root;
  id ← get_string "id" "" root;
  entry_json ← jget "entry" root; entry ← jl_as_string entry_json;
  accounted ← account max 128 (str_len id + str_len entry + 64);
  limits ← jget "limits" root;
  max_steps ← get_uint64 "max_steps" 1000 limits;
  timeout_ms ← get_uint64 "timeout_ms" 0 limits;
  max_parallel ← get_uint "max_parallel" 1 limits;
  nodes ← jget "nodes" root;
  names ← jmembers nodes;
  '(accounted, node_list, index) ← compile_nodes max accounted nodes names [] [];
  Ok (accounted, mkWorkflow id entry (sha256_digest (jl_write_ascii semantic)) max_steps timeout_ms
                   max_parallel node_list index).

Definition compile_workflow_ir (normalized : string) (max : Z) : exc WorkflowIR :=
  if max =? 0 then Err (InvalidArgument "IR byte budget must be positive")
  else snd <$> compile_accounted normalized max.

(** ** The byte budget

    The reference count: what the workflow's own strings and values weigh. *)
Definition edge_bytes (e : EdgeIR) : Z :=
  128 + str_len (e_target e) + str_len (e_condition e) + value_bytes (e_set_values e)
  + value_bytes (e_loop e).
Definition sum_Z (l : list Z) : Z := fold_right Z.add 0 l.
Definition node_bytes (n : NodeIR) : Z :=
  256 + str_len (n_id n) + str_len (n_name n) + str_len (n_executor n)
  + str_len (n_idempotency_key n) + str_len (n_retry_backoff n) + value_bytes (n_input n)
  + value_bytes (n_config n) + sum_Z (edge_bytes <$> n_next n) + sum_Z (edge_bytes <$> n_error n)
  + str_len (n_parallel_join n) + value_bytes (n_parallel_policy n)
  + sum_Z ((fun b => str_len b + 16) <$> n_branches n).
Definition ir_bytes (ir : WorkflowIR) : Z :=
  192 + str_len (w_id ir) + str_len (w_entry ir) + sum_Z (node_bytes <$> w_nodes ir).

Lemma sum_Z_cons z l : sum_Z (z :: l) = z + sum_Z l.
Proof. reflexivity. Qed.
Lemma sum_Z_app l l' : sum_Z (l ++ l') = sum_Z l + sum_Z l'.
Proof. induction l as [|z l IH]; simpl; [done|]. unfold sum_Z in *. simpl. lia. Qed.
#[local] Arguments sum_Z : simpl never.

Lemma account_Ok max a n b : account max a n = Ok b -> b = a + n /\ b <= max.
Proof.
  unfold account. destruct (max <? a) eqn:E1; [done|]. destruct (max - a <? n) eqn:E2; [done|].
  simpl. intros [= <-]. lia.
Qed.

Ltac accounted :=
  repeat match goal with H : account _ _ _ = Ok _ |- _ => apply account_Ok in H as [-> ?] end.

Lemma add_edges_Ok max a l b es :
  add_edges max a l = Ok (b, es) -> a <= max -> b = a + sum_Z (edge_bytes <$> es) /\ b <= max.
Proof.
  revert a b es. induction l as [|e l IH]; cbn [add_edges]; intros a b es H Ha; simplify_res.
  - simplify_eq. simpl. change (sum_Z []) with 0. lia.
  - accounted. match goal with H : add_edges _ _ _ = Ok _ |- _ => eapply IH in H as [-> ?]; [|lia] end.
    rewrite fmap_cons, sum_Z_cons. unfold edge_bytes at 2. simpl. lia.
Qed.

Lemma account_all_Ok max a l b :
  account_all max a l = Ok b -> a <= max ->
  b = a + sum_Z ((fun x => str_len x + 16) <$> l) /\ b <= max.
Proof.
  revert a b. induction l as [|x l IH]; cbn [account_all]; intros a b H Ha; simplify_res.
  - simpl. change (sum_Z []) with 0. lia.
  - accounted. match goal with H : account_all _ _ _ = Ok _ |- _ => eapply IH in H as [-> ?]; [|lia] end.
    rewrite fmap_cons, sum_Z_cons. lia.
Qed.

Lemma compile_node_Ok max a id src b n :
  compile_node max a id src = Ok (b, n) -> a <= max ->
  b = a + node_bytes n /\ b <= max /\ n_id n = id.
Proof.
  unfold compile_node. intros H Ha. simplify_res. accounted.
  repeat match goal with
  | H : add_edges _ _ _ = Ok _ |- _ => apply add_edges_Ok in H as [-> ?]; [|lia]
  | H : account_all _ _ _ = Ok _ |- _ => apply account_all_Ok in H as [-> ?]; [|lia]
  end.
  unfold node_bytes. simpl. split_and!; [lia|lia|done].
Qed.

(** The index the loop builds: names at their positions. *)
Lemma compile_nodes_Ok max a nodes names index done b ns ix :
  compile_nodes max a nodes names index done = Ok (b, ns, ix) -> a <= max ->
  exists new, ns = done ++ new /\ n_id <$> new = names
    /\ b = a + sum_Z (node_bytes <$> new) /\ b <= max
    /\ ix = foldl (fun m p => om_set p.1 p.2 m) index (zip names (seq (length done) (length names))).
Proof.
  revert a index done. induction names as [|id names IH]; cbn [compile_nodes]; intros a index done H Ha;
    simplify_res.
  - simplify_eq. exists []. rewrite app_nil_r. change (sum_Z (node_bytes <$> [])) with 0.
    split_and!; (done || lia).
  - match goal with H : compile_node _ _ _ _ = Ok _ |- _ => apply compile_node_Ok in H as (-> & ? & <-); [|done] end.
    match goal with H : compile_nodes _ _ _ _ _ _ = Ok _ |- _ =>
      eapply IH in H as (new & -> & Hids & -> & ? & ->); [|done] end.
    eexists (_ :: new). rewrite <- app_assoc, !fmap_cons, sum_Z_cons, Hids.
    rewrite length_app. cbn [length zip zip_with seq foldl]. rewrite Nat.add_1_r.
    split_and!; (done || lia).
Qed.

(** a workflow [compile] accepts weighs exactly the bytes charged for it, at most
    the budget. *)
Theorem compile_within_budget normalized max accounted ir :
  compile_accounted normalized max = Ok (accounted, ir) ->
  accounted = ir_bytes ir /\ ir_bytes ir <= max.
Proof.
  unfold compile_accounted. intros H. simplify_res. accounted.
  match goal with H : compile_nodes _ _ _ _ _ _ = Ok _ |- _ =>
    apply compile_nodes_Ok in H as (new & -> & _ & -> & ? & ->); [|done] end.
  unfold ir_bytes. simpl. lia.
Qed.

Definition index_names (index : list (string * nat)) (start : nat) (names : list string) :=
  foldl (fun m p => om_set p.1 p.2 m) index (zip names (seq start (length names))).

Lemma index_names_get index start names id i :
  om_get id (index_names index start names) = Some i ->
  (start <= i /\ names !! (i - start) = Some id)%nat \/ om_get id index = Some i.
Proof.
  unfold index_names. revert index start. induction names as [|x names IH]; intros index start; [by right|].
  cbn [length seq zip zip_with foldl]. intros [[Hle Hi]|H]%IH.
  - left. split; [lia|]. by replace (i - start)%nat with (S (i - S start)) by lia.
  - simpl in H. rewrite om_get_set in H. case_decide; subst; [|by right].
    left. simplify_eq. by rewrite Nat.sub_diag.
Qed.

Lemma index_names_mem index start names id :
  id ∈ names \/ is_Some (om_get id index) -> is_Some (om_get id (index_names index start names)).
Proof.
  unfold index_names. revert index start. induction names as [|x names IH]; intros index start H.
  - destruct H as [H|H]; [by apply elem_of_nil in H|done].
  - cbn [length seq zip zip_with foldl]. apply IH. simpl. rewrite om_get_set, elem_of_cons in *.
    case_decide; naive_solver.
Qed.

(** What the runtime relies on of a compiled workflow: [find_node] finds a node
    under its own identifier, and every node. *)
Definition ir_wf (ir : WorkflowIR) : Prop :=
  (forall id n, find_node ir id = Some n -> n_id n = id)
  /\ (forall n, n ∈ w_nodes ir -> is_Some (find_node ir (n_id n))).

(** C40: [find_node] on a compiled workflow is the index of its nodes by identifier:
    what it finds carries the identifier asked for, and it finds every node. *)
Theorem compile_find_node normalized max ir :
  compile_workflow_ir normalized max = Ok ir -> ir_wf ir.
Proof.
  unfold compile_workflow_ir, compile_accounted. destruct (max =? 0); [done|].
  intros H. simplify_res. accounted.
  match goal with H : compile_nodes _ _ _ _ _ _ = Ok _ |- _ =>
    apply compile_nodes_Ok in H as (new & -> & Hids & -> & ? & ->); [|done] end.
  subst. split; unfold find_node; simpl; fold (index_names [] 0 (n_id <$> new)).
  - intros id n (i & Hi & Hn)%bind_Some. apply index_names_get in Hi as [[_ Hi]|]; [|done].
    rewrite Nat.sub_0_r, list_lookup_fmap, Hn in Hi. simpl in Hi. congruence.
  - intros n Hn. destruct (index_names_mem [] 0 (n_id <$> new) (n_id n)) as [i Hi].
    { left. by apply list_elem_of_fmap_2. }
    rewrite Hi. simpl. apply index_names_get in Hi as [[_ Hi]|]; [|done].
    rewrite Nat.sub_0_r in Hi. apply lookup_lt_Some in Hi. rewrite length_fmap in Hi.
    by apply lookup_lt_is_Some.
Qed.

(** the digest does not depend on the revision marker. *)
Theorem digest_ignores_revision t1 t2 root1 root2 max ir1 ir2 :
  jl_parse t1 = Ok root1 -> jl_parse t2 = Ok root2 ->
  jremove "x_revision" root1 = jremove "x_revision" root2 ->
  compile_workflow_ir t1 max = Ok ir1 -> compile_workflow_ir t2 max = Ok ir2 ->
  w_digest ir1 = w_digest ir2.
Proof.
  unfold compile_workflow_ir, compile_accounted, parse. intros P1 P2 Hsem H1 H2.
  destruct (max =? 0); [done|]. rewrite P1 in H1. rewrite P2 in H2.
  simplify_res. simpl. congruence.
Qed.
End Compile.
