(* ===== verification/Reliability.v ===== *)
(** * Durable state (src/reliability.cpp, include/dage/reliability.hpp)

    The versioned record store a run persists its checkpoints in.  [StateStore] is
    the abstract class, [StateStoreLaws] what the runtime relies on of it; the
    in-memory store and the file store both meet it, the file store through the
    text form of a record and under file-system faults.  Against the laws alone,
    [cas_versions_increase] shows that competing writers and recovery owners never
    win the same version. *)

From S2P Require Import Prelude Sha256.
Open Scope string_scope.
Open Scope list_scope.
Open Scope Z_scope.

(** ** Cancellation token *)
Record CancellationToken := mkToken { ct_cancelled : bool; ct_reason : string }.
#[export] Instance eta_CancellationToken : Settable CancellationToken :=
  fun r => mkToken (ct_cancelled r) (ct_reason r).
Definition new_token : CancellationToken := mkToken false "".
Definition request_cancel (reason : string) (t : CancellationToken) : CancellationToken :=
  mkToken true (if str_empty (ct_reason t) then reason else ct_reason t).

(** ** Records and the store interface *)
Record StateRecord := mkRecord {
  sr_version : Z; sr_epoch : Z; sr_owner : string; sr_checkpoint : string
}.
#[export] Instance eta_StateRecord : Settable StateRecord :=
  fun r => mkRecord (sr_version r) (sr_epoch r) (sr_owner r) (sr_checkpoint r).
Definition empty_record : StateRecord := mkRecord 0 0 "" "".

Definition state_error (code message : string) : Error := mkError "state_store" code message false.

Class StateStore (S : Type) := {
  ss_put : string -> string -> S -> Result bool * S;
  ss_get : string -> S -> Result string * S;
  ss_erase : string -> S -> Result bool * S;
  ss_load : string -> S -> Result StateRecord * S;
  ss_compare_exchange : string -> Z -> string -> S -> Result Z * S;
  ss_claim : string -> Z -> string -> S -> Result StateRecord * S;
  ss_list : string -> S -> Result (list string) * S
}.

(** The record a successful update leaves. *)
Definition cas_record (r : StateRecord) (checkpoint : string) : StateRecord :=
  mkRecord (u64 (sr_version r + 1)) (sr_epoch r) (sr_owner r) checkpoint.
Definition claim_record (r : StateRecord) (owner : string) : StateRecord :=
  mkRecord (u64 (sr_version r + 1)) (u64 (sr_epoch r + 1)) owner (sr_checkpoint r).

(** [ss_content] is the record held under a run identifier, [empty_record] where
    there is none.  A success is atomic; a reported conflict changed nothing; any
    other failure may or may not have replaced the record. *)
Class StateStoreLaws (S : Type) `{StateStore S} := {
  ss_content : S -> string -> StateRecord;
  ss_cas_ok : forall id e cp s v s', str_len cp <= u64_max ->
    ss_compare_exchange id e cp s = (Ok v, s') ->
    sr_version (ss_content s id) = e /\ v = u64 (e + 1)
    /\ ss_content s' id = cas_record (ss_content s id) cp;
  ss_cas_err : forall id e cp s err s', str_len cp <= u64_max ->
    ss_compare_exchange id e cp s = (Err err, s') ->
    ss_content s' id = ss_content s id
    \/ (err_code err <> "STATE_CONFLICT" /\ ss_content s' id = cas_record (ss_content s id) cp);
  ss_claim_ok : forall id e o s r s',
    ss_claim id e o s = (Ok r, s') ->
    sr_version (ss_content s id) = e /\ r = claim_record (ss_content s id) o
    /\ ss_content s' id = r;
  ss_claim_err : forall id e o s err s',
    ss_claim id e o s = (Err err, s') ->
    ss_content s' id = ss_content s id
    \/ (err_code err <> "STATE_CONFLICT" /\ ss_content s' id = claim_record (ss_content s id) o);
  ss_frame : forall id id' e cp o s, id <> id' ->
    ss_content (ss_compare_exchange id e cp s).2 id' = ss_content s id'
    /\ ss_content (ss_claim id e o s).2 id' = ss_content s id';
  ss_load_ok : forall id s r s', ss_load id s = (Ok r, s') ->
    r = ss_content s id /\ ss_content s' id = ss_content s id;
  ss_load_missing : forall id s e s', ss_load id s = (Err e, s') ->
    err_code e = "STATE_NOT_FOUND" -> ss_content s id = empty_record
}.

(** ** MemoryStateStore *)
Record MemoryStateStore := mkMemory { mem_states : list (string * StateRecord) }.

(** [states_[run_id]]: a reference, inserting a default record where there is none. *)
Definition mem_at (run_id : string) (s : MemoryStateStore) : StateRecord :=
  default empty_record (om_get run_id (mem_states s)).
Definition mem_write (run_id : string) (r : StateRecord) (s : MemoryStateStore) : MemoryStateStore :=
  mkMemory (om_set run_id r (mem_states s)).

Definition memory_put (run_id checkpoint : string) (s : MemoryStateStore) : Result bool * MemoryStateStore :=
  if str_empty run_id then (Err (state_error "INVALID_RUN_ID" "run id is empty"), s)
  else (Ok true, mem_write run_id (cas_record (mem_at run_id s) checkpoint) s).

Definition memory_load (run_id : string) (s : MemoryStateStore) : Result StateRecord * MemoryStateStore :=
  match om_get run_id (mem_states s) with
  | None => (Err (state_error "STATE_NOT_FOUND" ("run state not found: " +:+ run_id)), s)
  | Some r => (Ok r, s)
  end.

Definition memory_get (run_id : string) (s : MemoryStateStore) : Result string * MemoryStateStore :=
  match om_get run_id (mem_states s) with
  | None => (Err (state_error "STATE_NOT_FOUND" ("run state not found: " +:+ run_id)), s)
  | Some r => (Ok (sr_checkpoint r), s)
  end.

Definition memory_erase (run_id : string) (s : MemoryStateStore) : Result bool * MemoryStateStore :=
  (Ok (om_mem run_id (mem_states s)), mkMemory (om_del run_id (mem_states s))).

Definition memory_compare_exchange (run_id : string) (expected : Z) (checkpoint : string)
    (s : MemoryStateStore) : Result Z * MemoryStateStore :=
  let record := mem_at run_id s in
  if negb (sr_version record =? expected) then
    (Err (state_error "STATE_CONFLICT" "state version conflict"), mem_write run_id record s)
  else
    let record' := cas_record record checkpoint in
    (Ok (sr_version record'), mem_write run_id record' s).

Definition memory_claim (run_id : string) (expected : Z) (owner : string) (s : MemoryStateStore)
    : Result StateRecord * MemoryStateStore :=
  match om_get run_id (mem_states s) with
  | None => (Err (state_error "STATE_NOT_FOUND" "run state not found"), s)
  | Some r =>
    if negb (sr_version r =? expected) then
      (Err (state_error "STATE_CONFLICT" "recovery ownership conflict"), s)
    else (Ok (claim_record r owner), mem_write run_id (claim_record r owner) s)
  end.

Definition memory_list (prefix : string) (s : MemoryStateStore) : Result (list string) * MemoryStateStore :=
  (Ok (List.filter (str_prefix prefix) (mem_states s).*1), s).

#[export] Instance memory_store : StateStore MemoryStateStore := {|
  ss_put := memory_put; ss_get := memory_get; ss_erase := memory_erase; ss_load := memory_load;
  ss_compare_exchange := memory_compare_exchange; ss_claim := memory_claim; ss_list := memory_list
|}.

(** ** The text form of a record *)

(** [std::stoull(s)] in base 10: white space, an optional sign, digits; what
    follows the digits is ignored, a negative number wraps. *)
Definition is_space (c : ascii) : bool := in_range "009" "013" c || Ascii.eqb c " ".
Definition is_digit (c : ascii) : bool := in_range "0" "9" c.

Fixpoint skip_space (s : string) : string :=
  match s with
  | String c s' => if is_space c then skip_space s' else s
  | EmptyString => s
  end.
Fixpoint digits_value (acc : Z) (s : string) : Z :=
  match s with
  | String c s' => if is_digit c then digits_value (acc * 10 + (code c - 48)) s' else acc
  | EmptyString => acc
  end.
Definition starts_with_digit (s : string) : bool :=
  match s with String c _ => is_digit c | EmptyString => false end.

Definition stoull (s : string) : exc Z :=
  let s := skip_space s in
  let '(negative, s) :=
    match s with
    | String c s' => if Ascii.eqb c "-" then (true, s') else if Ascii.eqb c "+" then (false, s') else (false, s)
    | EmptyString => (false, s)
    end in
  if negb (starts_with_digit s) then Err (InvalidArgument "stoull")
  else let v := digits_value 0 s in
       if u64_max <? v then Err (OutOfRange "stoull")
       else Ok (if negative then u64 (- v) else v).

(** [std::getline]: fails at the end of the input. *)
Fixpoint split_line (s : string) : string * string :=
  match s with
  | EmptyString => (EmptyString, EmptyString)
  | String c s' =>
    if Ascii.eqb c "010" then (EmptyString, s')
    else let '(l, r) := split_line s' in (String c l, r)
  end.
Definition getline (s : string) : exc (string * string) :=
  match s with
  | EmptyString => Err (RuntimeError "invalid state record header")
  | _ => Ok (split_line s)
  end.

Definition decode_record (bytes : string) : exc StateRecord :=
  '(magic, r) ← getline bytes;
  if negb (String.eqb magic "DAGESTATE1") then Err (RuntimeError "invalid state record header") else
  '(version, r) ← getline r;
  '(epoch, r) ← getline r;
  '(owner, r) ← getline r;
  '(length, r) ← getline r;
  '(checksum, r) ← getline r;
  version ← stoull version;
  epoch ← stoull epoch;
  length ← stoull length;
  if negb (str_len r =? length) then Err (RuntimeError "state record length mismatch")
  else if negb (String.eqb (sha256_digest r) checksum) then
    Err (RuntimeError "state record checksum mismatch")
  else Ok (mkRecord version epoch owner r).

Definition encode_record (record : StateRecord) : string :=
  "DAGESTATE1" +:+ nl +:+ to_string (sr_version record) +:+ nl +:+ to_string (sr_epoch record)
  +:+ nl +:+ sr_owner record +:+ nl +:+ to_string (str_len (sr_checkpoint record)) +:+ nl
  +:+ sha256_digest (sr_checkpoint record) +:+ nl +:+ sr_checkpoint record.

(** ** FileStateStore

    [fs_files] is the directory's [<id>.state] files in the order [std::sort] gives
    their stems.  Each call meets the next of [fs_faults]: the lock cannot be taken,
    the record cannot be opened, or [atomic_write] fails before its rename (the
    record is the old one) or after it, at the flush of the directory (the record is
    the new one). *)
Inductive fs_fault := FsNone | FsLock | FsOpen | FsBeforeRename (what : string) | FsAfterRename | FsRemove (what : string).
Record FileStateStore := mkFile { fs_files : list (string * string); fs_faults : list fs_fault }.
Definition next_fault (s : FileStateStore) : fs_fault := default FsNone (head (fs_faults s)).
Definition pop_fault (s : FileStateStore) : FileStateStore := mkFile (fs_files s) (tail (fs_faults s)).

Definition run_id_char (c : ascii) : bool :=
  in_range "a" "z" c || in_range "A" "Z" c || in_range "0" "9" c || Ascii.eqb c "-" || Ascii.eqb c "_".
Definition valid_run_id (value : string) : bool :=
  negb (str_empty value || String.eqb value "." || String.eqb value "..") && str_forallb run_id_char value.

Definition read_file (fault : fs_fault) (bytes : option string) : exc string :=
  match fault, bytes with
  | FsOpen, _ | _, None => Err (RuntimeError "state record not found")
  | _, Some b => Ok b
  end.

Definition atomic_write (fault : fs_fault) (run_id content : string) (s : FileStateStore)
    : exc unit * FileStateStore :=
  match fault with
  | FsBeforeRename w => (Err (RuntimeError w), s)
  | FsAfterRename => (Err (RuntimeError "cannot durably flush state directory"),
                      mkFile (om_set run_id content (fs_files s)) (fs_faults s))
  | _ => (Ok tt, mkFile (om_set run_id content (fs_files s)) (fs_faults s))
  end.

Definition directory_lock (fault : fs_fault) : exc unit :=
  match fault with FsLock => Err (RuntimeError "state store lock timeout") | _ => Ok tt end.

Definition io_error (e : exn) : Error := state_error "STATE_IO_ERROR" (what e).

Definition file_load (run_id : string) (s : FileStateStore) : Result StateRecord * FileStateStore :=
  if negb (valid_run_id run_id) then (Err (state_error "INVALID_RUN_ID" "invalid run id"), s) else
  let fault := next_fault s in
  let s := pop_fault s in
  match om_get run_id (fs_files s) with
  | None => (Err (state_error "STATE_NOT_FOUND" "state record not found"), s)
  | Some b =>
    (match b ← read_file fault (Some b); decode_record b with
     | Ok r => Ok r
     | Err ex => Err (state_error "STATE_CORRUPT" (what ex))
     end, s)
  end.

Definition file_get (run_id : string) (s : FileStateStore) : Result string * FileStateStore :=
  let '(record, s) := file_load run_id s in
  (match record with Ok r => Ok (sr_checkpoint r) | Err e => Err e end, s).

(** The record on disk, the empty record where there is no file. *)
Definition current_record (fault : fs_fault) (run_id : string) (s : FileStateStore) : exc StateRecord :=
  match om_get run_id (fs_files s) with
  | Some b => b ← read_file fault (Some b); decode_record b
  | None => Ok empty_record
  end.

Definition file_compare_exchange (run_id : string) (expected : Z) (checkpoint : string)
    (s : FileStateStore) : Result Z * FileStateStore :=
  if negb (valid_run_id run_id) then (Err (state_error "INVALID_RUN_ID" "invalid run id"), s) else
  let fault := next_fault s in
  let s := pop_fault s in
  match directory_lock fault ≫= (fun _ => current_record fault run_id s) with
  | Err ex => (Err (io_error ex), s)
  | Ok old =>
    if negb (sr_version old =? expected) then
      (Err (state_error "STATE_CONFLICT" "state version conflict"), s)
    else
      let next := cas_record old checkpoint in
      match atomic_write fault run_id (encode_record next) s with
      | (Err ex, s) => (Err (io_error ex), s)
      | (Ok _, s) => (Ok (u64 (sr_version old + 1)), s)
      end
  end.

Definition file_claim (run_id : string) (expected : Z) (owner : string) (s : FileStateStore)
    : Result StateRecord * FileStateStore :=
  if negb (valid_run_id run_id) || negb (valid_run_id owner) then
    (Err (state_error "INVALID_OWNER" "invalid recovery owner"), s) else
  let fault := next_fault s in
  let s := pop_fault s in
  match directory_lock fault ≫= (fun _ =>
        b ← read_file fault (om_get run_id (fs_files s)); decode_record b) with
  | Err ex => (Err (io_error ex), s)
  | Ok record =>
    if negb (sr_version record =? expected) then
      (Err (state_error "STATE_CONFLICT" "recovery ownership conflict"), s)
    else
      let record := claim_record record owner in
      match atomic_write fault run_id (encode_record record) s with
      | (Err ex, s) => (Err (io_error ex), s)
      | (Ok _, s) => (Ok record, s)
      end
  end.

Definition file_list (prefix : string) (s : FileStateStore) : Result (list string) * FileStateStore :=
  (Ok (List.filter (str_prefix prefix) (fs_files s).*1), s).

Fixpoint file_put_attempts (n : nat) (run_id checkpoint : string) (s : FileStateStore)
    : Result bool * FileStateStore :=
  match n with
  | O => (Err (state_error "STATE_CONFLICT" "state update retries exhausted"), s)
  | S n' =>
    let '(record, s) := file_load run_id s in
    let version := match record with Ok r => sr_version r | Err _ => 0 end in
    let '(saved, s) := file_compare_exchange run_id version checkpoint s in
    match saved with
    | Ok _ => (Ok true, s)
    | Err e => if negb (String.eqb (err_code e) "STATE_CONFLICT") then (Err e, s)
               else file_put_attempts n' run_id checkpoint s
    end
  end.
Definition file_put := file_put_attempts 16.

Definition file_erase (run_id : string) (s : FileStateStore) : Result bool * FileStateStore :=
  if negb (valid_run_id run_id) then (Err (state_error "INVALID_RUN_ID" "invalid run id"), s) else
  let fault := next_fault s in
  let s := pop_fault s in
  match directory_lock fault with
  | Err ex => (Err (io_error ex), s)
  | Ok _ =>
    match fault with
    | FsRemove w => (Err (state_error "STATE_IO_ERROR" w), s)
    | _ => (Ok (om_mem run_id (fs_files s)), mkFile (om_del run_id (fs_files s)) (fs_faults s))
    end
  end.

#[export] Instance file_store : StateStore FileStateStore := {|
  ss_put := file_put; ss_get := file_get; ss_erase := file_erase; ss_load := file_load;
  ss_compare_exchange := file_compare_exchange; ss_claim := file_claim; ss_list := file_list
|}.

(** ** Lemmas: numbers and lines *)
Lemma pretty_digit d :
  (d < 10)%N -> is_digit (pretty_N_char d) = true /\ code (pretty_N_char d) = Z.of_N d + 48.
Proof.
  intros H. assert (d ∈ [0;1;2;3;4;5;6;7;8;9]%N) as E by (rewrite !elem_of_cons; lia).
  clear H. revert d E. apply Forall_forall. by repeat constructor.
Qed.

Lemma digits_value_pretty x s :
  digits_value 0 (pretty_N_go x s) = digits_value (Z.of_N x) s.
Proof.
  revert s. induction x as [x IH] using (well_founded_induction N.lt_wf_0); intros s.
  destruct (decide (0 < x)%N) as [Hx|Hx].
  - rewrite pretty_N_go_step by done. rewrite IH by (apply N.div_lt; lia).
    destruct (pretty_digit (x `mod` 10)) as [E1 E2]; [apply N.mod_lt; lia|].
    cbn [digits_value]. rewrite E1, E2. f_equal.
    pose proof (N.div_mod x 10). lia.
  - assert (x = 0%N) as -> by lia. by rewrite pretty_N_go_0.
Qed.

Lemma starts_digit_pretty x s :
  starts_with_digit s = true \/ (0 < x)%N -> starts_with_digit (pretty_N_go x s) = true.
Proof.
  revert s. induction x as [x IH] using (well_founded_induction N.lt_wf_0); intros s Hs.
  destruct (decide (0 < x)%N) as [Hx|Hx].
  - rewrite pretty_N_go_step by done. apply IH; [apply N.div_lt; lia|]. left.
    apply pretty_digit, N.mod_lt. lia.
  - assert (x = 0%N) as -> by lia. rewrite pretty_N_go_0. destruct Hs; [done|lia].
Qed.

Lemma starts_digit_to_string z : 0 <= z -> starts_with_digit (to_string z) = true.
Proof.
  intros Hz. unfold to_string. destruct z as [|p|p]; [done| |lia].
  change (starts_with_digit (pretty_N_go (N.pos p) "") = true). apply starts_digit_pretty. right. lia.
Qed.

Lemma digits_value_to_string z : 0 <= z -> digits_value 0 (to_string z) = z.
Proof.
  intros Hz. unfold to_string. destruct z as [|p|p]; [done| |lia].
  change (digits_value 0 (pretty_N_go (N.pos p) "") = Z.pos p). by rewrite digits_value_pretty.
Qed.

Lemma digit_cases c : is_digit c = true -> is_space c = false /\ Ascii.eqb c "-" = false /\ Ascii.eqb c "+" = false.
Proof. destruct c as [[] [] [] [] [] [] [] []]; vm_compute; intros; by try discriminate. Qed.

Lemma stoull_to_string z : 0 <= z <= u64_max -> stoull (to_string z) = Ok z.
Proof.
  intros Hz. pose proof (starts_digit_to_string z) as Hd. pose proof (digits_value_to_string z) as Hv.
  destruct (to_string z) as [|c s]; [by specialize (Hd ltac:(lia))|].
  specialize (Hd ltac:(lia)). specialize (Hv ltac:(lia)). cbn [starts_with_digit] in Hd.
  unfold stoull. destruct (digit_cases c Hd) as (E1 & E2 & E3). cbn [skip_space]. rewrite E1, E2, E3.
  cbn [starts_with_digit]. rewrite Hd, Hv. cbn [negb].
  by destruct (Z.ltb_spec u64_max z); [lia|].
Qed.

Lemma stoull_range s z : stoull s = Ok z -> is_u64 z.
Proof.
  unfold stoull. destruct (match skip_space s with EmptyString => _ | _ => _ end) as [neg t].
  destruct (starts_with_digit t); [|done]. cbn [negb].
  destruct (Z.ltb_spec u64_max (digits_value 0 t)) as [|Hle]; [done|].
  intros [= <-]. destruct neg; [apply u64_range|].
  assert (forall acc u, 0 <= acc -> 0 <= digits_value acc u) as Hpos.
  { intros acc u. revert acc. induction u as [|c u IH]; intros acc Hacc; simpl; [done|].
    destruct (is_digit c) eqn:E; [|done]. apply IH. unfold is_digit, in_range in E.
    change (code "0") with 48 in E. lia. }
  unfold is_u64. unfold u64_max in Hle. specialize (Hpos 0 t). lia.
Qed.

Definition no_newline (s : string) : bool := str_forallb (fun c => negb (Ascii.eqb c "010")) s.

Lemma split_line_app l r : no_newline l = true -> split_line (l +:+ nl +:+ r) = (l, r).
Proof.
  induction l as [|c l IH]; [done|]. cbn [no_newline str_forallb]. intros [Hc Hl]%andb_true_iff.
  cbn [String.append split_line]. rewrite negb_true_iff in Hc. rewrite Hc.
  fold (no_newline l) in Hl. by rewrite (IH Hl).
Qed.

Lemma getline_app l r : no_newline l = true -> getline (l +:+ nl +:+ r) = Ok (l, r).
Proof.
  intros H. unfold getline. rewrite split_line_app by done. destruct l as [|c l]; done.
Qed.

Lemma split_line_no_newline s : no_newline (split_line s).1 = true.
Proof.
  induction s as [|c s IH]; [done|]. cbn [split_line]. destruct (Ascii.eqb c "010") eqn:E; [done|].
  destruct (split_line s) as [l r]. cbn in *. by rewrite E.
Qed.

Lemma getline_no_newline s l r : getline s = Ok (l, r) -> no_newline l = true.
Proof.
  intros H. assert (split_line s = (l, r)) as E by (destruct s; [done|]; by injection H).
  pose proof (split_line_no_newline s) as Hn. by rewrite E in Hn.
Qed.

Lemma no_newline_app a b : no_newline (a +:+ b) = no_newline a && no_newline b.
Proof. unfold no_newline. induction a as [|c a IH]; simpl; [done|]. by rewrite IH, andb_assoc. Qed.

Lemma no_newline_impl p s :
  (forall c, p c = true -> negb (Ascii.eqb c "010") = true) -> str_forallb p s = true -> no_newline s = true.
Proof.
  intros Hp. induction s as [|c s IH]; [done|]. cbn. intros [H1 H2]%andb_true_iff.
  rewrite (Hp c H1). by apply IH.
Qed.

Lemma no_newline_pretty x s : no_newline s = true -> no_newline (pretty_N_go x s) = true.
Proof.
  revert s. induction x as [x IH] using (well_founded_induction N.lt_wf_0); intros s Hs.
  destruct (decide (0 < x)%N) as [Hx|Hx].
  - rewrite pretty_N_go_step by done. apply IH; [apply N.div_lt; lia|].
    destruct (pretty_digit (x `mod` 10)) as [E1 _]; [apply N.mod_lt; lia|].
    cbn. fold (no_newline s). rewrite Hs, andb_true_r. revert E1. generalize (pretty_N_char (x `mod` 10)).
    intros c. destruct c as [[] [] [] [] [] [] [] []]; vm_compute; intros; by try discriminate.
  - assert (x = 0%N) as -> by lia. by rewrite pretty_N_go_0.
Qed.

Lemma no_newline_to_string z : 0 <= z -> no_newline (to_string z) = true.
Proof.
  intros Hz. destruct z as [|p|p]; [done| |lia]. by apply (no_newline_pretty (N.pos p)).
Qed.

Lemma no_newline_digest s : no_newline (sha256_digest s) = true.
Proof.
  unfold sha256_digest, words. cbn [fold_right].
  rewrite no_newline_app. change (no_newline "sha256:") with true. cbn [andb].
  apply (no_newline_impl is_hex); [|by repeat (apply hex8_form)].
  intros c. destruct c as [[] [] [] [] [] [] [] []]; vm_compute; intros; by try discriminate.
Qed.
#[export] Hint Resolve no_newline_digest no_newline_to_string : dage.

(** Records whose text form can be read back. *)
Definition record_ok (r : StateRecord) : Prop :=
  is_u64 (sr_version r) /\ is_u64 (sr_epoch r) /\ no_newline (sr_owner r) = true
  /\ str_len (sr_checkpoint r) <= u64_max.

Lemma decode_encode r : record_ok r -> decode_record (encode_record r) = Ok r.
Proof.
  intros (Hv & He & Ho & Hl). unfold is_u64, u64_max in *. unfold decode_record, encode_record.
  assert (0 <= str_len (sr_checkpoint r)) as Hpos by (unfold str_len; lia).
  rewrite getline_app by done. cbn [mbind res_bind]. rewrite str_eqb_refl. cbn [negb].
  do 5 (rewrite getline_app by (done || auto with dage lia || (apply no_newline_to_string; lia)); cbn [mbind res_bind]).
  rewrite !stoull_to_string by (unfold u64_max; lia). cbn [mbind res_bind].
  rewrite Z.eqb_refl, str_eqb_refl. by destruct r.
Qed.

Lemma decode_ok b r : decode_record b = Ok r -> record_ok r.
Proof.
  unfold decode_record. intros H. simplify_res. destruct (negb _); [done|]. simplify_res.
  match goal with H : context [str_len ?x =? ?n] |- _ => destruct (Z.eqb_spec (str_len x) n) as [El|]; [|done] end. cbn [negb] in *. destruct (negb _); [done|].
  simplify_res. unfold record_ok. simpl.
  repeat match goal with
  | H : stoull _ = Ok _ |- _ => apply stoull_range in H
  | H : getline _ = Ok _ |- _ => apply getline_no_newline in H
  end. unfold is_u64, u64_max in *. split_and!; (done || lia).
Qed.

(** ** The stores meet the laws *)
Definition file_content (s : FileStateStore) (id : string) : StateRecord :=
  match om_get id (fs_files s) with Some b => or_else (decode_record b) empty_record | None => empty_record end.

Lemma run_id_no_newline s : valid_run_id s = true -> no_newline s = true.
Proof.
  unfold valid_run_id. intros [_ H]%andb_true_iff. revert H. apply no_newline_impl.
  intros c. destruct c as [[] [] [] [] [] [] [] []]; vm_compute; intros; by try discriminate.
Qed.

Lemma current_record_Ok f id s r :
  current_record f id s = Ok r ->
  file_content s id = r /\ record_ok r.
Proof.
  unfold current_record, file_content. destruct (om_get id (fs_files s)) as [b|]; [|by intros [= <-]].
  intros (b' & Hb & Hr)%bind_Ok. assert (b' = b) as -> by (destruct f; naive_solver).
  rewrite Hr. split; [done|]. by eapply decode_ok.
Qed.

Lemma cas_record_ok r cp :
  record_ok r -> str_len cp <= u64_max -> record_ok (cas_record r cp).
Proof. intros (_ & ? & ? & _) ?. split_and!; try done. apply u64_range. Qed.

Lemma claim_record_ok r o : record_ok r -> valid_run_id o = true -> record_ok (claim_record r o).
Proof. intros (_ & _ & _ & ?) ?%run_id_no_newline. split_and!; try done; apply u64_range. Qed.
#[export] Hint Resolve cas_record_ok claim_record_ok : dage.

Lemma file_content_set id r fs fl :
  record_ok r -> file_content (mkFile (om_set id (encode_record r) fs) fl) id = r.
Proof. intros H. unfold file_content. simpl. rewrite om_get_set_eq, decode_encode; done. Qed.

Lemma file_content_frame id id' b fs fl fl' :
  id <> id' -> file_content (mkFile (om_set id b fs) fl) id' = file_content (mkFile fs fl') id'.
Proof. intros H. unfold file_content. simpl. by rewrite om_get_set_ne. Qed.

(** What one call of the file store does to the record it names. *)
Lemma file_cas_spec id e cp s out s' :
  str_len cp <= u64_max -> file_compare_exchange id e cp s = (out, s') ->
  (exists v, out = Ok v /\ sr_version (file_content s id) = e /\ v = u64 (e + 1)
     /\ file_content s' id = cas_record (file_content s id) cp)
  \/ (exists err, out = Err err /\ file_content s' id = file_content s id)
  \/ (exists ex, out = Err (io_error ex) /\ file_content s' id = cas_record (file_content s id) cp).
Proof.
  intros Hcp. unfold file_compare_exchange. destruct (valid_run_id id); [|naive_solver]. cbn [negb].
  destruct (_ ≫= _) as [old|ex] eqn:E; [|naive_solver].
  apply bind_Ok in E as (_ & _ & [Hc Hok]%current_record_Ok). rewrite <- Hc in *. clear Hc.
  change (file_content (pop_fault s) id) with (file_content s id) in *.
  destruct (Z.eqb_spec (sr_version (file_content s id)) e) as [He|]; [|naive_solver]. cbn [negb].
  destruct (next_fault s); cbn [atomic_write]; intros [= <- <-];
    rewrite ?file_content_set by auto with dage; rewrite ?He; naive_solver.
Qed.

Lemma file_claim_spec id e o s out s' :
  file_claim id e o s = (out, s') ->
  (exists r, out = Ok r /\ sr_version (file_content s id) = e
     /\ r = claim_record (file_content s id) o /\ file_content s' id = r)
  \/ (exists err, out = Err err /\ file_content s' id = file_content s id)
  \/ (exists ex, out = Err (io_error ex) /\ file_content s' id = claim_record (file_content s id) o).
Proof.
  unfold file_claim. destruct (valid_run_id id); [|naive_solver].
  destruct (valid_run_id o) eqn:Ho; [|naive_solver]. cbn [negb orb].
  destruct (_ ≫= _) as [old|ex] eqn:E; [|naive_solver].
  assert (file_content s id = old /\ record_ok old) as [<- Hok].
  { apply bind_Ok in E as (_ & _ & (b & Hb & Hr)%bind_Ok). unfold file_content. simpl in Hb.
    destruct (om_get id (fs_files s)) as [b'|]; [|by destruct (next_fault s)].
    assert (b' = b) as -> by (destruct (next_fault s); naive_solver). rewrite Hr.
    split; [done|]. by eapply decode_ok. }
  destruct (Z.eqb_spec (sr_version (file_content s id)) e) as [He|]; [|naive_solver]. cbn [negb].
  destruct (next_fault s); cbn [atomic_write]; intros [= <- <-];
    rewrite ?file_content_set by auto with dage; rewrite ?He; naive_solver.
Qed.

Lemma file_frame id id' e cp o s : id <> id' ->
  file_content (file_compare_exchange id e cp s).2 id' = file_content s id'
  /\ file_content (file_claim id e o s).2 id' = file_content s id'.
Proof.
  intros Hne. unfold file_compare_exchange, file_claim. split.
  - destruct (valid_run_id id); [|done]. cbn [negb]. destruct (_ ≫= _); [|done].
    destruct (_ =? _); [|done]. cbn [negb].
    destruct (next_fault s); cbn [atomic_write snd pop_fault]; by rewrite ?(file_content_frame id id' _ _ _ (fs_faults s)).
  - destruct (valid_run_id id); [|done]. destruct (valid_run_id o); [|done]. cbn [negb orb].
    destruct (_ ≫= _); [|done]. destruct (_ =? _); [|done]. cbn [negb].
    destruct (next_fault s); cbn [atomic_write snd pop_fault]; by rewrite ?(file_content_frame id id' _ _ _ (fs_faults s)).
Qed.

#[export] Instance file_laws : StateStoreLaws FileStateStore.
Proof.
  refine {| ss_content := file_content |}.
  - intros id e cp s v s' Hcp H. apply file_cas_spec in H; [|done]. naive_solver.
  - intros id e cp s err s' Hcp H. apply file_cas_spec in H; [|done]. naive_solver.
  - intros id e o s r s' H. apply file_claim_spec in H. naive_solver.
  - intros id e o s err s' H. apply file_claim_spec in H. naive_solver.
  - intros. by apply file_frame.
  - intros id s r s'. simpl. unfold file_load. destruct (valid_run_id id); [|done]. cbn [negb].
    unfold file_content at 1. simpl. destruct (om_get id (fs_files s)) as [b|] eqn:Eb; [|done].
    destruct (_ ≫= _) as [r'|] eqn:E; [|done]. intros [= <- <-].
    apply bind_Ok in E as (b' & Hb & Hr).
    assert (b' = b) as -> by (destruct (next_fault s); naive_solver).
    by rewrite Hr.
  - intros id s err s'. simpl. unfold file_load, file_content. destruct (valid_run_id id); [|by intros [= <- _]].
    cbn. destruct (om_get id (fs_files s)) as [b|]; [|done]. case_match; [done|]. by intros [= <- _].
Defined.

#[export] Instance memory_laws : StateStoreLaws MemoryStateStore.
Proof.
  refine {| ss_content := fun s id => mem_at id s |}; simpl;
    unfold memory_compare_exchange, memory_claim, memory_load, mem_at, mem_write; simpl.
  - intros id e cp s v s' _. destruct (Z.eqb_spec (sr_version (default empty_record (om_get id (mem_states s)))) e);
      cbn [negb]; intros [= <- <-]. simpl. rewrite om_get_set_eq. naive_solver.
  - intros id e cp s err s' _. destruct (_ =? _); cbn [negb]; intros [= <- <-]. simpl. rewrite om_get_set_eq. by left.
  - intros id e o s r s'. destruct (om_get id (mem_states s)) as [r0|]; [|done].
    destruct (Z.eqb_spec (sr_version r0) e); cbn [negb]; intros [= <- <-]. simpl. by rewrite om_get_set_eq.
  - intros id e o s err s'. destruct (om_get id (mem_states s)) as [r0|] eqn:E.
    + destruct (_ =? _); cbn [negb]; intros [= <- <-]. rewrite E. by left.
    + intros [= <- <-]. rewrite E. by left.
  - intros id id' e cp o s Hne. split.
    + destruct (negb _); simpl; by rewrite om_get_set_ne.
    + destruct (om_get id (mem_states s)) as [r0|]; [|done]. destruct (negb _); simpl; by rewrite ?om_get_set_ne.
  - intros id s r s'. destruct (om_get id (mem_states s)) as [r0|] eqn:E; [|done]. intros [= <- <-]. by rewrite E.
  - intros id s err s'. by destruct (om_get id (mem_states s)).
Defined.

(** ** Competing writers

    Any interleaving of checkpoint updates and recovery claims by any number of
    processes, over any number of runs.  [wins id] are the versions the store handed
    out for the run [id]. *)
Inductive store_op :=
| OpCas (id : string) (expected : Z) (checkpoint : string)
| OpClaim (id : string) (expected : Z) (owner : string).

Section History.
Context {S : Type} `{StateStoreLaws S}.

Definition op_id (o : store_op) : string := match o with OpCas id _ _ | OpClaim id _ _ => id end.
Definition op_small (o : store_op) : bool :=
  match o with OpCas _ _ cp => str_len cp <=? u64_max | OpClaim _ _ _ => true end.
Definition apply_op (o : store_op) (s : S) : option Z * S :=
  match o with
  | OpCas id e cp =>
    let '(r, s) := ss_compare_exchange id e cp s in (match r with Ok v => Some v | Err _ => None end, s)
  | OpClaim id e o =>
    let '(r, s) := ss_claim id e o s in (match r with Ok r => Some (sr_version r) | Err _ => None end, s)
  end.
Fixpoint wins (id : string) (ops : list store_op) (s : S) : list Z :=
  match ops with
  | [] => []
  | o :: ops' =>
    let '(v, s) := apply_op o s in
    match v with
    | Some v => if String.eqb (op_id o) id then v :: wins id ops' s else wins id ops' s
    | None => wins id ops' s
    end
  end.

Definition version_of (id : string) (s : S) : Z := sr_version (ss_content s id).

(** One call wins the next version, or leaves the version or advances it by one. *)
Lemma apply_op_version id o s v s' :
  op_small o = true -> apply_op o s = (v, s') ->
  if String.eqb (op_id o) id then
    match v with
    | Some v => v = u64 (version_of id s + 1) /\ version_of id s' = v
    | None => version_of id s' = version_of id s \/ version_of id s' = u64 (version_of id s + 1)
    end
  else version_of id s' = version_of id s.
Proof.
  intros Hsm Ha. unfold version_of. destruct (String.eqb_spec (op_id o) id) as [Hid|Hid].
  - destruct o as [id' e cp|id' e o]; simpl in *; subst id'.
    + apply Z.leb_le in Hsm. destruct (ss_compare_exchange id e cp s) as [[z|err] s''] eqn:E; injection Ha as <- <-.
      * apply ss_cas_ok in E as (<- & -> & ->); done.
      * apply ss_cas_err in E as [->|[_ ->]]; [by left|by right|done].
    + destruct (ss_claim id e o s) as [[z|err] s''] eqn:E; injection Ha as <- <-.
      * apply ss_claim_ok in E as (<- & -> & ->). done.
      * apply ss_claim_err in E as [->|[_ ->]]; [by left|by right].
  - destruct o as [id' e cp|id' e o]; simpl in *.
    + pose proof (proj1 (ss_frame id' id e cp "" s Hid)) as Hf.
      destruct (ss_compare_exchange id' e cp s); simplify_eq. simpl in Hf. by rewrite Hf.
    + pose proof (proj2 (ss_frame id' id e "" o s Hid)) as Hf.
      destruct (ss_claim id' e o s); simplify_eq. simpl in Hf. by rewrite Hf.
Qed.

(** C23: over any interleaving of updates and claims (fewer than the version counter
    has room for), the versions handed out for a run strictly increase, so two
    writers or two recovery owners never win the same version. *)
Theorem cas_versions_increase id ops s :
  Forall (fun o => op_small o = true) ops ->
  0 <= version_of id s -> version_of id s + Z.of_nat (length ops) <= u64_max ->
  StronglySorted Z.lt (wins id ops s) /\ Forall (fun v => version_of id s < v) (wins id ops s).
Proof.
  intros Hsm. revert s. induction Hsm as [|o ops Ho _ IH]; intros s Hge Hroom; [by repeat constructor|].
  simpl in *. destruct (apply_op o s) as [v s'] eqn:Ea.
  apply (apply_op_version id) in Ea; [|done]. assert (u64 (version_of id s + 1) = version_of id s + 1) as Hu.
  { apply u64_small. unfold is_u64, u64_max in *. lia. }
  rewrite Hu in Ea. clear Hu.
  assert (forall l, Forall (fun v => version_of id s' < v) l -> version_of id s <= version_of id s' ->
                    Forall (fun v => version_of id s < v) l) as Hmono.
  { intros l Hl Hle. eapply Forall_impl; [done|]. simpl. lia. }
  destruct v as [v|]; destruct (String.eqb (op_id o) id); destruct_and?;
    edestruct (IH s') as [IH1 IH2]; try lia; split; try (repeat constructor); try done; try lia;
    try (eapply Hmono; [done|lia]). by rewrite H2 in IH2.
Qed.
End History.

#[local] Arguments encode_record : simpl never.
#[local] Arguments decode_record : simpl never.

(** [decode_record] reads back the text [encode_record] writes, for every record
    the file store can hold: 64-bit counters, an owner without a line break. *)
Theorem record_roundtrip r : record_ok r -> decode_record (encode_record r) = Ok r.
Proof. apply decode_encode. Qed.

(** A token keeps the first reason it was given. *)
Lemma request_cancel_first r1 r2 t :
  r1 <> "" -> ct_reason (request_cancel r2 (request_cancel r1 t)) = ct_reason (request_cancel r1 t).
Proof.
  intros Hr. unfold request_cancel. simpl. destruct (str_empty (ct_reason t)) eqn:E.
  - by destruct r1.
  - by rewrite E.
Qed.

(** [put] on the file store without faults succeeds within its sixteen attempts
    and leaves the checkpoint under the next version, unless the record on disk is
    unreadable, which it reports as an I/O error without touching it. *)
Theorem file_put_result id cp fs :
  valid_run_id id = true -> str_len cp <= u64_max ->
  let s := mkFile fs [] in
  match file_put id cp s with
  | (Ok b, s') => b = true /\ file_content s' id = cas_record (file_content s id) cp
  | (Err e, s') => err_code e = "STATE_IO_ERROR" /\ s' = s
      /\ exists b, om_get id fs = Some b /\ is_ok (decode_record b) = false
  end.
Proof.
  intros Hid Hcp s. unfold file_put. generalize 15%nat. intros n. cbn [file_put_attempts].
  unfold file_load. rewrite Hid. subst s. cbn [negb next_fault fs_faults head default pop_fault tail fs_files].
  destruct (om_get id fs) as [b|] eqn:Eb.
  - cbn [read_file mbind res_bind]. destruct (decode_record b) as [r|ex] eqn:Er.
    + unfold file_compare_exchange, current_record. rewrite Hid. cbn. rewrite Eb. cbn. rewrite Er. cbn.
      rewrite Z.eqb_refl. cbn. split; [done|].
      rewrite file_content_set by (apply cas_record_ok; [by eapply decode_ok|done]).
      unfold file_content. simpl. by rewrite Eb, Er.
    + unfold file_compare_exchange, current_record. rewrite Hid. cbn. rewrite Eb. cbn. rewrite Er. cbn.
      split_and!; try done. exists b. by rewrite Er.
  - unfold file_compare_exchange, current_record. rewrite Hid. cbn. rewrite Eb. cbn. split; [done|].
    rewrite file_content_set by (apply cas_record_ok; [by repeat split|done]).
    unfold file_content. simpl. by rewrite Eb.
Qed.

(** A failing update of an absent run leaves a version-0 record behind in the memory
    store: the run is listed and loads, though nothing was ever stored. *)
Theorem memory_cas_phantom :
  let '(out, s) := memory_compare_exchange "run" 3 "{}" (mkMemory []) in
  is_ok out = false /\ memory_list "" s = (Ok ["run"], s) /\ memory_load "run" s = (Ok empty_record, s).
Proof. by vm_compute. Qed.
