(* ===== verification/Workflow.v ===== *)
(** * Workflow documents (src/dage.cpp: limits, Engine::validate, Engine::load)

    [validate] produces diagnostics over a parsed document and [load] normalises
    and compiles one without errors.  The theorems show what an accepted document
    guarantees the runtime: the entry and every edge target exist, declared effects
    have an admissible replay policy, retries are only allowed where replay is, and
    no cycle of [next]/[on_error] edges reachable from the entry is unbounded; the
    unreachable-node warnings are exactly the nodes no path reaches. *)

From S2P Require Import Prelude Json Ir.
Open Scope string_scope.
Open Scope list_scope.
Open Scope Z_scope.

Inductive Severity := SevError | SevWarning | SevInfo.
#[export] Instance Severity_eq_dec : EqDecision Severity.
Proof. solve_decision. Defined.
Record Diagnostic := mkDiag {
  d_severity : Severity; d_code : string; d_path : string; d_message : string; d_suggestion : string
}.
Definition is_error (d : Diagnostic) : bool := bool_decide (d_severity d = SevError).

Record WorkflowResourceLimits := mkLimits {
  max_workflow_bytes : Z; max_json_depth : Z; max_nodes : Z; max_edges : Z;
  max_expression_bytes : Z; max_literal_bytes : Z; max_compiled_ir_bytes : Z
}.
Definition default_limits : WorkflowResourceLimits :=
  mkLimits (16 * 1024 * 1024) 64 10000 50000 (256 * 1024) (8 * 1024 * 1024) (32 * 1024 * 1024).

(** [Engine::set_workflow_resource_limits] *)
Definition set_workflow_resource_limits (limits : WorkflowResourceLimits) : exc WorkflowResourceLimits :=
  if (max_workflow_bytes limits =? 0) || (max_json_depth limits =? 0) || (max_nodes limits =? 0)
     || (max_edges limits =? 0) || (max_expression_bytes limits =? 0) || (max_literal_bytes limits =? 0)
     || (max_compiled_ir_bytes limits =? 0)
  then Err (InvalidArgument "workflow resource limits must be positive")
  else Ok limits.

Definition id_char (c : ascii) : bool := in_range "a" "z" c || in_range "0" "9" c || Ascii.eqb c "_".
Definition valid_id (id : string) : bool :=
  match id with
  | EmptyString => false
  | String c rest => in_range "a" "z" c && str_forallb id_char rest
  end.

Definition known_type (type : string) : bool := om_mem type node_type_table.
Definition mem_str (x : string) (l : list string) : bool := existsb (String.eqb x) l.
Definition needs_executor_name (type : string) : bool :=
  mem_str type ["llm"; "tool"; "transform"; "join"; "human"; "custom"].
Definition needs_executor (type : NodeType) : bool :=
  match type with Llm | Tool | Transform | Join | Human | Custom => true | _ => false end.
Definition node_type_name (type : NodeType) : string :=
  match type with
  | Llm => "llm" | Tool => "tool" | Transform => "transform" | Condition => "condition"
  | Parallel => "parallel" | Join => "join" | Subflow => "subflow" | Human => "human"
  | Start => "start" | End_ => "end" | Noop => "noop" | Custom => "custom"
  end.

(** [measure_workflow_strings]: bytes of text, and of text with a reference in it. *)
Fixpoint measure_workflow_strings (value : json) (acc : Z * Z) : Z * Z :=
  match value with
  | JString text =>
    (acc.1 + str_len text, if str_contains "${" text then acc.2 + str_len text else acc.2)
  | JArray l =>
    (fix go l acc := match l with [] => acc | x :: l' => go l' (measure_workflow_strings x acc) end) l acc
  | JObject m =>
    (fix go m acc := match m with
                     | [] => acc
                     | (name, x) :: m' => go m' (measure_workflow_strings x (acc.1 + str_len name, acc.2))
                     end) m acc
  | _ => acc
  end.

(** What [validate] mutates: the diagnostics, the graph and the edge count. *)
Record vstate := mkV { v_diags : list Diagnostic; v_graph : list (string * list string); v_edge_count : Z }.
#[export] Instance eta_vstate : Settable vstate := fun r => mkV (v_diags r) (v_graph r) (v_edge_count r).
Abbreviation check A := (act exn vstate A).

Definition add_diag (severity : Severity) (code path message : string) : check unit :=
  modify (fun st => st <| v_diags := v_diags st ++ [mkDiag severity code path message ""] |>).
Definition error (code path message : string) : check unit := add_diag SevError code path message.
Definition error_when (b : bool) (code path message : string) : check unit := when b (error code path message).
Definition graph_of (graph : list (string * list string)) (id : string) : list string :=
  default [] (om_get id graph).
Definition add_arc (id to : string) : check unit :=
  modify (fun st => st <| v_graph := om_set id (graph_of (v_graph st) id ++ [to]) (v_graph st) |>).
Definition add_edge_count (n : Z) : check unit :=
  modify (fun st => st <| v_edge_count := v_edge_count st + n |>).

Definition observed (n limit : Z) : string := "observed=" +:+ to_string n +:+ " limit=" +:+ to_string limit.

Section Workflow.
Context {J : JsonLib} (limits : WorkflowResourceLimits).

Definition parse_workflow_json (text : string) : exc json :=
  if max_workflow_bytes limits <? str_len text then
    Err (RuntimeError ("WORKFLOW_BYTES_LIMIT: " +:+ observed (str_len text) (max_workflow_bytes limits)))
  else
    let depth := json_nesting_depth text in
    if max_json_depth limits <? depth then
      Err (RuntimeError ("WORKFLOW_DEPTH_LIMIT: " +:+ observed depth (max_json_depth limits)))
    else match jl_parse_limited (max_json_depth limits + 1) text with
         | Ok root => Ok root
         | Err errors => Err (RuntimeError errors)
         end.

Definition edges_of (node : json) (field : string) : exc (list json) :=
  present ← jmember field node;
  if negb present then Ok [] else
  edge ← jget field node;
  Ok match edge with
     | JString _ => [JObject [("to", edge)]]
     | JObject _ => [edge]
     | JArray l => (fun e => if is_string e then JObject [("to", e)] else e) <$> l
     | _ => []
     end.

Definition top_fields : list string :=
  ["format"; "format_version"; "id"; "name"; "description"; "entry"; "input"; "output"; "limits";
   "defaults"; "nodes"].

Definition check_top_name (name : string) : check unit :=
  error_when (negb (mem_str name top_fields) && negb (String.eqb (str_upto 2 name) "x_"))
    "UNKNOWN_FIELD" ("/" +:+ name) "Unknown field.".

Definition check_effects (path : string) (n : json) : check unit :=
  present ← lift (jmember "effects" n);
  when present (
    effects ← lift (jget "effects" n);
    kind ← lift (get_string "kind" "" effects);
    replay ← lift (get_string "replay" "" effects);
    if negb (is_object effects) then
      error "INVALID_EFFECTS" (path +:+ "/effects") "effects must be an object."
    else
      error_when (negb (mem_str kind ["pure"; "local_state"; "external_read"; "external_write"; "irreversible"]))
        "INVALID_EFFECT_KIND" (path +:+ "/effects/kind") "Unknown effect kind.";;
      error_when (negb (mem_str replay ["safe"; "idempotent"; "at_most_once"; "manual"; "forbidden"]))
        "INVALID_REPLAY_POLICY" (path +:+ "/effects/replay") "Unknown replay policy.";;
      error_when (String.eqb kind "pure" && negb (String.eqb replay "safe"))
        "INVALID_EFFECT_REPLAY" (path +:+ "/effects") "pure nodes must use safe replay.";;
      error_when (String.eqb kind "external_write" && String.eqb replay "safe")
        "INVALID_EFFECT_REPLAY" (path +:+ "/effects") "external_write cannot use safe replay.";;
      error_when (String.eqb kind "irreversible" && negb (String.eqb replay "manual")
                  && negb (String.eqb replay "forbidden"))
        "INVALID_EFFECT_REPLAY" (path +:+ "/effects")
        "irreversible nodes require manual or forbidden replay.";;
      when (String.eqb replay "idempotent") (
        key ← lift (get_string "idempotency_key" "" effects);
        when (str_empty key) (
          guarantee ← lift (get_bool "executor_guarantees_idempotency" false effects);
          error_when (negb guarantee) "MISSING_IDEMPOTENCY_GUARANTEE" (path +:+ "/effects")
            "idempotent replay requires idempotency_key or executor guarantee."));;
      retry ← lift (jget "retry" n);
      max_attempts ← lift (get_uint "max_attempts" 1 retry);
      error_when ((1 <? max_attempts) && mem_str replay ["at_most_once"; "manual"; "forbidden"])
        "UNSAFE_RETRY_POLICY" (path +:+ "/retry") "retry is not allowed by the node replay policy.").

Definition check_timeout (path : string) (n : json) : check unit :=
  present ← lift (jmember "timeout_ms" n);
  when present (
    t ← lift (jget "timeout_ms" n); t ← lift (jl_as_int64 t);
    error_when (t <=? 0) "INVALID_TIMEOUT" (path +:+ "/timeout_ms") "timeout_ms must be positive.").

Definition check_retry (path : string) (n : json) : check unit :=
  present ← lift (jmember "retry" n);
  when present (
    r ← lift (jget "retry" n);
    bad ← (if negb (is_object r) then mret true
           else max_attempts ← lift (get_int "max_attempts" 1 r); mret (max_attempts <? 1));
    error_when bad "INVALID_RETRY" (path +:+ "/retry") "max_attempts must be >= 1.";;
    backoff ← lift (get_string "backoff" "fixed" r);
    error_when (negb (String.eqb backoff "fixed") && negb (String.eqb backoff "exponential"))
      "INVALID_BACKOFF" (path +:+ "/retry/backoff") "backoff must be fixed or exponential.";;
    jitter ← lift (get_int64 "jitter_ms" 0 r);
    error_when (jitter <? 0) "INVALID_JITTER" (path +:+ "/retry/jitter_ms") "jitter_ms must be non-negative.").

(** One candidate edge; the result says whether it counts as an [otherwise]. *)
Definition check_edge (nodes : json) (id ep : string) (last : bool) (e : json) : check bool :=
  to_ok ← (if negb (is_object e) then mret false else to ← lift (jget "to" e); mret (is_string to));
  if negb to_ok then
    error "INVALID_EDGE" ep "Edge must contain string 'to'.";; mret false
  else
    to ← lift (jget "to" e); to ← lift (jl_as_string to);
    known ← lift (jmember to nodes);
    (if negb known then error "UNKNOWN_NODE_REFERENCE" (ep +:+ "/to") "Referenced node does not exist."
     else add_arc id to);;
    otherwise ← lift (get_bool "otherwise" false e);
    has_when ← lift (jmember "when" e);
    when otherwise (
      error_when (negb last) "OTHERWISE_NOT_LAST" ep "otherwise must be last.";;
      error_when has_when "OTHERWISE_WITH_WHEN" ep "otherwise cannot have when.");;
    error_when (negb has_when && negb otherwise && negb last) "SHADOWED_BRANCH" ep
      "Unconditional edge shadows following candidates.";;
    mode ← lift (get_string "mode" "normal" e);
    when (String.eqb mode "jump_back") (
      max_hits ← lift (get_int "max_hits" 0 e);
      error_when (max_hits <? 1) "UNBOUNDED_JUMP_BACK" ep "jump_back requires max_hits.");;
    has_loop ← lift (jmember "loop" e);
    when has_loop (
      loop ← lift (jget "loop" e);
      max_iterations ← lift (get_int "max_iterations" 0 loop);
      error_when (max_iterations <? 1) "INVALID_LOOP" (ep +:+ "/loop")
        "loop requires positive max_iterations.");;
    mret otherwise.

Fixpoint check_edges (nodes : json) (id path : string) (j : Z) (es : list json) : check Z :=
  match es with
  | [] => mret 0
  | e :: es' =>
    otherwise ← check_edge nodes id (path +:+ "/" +:+ to_string j) (match es' with [] => true | _ => false end) e;
    rest ← check_edges nodes id path (j + 1) es';
    mret ((if otherwise : bool then 1 else 0) + rest)
  end.

Definition check_field (nodes : json) (id path : string) (n : json) (field : string) : check unit :=
  es ← lift (edges_of n field);
  add_edge_count (Z.of_nat (length es));;
  otherwise_count ← check_edges nodes id (path +:+ "/" +:+ field) 0 es;
  error_when (1 <? otherwise_count) "MULTIPLE_OTHERWISE" (path +:+ "/" +:+ field)
    "At most one otherwise is allowed.".

Fixpoint check_branches (nodes branches : json) (id path : string) (js : list nat) : check unit :=
  match js with
  | [] => mret tt
  | j :: js' =>
    b ← lift (jat j branches); to ← lift (jl_as_string b);
    known ← lift (jmember to nodes);
    (if negb known then error "UNKNOWN_NODE_REFERENCE" (path +:+ "/branches") "Parallel branch does not exist."
     else add_arc id to);;
    check_branches nodes branches id path js'
  end.

Definition check_parallel (nodes : json) (id path : string) (n : json) : check unit :=
  branches ← lift (jget "branches" n);
  join ← lift (jget "join" n);
  error_when (negb (is_array branches) || jempty branches || negb (is_string join))
    "INVALID_PARALLEL" path "parallel requires branches and join.";;
  add_edge_count (jsize branches + (if is_string join then 1 else 0));;
  check_branches nodes branches id path (seq 0 (Z.to_nat (jsize branches)));;
  when (is_string join) (
    to ← lift (jl_as_string join);
    known ← lift (jmember to nodes);
    if negb known then error "UNKNOWN_NODE_REFERENCE" (path +:+ "/join") "Join does not exist."
    else add_arc id to).

(** One iteration of the loop over the nodes. *)
Definition check_node (nodes : json) (id : string) : check unit :=
  n ← lift (jget id nodes);
  let path := "/nodes/" +:+ id in
  error_when (negb (valid_id id)) "INVALID_NODE_ID" path "Node ID must match [a-z][a-z0-9_]*.";;
  if negb (is_object n) then error "INVALID_NODE" path "Node must be an object." else
  type ← lift (get_string "type" "" n);
  error_when (negb (known_type type)) "UNKNOWN_NODE_TYPE" (path +:+ "/type") "Unknown node type.";;
  when (needs_executor_name type) (
    executor ← lift (get_string "executor" "" n);
    error_when (str_empty executor) "MISSING_EXECUTOR" (path +:+ "/executor")
      "This node type requires executor.");;
  has_effects ← lift (jmember "effects" n);
  error_when ((String.eqb type "tool" || String.eqb type "custom") && negb has_effects)
    "MISSING_EFFECTS" (path +:+ "/effects") "tool and custom nodes must declare effects.";;
  check_effects path n;;
  when (String.eqb type "subflow") (
    config ← lift (jget "config" n);
    workflow ← lift (get_string "workflow" "" config);
    error_when (str_empty workflow) "MISSING_SUBFLOW" (path +:+ "/config/workflow")
      "subflow requires config.workflow.");;
  check_timeout path n;;
  check_retry path n;;
  has_next ← lift (jmember "next" n);
  has_error ← lift (jmember "on_error" n);
  error_when (String.eqb type "end" && (has_next || has_error)) "END_HAS_SUCCESSOR" path
    "end cannot have next or on_error.";;
  check_field nodes id path n "next";;
  check_field nodes id path n "on_error";;
  when (String.eqb type "parallel") (check_parallel nodes id path n).

(** The reachability loop: [stack.back()], [pop_back], [reached.insert].  Each turn
    pops one entry; [reach_fuel] bounds the entries ever pushed. *)
Fixpoint reach (fuel : nat) (graph : list (string * list string)) (stack reached : list string) : list string :=
  match fuel, stack with
  | S fuel', x :: stack' =>
    if mem_str x reached then reach fuel' graph stack' reached
    else reach fuel' graph (rev (graph_of graph x) ++ stack') (x :: reached)
  | _, _ => reached
  end.
Definition reach_fuel (graph : list (string * list string)) : nat :=
  S (sum_list ((fun p => length p.2) <$> graph)).

(** The cycle search.  [active] is the path from the entry; the recursion goes to
    members of [nodes] outside it, so its depth is bounded by their number. *)
Definition dfs_edge (rec : string -> check unit) (nodes : json) (id field : string) (active : list string)
    (e : json) : check unit :=
  to ← lift (get_string "to" "" e);
  unbounded ← (if mem_str to active then
                 has_loop ← lift (jmember "loop" e);
                 if has_loop : bool then mret false
                 else max_hits ← lift (get_int "max_hits" 0 e); mret (max_hits <? 1)
               else mret false);
  if unbounded : bool then
    error "UNDECLARED_CYCLE" ("/nodes/" +:+ id +:+ "/" +:+ field) "Cycle edge requires loop or max_hits."
  else
    known ← lift (jmember to nodes);
    when (known && negb (mem_str to active)) (rec to).

Fixpoint dfs (fuel : nat) (nodes : json) (id : string) (active : list string) : check unit :=
  match fuel with
  | O => mret tt
  | S fuel' =>
    let active := id :: active in
    n ← lift (jget id nodes);
    for_each (fun field =>
      es ← lift (edges_of n field);
      for_each (dfs_edge (fun to => dfs fuel' nodes to active) nodes id field active) es)
      ["next"; "on_error"]
  end.

Definition check_nodes (root nodes : json) : check unit :=
  names ← lift (jmembers nodes);
  error_when (max_nodes limits <? Z.of_nat (length names)) "WORKFLOW_NODES_LIMIT" "/nodes"
    (observed (Z.of_nat (length names)) (max_nodes limits));;
  let '(literal_bytes, expression_bytes) := measure_workflow_strings root (0, 0) in
  error_when (max_literal_bytes limits <? literal_bytes) "WORKFLOW_LITERAL_BYTES_LIMIT" "/"
    (observed literal_bytes (max_literal_bytes limits));;
  error_when (max_expression_bytes limits <? expression_bytes) "WORKFLOW_EXPRESSION_BYTES_LIMIT" "/"
    (observed expression_bytes (max_expression_bytes limits));;
  entry ← lift (get_string "entry" "" root);
  has_entry ← lift (jmember entry nodes);
  (if str_empty entry || negb has_entry then
     error "MISSING_ENTRY" "/entry" "entry must reference an existing node."
   else
     n ← lift (jget entry nodes); enabled ← lift (get_bool "enabled" true n);
     error_when (negb enabled) "DISABLED_ENTRY" "/entry" "entry cannot be disabled.");;
  for_each (check_node nodes) names;;
  edge_count ← gets v_edge_count;
  error_when (max_edges limits <? edge_count) "WORKFLOW_EDGES_LIMIT" "/nodes"
    (observed edge_count (max_edges limits));;
  graph ← gets v_graph;
  let reached := reach (reach_fuel graph) graph (if has_entry : bool then [entry] else []) [] in
  for_each (fun name =>
    when (negb (mem_str name reached))
      (add_diag SevWarning "UNREACHABLE_NODE" ("/nodes/" +:+ name) "Node is unreachable.")) names;;
  when has_entry (dfs (S (length names)) nodes entry []).

Definition check_root (root : json) : check unit :=
  if negb (is_object root) then error "INVALID_ROOT" "/" "Root must be an object." else
  topnames ← lift (jmembers root);
  for_each check_top_name topnames;;
  format ← lift (get_string "format" "" root);
  error_when (negb (String.eqb format "dage-workflow")) "INVALID_WORKFLOW_FORMAT" "/format"
    "format must be dage-workflow.";;
  format_version ← lift (get_string "format_version" "" root);
  error_when (negb (String.eqb format_version "0.2.0")) "UNSUPPORTED_VERSION" "/format_version"
    "Only 0.2.0 is supported.";;
  nodes ← lift (jget "nodes" root);
  if negb (is_object nodes) || jempty nodes then
    error "MISSING_NODES" "/nodes" "nodes must be a non-empty object."
  else check_nodes root nodes.

Definition validate (text : string) : exc (list Diagnostic) :=
  match parse_workflow_json text with
  | Err e =>
    let message := what e in
    let limited := str_prefix "WORKFLOW_" message in
    let code := match str_find ":" 0 message with Some i => str_upto i message | None => message end in
    Ok [mkDiag SevError (if limited then code else "INVALID_JSON") "/" message ""]
  | Ok root =>
    match check_root root (mkV [] [] 0) with
    | (Ok _, st) => Ok (v_diags st)
    | (Err (LogicError w), st) => Ok (v_diags st ++ [mkDiag SevError "INVALID_FIELD_TYPE" "/" w ""])
    | (Err e, _) => Err e
    end
  end.

(** ** Engine::load *)

(** [v[k]] on a mutable value: an absent member is created as null. *)
Definition touch (k : string) (v : json) : exc json :=
  present ← jmember k v; if present : bool then Ok v else jset k JNull v.

Definition set_missing (k : string) (x v : json) : exc json :=
  present ← jmember k v; if present : bool then Ok v else jset k x v.

Definition declare_effects (kind : string) (n : json) : exc json :=
  n ← jset_path ["effects"; "kind"] (JString kind) n;
  jset_path ["effects"; "replay"] (JString "safe") n.

(** [if(!n.isMember(k)&&root["defaults"].isMember(k)) n[k]=root["defaults"][k]] *)
Definition inherit_default (k : string) (root n : json) : exc (json * json) :=
  present ← jmember k n;
  if present : bool then Ok (root, n) else
  root ← touch "defaults" root;
  defaults ← jget "defaults" root;
  has ← jmember k defaults;
  if has : bool then x ← jget k defaults; n ← jset k x n; Ok (root, n) else Ok (root, n).

Definition normalize_node (root : json) (id : string) : exc json :=
  n ← jget_path ["nodes"; id] root;
  n ← set_missing "name" (JString id) n;
  n ← set_missing "enabled" (JBool true) n;
  type ← get_string "type" "" n;
  has_effects ← jmember "effects" n;
  n ← (if negb has_effects && String.eqb type "llm" then declare_effects "external_read" n else Ok n);
  has_effects ← jmember "effects" n;
  n ← (if negb has_effects && mem_str type ["transform"; "condition"; "noop"]
       then declare_effects "pure" n else Ok n);
  '(root, n) ← inherit_default "timeout_ms" root n;
  '(root, n) ← inherit_default "retry" root n;
  jset_path ["nodes"; id] n root.

Fixpoint normalize_nodes (root : json) (names : list string) : exc json :=
  match names with
  | [] => Ok root
  | id :: rest => root ← normalize_node root id; normalize_nodes root rest
  end.

Record Workflow := mkWf { wf_root : json; wf_compiled : WorkflowIR; wf_bundle_digest : string }.

(** [Workflow::Impl(root, max_ir_bytes)] *)
Definition make_workflow (root : json) (max_ir_bytes : Z) : exc Workflow :=
  compiled ← compile_workflow_ir (write_json root false) max_ir_bytes;
  Ok (mkWf root compiled "").

Definition load (text : string) : exc Workflow :=
  d ← validate text;
  match List.find is_error d with
  | Some e => Err (RuntimeError (d_code e +:+ ": " +:+ d_message e))
  | None =>
    root ← parse_workflow_json text;
    root ← touch "nodes" root;
    nodes ← jget "nodes" root;
    names ← jmembers nodes;
    root ← normalize_nodes root names;
    make_workflow root (max_compiled_ir_bytes limits)
  end.

(** ** Soundness of the checks

    [unspoilt] relates a state to a later one: errors are never withdrawn.
    [ensures m Q]: where [m] returns without an error left behind, [Q] holds of its
    result. *)
Definition clean (st : vstate) : bool := forallb (fun d => negb (is_error d)) (v_diags st).
Definition unspoilt (s s' : vstate) : Prop := clean s' = true -> clean s = true.
#[local] Instance unspoilt_preorder : PreOrder unspoilt.
Proof. split; unfold unspoilt; [by intros ?|intros ???; tauto]. Qed.
Definition ensures {A} (m : check A) (Q : A -> Prop) : Prop :=
  forall s a s', m s = (Ok a, s') -> clean s' = true -> Q a.

Lemma clean_snoc st d : clean (st <| v_diags := v_diags st ++ [d] |>) = clean st && negb (is_error d).
Proof. unfold clean. simpl. rewrite forallb_app. simpl. by rewrite andb_true_r. Qed.

Lemma add_diag_unspoilt sev c p m : keeps unspoilt (add_diag sev c p m).
Proof. apply keeps_modify. intros s. unfold unspoilt. rewrite clean_snoc. by intros [? _]%andb_true_iff. Qed.
Lemma add_arc_unspoilt id to : keeps unspoilt (add_arc id to).
Proof. apply keeps_modify. intros s H. exact H. Qed.
Lemma add_edge_count_unspoilt n : keeps unspoilt (add_edge_count n).
Proof. apply keeps_modify. intros s H. exact H. Qed.
#[local] Hint Resolve add_diag_unspoilt add_arc_unspoilt add_edge_count_unspoilt : keeps.
Lemma error_unspoilt c p m : keeps unspoilt (error c p m).
Proof. apply add_diag_unspoilt. Qed.
Lemma error_when_unspoilt b c p m : keeps unspoilt (error_when b c p m).
Proof. unfold error_when. solve_keeps. apply error_unspoilt. Qed.
#[local] Hint Resolve error_unspoilt error_when_unspoilt : keeps.
Lemma check_top_name_unspoilt n : keeps unspoilt (check_top_name n).
Proof. unfold check_top_name. solve_keeps. Qed.
Lemma check_effects_unspoilt p n : keeps unspoilt (check_effects p n).
Proof. unfold check_effects. solve_keeps. Qed.
Lemma check_timeout_unspoilt p n : keeps unspoilt (check_timeout p n).
Proof. unfold check_timeout. solve_keeps. Qed.
Lemma check_retry_unspoilt p n : keeps unspoilt (check_retry p n).
Proof. unfold check_retry. solve_keeps. Qed.
Lemma check_edge_unspoilt nodes id ep l e : keeps unspoilt (check_edge nodes id ep l e).
Proof. unfold check_edge. solve_keeps. Qed.
#[local] Hint Resolve check_top_name_unspoilt check_effects_unspoilt check_timeout_unspoilt
  check_retry_unspoilt check_edge_unspoilt : keeps.
Lemma check_edges_unspoilt nodes id p j es : keeps unspoilt (check_edges nodes id p j es).
Proof. revert j. induction es; intros j; simpl; solve_keeps. Qed.
Lemma check_branches_unspoilt nodes b id p js : keeps unspoilt (check_branches nodes b id p js).
Proof. induction js; simpl; solve_keeps. Qed.
#[local] Hint Resolve check_edges_unspoilt check_branches_unspoilt : keeps.
Lemma check_field_unspoilt nodes id p n f : keeps unspoilt (check_field nodes id p n f).
Proof. unfold check_field. solve_keeps. Qed.
Lemma check_parallel_unspoilt nodes id p n : keeps unspoilt (check_parallel nodes id p n).
Proof. unfold check_parallel. solve_keeps. Qed.
#[local] Hint Resolve check_field_unspoilt check_parallel_unspoilt : keeps.
Lemma check_node_unspoilt nodes id : keeps unspoilt (check_node nodes id).
Proof. unfold check_node. solve_keeps. Qed.
Lemma dfs_edge_unspoilt rec nodes id f active e :
  (forall to, keeps unspoilt (rec to)) -> keeps unspoilt (dfs_edge rec nodes id f active e).
Proof. intros H. unfold dfs_edge. solve_keeps. Qed.
#[local] Hint Resolve dfs_edge_unspoilt : keeps.
Lemma dfs_unspoilt fuel nodes id active : keeps unspoilt (dfs fuel nodes id active).
Proof. revert id active. induction fuel; intros id active; cbn [dfs]; solve_keeps. Qed.
#[local] Hint Resolve check_node_unspoilt dfs_unspoilt : keeps.
Lemma check_nodes_unspoilt root nodes : keeps unspoilt (check_nodes root nodes).
Proof. unfold check_nodes. solve_keeps. Qed.
#[local] Hint Resolve check_nodes_unspoilt : keeps.
Lemma check_root_unspoilt root : keeps unspoilt (check_root root).
Proof. unfold check_root. solve_keeps. Qed.

Lemma ensures_bind {A B} (P : A -> Prop) (m : check A) (f : A -> check B) (Q : B -> Prop) :
  ensures m P -> (forall a, keeps unspoilt (f a)) -> (forall a, P a -> ensures (f a) Q) ->
  ensures (m ≫= f) Q.
Proof.
  intros Hm Hk Hf s b s'. unfold mbind, act_bind. destruct (m s) as [[a|e] s1] eqn:E; [|done].
  intros H Hc. pose proof (keeps_run unspoilt _ s1 (Hk a)) as Hc1. rewrite H in Hc1.
  eapply Hf; [|done|done]. eapply Hm; [done|]. by apply Hc1.
Qed.
Lemma ensures_ret {A} (a : A) (Q : A -> Prop) : Q a -> ensures (mret a) Q.
Proof. by intros H s b s' [= <- <-]. Qed.
Lemma ensures_true {A} (m : check A) : ensures m (fun _ => True).
Proof. done. Qed.
Lemma ensures_lift {A} (m : exc A) : ensures (lift m) (fun a => m = Ok a).
Proof. by intros s a s' [= -> <-]. Qed.
Lemma ensures_error c p m : ensures (error c p m) (fun _ => False).
Proof.
  intros s a s' [= _ <-]. rewrite clean_snoc. by intros [_ ?]%andb_true_iff.
Qed.
Lemma ensures_error_when b c p m : ensures (error_when b c p m) (fun _ => b = false).
Proof. destruct b; [|by apply ensures_ret]. intros s a s' H Hc. by destruct (ensures_error _ _ _ _ _ _ H Hc). Qed.
Lemma ensures_when b m (Q : unit -> Prop) :
  (b = true -> ensures m Q) -> ensures (when b m) (fun u => b = true -> Q u).
Proof. destruct b; [|by intros; apply ensures_ret]. intros H s a s' Hm Hc _. by eapply H. Qed.
Lemma ensures_weaken {A} (m : check A) (P Q : A -> Prop) : ensures m P -> (forall a, P a -> Q a) -> ensures m Q.
Proof. intros H HPQ s a s' Hm Hc. apply HPQ. by eapply H. Qed.
Lemma ensures_for_each {A} (f : A -> check unit) (P : A -> Prop) l :
  (forall x, keeps unspoilt (f x)) -> (forall x, ensures (f x) (fun _ => P x)) ->
  ensures (for_each f l) (fun _ => Forall P l).
Proof.
  intros Hk Hf. induction l as [|x l IH]; simpl; [by apply ensures_ret|].
  eapply ensures_bind; [apply Hf|intros; apply keeps_for_each; [typeclasses eauto|done]|].
  intros u HP. eapply ensures_weaken; [done|]. by constructor.
Qed.

(** [ensures_next H] steps over the head of a sequence, naming what it ensures. *)
Ltac ensures_next :=
  lazymatch goal with
  | |- ensures (lift _ ≫= _) _ => eapply ensures_bind; [apply ensures_lift|solve_keeps|]
  | |- ensures (error_when _ _ _ _ ≫= _) _ => eapply ensures_bind; [apply ensures_error_when|solve_keeps|]
  | |- ensures (_ ≫= _) _ => eapply ensures_bind; [apply ensures_true|solve_keeps|]
  end.

(** What an accepted document guarantees of one edge, of a node's effects and of a
    node, in terms of what the runtime reads from them. *)
Definition member_of (nodes : json) (to : string) : Prop := jmember to nodes = Ok true.
Definition edge_ok (nodes e : json) : Prop :=
  exists to, get_string "to" "" e = Ok to /\ member_of nodes to.
Definition effects_ok (n : json) : Prop :=
  forall effects, jmember "effects" n = Ok true -> jget "effects" n = Ok effects ->
  exists kind replay retry attempts,
    get_string "kind" "" effects = Ok kind /\ get_string "replay" "" effects = Ok replay
    /\ jget "retry" n = Ok retry /\ get_uint "max_attempts" 1 retry = Ok attempts
    /\ (effect_kind kind = ExternalWrite -> replay_policy replay <> Safe)
    /\ (effect_kind kind = Irreversible -> replay_policy replay ∈ [Manual; Forbidden])
    /\ (replay_policy replay ∈ [AtMostOnce; Manual; Forbidden] -> attempts <= 1).
Definition parallel_ok (nodes n : json) : Prop :=
  exists branches join to, jget "branches" n = Ok (JArray branches) /\ jget "join" n = Ok join
    /\ Forall (fun b => exists to, jl_as_string b = Ok to /\ member_of nodes to) branches
    /\ jl_as_string join = Ok to /\ member_of nodes to.
Definition node_ok (nodes : json) (id : string) : Prop :=
  exists n type, jget id nodes = Ok n /\ valid_id id = true /\ is_object n = true
    /\ get_string "type" "" n = Ok type /\ known_type type = true
    /\ (needs_executor_name type = true -> exists x, get_string "executor" "" n = Ok x /\ x <> "")
    /\ effects_ok n
    /\ (forall field es, field ∈ ["next"; "on_error"] -> edges_of n field = Ok es -> Forall (edge_ok nodes) es)
    /\ (type = "parallel" -> parallel_ok nodes n).

Lemma check_effects_ensures p n : ensures (check_effects p n) (fun _ => effects_ok n).
Proof.
  unfold check_effects. ensures_next. intros present Hp.
  eapply ensures_weaken; [apply ensures_when with (Q := fun _ => effects_ok n); intros _|].
  2:{ intros u H effects Hm Hg. eapply H; [congruence|done|done]. }
  ensures_next. intros effects He. ensures_next. intros kind Hk. ensures_next. intros replay Hr.
  destruct (is_object effects); [|eapply ensures_weaken; [apply ensures_error|done]]. cbn [negb].
  ensures_next. intros ? H1. ensures_next. intros ? H2. ensures_next. intros ? H3.
  ensures_next. intros ? H4. ensures_next. intros ? H5. ensures_next. intros ? _.
  ensures_next. intros retry Ht. ensures_next. intros attempts Ha.
  eapply ensures_weaken; [apply ensures_error_when|]. intros u6 H6 effects' _ He'.
  simplify_eq. assert (effects' = effects) as -> by congruence.
  exists kind, replay, retry, attempts. split_and!; try done.
  all: clear -H1 H2 H4 H5 H6; unfold effect_kind, replay_policy; cbn in *;
    repeat match goal with |- context [String.eqb ?a ?b] => destruct (String.eqb_spec a b); subst; cbn in * end;
    intros; rewrite ?elem_of_cons in *; try set_solver; try done; try lia.
Qed.

Lemma get_string_member k d v x s :
  jget k v = Ok x -> is_string x = true -> jl_as_string x = Ok s -> get_string k d v = Ok s.
Proof.
  unfold get_string, jget, jget_or. destruct v; try done; [by intros [= <-]|].
  destruct (om_get k m); intros [= <-]; [|done]. done.
Qed.

Lemma check_edge_ensures nodes id ep last e : ensures (check_edge nodes id ep last e) (fun _ => edge_ok nodes e).
Proof.
  unfold check_edge. eapply ensures_bind with
    (P := fun b : bool => b = true -> exists x, jget "to" e = Ok x /\ is_string x = true); [|solve_keeps|].
  { destruct (negb (is_object e)); [by apply ensures_ret|]. ensures_next. intros x Hx. apply ensures_ret. intros Hs. by exists x. }
  intros ok Hok. destruct ok; cbn [negb].
  2:{ eapply ensures_bind; [apply ensures_error|solve_keeps|done]. }
  destruct (Hok eq_refl) as (x & Hx & Hs). ensures_next. intros x' Hx'. assert (x' = x) as -> by congruence.
  ensures_next. intros to Hto. ensures_next. intros known Hk.
  eapply ensures_bind with (P := fun _ => known = true); [destruct known; [done|]|solve_keeps|].
  { eapply ensures_weaken; [apply ensures_error|done]. }
  intros u ->. eapply ensures_weaken; [apply ensures_true|]. intros b _. exists to. split; [|done].
  by eapply get_string_member.
Qed.

Lemma check_edges_ensures nodes id p j es :
  ensures (check_edges nodes id p j es) (fun _ => Forall (edge_ok nodes) es).
Proof.
  revert j. induction es as [|e es IH]; intros j; cbn [check_edges]; [by apply ensures_ret|].
  eapply ensures_bind; [apply check_edge_ensures|solve_keeps|]. intros o Ho.
  eapply ensures_bind; [apply IH|solve_keeps|]. intros r Hr. apply ensures_ret. by constructor.
Qed.

Lemma check_field_ensures nodes id p n field :
  ensures (check_field nodes id p n field) (fun _ => forall es, edges_of n field = Ok es -> Forall (edge_ok nodes) es).
Proof.
  unfold check_field. ensures_next. intros es Hes. ensures_next. intros ? _.
  eapply ensures_bind; [apply check_edges_ensures|solve_keeps|]. intros c Hc.
  eapply ensures_weaken; [apply ensures_true|]. intros u _ es' Hes'. congruence.
Qed.

Lemma check_branches_ensures nodes branches id p js :
  ensures (check_branches nodes branches id p js)
    (fun _ => Forall (fun j => exists b to, jat j branches = Ok b /\ jl_as_string b = Ok to /\ member_of nodes to) js).
Proof.
  induction js as [|j js IH]; cbn [check_branches]; [by apply ensures_ret|].
  ensures_next. intros b Hb. ensures_next. intros to Hto. ensures_next. intros known Hk.
  eapply ensures_bind with (P := fun _ => known = true); [destruct known; [done|]|solve_keeps|].
  { eapply ensures_weaken; [apply ensures_error|done]. }
  intros u ->. eapply ensures_weaken; [apply IH|]. intros u' H. constructor; [by exists b, to|done].
Qed.

Lemma check_parallel_ensures nodes id p n : ensures (check_parallel nodes id p n) (fun _ => parallel_ok nodes n).
Proof.
  unfold check_parallel. ensures_next. intros branches Hb. ensures_next. intros join Hj.
  ensures_next. intros ? Hbad. ensures_next. intros ? _.
  eapply ensures_bind; [apply check_branches_ensures|solve_keeps|]. intros u Hbr.
  apply orb_false_iff in Hbad as [Hbad Hjs]. apply orb_false_iff in Hbad as [Hba _].
  rewrite negb_false_iff in Hjs, Hba. rewrite Hjs. cbn [when].
  ensures_next. intros to Hto. ensures_next. intros known Hk.
  destruct known; cbn [negb]; [|eapply ensures_weaken; [apply ensures_error|done]].
  eapply ensures_weaken; [apply ensures_true|]. intros u' _.
  destruct branches as [| | | | | |l|]; try done. exists l, join, to. split_and!; try done.
  apply Forall_lookup. intros i b Hi. rewrite Forall_forall in Hbr.
  destruct (Hbr i) as (b' & to' & Hat & ? & ?); [|].
  { apply elem_of_seq. apply lookup_lt_Some in Hi. simpl. lia. }
  simpl in Hat. rewrite Hi in Hat. simplify_eq/=. eauto.
Qed.

Lemma check_node_ensures nodes id : ensures (check_node nodes id) (fun _ => node_ok nodes id).
Proof.
  unfold check_node. ensures_next. intros n Hn. ensures_next. intros ? Hid.
  destruct (is_object n) eqn:Ho; cbn [negb]; [|eapply ensures_weaken; [apply ensures_error|done]].
  ensures_next. intros type Hty. ensures_next. intros ? Hknown.
  eapply ensures_bind; [apply ensures_when with (Q := fun _ => exists x, get_string "executor" "" n = Ok x /\ x <> "")|solve_keeps|].
  { intros _. ensures_next. intros x Hx. eapply ensures_weaken; [apply ensures_error_when|]. intros u He. exists x. by destruct x. }
  intros ? Hexec. ensures_next. intros ? _. ensures_next. intros ? _.
  eapply ensures_bind; [apply check_effects_ensures|solve_keeps|]. intros ? Heff.
  do 5 (ensures_next; intros ? _). ensures_next. intros ? _.
  eapply ensures_bind; [apply check_field_ensures|solve_keeps|]. intros ? Hnext.
  eapply ensures_bind; [apply check_field_ensures|solve_keeps|]. intros ? Herr.
  eapply ensures_weaken; [apply ensures_when; intros _; apply check_parallel_ensures|]. intros u Hpar.
  exists n, type. apply negb_false_iff in Hid, Hknown. split_and!; try done.
  - intros field es [->|[->|[]%elem_of_nil]%elem_of_cons]%elem_of_cons; auto.
  - intros ->. by apply Hpar.
Qed.

(** ** Cycles

    [arc] is a [next] or [on_error] edge of the document; [trail] the paths without
    repetition the search follows, innermost node first. *)
Definition arc (nodes : json) (x : string) (e : json) (y : string) : Prop :=
  exists n field es, jget x nodes = Ok n /\ field ∈ ["next"; "on_error"] /\ edges_of n field = Ok es
    /\ e ∈ es /\ get_string "to" "" e = Ok y.
Definition bounded (e : json) : Prop :=
  jmember "loop" e = Ok true \/ exists hits, get_int "max_hits" 0 e = Ok hits /\ 1 <= hits.
Inductive trail (nodes : json) : list string -> list string -> Prop :=
| trail_here s : trail nodes s s
| trail_step x rest e y s :
    arc nodes x e y -> y ∉ x :: rest -> member_of nodes y -> trail nodes (y :: x :: rest) s ->
    trail nodes (x :: rest) s.

Lemma trail_push nodes s x rest e y :
  trail nodes s (x :: rest) -> arc nodes x e y -> y ∉ x :: rest -> member_of nodes y ->
  trail nodes s (y :: x :: rest).
Proof.
  intros H. remember (x :: rest) as s' eqn:E. revert x rest E.
  induction H as [s|x0 rest0 e0 y0 s Ha Hn Hm _ IH]; intros x rest -> Hxy Hy Hym.
  - econstructor; [done..|]. constructor.
  - econstructor; [done..|]. by eapply IH.
Qed.

Lemma mem_str_spec x l : mem_str x l = true <-> x ∈ l.
Proof.
  unfold mem_str. rewrite existsb_exists. split.
  - intros (y & Hy & ->%String.eqb_eq). by apply list_elem_of_In.
  - intros H. exists x. by rewrite String.eqb_refl, <- list_elem_of_In.
Qed.

(** Every edge the search meets on a trail that leads back into it is bounded. *)
Definition search_ok (nodes : json) (start : list string) : Prop :=
  forall x rest e y, trail nodes start (x :: rest) -> arc nodes x e y -> y ∈ x :: rest -> bounded e.

Lemma member_of_keys m x : member_of (JObject m) x <-> x ∈ m.*1.
Proof.
  unfold member_of. simpl. rewrite <- om_mem_keys. destruct (om_mem x m); naive_solver.
Qed.

(** What the search has established of one edge out of the innermost node. *)
Definition edge_searched (nodes : json) (active : list string) (e : json) : Prop :=
  forall y, get_string "to" "" e = Ok y ->
  (y ∈ active -> bounded e) /\ (y ∉ active -> member_of nodes y -> search_ok nodes (y :: active)).

Lemma dfs_edge_ensures rec nodes id field active e :
  (forall to, keeps unspoilt (rec to)) ->
  (forall to, to ∉ active -> member_of nodes to -> ensures (rec to) (fun _ => search_ok nodes (to :: active))) ->
  ensures (dfs_edge rec nodes id field active e) (fun _ => edge_searched nodes active e).
Proof.
  intros Hk Hrec. unfold dfs_edge. ensures_next. intros to Hto.
  eapply ensures_bind with (P := fun b => b = false -> to ∈ active -> bounded e); [|solve_keeps|].
  { destruct (mem_str to active) eqn:Eact.
    - ensures_next. intros hl Hhl. destruct hl; [apply ensures_ret; intros; by left|].
      ensures_next. intros h Hh. apply ensures_ret. intros Hlt%Z.ltb_ge _. right. by exists h.
    - apply ensures_ret. intros _ Hin%mem_str_spec. congruence. }
  intros ub Hub. destruct ub; [eapply ensures_weaken; [apply ensures_error|done]|].
  ensures_next. intros known Hkn.
  assert ((known && negb (mem_str to active)) = true <-> (to ∉ active) /\ member_of nodes to) as Hiff.
  { rewrite andb_true_iff, negb_true_iff, <- not_true_iff_false, mem_str_spec. unfold member_of. rewrite Hkn.
    naive_solver. }
  eapply ensures_weaken; [apply ensures_when|].
  - intros [H1 H2]%Hiff. by apply Hrec.
  - intros u Hok y Hy. assert (y = to) as -> by congruence. split; [by apply Hub|].
    intros H1 H2. apply Hok, Hiff. done.
Qed.

(** A stack whose edges have all been searched is searched. *)
Lemma search_ok_node nodes id active n :
  jget id nodes = Ok n ->
  (forall field es, field ∈ ["next"; "on_error"] -> edges_of n field = Ok es ->
                    Forall (edge_searched nodes (id :: active)) es) ->
  search_ok nodes (id :: active).
Proof.
  intros Hn Hall x rest e y Htr Harc Hy.
  inversion Htr as [|? ? e' y' ? (n' & f & es & Hn' & Hfld & Hes & He & Hto) Hy' Hmy' Htr']; subst.
  - destruct Harc as (n' & f & es & Hn' & Hfld & Hes & He & Hto).
    assert (n' = n) as -> by congruence. specialize (Hall f es Hfld Hes).
    rewrite Forall_forall in Hall. exact (proj1 (Hall e He y Hto) Hy).
  - assert (n' = n) as -> by congruence. specialize (Hall f es Hfld Hes). rewrite Forall_forall in Hall.
    destruct (Hall _ He y' Hto) as [_ Hs]. by eapply Hs.
Qed.

Lemma dfs_ensures m fuel id active :
  (length m < fuel + length active)%nat -> NoDup (id :: active) ->
  Forall (member_of (JObject m)) (id :: active) ->
  ensures (dfs fuel (JObject m) id active) (fun _ => search_ok (JObject m) (id :: active)).
Proof.
  revert id active. induction fuel as [|fuel IH]; intros id active Hf Hnd Hmem.
  { exfalso. assert (length (id :: active) <= length m.*1)%nat as Hle.
    { apply submseteq_length, NoDup_submseteq; [done|]. intros z Hz.
      apply member_of_keys. by eapply Forall_forall in Hmem. }
    rewrite length_fmap in Hle. simpl in *. lia. }
  cbn [dfs]. ensures_next. intros n Hn.
  eapply ensures_weaken; [apply ensures_for_each with (P := fun field => forall es, edges_of n field = Ok es ->
    Forall (edge_searched (JObject m) (id :: active)) es); [solve_keeps|]|].
  - intros field. ensures_next. intros es Hes.
    eapply ensures_weaken; [apply ensures_for_each; [solve_keeps|intros e; apply dfs_edge_ensures; [solve_keeps|]]|].
    + intros to Hto Hm. apply IH; [simpl in *; lia|by constructor|by constructor].
    + intros u Hall es' Hes'. assert (es' = es) as -> by congruence. exact Hall.
  - intros u Hall. cbv beta in Hall. rewrite Forall_forall in Hall. apply (search_ok_node _ _ _ n Hn).
    intros field es Hfld Hes. exact (Hall field Hfld es Hes).
Qed.

Lemma arc_member m x e y : arc (JObject m) x e y -> member_of (JObject m) x.
Proof.
  intros (n & field & es & Hn & _ & Hes & He & _). unfold member_of. simpl in *. unfold om_mem.
  destruct (om_get x m); [done|]. simplify_eq/=. unfold edges_of in Hes. simpl in Hes. simplify_eq. set_solver.
Qed.

Definition steps_to (nodes : json) (x y : string) : Prop := exists e, arc nodes x e y.
Definition unbounded_step (nodes : json) (x y : string) : Prop := exists e, arc nodes x e y /\ ~ bounded e.

Lemma trail_extends nodes s s' : trail nodes s s' -> exists l, s' = l ++ s.
Proof.
  induction 1 as [s|x rest e y s _ _ _ _ [l ->]]; [by exists []|]. exists (l ++ [y]). by rewrite <- app_assoc.
Qed.

Lemma trail_suffix nodes s s' l k : trail nodes s s' -> s' = l ++ k ++ s -> trail nodes s (k ++ s).
Proof.
  intros H. revert l k. induction H as [s|x rest e y s Ha Hn Hm Htr IH]; intros l k E.
  - assert (k = []) as -> by (apply (f_equal length) in E; rewrite !length_app in E; destruct k; simpl in *; [done|lia]).
    constructor.
  - destruct k as [|w k _] using rev_ind; [constructor|].
    destruct (trail_extends _ _ _ Htr) as [l' El']. rewrite <- app_assoc in *. simpl in *.
    assert (w = y) as ->.
    { rewrite El' in E. rewrite (app_assoc l) in E.
      change (y :: x :: rest) with ([y] ++ x :: rest) in E. change (w :: x :: rest) with ([w] ++ x :: rest) in E.
      rewrite !app_assoc in E. apply app_inv_tail in E. by apply app_inj_tail in E as [_ <-]. }
    econstructor; [done..|]. by eapply IH.
Qed.

(** Every node reachable from the entry is at the end of a trail. *)
Lemma reachable_trail m entry z :
  rtc (steps_to (JObject m)) entry z -> member_of (JObject m) z ->
  exists rest, trail (JObject m) [entry] (z :: rest).
Proof.
  intros H. revert z H. apply (rtc_ind_r (fun z => _ -> exists rest, _)).
  - intros _. exists []. constructor.
  - intros y z _ [e Harc] IH Hz. destruct IH as [rest Htr]; [by eapply arc_member|].
    destruct (decide (z ∈ y :: rest)) as [Hin|Hnin].
    + destruct (trail_extends _ _ _ Htr) as [l El].
      apply list_elem_of_split in Hin as (l1 & l2 & E). rewrite E in Htr.
      destruct l2 as [|w l2 _] using rev_ind.
      * exists []. assert (z = entry) as ->; [|constructor].
        rewrite El in E. by apply app_inj_tail in E as [_ <-].
      * exists (l2 ++ [w]). assert (w = entry) as ->.
        { rewrite El in E. rewrite (app_assoc l1 [z]), app_assoc in E || idtac.
          change (l1 ++ z :: l2 ++ [w]) with (l1 ++ ([z] ++ l2) ++ [w]) in E. rewrite app_assoc in E.
          by apply app_inj_tail in E as [_ <-]. }
        by apply (trail_suffix _ [entry] (l1 ++ z :: l2 ++ [entry]) l1 (z :: l2)).
    + exists (y :: rest). by eapply trail_push.
Qed.

Lemma walk_member m x y : tc (unbounded_step (JObject m)) x y -> member_of (JObject m) x.
Proof. intros [? ? (e & Ha & _)|? ? ? (e & Ha & _) _]; by eapply arc_member. Qed.

Lemma unbounded_walk_leaves m entry x y rest :
  search_ok (JObject m) [entry] -> tc (unbounded_step (JObject m)) x y ->
  trail (JObject m) [entry] (x :: rest) -> y ∉ x :: rest.
Proof.
  intros Hok H. revert rest. induction H as [x y (e & Ha & Hb)|x y z (e & Ha & Hb) Hyz IH]; intros rest Htr Hin.
  - apply Hb. by eapply Hok.
  - assert (y ∉ x :: rest) as Hy by (intros Hy; apply Hb; by eapply Hok).
    eapply (IH (x :: rest)).
    + eapply trail_push; [done..|]. by eapply walk_member.
    + set_solver.
Qed.

Lemma search_ok_acyclic m entry x :
  search_ok (JObject m) [entry] -> rtc (steps_to (JObject m)) entry x ->
  ~ tc (unbounded_step (JObject m)) x x.
Proof.
  intros Hok Hr Hc.
  assert (member_of (JObject m) x) as Hx by (by eapply walk_member).
  destruct (reachable_trail m entry x Hr Hx) as [rest Htr].
  eapply unbounded_walk_leaves; [done..|]. set_solver.
Qed.

(** ** Accepted documents *)
Definition document_ok (root : json) : Prop :=
  exists m entry, jget "nodes" root = Ok (JObject m) /\ get_string "entry" "" root = Ok entry
    /\ member_of (JObject m) entry /\ Forall (node_ok (JObject m)) m.*1.
Definition document_acyclic (root : json) : Prop :=
  forall nodes entry x, jget "nodes" root = Ok nodes -> get_string "entry" "" root = Ok entry ->
  rtc (steps_to nodes) entry x -> ~ tc (unbounded_step nodes) x x.

Lemma check_nodes_ensures root m :
  jget "nodes" root = Ok (JObject m) ->
  ensures (check_nodes root (JObject m)) (fun _ => document_ok root /\ document_acyclic root).
Proof.
  intros Hnodes. unfold check_nodes. ensures_next. intros names [= <-]. ensures_next. intros ? _.
  destruct (measure_workflow_strings root (0, 0)) as [literals expressions].
  do 2 (ensures_next; intros ? _). ensures_next. intros entry Hentry. ensures_next. intros has Hhas.
  eapply ensures_bind with (P := fun _ => has = true); [|solve_keeps|].
  { destruct has; [done|]. rewrite orb_true_r. eapply ensures_weaken; [apply ensures_error|done]. }
  intros ? ->. eapply ensures_bind; [apply ensures_for_each; [solve_keeps|apply check_node_ensures]|solve_keeps|].
  intros ? Hall. do 4 (ensures_next; intros ? _). cbn [when].
  eapply ensures_weaken; [apply dfs_ensures|].
  - simpl. rewrite length_fmap. lia.
  - apply NoDup_singleton.
  - by constructor.
  - intros u Hs. split; [by exists m, entry|].
    intros nodes entry' x Hn He. assert (nodes = JObject m) as -> by congruence.
    assert (entry' = entry) as -> by congruence. by apply search_ok_acyclic.
Qed.

Lemma check_root_ensures root : ensures (check_root root) (fun _ => document_ok root /\ document_acyclic root).
Proof.
  unfold check_root. destruct (negb (is_object root)); [eapply ensures_weaken; [apply ensures_error|done]|].
  do 6 (ensures_next; intros ? _). ensures_next. intros nodes Hn.
  destruct nodes; try (eapply ensures_weaken; [apply ensures_error|done]).
  cbn [is_object negb orb]. destruct (jempty _); [eapply ensures_weaken; [apply ensures_error|done]|].
  by apply check_nodes_ensures.
Qed.

Lemma validate_ok text ds root :
  validate text = Ok ds -> forallb (fun d => negb (is_error d)) ds = true ->
  parse_workflow_json text = Ok root -> document_ok root /\ document_acyclic root.
Proof.
  unfold validate. intros H Hc Hp. rewrite Hp in H.
  destruct (check_root root (mkV [] [] 0)) as [[u|e] st] eqn:E.
  - simplify_res. by eapply check_root_ensures.
  - destruct e; simplify_res. rewrite forallb_app in Hc. by apply andb_true_iff in Hc as [_ Hc].
Qed.

(** C30: a document [validate] finds no error in has an existing entry, and each of its
    nodes has a legal identifier, a known type, the executor its type needs, an
    admissible effect declaration (writes are never declared safe to replay,
    irreversible nodes are manual or forbidden, no retries where replay is not
    allowed), and edges, branches and join that name existing nodes. *)
Theorem validate_sound text ds root :
  validate text = Ok ds -> forallb (fun d => negb (is_error d)) ds = true ->
  parse_workflow_json text = Ok root -> document_ok root.
Proof. intros. by eapply validate_ok. Qed.

(** C31: in a document [validate] finds no error in, no cycle of [next] and [on_error]
    edges that such edges lead to from the entry consists of edges without [loop] or
    [max_hits].  Nodes only the branches or the join of a parallel node lead to are not
    looked at. *)
Theorem validate_cycles_bounded text ds root :
  validate text = Ok ds -> forallb (fun d => negb (is_error d)) ds = true ->
  parse_workflow_json text = Ok root -> document_acyclic root.
Proof. intros. by eapply validate_ok. Qed.

(** ** Reachability *)
Definition arc_in (graph : list (string * list string)) (x y : string) : Prop := y ∈ graph_of graph x.
Definition weight (graph : list (string * list string)) (reached : list string) : nat :=
  sum_list ((fun p => if mem_str p.1 reached then 0%nat else length p.2) <$> graph).

Lemma weight_cons k l graph reached :
  weight ((k, l) :: graph) reached = ((if mem_str k reached then 0 else length l) + weight graph reached)%nat.
Proof. reflexivity. Qed.
Lemma mem_str_cons x y l : mem_str x (y :: l) = String.eqb x y || mem_str x l.
Proof. reflexivity. Qed.

Lemma weight_mono graph reached x : (weight graph (x :: reached) <= weight graph reached)%nat.
Proof.
  induction graph as [|[k l] g IH]; [done|]. rewrite !weight_cons, mem_str_cons.
  destruct (String.eqb k x), (mem_str k reached); cbn [orb]; lia.
Qed.

Lemma weight_insert graph reached x :
  mem_str x reached = false ->
  (weight graph (x :: reached) + length (graph_of graph x) <= weight graph reached)%nat.
Proof.
  intros Hx. induction graph as [|[k l] g IH]; [done|]. rewrite !weight_cons, mem_str_cons.
  unfold graph_of in *. cbn [om_get]. destruct (String.eqb_spec x k) as [->|Hne].
  - rewrite String.eqb_refl, Hx. cbn [orb from_option]; unfold id. pose proof (weight_mono g reached k). lia.
  - destruct (String.eqb_spec k x) as [->|_]; [done|]. cbn [orb]. destruct (mem_str k reached); lia.
Qed.

Lemma elem_of_rev {A} (x : A) l : x ∈ rev l <-> x ∈ l.
Proof. rewrite !list_elem_of_In. symmetry. apply in_rev. Qed.

Lemma reach_sound fuel graph stack reached x :
  x ∈ reach fuel graph stack reached -> x ∈ reached \/ exists s, s ∈ stack /\ rtc (arc_in graph) s x.
Proof.
  revert stack reached. induction fuel as [|fuel IH]; intros stack reached; [by left|].
  destruct stack as [|z stack]; [by left|]. cbn [reach]. destruct (mem_str z reached).
  - intros [?|(s & Hs & Hr)]%IH; [by left|]. right. exists s. split; [set_solver|done].
  - intros [[->|?]%elem_of_cons|(s & Hs & Hr)]%IH; [right|by left|right].
    + exists z. split; [set_solver|done].
    + apply elem_of_app in Hs as [Hs|Hs]; [|exists s; set_solver].
      exists z. split; [set_solver|]. eapply rtc_l; [|done]. unfold arc_in. by apply elem_of_rev.
Qed.

(** With enough fuel the result holds the stack and is closed under arcs. *)
Lemma reach_complete fuel graph stack reached :
  (length stack + weight graph reached <= fuel)%nat ->
  (forall x y, x ∈ reached -> arc_in graph x y -> y ∈ reached \/ y ∈ stack) ->
  let R := reach fuel graph stack reached in
  (forall x, x ∈ reached \/ x ∈ stack -> x ∈ R) /\ (forall x y, x ∈ R -> arc_in graph x y -> y ∈ R).
Proof.
  revert stack reached. induction fuel as [|fuel IH]; intros [|z stack] reached Hf Hinv; simpl in Hf; try lia.
  - split; [set_solver|naive_solver set_solver].
  - split; [set_solver|naive_solver set_solver].
  - cbn [reach]. destruct (mem_str z reached) eqn:Ez.
    + apply mem_str_spec in Ez. destruct (IH stack reached) as [H1 H2]; [lia| |split; [|done]].
      * intros x y Hx Hy. destruct (Hinv x y Hx Hy); set_solver.
      * intros x Hx. apply H1. set_solver.
    + pose proof (weight_insert graph reached z Ez) as Hw.
      destruct (IH (rev (graph_of graph z) ++ stack) (z :: reached)) as [H1 H2]; [| |split; [|done]].
      * rewrite length_app, length_rev. lia.
      * intros x y [->|Hx]%elem_of_cons Hy.
        -- right. apply elem_of_app. left. by apply elem_of_rev.
        -- destruct (Hinv x y Hx Hy); set_solver.
      * intros x Hx. apply H1. set_solver.
Qed.

Lemma reach_spec graph entry x :
  x ∈ reach (reach_fuel graph) graph [entry] [] <-> rtc (arc_in graph) entry x.
Proof.
  split.
  - intros [[]%elem_of_nil|(s & ->%list_elem_of_singleton & Hr)]%reach_sound. done.
  - intros Hr. destruct (reach_complete (reach_fuel graph) graph [entry] []) as [H1 H2]; [done| |].
    { set_solver. }
    assert (entry ∈ reach (reach_fuel graph) graph [entry] []) as Hin by (apply H1; set_solver).
    clear H1. revert H2 Hin. generalize (reach (reach_fuel graph) graph [entry] []). intros R H2 Hin.
    revert Hin. induction Hr as [x|x y z Hxy _ IH]; [done|]. intros Hx. apply IH. by eapply H2.
Qed.

(** the reachability loop of [validate] finds exactly the nodes some path of edges,
    branches and joins leads to from the entry; the rest are the ones it warns about. *)
Theorem reach_exact graph entry x :
  mem_str x (reach (reach_fuel graph) graph [entry] []) = true <-> rtc (arc_in graph) entry x.
Proof. rewrite mem_str_spec. apply reach_spec. Qed.
End Workflow.
