(* ===== verification/Trace.v ===== *)
(** * Trace events and sinks (src/trace.cpp, include/dage/trace.hpp, src/opentelemetry.cpp)

    The envelope the runtime emits and the sinks a host composes: memory, bounded
    queue, sampling, redaction, spans.  A sink is a step on its own state that may
    hand events downstream.  The theorems show that the queue delivers in order
    within its capacity and accounts for every event, that sampling decides once per
    trace, and that no redacted field survives at any depth. *)

From S2P Require Import Prelude Json Sha256.
Open Scope string_scope.
Open Scope list_scope.
Open Scope Z_scope.

Inductive TraceCapture := CaptureOff | CaptureMetadata | CaptureInputs | CaptureFull.
#[export] Instance TraceCapture_eq_dec : EqDecision TraceCapture.
Proof. solve_decision. Defined.
Definition capture_level (c : TraceCapture) : Z :=
  match c with CaptureOff => 0 | CaptureMetadata => 1 | CaptureInputs => 2 | CaptureFull => 3 end.

Record EventEnvelope := mkEnvelope {
  ev_schema_version : Z; ev_sequence : Z; ev_timestamp_unix_ms : Z; ev_elapsed_ms : Z; ev_attempt : Z; ev_event : string;
  ev_run_id : string; ev_invocation_id : string; ev_workflow_digest : string; ev_bundle_digest : string;
  ev_node_id : string; ev_node_type : string; ev_executor : string; ev_category : string; ev_code : string;
  ev_payload_json : string; ev_trace_id : string; ev_span_id : string; ev_parent_span_id : string;
  ev_causation_id : string
}.
#[export] Instance eta_EventEnvelope : Settable EventEnvelope := fun e =>
  mkEnvelope (ev_schema_version e) (ev_sequence e) (ev_timestamp_unix_ms e) (ev_elapsed_ms e) (ev_attempt e) (ev_event e)
    (ev_run_id e) (ev_invocation_id e) (ev_workflow_digest e) (ev_bundle_digest e) (ev_node_id e)
    (ev_node_type e) (ev_executor e) (ev_category e) (ev_code e) (ev_payload_json e) (ev_trace_id e)
    (ev_span_id e) (ev_parent_span_id e) (ev_causation_id e).

(** ** Sampling *)
Definition hex_value (c : ascii) : Z :=
  if in_range "0" "9" c then code c - code "0"
  else 10 + (if in_range "a" "f" c then code c - code "a" else code c - code "A").

(** [value=(value<<4)|digit] over at most [n] characters, in 32 bits; the C++ operand
    is converted to [uint32_t] first. *)
Fixpoint bucket_value (n : nat) (s : string) (value : Z) : Z :=
  match n, s with
  | S n', String c s' => bucket_value n' s' (Z.lor (u32 (Z.shiftl value 4)) (u32 (hex_value c)))
  | _, _ => value
  end.

(** [find(':')+1] is 0 when there is no colon ([npos+1]). *)
Definition trace_sample_bucket (trace_id : string) : Z :=
  let digest := sha256_digest trace_id in
  let offset := match str_find ":" 0 digest with Some i => S i | None => O end in
  bucket_value 8 (str_from offset digest) 0 mod 10000.
#[global] Arguments trace_sample_bucket : simpl never.

Lemma trace_sample_bucket_range s : 0 <= trace_sample_bucket s < 10000.
Proof. apply Z.mod_pos_bound. lia. Qed.

Record TraceSamplingOptions := mkSampling { rate_basis_points : Z; always_sample_errors : bool }.

Definition sampling_new (options : TraceSamplingOptions) : exc TraceSamplingOptions :=
  if 10000 <? rate_basis_points options then Err (InvalidArgument "invalid sampling options") else Ok options.

(** [SamplingTraceSink::emit]: whether the event goes downstream. *)
Definition sampling_emit (options : TraceSamplingOptions) (event : EventEnvelope) : bool :=
  let error := negb (str_empty (ev_code event)) in
  let key := if str_empty (ev_trace_id event) then ev_run_id event else ev_trace_id event in
  let sampled := trace_sample_bucket key <? rate_basis_points options in
  sampled || (error && always_sample_errors options).

(** ** Redaction *)
Section Redact.
Context {J : JsonLib} (fields : list string) (replacement : string).

Definition is_redacted (name : string) : bool := existsb (String.eqb name) fields.

Fixpoint redact (value : json) : json :=
  match value with
  | JObject m =>
    JObject ((fix go (m : list (string * json)) :=
                match m with
                | [] => []
                | (name, x) :: m' =>
                  (name, if is_redacted name then JString replacement else redact x) :: go m'
                end) m)
  | JArray l => JArray ((fix go l := match l with [] => [] | x :: l' => redact x :: go l' end) l)
  | _ => value
  end.

(** [RedactingTraceSink::emit]: the event handed downstream; a payload that is not
    JSON goes through unchanged. *)
Definition redacting_emit (event : EventEnvelope) : EventEnvelope :=
  if str_empty (ev_payload_json event) then event
  else match jl_parse (ev_payload_json event) with
       | Ok root => event <| ev_payload_json := jl_write_ascii (redact root) |>
       | Err _ => event
       end.

(** No member named by [fields] holds anything but the replacement, at any depth. *)
Fixpoint redacted (v : json) : Prop :=
  match v with
  | JObject m =>
    (fix go (m : list (string * json)) : Prop :=
       match m with
       | [] => True
       | (name, x) :: m' => (if is_redacted name then x = JString replacement else redacted x) /\ go m'
       end) m
  | JArray l => (fix go l : Prop := match l with [] => True | x :: l' => redacted x /\ go l' end) l
  | _ => True
  end.

Lemma redact_redacted v : redacted (redact v).
Proof.
  induction v as [|z|z|d|s|b|l IH|m IH] using json_rect'; simpl; try done.
  - induction IH as [|x l Hx _ IHl]; simpl; done.
  - induction IH as [|[name x] m Hx _ IHm]; simpl; [done|]. split; [|done]. by destruct (is_redacted name).
Qed.

(** Redaction keeps the shape: members keep their names and order, and a value
    without a redacted member is untouched. *)
Lemma redact_id v : redacted v -> redact v = v.
Proof.
  induction v as [|z|z|d|s|b|l IH|m IH] using json_rect'; simpl; try done; intros H; f_equal.
  - induction IH as [|x l Hx _ IHl]; simpl in *; [done|]. destruct H as [H1 H2]. f_equal; auto.
  - induction IH as [|[name x] m Hx _ IHm]; simpl in *; [done|]. destruct H as [H1 H2]. f_equal; [|auto].
    f_equal. destruct (is_redacted name); [done|]. by apply Hx.
Qed.
End Redact.

(** ** AsyncTraceSink

    The queue under its mutex.  [aq_done] is what the worker has handed downstream;
    the steps are one call of [emit], the worker taking an event, the worker
    finishing it, and the shutdown.  A [Block] emitter waits for space: its call is
    [None] while the queue is full. *)
Inductive TraceQueueFullPolicy := DropNewest | DropOldest | Block.
Record AsyncTraceSink := mkAsync {
  aq_capacity : Z; aq_policy : TraceQueueFullPolicy; aq_stopping : bool; aq_queue : list EventEnvelope;
  aq_active : option EventEnvelope; aq_accepted : Z; aq_dropped : Z; aq_exported : Z;
  aq_done : list EventEnvelope
}.
#[export] Instance eta_AsyncTraceSink : Settable AsyncTraceSink := fun s =>
  mkAsync (aq_capacity s) (aq_policy s) (aq_stopping s) (aq_queue s) (aq_active s) (aq_accepted s)
    (aq_dropped s) (aq_exported s) (aq_done s).

Definition async_new (capacity : Z) (policy : TraceQueueFullPolicy) : exc AsyncTraceSink :=
  if capacity =? 0 then Err (InvalidArgument "invalid async trace options")
  else Ok (mkAsync capacity policy false [] None 0 0 0 []).

Definition async_push (event : EventEnvelope) (s : AsyncTraceSink) : AsyncTraceSink :=
  s <| aq_queue := aq_queue s ++ [event] |> <| aq_accepted := aq_accepted s + 1 |>.

Definition async_emit (event : EventEnvelope) (s : AsyncTraceSink) : option AsyncTraceSink :=
  if aq_stopping s then Some s
  else if aq_capacity s <=? Z.of_nat (length (aq_queue s)) then
    match aq_policy s with
    | DropNewest => Some (s <| aq_dropped := aq_dropped s + 1 |>)
    | DropOldest =>
      Some (async_push event (s <| aq_queue := tail (aq_queue s) |> <| aq_dropped := aq_dropped s + 1 |>))
    | Block => None
    end
  else Some (async_push event s).

Definition async_take (s : AsyncTraceSink) : option AsyncTraceSink :=
  match aq_active s, aq_queue s with
  | None, e :: q => Some (s <| aq_queue := q |> <| aq_active := Some e |>)
  | _, _ => None
  end.
Definition async_export (s : AsyncTraceSink) : option AsyncTraceSink :=
  match aq_active s with
  | Some e => Some (s <| aq_done := aq_done s ++ [e] |> <| aq_active := None |> <| aq_exported := aq_exported s + 1 |>)
  | None => None
  end.

(** What is in the sink, oldest first, and the events evicted after acceptance. *)
Definition aq_all (s : AsyncTraceSink) : list EventEnvelope :=
  aq_done s ++ option_list (aq_active s) ++ aq_queue s.
Definition aq_evicted (s : AsyncTraceSink) : Z :=
  match aq_policy s with DropOldest => aq_dropped s | _ => 0 end.

(** [async_run cap policy emitted s]: [s] is reachable by an interleaving of the
    emitters' calls, in the order [emitted], with the worker's steps. *)
Inductive async_run (cap : Z) (policy : TraceQueueFullPolicy) : list EventEnvelope -> AsyncTraceSink -> Prop :=
| run_new s : 0 <= cap -> async_new cap policy = Ok s -> async_run cap policy [] s
| run_emit l e s s' : async_run cap policy l s -> async_emit e s = Some s' -> async_run cap policy (l ++ [e]) s'
| run_take l s s' : async_run cap policy l s -> async_take s = Some s' -> async_run cap policy l s'
| run_export l s s' : async_run cap policy l s -> async_export s = Some s' -> async_run cap policy l s'
| run_stop l s : async_run cap policy l s -> async_run cap policy l (s <| aq_stopping := true |>).

Record async_ok (cap : Z) (policy : TraceQueueFullPolicy) (emitted : list EventEnvelope) (s : AsyncTraceSink)
    : Prop := {
  ok_policy : aq_policy s = policy /\ aq_capacity s = cap /\ 0 < cap;
  ok_capacity : Z.of_nat (length (aq_queue s)) <= cap;
  ok_exported : aq_exported s = Z.of_nat (length (aq_done s));
  ok_accepted : aq_accepted s = Z.of_nat (length (aq_all s)) + aq_evicted s;
  ok_order : aq_all s `sublist_of` emitted
}.

Lemma aq_all_push e s : aq_all (async_push e s) = aq_all s ++ [e].
Proof. unfold aq_all. simpl. by rewrite !app_assoc. Qed.

Lemma async_emit_ok cap policy l e s s' :
  async_ok cap policy l s -> async_emit e s = Some s' -> async_ok cap policy (l ++ [e]) s'.
Proof.
  intros [(Hp & Hc & Hnz) Hcap Hex Hacc Hord] Hs. unfold async_emit in Hs.
  assert (aq_all s `sublist_of` l ++ [e]) as Hord' by (by apply sublist_inserts_r).
  destruct (aq_stopping s); [by simplify_eq|].
  destruct (Z.leb_spec (aq_capacity s) (Z.of_nat (length (aq_queue s)))) as [Hfull|Hfree].
  - destruct (aq_policy s) eqn:Ep; simplify_eq/=.
    + split; try done. unfold aq_evicted in *. simpl. by rewrite Ep in *.
    + destruct (aq_queue s) as [|x q] eqn:Eq; [simpl in *; lia|].
      unfold aq_all, aq_evicted in *. rewrite Eq, ?Ep in *. split; try done; unfold aq_all, aq_evicted; simpl in *.
      * rewrite length_app. simpl. lia.
      * rewrite Ep. rewrite !length_app in *. simpl in *. lia.
      * rewrite !app_assoc. apply sublist_app; [|done]. rewrite <- app_assoc. etrans; [|done].
        repeat apply sublist_app; try done. by constructor.
  - simplify_eq. split; try done.
    + simpl. rewrite length_app. simpl. lia.
    + rewrite aq_all_push, length_app. unfold aq_evicted in *. simpl. lia.
    + rewrite aq_all_push. by apply sublist_app.
Qed.

Lemma async_run_ok cap policy l s : async_run cap policy l s -> async_ok cap policy l s.
Proof.
  induction 1 as [s H0 Hn|l e s s' _ IH He|l s s' _ [? ? ? ? ?] He|l s s' _ [? ? ? ? ?] He|l s _ [? ? ? ? ?]].
  - unfold async_new in Hn. destruct (Z.eqb_spec cap 0); [done|]. simplify_res. destruct policy; split; simpl; (done || lia || (split_and!; (done || lia))).
  - by eapply async_emit_ok.
  - unfold async_take in He. destruct (aq_active s) eqn:Ea; [done|]. destruct (aq_queue s) as [|e q] eqn:Eq; [done|].
    simplify_eq. unfold aq_all, aq_evicted in *. rewrite Ea, Eq in *. split; unfold aq_all, aq_evicted; simpl in *; (done || lia).
  - unfold async_export in He. destruct (aq_active s) eqn:Ea; [|done]. simplify_eq.
    unfold aq_all, aq_evicted in *. rewrite Ea in *. split; unfold aq_all, aq_evicted; simpl in *;
      rewrite <- ?app_assoc, ?length_app in *; simpl in *; (done || lia).
  - by split.
Qed.

(** whatever the interleaving of emitters and worker, the queue never exceeds its
    capacity, what was handed downstream is an order-preserving selection of what was
    emitted, and every accepted event is exported, held or counted as dropped. *)
Theorem async_sink_accounting cap policy emitted s :
  async_run cap policy emitted s ->
  Z.of_nat (length (aq_queue s)) <= cap
  /\ aq_done s `sublist_of` emitted
  /\ aq_exported s = Z.of_nat (length (aq_done s))
  /\ aq_accepted s = aq_exported s + Z.of_nat (length (option_list (aq_active s) ++ aq_queue s)) + aq_evicted s.
Proof.
  intros [_ Hc He Ha Ho]%async_run_ok. unfold aq_all in *. rewrite length_app in Ha. split_and!; try done.
  - etrans; [|done]. by apply sublist_inserts_r.
  - lia.
Qed.

(** two events of one trace without an error code are both sampled or both
    dropped: a trace is never torn apart. *)
Theorem sampling_consistent options e1 e2 :
  ev_trace_id e1 = ev_trace_id e2 -> ev_trace_id e1 <> "" -> ev_code e1 = "" -> ev_code e2 = "" ->
  sampling_emit options e1 = sampling_emit options e2.
Proof. unfold sampling_emit. intros -> Ht -> ->. destruct (ev_trace_id e2); done. Qed.

(** the payload a redacting sink hands downstream is the text of a document in
    which no listed field holds anything but the replacement, at any depth. *)
Theorem redacting_complete {J : JsonLib} fields replacement e root :
  ev_payload_json e <> "" -> jl_parse (ev_payload_json e) = Ok root ->
  exists v, ev_payload_json (redacting_emit fields replacement e) = jl_write_ascii v
    /\ redacted fields replacement v /\ (redacted fields replacement root -> v = root).
Proof.
  intros Hne Hp. unfold redacting_emit. destruct (ev_payload_json e) as [|c p] eqn:E; [done|]. simpl.
  rewrite Hp. simpl. eexists. split; [done|]. split; [apply redact_redacted|apply redact_id].
Qed.

(** ** OpenTelemetryTraceSink

    [ot_active] are the spans started and not ended, by span identifier; a step
    returns the span exported, if any. *)
Record OpenTelemetrySpan := mkSpan {
  sp_trace_id : string; sp_span_id : string; sp_parent_span_id : string; sp_name : string;
  sp_start_unix_ms : Z; sp_end_unix_ms : Z; sp_status_code : string; sp_attributes : list (string * string)
}.
#[export] Instance eta_OpenTelemetrySpan : Settable OpenTelemetrySpan := fun s =>
  mkSpan (sp_trace_id s) (sp_span_id s) (sp_parent_span_id s) (sp_name s) (sp_start_unix_ms s)
    (sp_end_unix_ms s) (sp_status_code s) (sp_attributes s).

Definition span_of (event : EventEnvelope) (attributes : list (string * string)) : OpenTelemetrySpan :=
  mkSpan (ev_trace_id event) (ev_span_id event) (ev_parent_span_id event) ("dage.node." +:+ ev_node_id event)
    (ev_timestamp_unix_ms event) 0 "" attributes.

Definition otel_emit (event : EventEnvelope) (active : list (string * OpenTelemetrySpan))
    : option OpenTelemetrySpan * list (string * OpenTelemetrySpan) :=
  if String.eqb (ev_event event) "node_started" then
    (None, om_set (ev_span_id event)
      (span_of event (om_set "dage.invocation_id" (ev_invocation_id event)
        (om_set "dage.causation_id" (ev_causation_id event)
        (om_set "dage.node.type" (ev_node_type event)
        (om_set "dage.workflow_digest" (ev_workflow_digest event)
        (om_set "dage.run_id" (ev_run_id event) [])))))) active)
  else if existsb (String.eqb (ev_event event)) ["node_succeeded"; "node_failed"; "node_blocked"; "run_suspended"] then
    let '(span, active) :=
      match om_get (ev_span_id event) active with
      | Some span => (span, om_del (ev_span_id event) active)
      | None => (span_of event [], active)
      end in
    let span := span <| sp_end_unix_ms := ev_timestamp_unix_ms event |>
      <| sp_status_code := if String.eqb (ev_event event) "node_succeeded" then "OK"
                           else if String.eqb (ev_event event) "run_suspended" then "UNSET" else "ERROR" |> in
    let attributes := if str_empty (ev_category event) then sp_attributes span
                      else om_set "error.type" (ev_category event) (sp_attributes span) in
    let attributes := if str_empty (ev_code event) then attributes
                      else om_set "error.code" (ev_code event) attributes in
    (Some (span <| sp_attributes := attributes |>), active)
  else (None, active).

(** A started span that is ended is exported once, from its start to its end, and
    forgotten. *)
Lemma otel_start_end e1 e2 active active1 out active2 :
  ev_event e1 = "node_started" -> ev_event e2 = "node_succeeded" -> ev_span_id e2 = ev_span_id e1 ->
  otel_emit e1 active = (None, active1) -> otel_emit e2 active1 = (out, active2) ->
  exists span, out = Some span /\ sp_start_unix_ms span = ev_timestamp_unix_ms e1
    /\ sp_end_unix_ms span = ev_timestamp_unix_ms e2 /\ sp_status_code span = "OK"
    /\ sp_span_id span = ev_span_id e1 /\ om_get (ev_span_id e1) active2 = None.
Proof.
  intros H1 H2 Hid E1 E2. unfold otel_emit in *. rewrite H1 in E1. rewrite H2 in E2. cbn in E1.
  injection E1 as <-. rewrite Hid in E2. rewrite om_get_set_eq in E2. cbn in E2. injection E2 as <- <-.
  eexists. split_and!; try done. simpl. apply om_get_del_eq.
Qed.
