(* ===== verification/RunState.v ===== *)
(** * Runs: state, host and checkpoints (src/dage.cpp: Run::Impl, Run::checkpoint)

    [RunImpl] is the mutable state of one run, [RunConfig] what an engine hands it,
    [Host] the code outside the runtime a run calls (executors, clock, leases, child
    runs, failure injector).  A [machine] is a run with its host's state, its store,
    the trace it emitted and the log of the calls it made.  Code of a run is an
    [act] over the machine that may leave with a result or an exception. *)

From S2P Require Import Prelude Json Expr Sha256 Ir Reliability Workflow Trace.
Open Scope string_scope.
Open Scope list_scope.
Open Scope Z_scope.

(** ** Results and options (include/dage/dage.hpp) *)
Record ExecutionError := mkExecError {
  xe_category : string; xe_code : string; xe_message : string; xe_node_id : string;
  xe_attempt : Z; xe_retryable : bool; xe_details : json
}.
#[export] Instance eta_ExecutionError : Settable ExecutionError := fun e =>
  mkExecError (xe_category e) (xe_code e) (xe_message e) (xe_node_id e) (xe_attempt e) (xe_retryable e)
    (xe_details e).
Record ExecutionResult := mkResult { xr_success : bool; xr_output : json; xr_error : ExecutionError }.
#[export] Instance eta_ExecutionResult : Settable ExecutionResult := fun r =>
  mkResult (xr_success r) (xr_output r) (xr_error r).

Definition no_error : ExecutionError := mkExecError "" "" "" "" 0 false JNull.
Definition ok_result (output : json) : ExecutionResult := mkResult true output no_error.
Definition fail_retryable (category code message : string) (retryable : bool) : ExecutionResult :=
  mkResult false JNull (mkExecError category code message "" 0 retryable JNull).
Definition fail_result (category code message : string) : ExecutionResult :=
  fail_retryable category code message false.

Inductive RunMode := Normal | Replay | Shadow.
Inductive NodeStatus := Pending | Running | Succeeded | Failed | Suspended | Skipped | Blocked.
Inductive ChildRecordRetention := DeleteOnParentCommit | Keep.
#[export] Instance RunMode_eq_dec : EqDecision RunMode.
Proof. solve_decision. Defined.
#[export] Instance NodeStatus_eq_dec : EqDecision NodeStatus.
Proof. solve_decision. Defined.
#[export] Instance ChildRecordRetention_eq_dec : EqDecision ChildRecordRetention.
Proof. solve_decision. Defined.

Record RunOptions := mkOptions {
  o_mode : RunMode; o_allow_external_writes : bool; o_allow_irreversible : bool; o_deadline_ms : Z;
  o_retry_budget : Z; o_max_output_bytes : Z; o_max_state_bytes : Z; o_max_events : Z;
  o_max_in_flight_tasks : Z; o_trace_capture : TraceCapture; o_child_record_retention : ChildRecordRetention;
  o_component_identities : list (string * string)
}.
#[export] Instance eta_RunOptions : Settable RunOptions := fun o =>
  mkOptions (o_mode o) (o_allow_external_writes o) (o_allow_irreversible o) (o_deadline_ms o)
    (o_retry_budget o) (o_max_output_bytes o) (o_max_state_bytes o) (o_max_events o)
    (o_max_in_flight_tasks o) (o_trace_capture o) (o_child_record_retention o) (o_component_identities o).
Definition default_options : RunOptions :=
  mkOptions Normal true false 0 100 (16 * 1024 * 1024) (32 * 1024 * 1024) 100000 64 CaptureMetadata
    DeleteOnParentCommit [].

Definition run_mode_name (mode : RunMode) : string :=
  match mode with Normal => "normal" | Replay => "replay" | Shadow => "shadow" end.
Definition node_status_name (status : NodeStatus) : string :=
  match status with
  | Pending => "pending" | Running => "running" | Succeeded => "succeeded" | Failed => "failed"
  | Suspended => "suspended" | Skipped => "skipped" | Blocked => "blocked"
  end.

(** ** Run::Impl *)
Record ResourceLease := mkLease { l_lease_id : string; l_fencing_token : Z; l_expires_at_unix_ms : Z }.

Record ParallelContinuation := mkPar {
  p_node : string; p_join : string; p_mode : string; p_fail : string; p_branches : list string;
  p_minimum : Z; p_max_parallel : Z; p_next_index : Z; p_in_flight : Z; p_success_count : Z;
  p_failure_count : Z; p_launching_batch : bool; p_batch_ready : bool; p_terminal : bool;
  p_terminal_result : ExecutionResult; p_batch_results : list (string * ExecutionResult);
  p_children : list string
}.
#[export] Instance eta_ParallelContinuation : Settable ParallelContinuation := fun p =>
  mkPar (p_node p) (p_join p) (p_mode p) (p_fail p) (p_branches p) (p_minimum p) (p_max_parallel p)
    (p_next_index p) (p_in_flight p) (p_success_count p) (p_failure_count p) (p_launching_batch p)
    (p_batch_ready p) (p_terminal p) (p_terminal_result p) (p_batch_results p) (p_children p).

(** The asynchronous continuation: the fields guarded by [continuation_mutex]. *)
Record AsyncState := mkAsyncState {
  a_pending : bool; a_ready : bool; a_generation : Z; a_attempt : Z; a_node : string;
  a_result : ExecutionResult; a_lease : option ResourceLease;
  a_attempt_cancellation : option CancellationToken; a_timer : bool; a_committer : bool
}.
#[export] Instance eta_AsyncState : Settable AsyncState := fun a =>
  mkAsyncState (a_pending a) (a_ready a) (a_generation a) (a_attempt a) (a_node a) (a_result a) (a_lease a)
    (a_attempt_cancellation a) (a_timer a) (a_committer a).
Definition async_init : AsyncState :=
  mkAsyncState false false 0 0 "" (fail_result "internal_error" "ASYNC_NOT_READY" "Async result is not ready.")
    None None false false.

Record SubflowState := mkSubflow {
  sf_node : string; sf_child : bool; sf_pending : bool; sf_ready : bool; sf_result : ExecutionResult
}.
#[export] Instance eta_SubflowState : Settable SubflowState := fun s =>
  mkSubflow (sf_node s) (sf_child s) (sf_pending s) (sf_ready s) (sf_result s).
Definition subflow_init : SubflowState :=
  mkSubflow "" false false false (fail_result "internal_error" "SUBFLOW_NOT_READY" "Subflow result is not ready.").

(** Identifiers that tie the run's events together. *)
Record TraceIds := mkIds {
  t_trace_id : string; t_current_span_id : string; t_parent_span_id : string; t_last_span_id : string;
  t_causation_id : string; t_invocation_id : string
}.
#[export] Instance eta_TraceIds : Settable TraceIds := fun t =>
  mkIds (t_trace_id t) (t_current_span_id t) (t_parent_span_id t) (t_last_span_id t) (t_causation_id t)
    (t_invocation_id t).

Record RunImpl := mkRun {
  r_options : RunOptions; r_bundle_digest : string;
  r_cancelled : bool; r_cancellation : CancellationToken;
  r_workflow_input : json; r_outputs : json; r_state : json; r_error : json; r_run : json;
  r_resume_output : json; r_step : Z; r_elapsed_ms : Z; r_trace : TraceIds;
  r_hits : list (string * Z); r_loops : list (string * Z); r_current : string; r_stop_before : string;
  r_node_status : list (string * NodeStatus); r_event_sequence : Z; r_store_version : Z;
  r_retry_remaining : Z; r_initialized : bool; r_is_suspended : bool; r_has_resume : bool;
  r_completed : bool; r_async : AsyncState; r_parallel : option ParallelContinuation;
  r_replay_outcomes : list (string * list ExecutionResult); r_deterministic_replay : bool;
  r_subflow : SubflowState; r_started : Z
}.
#[export] Instance eta_RunImpl : Settable RunImpl := fun r =>
  mkRun (r_options r) (r_bundle_digest r) (r_cancelled r) (r_cancellation r) (r_workflow_input r)
    (r_outputs r) (r_state r) (r_error r) (r_run r) (r_resume_output r) (r_step r) (r_elapsed_ms r)
    (r_trace r) (r_hits r) (r_loops r) (r_current r) (r_stop_before r) (r_node_status r)
    (r_event_sequence r) (r_store_version r) (r_retry_remaining r) (r_initialized r) (r_is_suspended r)
    (r_has_resume r) (r_completed r) (r_async r) (r_parallel r) (r_replay_outcomes r)
    (r_deterministic_replay r) (r_subflow r) (r_started r).

(** ** What a run is given *)
Record RunConfig := mkConfig {
  c_workflow : WorkflowIR; c_executors : list string; c_async_executors : list string;
  c_workflows : list (string * WorkflowIR); c_policy : option (string -> bool);
  c_events : bool; c_trace_sink : bool; c_lease_provider : bool; c_store : bool; c_injector : bool
}.

Record ExecutionContext := mkContext {
  x_run_id : string; x_node_id : string; x_node_type : string; x_attempt : Z; x_idempotency_key : string;
  x_run_mode : string; x_deadline_remaining_ms : Z; x_effect_committer : bool; x_lease : option ResourceLease
}.
Record ResourceRequest := mkRequest {
  q_run_id : string; q_node_id : string; q_node_type : string; q_executor : string; q_units : Z;
  q_resources : list (string * Z); q_priority : Z; q_fairness_key : string; q_lease_ttl_ms : Z;
  q_deadline_remaining_ms : Z
}.

(** How a synchronous executor came back: its result or exception, whether it
    committed its effect fence, and whether the wait for it timed out first. *)
Record ExecOutcome := mkExecOutcome {
  out_result : exc ExecutionResult; out_committed : bool; out_timed_out : bool
}.

(** Code outside the runtime, as functions on the host's state [W].  Starting an
    asynchronous executor tells whether it completed during the call and whether it
    threw.  [h_cancelled] is a cancellation that arrived since the last look, [h_child_results] and
    [h_subflow_result] the completions of child runs that did. *)
Record Host (W : Type) := mkHost {
  h_steady_ms : W -> Z * W;
  h_unix_ms : W -> Z * W;
  h_execute : string -> ExecutionContext -> json -> Z -> W -> ExecOutcome * W;
  h_start_async : string -> ExecutionContext -> json -> Z -> W -> (option ExecutionResult * exc unit) * W;
  h_async_committed : Z -> W -> bool * W;
  h_inject : string -> string -> W -> bool * W;
  h_acquire : ResourceRequest -> W -> exc (Result ResourceLease) * W;
  h_fresh_run_id : W -> Z * W;
  h_recovery_owner : W -> Z * W;
  h_cancelled : W -> option string * W;
  h_child_results : W -> list (string * ExecutionResult) * W;
  h_subflow_result : W -> option ExecutionResult * W
}.
Arguments h_steady_ms {W}. Arguments h_unix_ms {W}. Arguments h_execute {W}. Arguments h_start_async {W}.
Arguments h_async_committed {W}. Arguments h_inject {W}. Arguments h_acquire {W}.
Arguments h_fresh_run_id {W}. Arguments h_recovery_owner {W}. Arguments h_cancelled {W}. Arguments h_child_results {W}.
Arguments h_subflow_result {W}.

(** The calls a run made, in order. *)
Inductive host_call :=
| CallExecute (executor : string) (ctx : ExecutionContext) (input : json)
| CallStart (executor : string) (ctx : ExecutionContext) (input : json) (generation : Z)
| CallSaved (run_id : string) (version : Z) (saved : RunImpl) (text : string)
| CallErased (run_id : string)
| CallLaunch (workflow : WorkflowIR) (child : RunImpl) (input : json)
| CallTimer (delay_ms generation : Z)
| CallSleep (ms : Z)
| CallEvent (name node : string).

Record machine (S W : Type) := mkMachine {
  m_run : RunImpl; m_store : S; m_world : W; m_trace : list EventEnvelope; m_log : list host_call
}.
Arguments mkMachine {S W}. Arguments m_run {S W}. Arguments m_store {S W}. Arguments m_world {S W}.
Arguments m_trace {S W}. Arguments m_log {S W}.
#[export] Instance eta_machine {S W} : Settable (machine S W) := fun m =>
  mkMachine (m_run m) (m_store m) (m_world m) (m_trace m) (m_log m).

(** How code of a run leaves early: with a result, by an exception, or with the process
    ([std::terminate]). *)
Inductive exit := Return (r : ExecutionResult) | Throw (e : exn) | Terminate.

(** ** Objects *)
Definition obj (fields : list (string * json)) : json :=
  JObject (foldl (fun m p => om_set p.1 p.2 m) [] fields).

(** [v[k1]...[kn]] on a mutable value: the missing members are created as null. *)
Fixpoint touch_path {J : JsonLib} (ks : list string) (v : json) : exc json :=
  match ks with
  | [] => Ok v
  | k :: ks' => sub ← jget k v; sub' ← touch_path ks' sub; jset k sub' v
  end.

(** ** Run::checkpoint *)
Definition trace_capture_name (c : TraceCapture) : string :=
  match c with CaptureOff => "off" | CaptureMetadata => "metadata" | CaptureInputs => "inputs" | CaptureFull => "full" end.

Definition checkpoint (workflow_fingerprint : string) (r : RunImpl) : json :=
  let o := r_options r in
  obj [("format", JString "dage-checkpoint"); ("format_version", JString "0.2.0");
       ("runtime_version", JString "0.2.0");
       ("workflow_digest", JString workflow_fingerprint); ("bundle_digest", JString (r_bundle_digest r));
       ("required_capabilities", JArray [JString "state.v1"; JString "node_status.v1"; JString "effects.v1"]);
       ("current", JString (r_current r)); ("workflow_input", r_workflow_input r);
       ("outputs", r_outputs r); ("state", r_state r); ("error", r_error r); ("run", r_run r);
       ("step", JUInt (r_step r)); ("elapsed_ms", JUInt (r_elapsed_ms r));
       ("suspended", JBool (r_is_suspended r)); ("completed", JBool (r_completed r));
       ("run_mode", JString (run_mode_name (o_mode o)));
       ("allow_external_writes", JBool (o_allow_external_writes o));
       ("allow_irreversible", JBool (o_allow_irreversible o));
       ("event_sequence", JUInt (r_event_sequence r)); ("deadline_ms", JUInt (o_deadline_ms o));
       ("retry_budget_remaining", JUInt (r_retry_remaining r));
       ("trace_capture", JString (trace_capture_name (o_trace_capture o)));
       ("component_identities", obj (prod_map id JString <$> o_component_identities o));
       ("state_version", JUInt (r_store_version r));
       ("trace", obj [("trace_id", JString (t_trace_id (r_trace r)));
                      ("last_span_id", JString (t_last_span_id (r_trace r)));
                      ("invocation_id", JString (t_invocation_id (r_trace r)));
                      ("current_span_id", JString (t_current_span_id (r_trace r)));
                      ("parent_span_id", JString (t_parent_span_id (r_trace r)));
                      ("causation_id", JString (t_causation_id (r_trace r)))]);
       ("resource_limits", obj [("max_output_bytes", JUInt (o_max_output_bytes o));
                                ("max_state_bytes", JUInt (o_max_state_bytes o));
                                ("max_events", JUInt (o_max_events o));
                                ("max_in_flight_tasks", JUInt (o_max_in_flight_tasks o))]);
       ("child_record_retention", JString (match o_child_record_retention o with
                                           | Keep => "keep" | DeleteOnParentCommit => "delete_on_parent_commit" end));
       ("node_status", obj (prod_map id (fun s => JString (node_status_name s)) <$> r_node_status r));
       ("hits", obj (prod_map id JInt <$> r_hits r)); ("loops", obj (prod_map id JInt <$> r_loops r))].
#[global] Arguments checkpoint : simpl never.

(** A fresh [Run::Impl]. *)
Definition new_run (workflow : WorkflowIR) (options : RunOptions) (bundle_digest : string) : RunImpl :=
  mkRun options bundle_digest false new_token JNull (JObject []) (JObject []) (JObject []) (JObject []) JNull
    0 0 (mkIds "" "" "" "" "" "root") [] [] "" ""
    (foldl (fun m n => om_set (n_id n) Pending m) [] (w_nodes workflow))
    0 0 (o_retry_budget options) false false false false async_init None [] false subflow_init 0.

(** ** Provider calls (src/dage.cpp: call_state_provider and the store calls) *)
Definition state_provider_error (code message : string) : Error := mkError "state_store" code message false.

Definition call_state_provider {A} (call : exc (Result A)) : Result A :=
  match call with
  | Ok r => r
  | Err e => Err (state_provider_error "STATE_PROVIDER_EXCEPTION" (what e))
  end.

Section Store.
Context {S : Type} `{StateStore S}.

Definition store_compare_exchange (run_id : string) (expected : Z) (cp : string) (s : S) : Result Z * S :=
  let '(out, s) := ss_compare_exchange run_id expected cp s in
  let result := call_state_provider (Ok out) in
  (match result with
   | Ok v => if negb (v =? u64 (expected + 1)) then
               Err (state_provider_error "STATE_PROTOCOL_ERROR" "StateStore CAS returned a non-monotonic version.")
             else result
   | Err _ => result
   end, s).

Definition store_load (run_id : string) (s : S) : Result StateRecord * S :=
  let '(out, s) := ss_load run_id s in (call_state_provider (Ok out), s).

Definition store_claim (run_id : string) (expected : Z) (owner : string) (s : S) : Result StateRecord * S :=
  let '(out, s) := ss_claim run_id expected owner s in
  let result := call_state_provider (Ok out) in
  (match result with
   | Ok r => if negb (sr_version r =? u64 (expected + 1)) || negb (String.eqb (sr_owner r) owner) then
               Err (state_provider_error "STATE_PROTOCOL_ERROR" "StateStore claim returned invalid ownership metadata.")
             else result
   | Err _ => result
   end, s).

Definition store_erase (run_id : string) (s : S) : Result bool * S :=
  let '(out, s) := ss_erase run_id s in (call_state_provider (Ok out), s).
End Store.

(** [acquire_resource_lease]: a provider's exception becomes an error. *)
Definition acquire_resource_lease (call : exc (Result ResourceLease)) : Result ResourceLease :=
  match call with
  | Ok r => r
  | Err e => Err (mkError "resource_limit" "LEASE_PROVIDER_EXCEPTION" (what e) false)
  end.

(** ** Primitive actions of a run *)
Section Actions.
Context {J : JsonLib} {S : Type} `{StateStore S} {W : Type} (cfg : RunConfig) (host : Host W).
Abbreviation M A := (act exit (machine S W) A).

Definition run_get {A} (f : RunImpl -> A) : M A := gets (fun m => f (m_run m)).
Definition run_mod (f : RunImpl -> RunImpl) : M unit := modify (fun m => m <| m_run := f (m_run m) |>).
Definition ask {A} (f : W -> A * W) : M A := fun m =>
  let '(a, w) := f (m_world m) in (Ok a, m <| m_world := w |>).
Definition note (c : host_call) : M unit := modify (fun m => m <| m_log := m_log m ++ [c] |>).
Definition put_store (s : S) : M unit := modify (fun m => m <| m_store := s |>).
Definition return_ {A} (r : ExecutionResult) : M A := leave (Return r).
Definition try_ {A} (m : exc A) : M A :=
  lift match m with Ok a => Ok a | Err e => Err (Throw e) end.
(** The same for what a synchronous executor throws.  Under a timeout it runs in a thread
    of its own, whose exception [future.get()] throws on before [worker.join()]: the
    joinable [std::thread] is destroyed, which ends the process. *)
Definition in_task {A} (timeout : Z) (m : exc A) : M A :=
  lift match m with Ok a => Ok a | Err e => Err (if timeout =? 0 then Throw e else Terminate) end.
Definition mod_json (f : RunImpl -> json) (set : json -> RunImpl -> RunImpl) (g : json -> exc json) : M unit :=
  v ← run_get f; v' ← try_ (g v); run_mod (set v').
Definition mod_state (g : json -> exc json) : M unit := mod_json r_state (fun v r => r <| r_state := v |>) g.
Definition mod_outputs (g : json -> exc json) : M unit := mod_json r_outputs (fun v r => r <| r_outputs := v |>) g.
Definition mod_error (g : json -> exc json) : M unit := mod_json r_error (fun v r => r <| r_error := v |>) g.
Definition mod_run (g : json -> exc json) : M unit := mod_json r_run (fun v r => r <| r_run := v |>) g.
Definition mod_async (f : AsyncState -> AsyncState) : M unit := run_mod (fun r => r <| r_async := f (r_async r) |>).

(** [duration_cast<milliseconds>(steady_clock::now()-started).count()] as a [uint64_t]. *)
Definition current_elapsed : M Z :=
  now ← ask (h_steady_ms host); started ← run_get r_started; mret (u64 (now - started)).

Definition injected (point node : string) : M bool :=
  if c_injector cfg then ask (h_inject host point node) else mret false.

(** [++event_sequence] *)
Definition bump : M unit := run_mod (fun r => r <| r_event_sequence := u64 (r_event_sequence r + 1) |>).

Definition envelope (name node : string) (attempt : Z) (result : option ExecutionResult) (payload : string)
    (r : RunImpl) (run_id : string) (timestamp elapsed : Z) : EventEnvelope :=
  let n := find_node (c_workflow cfg) node in
  let error_of (f : ExecutionError -> string) :=
    match result with Some x => if negb (xr_success x) then f (xr_error x) else "" | None => "" end in
  mkEnvelope 1 (r_event_sequence r) timestamp elapsed attempt name run_id
    (t_invocation_id (r_trace r)) (w_digest (c_workflow cfg)) (r_bundle_digest r) node
    (match n with Some n => node_type_name (n_type n) | None => "" end)
    (match n with Some n => n_executor n | None => "" end)
    (error_of xe_category) (error_of xe_code) payload
    (t_trace_id (r_trace r)) (t_current_span_id (r_trace r)) (t_parent_span_id (r_trace r))
    (t_causation_id (r_trace r)).

Definition emit (name node : string) (attempt : Z) (result : option ExecutionResult) (payload : string)
    (payload_level : TraceCapture) : M unit :=
  when (c_events cfg) (note (CallEvent name node));;
  r ← run_get id;
  let capture := o_trace_capture (r_options r) in
  if negb (c_trace_sink cfg) || bool_decide (capture = CaptureOff) then mret tt else
  run_id ← try_ (get_string "id" "" (r_run r));
  timestamp ← ask (h_unix_ms host);
  elapsed ← (if r_initialized r then current_elapsed else mret 0);
  modify (fun m => m <| m_trace := m_trace m ++ [
    envelope name node attempt result (if capture_level payload_level <=? capture_level capture then payload else "")
      r run_id (u64 timestamp) elapsed] |>).

(** [++event_sequence; emit(...)] *)
Definition event (name node : string) (attempt : Z) (result : option ExecutionResult) (payload : string)
    (payload_level : TraceCapture) : M unit :=
  bump;; emit name node attempt result payload payload_level.
Definition plain_event (name node : string) : M unit := event name node 0 None "" CaptureFull.

Definition run_id_string : M string := run ← run_get r_run; id ← try_ (jget "id" run); try_ (jl_as_string id).

(** The block that saves a checkpoint under the next version, if there is a store. *)
Definition save_checkpoint : M (Result unit) :=
  if negb (c_store cfg) then mret (Ok tt) else
  r ← run_get id;
  persisted ← try_ (parse_json (write_json (checkpoint (w_digest (c_workflow cfg)) r) true));
  persisted ← try_ (jset "state_version" (JUInt (u64 (r_store_version r + 1))) persisted);
  run_id ← run_id_string;
  m ← get_state;
  let text := write_json persisted true in
  let '(saved, s) := store_compare_exchange run_id (r_store_version r) text (m_store m) in
  put_store s;;
  match saved with
  | Err e => mret (Err e)
  | Ok version =>
    note (CallSaved run_id version r text);;
    run_mod (fun r => r <| r_store_version := version |>);;
    mret (Ok tt)
  end.

Definition state_store_failure (e : Error) : ExecutionResult := fail_result "state_store" (err_code e) (err_message e).

(** The same, leaving the step with the store's error. *)
Definition persist : M unit :=
  saved ← save_checkpoint;
  match saved with Ok _ => mret tt | Err e => return_ (state_store_failure e) end.

Definition set_status (node : string) (status : NodeStatus) : M unit :=
  run_mod (fun r => r <| r_node_status := om_set node status (r_node_status r) |>).
End Actions.
#[global] Arguments emit : simpl never.
#[global] Arguments save_checkpoint : simpl never.

(** The readings and exits of a run keep any preorder. *)
#[export] Hint Extern 1 (keeps_on _ _ (try_ _)) => (apply keeps_lift; typeclasses eauto) : keeps.
#[export] Hint Extern 1 (keeps_on _ _ (in_task _ _)) => (apply keeps_lift; typeclasses eauto) : keeps.
#[export] Hint Extern 1 (keeps_on _ _ (return_ _)) => (apply keeps_leave; typeclasses eauto) : keeps.
#[export] Hint Extern 1 (keeps_on _ _ (run_get _)) => (apply keeps_gets; typeclasses eauto) : keeps.
