(* ===== verification/RunStep.v ===== *)
(** * Run::execute_step (src/dage.cpp)

    The driver's step, in the order of the source: the gate at the top of the loop,
    effect admission and the durable fence, input resolution, the kinds of node
    (recorded outcome, synchronous executor with retries, asynchronous executor,
    subflow, parallel), the recording of the outcome and the choice of the next node. *)

From S2P Require Import Prelude Json Expr Sha256 Ir Reliability Workflow Trace RunState.
Open Scope string_scope.
Open Scope list_scope.
Open Scope Z_scope.

Definition external_write (n : NodeIR) : bool := bool_decide (n_effect n = ExternalWrite).
Definition irreversible (n : NodeIR) : bool := bool_decide (n_effect n = Irreversible).
Definition is_write (n : NodeIR) : bool := external_write n || irreversible n.
Definition no_replay (p : ReplayPolicy) : bool :=
  match p with AtMostOnce | Manual | Forbidden => true | _ => false end.

Definition effect_blocked (r : RunImpl) (n : NodeIR) : bool :=
  let o := r_options r in
  negb (r_deterministic_replay r) &&
  ((external_write n && negb (o_allow_external_writes o))
   || (irreversible n && negb (o_allow_irreversible o))
   || (bool_decide (o_mode o = Shadow) && is_write n)
   || (bool_decide (o_mode o = Replay) && no_replay (n_replay n))).

(** The effective deadline of a run, 0 for none. *)
Definition workflow_timeout (ir : WorkflowIR) (o : RunOptions) : Z :=
  if w_timeout_ms ir =? 0 then o_deadline_ms o
  else if o_deadline_ms o =? 0 then w_timeout_ms ir
  else Z.min (w_timeout_ms ir) (o_deadline_ms o).

(** What [Run::cancel] changes of the run itself. *)
Definition cancel_run (reason : string) (r : RunImpl) : RunImpl :=
  r <| r_cancelled := true |>
    <| r_cancellation := request_cancel reason (r_cancellation r) |>
    <| r_async := (r_async r) <| a_attempt_cancellation := request_cancel reason <$> a_attempt_cancellation (r_async r) |> |>.

(** Which continuation, if any, the step resumes. *)
Record Continuing := mkCont { k_async : bool; k_retry : bool; k_parallel : bool; k_subflow : bool }.
Definition k_any (k : Continuing) : bool := k_async k || k_retry k || k_parallel k || k_subflow k.

Definition fold_keys (node run_id key : string) : string :=
  replace_token (replace_token key "${run.id}" run_id) "${node.id}" node.

Definition suspended (message : string) : ExecutionResult := fail_result "suspended" "ASYNC_PENDING" message.
Definition injected_crash (message : string) : ExecutionResult := fail_result "injected_failure" "INJECTED_CRASH" message.

(** The completion callback of an asynchronous attempt, under the continuation mutex:
    ignored unless its attempt is the pending one and has no result yet. *)
Definition complete_async (generation : Z) (result : ExecutionResult) (a : AsyncState) : AsyncState :=
  if negb (a_pending a) || a_ready a || negb (a_generation a =? generation) then a
  else a <| a_result := result |> <| a_ready := true |>.

Section Step.
Context {J : JsonLib} {S : Type} `{StateStore S} {W : Type} (cfg : RunConfig) (host : Host W).
Abbreviation M A := (act exit (machine S W) A).
Let ir := c_workflow cfg.
Let fingerprint := w_digest (c_workflow cfg).

Definition copy_json (v : json) : M json := try_ (copy_value v).

(** ** Entry *)
Definition completed_result {A} : M A :=
  mod_state (touch_path ["_run_result"]);;
  state ← run_get r_state;
  final ← try_ (jget "_run_result" state);
  success ← try_ (get_bool "success" false final);
  if success : bool then
    output ← try_ (jget "output" final); output ← copy_json output; return_ (ok_result output)
  else
    error ← try_ (jget "error" final);
    category ← try_ (get_string "category" "execution_error" error);
    code ← try_ (get_string "code" "RUN_FAILED" error);
    message ← try_ (get_string "message" "Run failed." error);
    return_ (fail_result category code message).

Definition run_identity (r : RunImpl) : json :=
  let o := r_options r in
  obj ([("runtime", JString "dage/0.2.0"); ("workflow_digest", JString fingerprint);
        ("bundle_digest", JString (r_bundle_digest r)); ("run_mode", JString (run_mode_name (o_mode o)))]
       ++ (if bool_decide (o_trace_capture o = CaptureFull) then [("workflow_input", r_workflow_input r)] else [])
       ++ [("components", obj (prod_map id JString <$> o_component_identities o))]).

Definition initialize (public_input : json) : M unit :=
  input ← copy_json public_input;
  run_mod (fun r => r <| r_workflow_input := input |>);;
  run ← run_get r_run;
  has_id ← try_ (jmember "id" run);
  when (negb has_id) (n ← ask (h_fresh_run_id host); mod_run (jset "id" (JString ("run-" +:+ to_string n))));;
  r ← run_get id;
  when (str_empty (t_trace_id (r_trace r))) (
    run_id ← run_id_string;
    run_mod (fun r => r <| r_trace := (r_trace r)
      <| t_trace_id := String.substring 7 32 (sha256_digest (run_id +:+ fingerprint)) |> |>));;
  mod_run (jset "mode" (JString (run_mode_name (o_mode (r_options r)))));;
  when (str_empty (r_current r)) (run_mod (fun r => r <| r_current := w_entry ir |>));;
  now ← ask (h_steady_ms host);
  run_mod (fun r => r <| r_started := now |> <| r_initialized := true |>);;
  r ← run_get id;
  event cfg host "run_started" (r_current r) 0 None (write_json (run_identity r) false) CaptureMetadata.

(** ** The gate at the top of the loop *)
Definition check_cancelled (current : string) : M unit :=
  request ← ask (h_cancelled host);
  match request with Some reason => run_mod (cancel_run reason) | None => mret tt end;;
  r ← run_get id;
  when (r_cancelled r) (
    plain_event cfg host "run_cancelled" current;;
    return_ (fail_result "cancelled" "CANCELLED" (ct_reason (r_cancellation r)))).

Definition continuations (current : string) : M Continuing :=
  r ← run_get id;
  let a := r_async r in
  '(k_a, k_r) ← (if a_pending a && String.eqb (a_node a) current then
      if negb (a_ready a) then return_ (suspended "Async executor completion is pending.")
      else if String.eqb (xe_code (xr_error (a_result a))) "ASYNC_RETRY_READY" then
        mod_async (fun a => a <| a_pending := false |> <| a_ready := false |> <| a_timer := false |>
                              <| a_attempt := u32 (a_attempt a + 1) |>);;
        mret (false, true)
      else mret (true, false)
    else mret (false, false));
  let k_p := match r_parallel r with Some p => String.eqb (p_node p) current | None => false end in
  let sf := r_subflow r in
  k_s ← (if sf_pending sf && String.eqb (sf_node sf) current then
           if negb (sf_ready sf) then return_ (suspended "Subflow completion is pending.") else mret true
         else mret false);
  mret (mkCont k_a k_r k_p k_s).

(** [++step>max_steps] where nothing is being continued. *)
Definition count_step (k : Continuing) : M unit :=
  when (negb (k_any k)) (
    run_mod (fun r => r <| r_step := u64 (r_step r + 1) |>);;
    step ← run_get r_step;
    when (w_max_steps ir <? step) (return_ (fail_result "resource_limit" "MAX_STEPS" "Maximum steps exceeded."))).

Definition check_deadline : M unit :=
  r ← run_get id;
  elapsed ← current_elapsed host;
  let timeout := workflow_timeout ir (r_options r) in
  when (negb (timeout =? 0) && (timeout <? u64 (r_elapsed_ms r + elapsed)))
    (return_ (fail_result "timeout" "WORKFLOW_TIMEOUT" "Workflow timeout.")).

Definition start_node (current : string) : M unit :=
  r ← run_get id;
  run_mod (fun r => r <| r_trace := (r_trace r)
    <| t_parent_span_id := t_last_span_id (r_trace r) |> <| t_causation_id := t_last_span_id (r_trace r) |>
    <| t_current_span_id :=
         String.substring 7 16 (sha256_digest (t_trace_id (r_trace r) +:+ current +:+ to_string (r_step r))) |> |>);;
  set_status current Running;;
  plain_event cfg host "node_started" current.

(** Everything up to the effect checks; the last result is what a branch child
    returns when it reaches its join. *)
Definition enter_node (current : string) (last_result : ExecutionResult) : M (NodeIR * Continuing) :=
  check_cancelled current;;
  k ← continuations current;
  r ← run_get id;
  when (negb (str_empty (r_stop_before r)) && String.eqb current (r_stop_before r)) (return_ last_result);;
  when (negb (o_max_events (r_options r) =? 0) && (o_max_events (r_options r) <=? r_event_sequence r))
    (return_ (fail_result "resource_limit" "MAX_EVENTS" "Run event quota exceeded."));;
  count_step k;;
  check_deadline;;
  match find_node ir current with
  | None => return_ (fail_result "internal_error" "IR_NODE_NOT_FOUND" ("IR node not found: " +:+ current))
  | Some node =>
    crash ← injected cfg host "before_node" current;
    when crash (return_ (injected_crash "Failure injected before node execution."));;
    step ← run_get r_step;
    mod_run (jset "step" (JUInt step));;
    when (negb (k_any k)) (start_node current);;
    mret (node, k)
  end.

(** ** Effects *)
Definition check_blocked (current : string) (node : NodeIR) : M unit :=
  r ← run_get id;
  when (effect_blocked r node) (
    set_status current Blocked;;
    plain_event cfg host "node_blocked" current;;
    return_ (fail_result "effect_blocked" "EFFECT_REPLAY_BLOCKED"
      "Node effect/replay policy blocks execution in this run mode.")).

(** [state["_effects"][current].get("status","")], read for writing nodes only. *)
Definition effect_status (current : string) (node : NodeIR) : M string :=
  if is_write node then
    mod_state (touch_path ["_effects"; current]);;
    state ← run_get r_state;
    entry ← try_ (jget_path ["_effects"; current] state);
    try_ (get_string "status" "" entry)
  else mret "".

Definition set_effect (current field value : string) : M unit :=
  mod_state (jset_path ["_effects"; current; field] (JString value)).

(** The durable fence: the effect is recorded as prepared and the checkpoint saved
    before anything outside is asked to act. *)
Definition prepare_effect (current : string) (node : NodeIR) : M unit :=
  set_effect current "status" "prepared";;
  run_id ← run_id_string;
  set_effect current "idempotency_key" (fold_keys current run_id (n_idempotency_key node));;
  persist cfg;;
  crash ← injected cfg host "after_prepare" current;
  when crash (return_ (injected_crash "Failure injected after effect prepare.")).

(** The result says whether the node's effect was already committed. *)
Definition admit_effect (current : string) (node : NodeIR) (k : Continuing) : M bool :=
  check_blocked current node;;
  status ← effect_status current node;
  let committed := is_write node && String.eqb status "committed" in
  let prepared := is_write node && String.eqb status "prepared" in
  when (prepared && negb (bool_decide (n_replay node = Safe)) && negb (bool_decide (n_replay node = Idempotent)))
    (return_ (fail_result "effect_unknown" "EFFECT_RECOVERY_REQUIRES_MANUAL"
       "Prepared non-idempotent effect cannot be executed automatically after recovery."));;
  r ← run_get id;
  when (negb (r_deterministic_replay r) && is_write node && negb committed && negb (k_async k) && negb (k_retry k))
    (prepare_effect current node);;
  mret committed.

(** ** Input *)
Definition scope_of (r : RunImpl) (input output : json) : scope :=
  mkScope (r_workflow_input r) input output (r_error r) (r_outputs r) (r_state r) (r_run r).

(** [outputs[node]["output"]] on the mutable outputs. *)
Definition output_of (node : string) : M json :=
  mod_outputs (touch_path [node; "output"]);;
  outputs ← run_get r_outputs;
  try_ (jget_path [node; "output"] outputs).

Definition resolve_input (current : string) (node : NodeIR) : M json :=
  template ← copy_json (n_input node);
  output ← output_of current;
  r ← run_get id;
  input ← try_ (resolve_template template (scope_of r (r_workflow_input r) output));
  event cfg host "node_input_resolved" current 0 None (write_json (obj [("input", input)]) false) CaptureInputs;;
  mret input.

(** ** Executors *)
Definition make_context (current : string) (node : NodeIR) (attempt remaining : Z) (run_id : string)
    (mode : RunMode) (lease : option ResourceLease) : ExecutionContext :=
  mkContext run_id current (node_type_name (n_type node)) attempt
    (fold_keys current run_id (n_idempotency_key node)) (run_mode_name mode) remaining (is_write node) lease.

(** What is left of the deadline, 0 where there is none or it has passed. *)
Definition deadline_remaining : M Z :=
  r ← run_get id;
  now ← current_elapsed host;
  let elapsed := u64 (r_elapsed_ms r + now) in
  let timeout := workflow_timeout ir (r_options r) in
  mret (if negb (timeout =? 0) && (elapsed <? timeout) then timeout - elapsed else 0).

Fixpoint resource_amounts (names : list string) (resources : json) : exc (list (string * Z)) :=
  match names with
  | [] => Ok []
  | name :: rest =>
    v ← jget name resources; amount ← jl_as_uint64 v;
    l ← resource_amounts rest resources;
    Ok ((name, amount) :: l)
  end.

Definition lease_request (current : string) (node : NodeIR) (run_id : string) (remaining : Z)
    : M (ResourceRequest * json) :=
  config ← copy_json (n_config node);
  resources ← try_ (jget "resources" config);
  amounts ← (if is_object resources then
               names ← try_ (jmembers resources); try_ (resource_amounts names resources)
             else mret []);
  priority ← try_ (get_int "resource_priority" 0 config);
  fairness ← try_ (get_string "resource_fairness_key" run_id config);
  ttl ← try_ (get_uint64 "resource_lease_ttl_ms" 30000 config);
  mret (mkRequest run_id current (node_type_name (n_type node)) (n_executor node) 1 amounts priority
          (fold_keys current run_id fairness) ttl remaining, resources).

Definition lease_payload (q : ResourceRequest) (resources : json) : list (string * json) :=
  [("units", JUInt (q_units q)); ("deadline_remaining_ms", JUInt (q_deadline_remaining_ms q));
   ("priority", JInt (q_priority q)); ("fairness_key", JString (q_fairness_key q));
   ("ttl_ms", JUInt (q_lease_ttl_ms q)); ("resources", resources)].

(** The lease block of an attempt: nothing without a provider, else the lease or the
    provider's error. *)
Definition acquire_lease (current : string) (node : NodeIR) (run_id : string) (attempt remaining : Z)
    : M (Result (option ResourceLease)) :=
  if negb (c_lease_provider cfg) then mret (Ok None) else
  '(request, resources) ← lease_request current node run_id remaining;
  let payload := lease_payload request resources in
  event cfg host "resource_lease_requested" current attempt None (write_json (obj payload) false) CaptureMetadata;;
  call ← ask (h_acquire host request);
  match acquire_resource_lease call with
  | Err e => mret (Err e)
  | Ok lease =>
    event cfg host "resource_lease_acquired" current attempt None
      (write_json (obj (payload ++ [("lease_id", JString (l_lease_id lease));
                                    ("fencing_token", JUInt (l_fencing_token lease));
                                    ("expires_at_unix_ms", JUInt (l_expires_at_unix_ms lease))])) false)
      CaptureMetadata;;
    mret (Ok (Some lease))
  end.
Definition lease_failure (e : Error) : ExecutionResult :=
  fail_retryable (err_category e) (err_code e) (err_message e) (err_retryable e).

Definition release_lease (current : string) (attempt : Z) (lease : option ResourceLease) : M unit :=
  match lease with
  | Some _ => event cfg host "resource_lease_released" current attempt None "{}" CaptureMetadata
  | None => mret tt
  end.

(** The delay before a retry: doubled from the second attempt on where the backoff is
    exponential, with a jitter drawn from the run, the node and the attempt. *)
Definition retry_wait (current : string) (node : NodeIR) (run_id : string) (delay attempt : Z) : Z :=
  let wait := if String.eqb (n_retry_backoff node) "exponential" && (1 <? attempt)
              then u64 (delay * 2 ^ (Z.min (attempt - 1) 20)) else delay in
  if n_retry_jitter_ms node =? 0 then wait
  else u64 (wait + trace_sample_bucket (run_id +:+ current +:+ to_string attempt)
                   mod (u64 (n_retry_jitter_ms node + 1))).

Definition retry_payload (wait : Z) (next_attempt : json) (budget : Z) : string :=
  write_json (obj [("delay_ms", JUInt wait); ("next_attempt", next_attempt); ("budget_remaining", JUInt budget)]) false.

(** *** Synchronous executors *)

Definition attempt_timeout (node : NodeIR) (deadline remaining : Z) : Z :=
  if deadline =? 0 then n_timeout_ms node
  else if n_timeout_ms node =? 0 then remaining else Z.min (n_timeout_ms node) remaining.

(** The call itself.  A synchronous executor that outlives its timeout is joined, and
    the whole run is cancelled for it. *)
Definition call_executor (node : NodeIR) (ctx : ExecutionContext) (timeout : Z) (input : json)
    : M (ExecutionResult * bool) :=
  input ← in_task timeout (copy_value input);
  note (CallExecute (n_executor node) ctx input);;
  out ← ask (h_execute host (n_executor node) ctx input timeout);
  if negb (timeout =? 0) && out_timed_out out then
    run_mod (fun r => r <| r_cancelled := true |>
                        <| r_cancellation := request_cancel "node timeout" (r_cancellation r) |>);;
    mret (fail_retryable "timeout" "NODE_TIMEOUT" "Node timeout." true, out_committed out)
  else
    result ← in_task timeout (out_result out);
    mret (result, out_committed out).

(** The fence after the call: [inl] leaves the attempts with the result. *)
Definition confirm_effect (current : string) (node : NodeIR) (committed : bool) (result : ExecutionResult)
    : M (ExecutionResult + ExecutionResult) :=
  if is_write node && committed then
    set_effect current "status" (if xr_success result then "committed" else "unknown");;
    saved ← save_checkpoint cfg;
    match saved with
    | Err e => mret (inl (state_store_failure e))
    | Ok _ =>
      crash ← injected cfg host "after_commit" current;
      when crash (return_ (injected_crash "Failure injected after effect commit."));;
      if negb (xr_success result) then
        mret (inl (fail_result "effect_unknown" "EFFECT_COMMITTED_WITH_ERROR"
                     "Executor reported failure after committing an external effect."))
      else mret (inr result)
    end
  else if is_write node && xr_success result then
    set_effect current "status" "unknown";;
    mret (inr (fail_result "effect_unknown" "EFFECT_COMMIT_NOT_CONFIRMED"
                 "External effect executor returned success without committing the fence."))
  else mret (inr result).

Definition with_attempt (current : string) (attempt : Z) (result : ExecutionResult) : ExecutionResult :=
  result <| xr_error := (xr_error result) <| xe_attempt := attempt |> <| xe_node_id := current |> |>.

(** One turn of the attempt loop: [inl] is a [break], [inr] goes round again. *)
Definition sync_attempt (current : string) (node : NodeIR) (input : json) (attempt max_attempts : Z)
    : M (ExecutionResult + ExecutionResult) :=
  r ← run_get id;
  if (1 <? attempt) && (r_retry_remaining r =? 0) then
    mret (inl (fail_result "resource_limit" "RETRY_BUDGET_EXHAUSTED" "Run retry budget exhausted."))
  else
  when (1 <? attempt) (run_mod (fun r => r <| r_retry_remaining := r_retry_remaining r - 1 |>));;
  run_id ← run_id_string;
  remaining ← deadline_remaining;
  leased ← acquire_lease current node run_id attempt remaining;
  match leased with
  | Err e => mret (inl (lease_failure e))
  | Ok lease =>
    let deadline := workflow_timeout ir (r_options r) in
    if negb (deadline =? 0) && (remaining =? 0) then
      mret (inl (fail_result "timeout" "WORKFLOW_TIMEOUT" "Workflow deadline exceeded."))
    else
    let ctx := make_context current node attempt remaining run_id (o_mode (r_options r)) lease in
    '(result, committed) ← call_executor node ctx (attempt_timeout node deadline remaining) input;
    release_lease current attempt lease;;
    confirmed ← confirm_effect current node committed result;
    match confirmed with
    | inl result => mret (inl result)
    | inr result =>
      let result := with_attempt current attempt result in
      if xr_success result || negb (xe_retryable (xr_error result)) || (attempt =? max_attempts) then mret (inl result)
      else
        let wait := retry_wait current node run_id (u64 (i32 (n_retry_delay_ms node))) attempt in
        if negb (deadline =? 0) && (remaining <=? wait) then
          mret (inl (fail_result "timeout" "RETRY_DEADLINE_EXCEEDED" "Retry delay exceeds remaining deadline."))
        else
          r ← run_get id;
          event cfg host "retry_scheduled" current attempt (Some result)
            (retry_payload wait (JInt (attempt + 1)) (r_retry_remaining r)) CaptureMetadata;;
          when (0 <? wait) (note (CallSleep wait));;
          mret (inr result)
    end
  end.

(** [for(attempt=1;attempt<=max_attempts;++attempt)]: [n] turns are left. *)
Fixpoint sync_attempts (n : nat) (current : string) (node : NodeIR) (input : json) (max_attempts : Z)
    (result : ExecutionResult) : M ExecutionResult :=
  match n with
  | O => mret result
  | Datatypes.S n' =>
    turn ← sync_attempt current node input (max_attempts - Z.of_nat n') max_attempts;
    match turn with
    | inl result => mret result
    | inr result => sync_attempts n' current node input max_attempts result
    end
  end.

Definition run_sync (current : string) (node : NodeIR) (input : json) (result : ExecutionResult) : M ExecutionResult :=
  let max_attempts := i32 (n_max_attempts node) in
  sync_attempts (Z.to_nat max_attempts) current node input max_attempts result.

(** *** Asynchronous executors *)

(** The first part of an asynchronous node: the attempt is handed over and the step
    leaves with ASYNC_PENDING; only a refused lease comes back as a result. *)
Definition start_async (current : string) (node : NodeIR) (input : json) (k : Continuing) : M ExecutionResult :=
  when (negb (k_retry k)) (mod_async (fun a => a <| a_attempt := 1 |>));;
  r ← run_get id;
  let attempt := a_attempt (r_async r) in
  run_id ← run_id_string;
  remaining ← deadline_remaining;
  mod_async (fun a => a <| a_committer := is_write node |>);;
  leased ← acquire_lease current node run_id attempt remaining;
  match leased with
  | Err e => mret (lease_failure e)
  | Ok lease =>
    when (match lease with Some _ => true | None => false end) (mod_async (fun a => a <| a_lease := lease |>));;
    let ctx := make_context current node attempt remaining run_id (o_mode (r_options r)) lease in
    mod_async (fun a => a <| a_pending := true |> <| a_ready := false |> <| a_node := current |>
                          <| a_attempt_cancellation := Some new_token |>
                          <| a_generation := u64 (a_generation a + 1) |>);;
    generation ← run_get (fun r => a_generation (r_async r));
    let timeout := attempt_timeout node (workflow_timeout ir (r_options r)) remaining in
    when (negb (timeout =? 0)) (
      note (CallTimer timeout generation);; mod_async (fun a => a <| a_timer := true |>));;
    outcome ← (match copy_value input with
               | Err ex => mret (None, Err ex)
               | Ok input =>
                 note (CallStart (n_executor node) ctx input generation);;
                 ask (h_start_async host (n_executor node) ctx input generation)
               end);
    (match outcome with
     | (Some result, _) => mod_async (complete_async generation result)
     | (None, Err ex) => mod_async (complete_async generation (fail_result "tool_error" "ASYNC_START_FAILED" (what ex)))
     | (None, Ok _) => mret tt
     end);;
    return_ (suspended "Async executor completion is pending.")
  end.

(** The continuation: the delivered result is confirmed and either retried after a
    delay or taken as the node's. *)
Definition confirm_async (current : string) (node : NodeIR) (result : ExecutionResult) : M ExecutionResult :=
  a ← run_get r_async;
  committed ← (if is_write node && a_committer a then ask (h_async_committed host (a_generation a)) else mret false);
  if committed : bool then
    set_effect current "status" (if xr_success result then "committed" else "unknown");;
    saved ← save_checkpoint cfg;
    let result := match saved with Err e => state_store_failure e | Ok _ => result end in
    crash ← injected cfg host "after_commit" current;
    when crash (return_ (injected_crash "Failure injected after effect commit."));;
    mret (if negb (xr_success result) && negb (String.eqb (xe_category (xr_error result)) "state_store")
          then fail_result "effect_unknown" "EFFECT_COMMITTED_WITH_ERROR"
                 "Executor reported failure after committing an external effect."
          else result)
  else if is_write node && xr_success result then
    set_effect current "status" "unknown";;
    mret (fail_result "effect_unknown" "EFFECT_COMMIT_NOT_CONFIRMED"
            "External effect executor returned success without committing the fence.")
  else mret result.

Definition finish_async : AsyncState -> AsyncState := fun a =>
  a <| a_pending := false |> <| a_ready := false |> <| a_node := "" |> <| a_lease := None |>
    <| a_attempt_cancellation := None |> <| a_timer := false |> <| a_committer := false |> <| a_attempt := 0 |>.

(** The retry of an attempt: the step leaves until its delay has elapsed. *)
Definition retry_async (current : string) (node : NodeIR) (attempt : Z) (result : ExecutionResult) : M ExecutionResult :=
  r ← run_get id;
  let retry := xe_retryable (xr_error result) && (attempt <? n_max_attempts node) in
  if retry && negb (r_retry_remaining r =? 0) then
    run_mod (fun r => r <| r_retry_remaining := r_retry_remaining r - 1 |>);;
    run_id ← run_id_string;
    let wait := retry_wait current node run_id (n_retry_delay_ms node) attempt in
    remaining ← deadline_remaining;
    if negb (workflow_timeout ir (r_options r) =? 0) && (remaining <=? wait) then
      mret (fail_result "timeout" "RETRY_DEADLINE_EXCEEDED" "Retry delay exceeds remaining deadline.")
    else
      event cfg host "retry_scheduled" current attempt (Some result)
        (retry_payload wait (JUInt (u32 (attempt + 1))) (r_retry_remaining r - 1)) CaptureMetadata;;
      mod_async (fun a => a <| a_generation := u64 (a_generation a + 1) |> <| a_ready := false |>
                            <| a_attempt_cancellation := None |> <| a_lease := None |> <| a_committer := false |>);;
      generation ← run_get (fun r => a_generation (r_async r));
      note (CallTimer (Z.max 1 wait) generation);;
      mod_async (fun a => a <| a_timer := true |>);;
      return_ (suspended "Async retry delay is pending.")
  else if retry then
    mret (fail_result "resource_limit" "RETRY_BUDGET_EXHAUSTED" "Run retry budget exhausted.")
  else mret result.

Definition continue_async (current : string) (node : NodeIR) : M ExecutionResult :=
  a ← run_get r_async;
  let attempt := a_attempt a in
  release_lease current attempt (a_lease a);;
  mod_async (fun a => a <| a_lease := None |>);;
  result ← confirm_async current node (with_attempt current attempt (a_result a));
  result ← retry_async current node attempt result;
  mod_async finish_async;;
  mret result.

(** *** The executor branch of a node *)
Definition replay_outcome (current : string) : M ExecutionResult :=
  r ← run_get id;
  let key := t_invocation_id (r_trace r) +:+ nl +:+ current in
  match om_get key (r_replay_outcomes r) with
  | Some (recorded :: rest) =>
    run_mod (fun r => r <| r_replay_outcomes := om_set key rest (r_replay_outcomes r) |>);;
    mret recorded
  | _ => mret (fail_result "trace_replay" "REPLAY_OUTCOME_MISSING" "Recorded executor outcome is missing.")
  end.

Definition run_executor (current : string) (node : NodeIR) (input : json) (k : Continuing)
    (result : ExecutionResult) : M ExecutionResult :=
  r ← run_get id;
  let executor := n_executor node in
  if r_deterministic_replay r then replay_outcome current
  else if match c_policy cfg with Some policy => negb (policy executor) | None => false end then
    mret (fail_result "permission_denied" "EXECUTOR_DENIED" "Executor rejected by policy.")
  else if negb (mem_str executor (c_executors cfg)) && negb (mem_str executor (c_async_executors cfg)) then
    mret (fail_result "executor_not_found" "EXECUTOR_NOT_FOUND" "Executor is not registered.")
  else if k_async k then continue_async current node
  else if mem_str executor (c_async_executors cfg) then start_async current node input k
  else run_sync current node input result.

(** ** Child runs *)

(** What a child inherits from its parent.  The recorded outcomes are shared objects in
    the code; their keys hold the invocation, so that each run takes only its own. *)
Definition child_run (parent : RunImpl) (workflow : WorkflowIR) (invocation : string) : RunImpl :=
  let t := r_trace parent in
  (new_run workflow (r_options parent) "")
    <| r_trace := mkIds (t_trace_id t) "" (t_current_span_id t) "" (t_current_span_id t) invocation |>
    <| r_deterministic_replay := r_deterministic_replay parent |>
    <| r_replay_outcomes := r_replay_outcomes parent |>.

Definition take_subflow (sf : SubflowState) : SubflowState :=
  sf <| sf_pending := false |> <| sf_ready := false |> <| sf_node := "" |> <| sf_child := false |>.

(** The child's completion callback. *)
Definition complete_subflow (result : ExecutionResult) (sf : SubflowState) : SubflowState :=
  if negb (sf_pending sf) || sf_ready sf then sf else sf <| sf_result := result |> <| sf_ready := true |>.

Definition mod_subflow (f : SubflowState -> SubflowState) : M unit :=
  run_mod (fun r => r <| r_subflow := f (r_subflow r) |>).

Definition run_subflow (current : string) (node : NodeIR) (input : json) (k : Continuing) : M ExecutionResult :=
  if k_subflow k then
    sf ← run_get r_subflow; mod_subflow take_subflow;; mret (sf_result sf)
  else
    config ← copy_json (n_config node);
    name ← try_ (jget "workflow" config); name ← try_ (jl_as_string name);
    match om_get name (c_workflows cfg) with
    | None => mret (fail_result "executor_not_found" "SUBFLOW_NOT_FOUND" "Registered subflow was not found.")
    | Some workflow =>
      r ← run_get id;
      entry ← try_ (get_string "entry" "" config);
      let child := child_run r workflow
        (t_invocation_id (r_trace r) +:+ "/subflow:" +:+ current +:+ ":" +:+ to_string (r_step r)) in
      let child := if str_empty entry then child else child <| r_current := entry |> in
      mod_subflow (fun sf => sf <| sf_pending := true |> <| sf_ready := false |> <| sf_node := current |> <| sf_child := true |>);;
      input ← copy_json input;
      note (CallLaunch workflow child input);;
      done ← ask (h_subflow_result host);
      match done with Some result => mod_subflow (complete_subflow result) | None => mret tt end;;
      sf ← run_get r_subflow;
      if negb (sf_ready sf) then return_ (suspended "Subflow completion is pending.")
      else mod_subflow take_subflow;; mret (sf_result sf)
    end.

(** *** Parallel *)
Definition mod_par (f : ParallelContinuation -> ParallelContinuation) : M unit :=
  run_mod (fun r => r <| r_parallel := f <$> r_parallel r |>).

(** A branch child's completion callback, under the continuation's mutex. *)
Definition child_done (branch : string) (result : ExecutionResult) (p : ParallelContinuation) : ParallelContinuation :=
  let in_flight := u64 (p_in_flight p - 1) in
  p <| p_batch_results := p_batch_results p ++ [(branch, result)] |> <| p_in_flight := in_flight |>
    <| p_batch_ready := if (in_flight =? 0) && negb (p_launching_batch p) then true else p_batch_ready p |>.

Definition poll_children : M unit :=
  done ← ask (h_child_results host);
  for_each (fun d => mod_par (child_done d.1 d.2)) done.

Definition get_par : M ParallelContinuation :=
  p ← run_get r_parallel;
  match p with Some p => mret p | None => leave (Throw (LogicError "no parallel continuation")) end.

Definition parallel_payload (p : ParallelContinuation) : json :=
  obj [("mode", JString (p_mode p)); ("fail", JString (p_fail p)); ("min_success", JUInt (p_minimum p));
       ("max_parallel", JUInt (p_max_parallel p)); ("join", JString (p_join p));
       ("branches", JArray (JString <$> p_branches p))].

Definition child_id (run_id current branch : string) (step : Z) : string :=
  run_id +:+ "-p-" +:+ current +:+ "-" +:+ to_string step +:+ "-" +:+ branch.

(** The block run when there is no continuation yet: the identities of the children
    are fixed and saved before any is launched. *)
Definition start_parallel (current : string) (node : NodeIR) : M unit :=
  r ← run_get id;
  let configured := w_max_parallel ir in
  let limit := o_max_in_flight_tasks (r_options r) in
  let max_parallel := Z.max 1 (Z.min configured (if limit =? 0 then configured else limit)) in
  policy ← copy_json (n_parallel_policy node);
  mode ← try_ (get_string "mode" "all" policy);
  fail ← try_ (get_string "fail" "wait" policy);
  minimum ← try_ (get_uint "min_success" 1 policy);
  let p := mkPar current (n_parallel_join node) mode fail (n_branches node) minimum max_parallel 0 0 0 0
             false false false (ok_result (JObject [])) [] [] in
  event cfg host "parallel_started" current 0 None (write_json (parallel_payload p) false) CaptureMetadata;;
  mod_state (touch_path ["_parallel_children"]);;
  state ← run_get r_state;
  children ← try_ (jget "_parallel_children" state);
  known ← try_ (jmember current children);
  when (negb known) (
    for_each (fun branch =>
      run_id ← run_id_string;
      mod_state (jset_path ["_parallel_children"; current; branch]
                   (JString (child_id run_id current branch (r_step r))))) (p_branches p));;
  persist cfg;;
  run_mod (fun r => r <| r_parallel := Some p |>).

(** Folding the results of a finished batch into the outputs. *)
Definition record_branch (branch : string) (result : ExecutionResult) : M unit :=
  if xr_success result then
    mod_par (fun p => p <| p_success_count := p_success_count p + 1 |>);;
    output ← copy_json (xr_output result);
    mod_outputs (jset_path [branch; "output"] output)
  else
    mod_par (fun p => p <| p_failure_count := p_failure_count p + 1 |>);;
    mod_par (fun p => if p_failure_count p =? 1 then p <| p_terminal_result := result |> else p);;
    mod_outputs (jset_path [branch; "error"; "category"] (JString (xe_category (xr_error result))));;
    mod_outputs (jset_path [branch; "error"; "code"] (JString (xe_code (xr_error result))));;
    mod_outputs (jset_path [branch; "error"; "message"] (JString (xe_message (xr_error result))));;
    mod_par (fun p => if String.eqb (p_fail p) "fast"
                      then p <| p_terminal := true |> <| p_terminal_result := result |> else p).

(** A child found in the store under the same workflow resumes from its record. *)
Definition restore_child (branch : string) (record : StateRecord) (child : RunImpl) : M RunImpl :=
  cp ← try_ (parse_json (sr_checkpoint record));
  digest ← try_ (get_string "workflow_digest" "" cp);
  if negb (String.eqb digest fingerprint) then mret child else
  current ← try_ (get_string "current" branch cp);
  workflow_input ← try_ (jget "workflow_input" cp);
  outputs ← try_ (jget "outputs" cp);
  state ← try_ (jget "state" cp);
  error ← try_ (jget "error" cp);
  run ← try_ (jget "run" cp);
  step ← try_ (get_uint64 "step" 0 cp);
  elapsed_ms ← try_ (get_uint64 "elapsed_ms" 0 cp);
  event_sequence ← try_ (get_uint64 "event_sequence" 0 cp);
  trace ← try_ (jget "trace" cp);
  invocation_id ← try_ (get_string "invocation_id" (t_invocation_id (r_trace child)) trace);
  now ← ask (h_steady_ms host);
  mret (child <| r_current := current |> <| r_workflow_input := workflow_input |> <| r_outputs := outputs |>
              <| r_state := state |> <| r_error := error |> <| r_run := run |> <| r_step := step |>
              <| r_elapsed_ms := elapsed_ms |> <| r_event_sequence := event_sequence |>
              <| r_trace := (r_trace child) <| t_invocation_id := invocation_id |> |>
              <| r_store_version := sr_version record |> <| r_initialized := true |> <| r_started := now |>).

Definition launch_branch (current branch : string) : M unit :=
  mod_par (fun p => p <| p_next_index := p_next_index p + 1 |>);;
  mod_state (touch_path ["_parallel_children"; current; branch]);;
  r ← run_get id;
  p ← get_par;
  id_json ← try_ (jget_path ["_parallel_children"; current; branch] (r_state r));
  cid ← try_ (jl_as_string id_json);
  let child := child_run r ir (t_invocation_id (r_trace r) +:+ "/parallel:" +:+ current +:+ ":" +:+
                               to_string (r_step r) +:+ ":" +:+ branch) in
  let child := child <| r_current := branch |> <| r_stop_before := p_join p |> <| r_run := JObject [("id", JString cid)] |> in
  child ← (if c_store cfg then
      m ← get_state;
      let '(stored, s) := store_load cid (m_store m) in
      put_store s;;
      match stored with
      | Ok record => restore_child branch record child
      | Err e => if negb (String.eqb (err_code e) "STATE_NOT_FOUND") then return_ (state_store_failure e)
                 else mret child
      end
    else mret child);
  mod_par (fun p => p <| p_in_flight := u64 (p_in_flight p + 1) |> <| p_children := p_children p ++ [cid] |>);;
  input ← copy_json (r_workflow_input r);
  note (CallLaunch ir child input);;
  poll_children.

Definition take_batch (p : ParallelContinuation) : ParallelContinuation :=
  if p_batch_ready p then p <| p_batch_results := [] |> <| p_batch_ready := false |> <| p_children := [] |> else p.

(** One turn of [for(;;)]: [Some result] is a [break] with that result. *)
Definition parallel_turn (current : string) (result : ExecutionResult) : M (option ExecutionResult) :=
  poll_children;;
  p ← get_par;
  when (negb (p_in_flight p =? 0) && negb (p_batch_ready p))
    (return_ (suspended "Parallel child completions are pending."));;
  mod_par take_batch;;
  for_each (fun b => record_branch b.1 b.2) (if p_batch_ready p then p_batch_results p else []);;
  p ← get_par;
  let size := Z.of_nat (length (p_branches p)) in
  if p_terminal p then mret (Some (p_terminal_result p))
  else if String.eqb (p_mode p) "any" && (0 <? p_success_count p) then mret (Some result)
  else if size <=? p_next_index p then mret (Some result)
  else
    let end_ := Z.min size (p_next_index p + p_max_parallel p) in
    mod_par (fun p => p <| p_launching_batch := true |>);;
    for_each (launch_branch current)
      (take (Z.to_nat (end_ - p_next_index p)) (drop (Z.to_nat (p_next_index p)) (p_branches p)));;
    poll_children;;
    mod_par (fun p => p <| p_launching_batch := false |>
                        <| p_batch_ready := if p_in_flight p =? 0 then true else p_batch_ready p |>);;
    mret None.

(** The loop, for at most [fuel] turns: [None] is none left ([parallel_loop_enough] in
    RunBounds.v shows that a turn for each branch and one more is always enough). *)
Fixpoint parallel_loop (fuel : nat) (current : string) (result : ExecutionResult) : M (option ExecutionResult) :=
  match fuel with
  | O => mret None
  | Datatypes.S fuel' =>
    turn ← parallel_turn current result;
    match turn with Some result => mret (Some result) | None => parallel_loop fuel' current result end
  end.

Definition enough (p : ParallelContinuation) : bool :=
  if String.eqb (p_mode p) "any" then 0 <? p_success_count p
  else if String.eqb (p_mode p) "min_success" then p_minimum p <=? p_success_count p
  else p_success_count p =? Z.of_nat (length (p_branches p)).

Definition run_parallel (current : string) (node : NodeIR) (result : ExecutionResult) : M ExecutionResult :=
  pending ← run_get r_parallel;
  when (match pending with None => true | Some _ => false end) (start_parallel current node);;
  p ← get_par;
  looped ← parallel_loop (Datatypes.S (length (p_branches p))) current result;
  result ← (match looped with Some result => mret result | None => leave (Throw (LogicError "turns left")) end);
  p ← get_par;
  let result := if negb (enough p) && xr_success result then
                  if p_failure_count p =? 0 then
                    fail_result "tool_error" "PARALLEL_POLICY_FAILED" "Parallel success policy was not met."
                  else p_terminal_result p
                else result in
  when (xr_success result) (
    crash ← injected cfg host "after_parallel_children" current;
    when crash (return_ (injected_crash "Failure injected after parallel child completion.")));;
  when (xr_success result) (mod_state (jset "_parallel_next" (JString (p_join p))));;
  event cfg host "parallel_completed" current 0 (Some result)
    (write_json (obj [("success_count", JUInt (p_success_count p)); ("failure_count", JUInt (p_failure_count p));
                      ("join", JString (p_join p)); ("policy_satisfied", JBool (enough p))]) false) CaptureMetadata;;
  run_mod (fun r => r <| r_parallel := None |>);;
  mret result.

(** ** The node's result *)
Definition execute_node (current : string) (node : NodeIR) (k : Continuing) (committed : bool) (input : json)
    : M ExecutionResult :=
  input_copy ← copy_json input;
  let result := ok_result input_copy in
  r ← run_get id;
  if committed then
    output ← output_of current; output ← copy_json output; mret (ok_result output)
  else if bool_decide (n_type node = Human) && r_has_resume r then
    output ← copy_json (r_resume_output r);
    run_mod (fun r => r <| r_has_resume := false |> <| r_is_suspended := false |>);;
    mret (ok_result output)
  else match n_type node with
       | Subflow => run_subflow current node input k
       | Parallel => run_parallel current node result
       | type => if needs_executor type then run_executor current node input k result else mret result
       end.

(** A human node that is not answered yet suspends the run. *)
Definition check_suspended (current : string) (node : NodeIR) (result : ExecutionResult) : M unit :=
  when (negb (xr_success result) && bool_decide (n_type node = Human)
        && String.eqb (xe_category (xr_error result)) "suspended") (
    run_mod (fun r => r <| r_is_suspended := true |>);;
    set_status current Suspended;;
    bump;;
    elapsed ← current_elapsed host;
    run_mod (fun r => r <| r_elapsed_ms := u64 (r_elapsed_ms r + elapsed) |>);;
    emit cfg host "run_suspended" current 0 (Some result) "" CaptureFull;;
    persist cfg;;
    return_ result).

Definition over (limit size : Z) : bool := negb (limit =? 0) && (limit <? size).

Definition limit_output (r : RunImpl) (result : ExecutionResult) : ExecutionResult :=
  if xr_success result && over (o_max_output_bytes (r_options r)) (str_len (write_json (xr_output result) false))
  then fail_result "resource_limit" "MAX_OUTPUT_BYTES" "Node output exceeds the run output quota."
  else result.

Definition record_success (current : string) (result : ExecutionResult) : M unit :=
  set_status current Succeeded;;
  bump;;
  output ← copy_json (xr_output result);
  mod_outputs (jset_path [current; "output"] output);;
  run_mod (fun r => r <| r_error := JObject [] |>);;
  emit cfg host "node_succeeded" current (xe_attempt (xr_error result)) (Some result)
    (write_json (xr_output result) false) CaptureFull.

Definition record_failure (current : string) (result : ExecutionResult) : M unit :=
  let e := xr_error result in
  mod_error (jset "category" (JString (xe_category e)));;
  mod_error (jset "code" (JString (xe_code e)));;
  mod_error (jset "message" (JString (xe_message e)));;
  set_status current Failed;;
  bump;;
  mod_error (jset "node" (JString current));;
  mod_error (jset "attempt" (JUInt (xe_attempt e)));;
  mod_error (jset "retryable" (JBool (xe_retryable e)));;
  emit cfg host "node_failed" current (xe_attempt e) (Some result)
    (write_json (obj [("category", JString (xe_category e)); ("code", JString (xe_code e));
                      ("message", JString (xe_message e)); ("retryable", JBool (xe_retryable e))]) false) CaptureFull.

Definition record_outcome (current : string) (result : ExecutionResult) : M unit :=
  (if xr_success result then record_success current result else record_failure current result);;
  run_mod (fun r => r <| r_trace := (r_trace r) <| t_last_span_id := t_current_span_id (r_trace r) |> |>);;
  r ← run_get id;
  when (over (o_max_output_bytes (r_options r)) (str_len (write_json (r_outputs r) false)))
    (return_ (fail_result "resource_limit" "MAX_OUTPUT_BYTES" "Accumulated outputs exceed the run output quota."));;
  when (over (o_max_state_bytes (r_options r)) (str_len (write_json (r_state r) false)))
    (return_ (fail_result "resource_limit" "MAX_STATE_BYTES" "Run state exceeds the state quota.")).

(** ** Choosing the next node *)

(** The first edge to an enabled node whose condition holds. *)
Fixpoint select_edge (finished : string) (input : json) (edges : list EdgeIR) : M (option EdgeIR) :=
  match edges with
  | [] => mret None
  | edge :: rest =>
    if negb (match find_node ir (e_target edge) with Some t => n_enabled t | None => false end)
    then select_edge finished input rest else
    matched ← (if str_empty (e_condition edge) then mret true else
                 output ← output_of finished;
                 r ← run_get id;
                 try_ (eval_expr (e_condition edge) (scope_of r input output)));
    r ← run_get id;
    event cfg host "edge_evaluated" finished 0 None
      (write_json (obj ([("target", JString (e_target edge)); ("matched", JBool matched);
                         ("otherwise", JBool (e_otherwise edge))]
         ++ (if str_empty (e_condition edge) then [] else [("condition_digest", JString (sha256_digest (e_condition edge)))])
         ++ (if bool_decide (o_trace_capture (r_options r) = CaptureFull) then [("condition", JString (e_condition edge))] else [])))
       false) CaptureMetadata;;
    if matched : bool then mret (Some edge) else select_edge finished input rest
  end.

(** [state[key]=resolve_template(...)] for each member of the edge's [set]. *)
Definition apply_set (finished : string) (input : json) (set_values : json) : M unit :=
  if negb (is_object set_values) then mret tt else
  keys ← try_ (jmembers set_values);
  for_each (fun key =>
    template ← try_ (jget key set_values);
    output ← output_of finished;
    r ← run_get id;
    v ← try_ (resolve_template template (scope_of r input output));
    mod_state (jset key v)) keys.

Definition count_in (counts : list (string * Z)) (key : string) : Z := default 0 (om_get key counts) + 1.

(** The loop block: the counter of the loop, its exhaustion target. *)
Definition apply_loop (finished next : string) (loop : json) (public_result : ExecutionResult)
    : M (string * ExecutionResult) :=
  if jempty loop then mret (next, public_result) else
  id ← try_ (get_string "id" (finished +:+ "_" +:+ next) loop);
  run_mod (fun r => r <| r_loops := om_set id (count_in (r_loops r) id) (r_loops r) |>);;
  loops ← run_get r_loops;
  bound ← try_ (jget "max_iterations" loop); bound ← try_ (jl_as_int bound);
  if bound <? default 0 (om_get id loops) then
    next ← try_ (get_string "on_exhausted" "" loop);
    mret (next, if str_empty next then fail_result "resource_limit" "LOOP_EXHAUSTED" "Loop exhausted." else public_result)
  else mret (next, public_result).

Definition apply_max_hits (finished next : string) (max_hits : Z) (public_result : ExecutionResult)
    : M ExecutionResult :=
  if max_hits <=? 0 then mret public_result else
  let key := finished +:+ "->" +:+ next in
  run_mod (fun r => r <| r_hits := om_set key (count_in (r_hits r) key) (r_hits r) |>);;
  hits ← run_get r_hits;
  mret (if i32 max_hits <? default 0 (om_get key hits)
        then fail_result "resource_limit" "MAX_HITS" "Edge max_hits exceeded." else public_result).

(** Taking an edge: [next] and the result the run would end with. *)
Definition take_edge (finished : string) (input : json) (result : ExecutionResult) (edge : EdgeIR)
    : M (string * ExecutionResult) :=
  let next := e_target edge in
  event cfg host "edge_selected" finished 0 None
    (write_json (obj [("target", JString next); ("outcome", JString (if xr_success result then "success" else "error"))]) false)
    CaptureMetadata;;
  set_values ← copy_json (e_set_values edge);
  apply_set finished input set_values;;
  loop ← copy_json (e_loop edge);
  '(next, public_result) ← apply_loop finished next loop result;
  public_result ← apply_max_hits finished next (e_max_hits edge) public_result;
  mret (next, public_result).

(** The parallel node's own successor and the children whose records it releases. *)
Definition leave_parallel (current : string) : M (list string) :=
  mod_state (touch_path ["_parallel_children"; current]);;
  state ← run_get r_state;
  records ← try_ (jget_path ["_parallel_children"; current] state);
  branches ← try_ (jmembers records);
  children ← try_ (map_exc (fun b => v ← jget b records; jl_as_string v) branches);
  mod_state (touch_path ["_parallel_next"]);;
  state ← run_get r_state;
  next ← try_ (jget "_parallel_next" state); next ← try_ (jl_as_string next);
  run_mod (fun r => r <| r_current := next |>);;
  mod_state (jremove "_parallel_next");;
  state ← run_get r_state;
  records ← try_ (jget "_parallel_children" state);
  records ← try_ (jremove current records);
  mod_state (jset "_parallel_children" records);;
  mret children.

(** The result says what the run would end with, and which child records go. *)
Definition choose_next (current : string) (node : NodeIR) (input : json) (result : ExecutionResult)
    : M (ExecutionResult * list string) :=
  public_result ← (if bool_decide (n_type node = End_) && xr_success result then
                     input ← copy_json input; mret (ok_result input)
                   else mret result);
  if bool_decide (n_type node = Parallel) && xr_success result then
    children ← leave_parallel current; mret (public_result, children)
  else if bool_decide (n_type node = End_) && xr_success result then
    run_mod (fun r => r <| r_current := "" |>);; mret (public_result, [])
  else
    chosen ← select_edge current input (if xr_success result then n_next node else n_error node);
    '(next, public_result) ← (match chosen with
                              | Some edge => take_edge current input public_result edge
                              | None => mret ("", public_result)
                              end);
    run_mod (fun r => r <| r_current := next |>);;
    mret (public_result, []).

(** ** The end of a turn *)
Definition record_run_result (public_result : ExecutionResult) : M unit :=
  run_mod (fun r => r <| r_completed := true |>);;
  mod_state (jset_path ["_run_result"; "success"] (JBool (xr_success public_result)));;
  if xr_success public_result then
    output ← copy_json (xr_output public_result);
    mod_state (jset_path ["_run_result"; "output"] output)
  else
    mod_state (jset_path ["_run_result"; "error"; "category"] (JString (xe_category (xr_error public_result))));;
    mod_state (jset_path ["_run_result"; "error"; "code"] (JString (xe_code (xr_error public_result))));;
    mod_state (jset_path ["_run_result"; "error"; "message"] (JString (xe_message (xr_error public_result)))).

Definition erase_child (child : string) : M unit :=
  m ← get_state;
  let '(erased, s) := store_erase child (m_store m) in
  put_store s;;
  match erased with
  | Ok _ => note (CallErased child)
  | Err e => return_ (state_store_failure e)
  end.

Definition finish_turn (finished : string) (public_result : ExecutionResult) (children : list string) : M unit :=
  current ← run_get r_current;
  when (str_empty current) (record_run_result public_result);;
  persist cfg;;
  r ← run_get id;
  when (c_store cfg && bool_decide (o_child_record_retention (r_options r) = DeleteOnParentCommit))
    (for_each erase_child children);;
  crash ← injected cfg host "after_state_save" finished;
  when crash (return_ (injected_crash "Failure injected after atomic state transition."));;
  r ← run_get id;
  when (r_completed r) (
    mod_state (touch_path ["_run_result"]);;
    state ← run_get r_state;
    final ← try_ (jget "_run_result" state);
    event cfg host "run_completed" finished (xe_attempt (xr_error public_result)) (Some public_result)
      (write_json final false) CaptureFull;;
    return_ public_result).

(** ** execute_step *)

(** One turn of [while(!current.empty())] past the gate; the result is [last_result]. *)
Definition run_node (current : string) (node : NodeIR) (k : Continuing) : M ExecutionResult :=
  committed ← admit_effect current node k;
  input ← resolve_input current node;
  result ← execute_node current node k committed input;
  check_suspended current node result;;
  r ← run_get id;
  let result := limit_output r result in
  record_outcome current result;;
  '(public_result, children) ← choose_next current node input result;
  finish_turn current public_result children;;
  mret result.

Definition turn (current : string) (last_result : ExecutionResult) : M ExecutionResult :=
  '(node, k) ← enter_node current last_result;
  run_node current node k.

(** The loop, for at most [fuel] turns.  Code of a step always leaves with its result
    or an exception; coming back normally means there are turns left
    ([step_terminates] in RunBounds.v bounds their number). *)
Fixpoint turns (fuel : nat) (last_result : ExecutionResult) : M unit :=
  current ← run_get r_current;
  if str_empty current then return_ (ok_result (JObject [])) else
  match fuel with
  | O => mret tt
  | Datatypes.S fuel' => last_result ← turn current last_result; turns fuel' last_result
  end.

Definition execute_step (fuel : nat) (public_input : json) : M unit :=
  r ← run_get id;
  if r_completed r then completed_result else
  when (negb (r_initialized r)) (initialize public_input);;
  turns fuel (ok_result (JObject [])).
End Step.
