(* ===== verification/RunTrace.v ===== *)
(** * The trace of a run

    Every event a run emits carries the next sequence number: whatever the host
    does, the trace of a step that returns is gap free and continues from the run's
    counter, which is what trace replay and checkpoints rely on. *)

From S2P Require Import Prelude Json Expr Sha256 Ir Reliability Workflow Trace RunState RunStep.
Open Scope string_scope.
Open Scope list_scope.
Open Scope Z_scope.

(** [consecutive x l y]: [l] are the 64-bit numbers after [x] up to [y]. *)
Inductive consecutive : Z -> list Z -> Z -> Prop :=
| consecutive_nil x : consecutive x [] x
| consecutive_cons x l y : consecutive (u64 (x + 1)) l y -> consecutive x (u64 (x + 1) :: l) y.

Lemma consecutive_app x l y l' z : consecutive x l y -> consecutive y l' z -> consecutive x (l ++ l') z.
Proof. induction 1; intros; [done|]. constructor. auto. Qed.

Lemma consecutive_small x l y :
  0 <= x -> x + Z.of_nat (length l) <= u64_max -> consecutive x l y ->
  y = x + Z.of_nat (length l) /\ l = (fun i => x + 1 + Z.of_nat i) <$> seq 0 (length l).
Proof.
  intros Hx Hl H. revert Hx Hl. induction H as [x|x l y H IH]; intros Hx Hl.
  - simpl. split; [lia|done].
  - simpl in Hl. rewrite u64_small in * by (unfold is_u64, u64_max in *; lia).
    destruct IH as [-> E]; [lia|lia|]. split; [simpl; lia|]. simpl. f_equal; [lia|].
    rewrite E at 1. rewrite <- fmap_S_seq, <- list_fmap_compose. apply list_fmap_ext. intros i a _. simpl. lia.
Qed.

Section RunTrace.
Context {J : JsonLib} {S : Type} `{StateStore S} {W : Type} (cfg : RunConfig) (host : Host W).
Abbreviation M A := (act exit (machine S W) A).

Definition traced (m : machine S W) : bool :=
  c_trace_sink cfg && negb (bool_decide (o_trace_capture (r_options (m_run m)) = CaptureOff)).

(** Exits that are results of the step, not escaping exceptions nor the end of the process. *)
Definition normal (e : exit) : Prop := match e with Return _ => True | Throw _ | Terminate => False end.

(** Nothing is emitted and the counter stands. *)
Definition silent (s s' : machine S W) : Prop :=
  r_options (m_run s') = r_options (m_run s) /\ m_trace s' = m_trace s
  /\ r_event_sequence (m_run s') = r_event_sequence (m_run s).

(** What is emitted is numbered on from the counter. *)
Definition gapless (s s' : machine S W) : Prop :=
  r_options (m_run s') = r_options (m_run s)
  /\ exists evs, m_trace s' = m_trace s ++ evs
     /\ if traced s then consecutive (r_event_sequence (m_run s)) (ev_sequence <$> evs) (r_event_sequence (m_run s'))
        else evs = [].

(** The counter has just been advanced; the event with its number follows. *)
Definition closing (s s' : machine S W) : Prop :=
  r_options (m_run s') = r_options (m_run s) /\ r_event_sequence (m_run s') = r_event_sequence (m_run s)
  /\ exists evs, m_trace s' = m_trace s ++ evs
     /\ if traced s then ev_sequence <$> evs = [r_event_sequence (m_run s)] else evs = [].

#[local] Instance silent_preorder : PreOrder silent.
Proof. split; unfold silent; [done|]. intros x y z (? & ? & ?) (? & ? & ?). split_and!; congruence. Qed.

#[local] Instance gapless_preorder : PreOrder gapless.
Proof.
  split.
  - intros x. split; [done|]. exists []. rewrite app_nil_r. split; [done|]. destruct (traced x); constructor.
  - intros x y z [O1 (l1 & T1 & C1)] [O2 (l2 & T2 & C2)]. split; [congruence|]. exists (l1 ++ l2).
    rewrite T2, T1, app_assoc. split; [done|]. assert (traced y = traced x) as E by (unfold traced; by rewrite O1).
    rewrite E in C2. destruct (traced x).
    + rewrite fmap_app. by eapply consecutive_app.
    + by rewrite C1, C2.
Qed.

Lemma silent_gapless s s' : silent s s' -> gapless s s'.
Proof.
  intros (O & T & Q). split; [done|]. exists []. rewrite T, app_nil_r. split; [done|].
  rewrite Q. destruct (traced s); constructor.
Qed.
Lemma keeps_silent_gapless {A} (m : M A) : keeps_on normal silent m -> keeps_on normal gapless m.
Proof.
  intros Hm s. specialize (Hm s). destruct (m s) as [[a|e] s']; [by apply silent_gapless|].
  intros He. by apply silent_gapless, Hm.
Qed.

(** *** Silent actions *)
Lemma silent_run_mod f :
  (forall r, r_options (f r) = r_options r /\ r_event_sequence (f r) = r_event_sequence r) ->
  keeps_on normal silent (run_mod f : M unit).
Proof. intros Hf. apply keeps_modify. intros s. unfold silent. simpl. destruct (Hf (m_run s)). done. Qed.
Lemma silent_note c : keeps_on normal silent (note c : M unit).
Proof. by apply keeps_modify. Qed.
Lemma silent_ask {A} (f : W -> A * W) : keeps_on normal silent (ask f : M A).
Proof. intros s. unfold ask. by destruct (f (m_world s)). Qed.
Lemma silent_store s0 : keeps_on normal silent (put_store s0 : M unit).
Proof. by apply keeps_modify. Qed.
#[local] Hint Resolve silent_note silent_ask silent_store : keeps.
#[local] Hint Extern 1 (keeps_on _ silent (run_mod _)) => (apply silent_run_mod; intros; split; reflexivity) : keeps.

Lemma silent_mod_json f set g :
  (forall v r, r_options (set v r) = r_options r /\ r_event_sequence (set v r) = r_event_sequence r) ->
  keeps_on normal silent (mod_json f set g : M unit).
Proof. intros Hs. unfold mod_json. solve_keeps. by apply silent_run_mod. Qed.
Lemma silent_mod_state g : keeps_on normal silent (mod_state g : M unit).
Proof. by apply silent_mod_json. Qed.
Lemma silent_mod_outputs g : keeps_on normal silent (mod_outputs g : M unit).
Proof. by apply silent_mod_json. Qed.
Lemma silent_mod_error g : keeps_on normal silent (mod_error g : M unit).
Proof. by apply silent_mod_json. Qed.
Lemma silent_mod_run g : keeps_on normal silent (mod_run g : M unit).
Proof. by apply silent_mod_json. Qed.
Lemma silent_mod_async g : keeps_on normal silent (mod_async g : M unit).
Proof. apply silent_run_mod. by intros. Qed.
Lemma silent_mod_par g : keeps_on normal silent (mod_par g : M unit).
Proof. apply silent_run_mod. by intros. Qed.
Lemma silent_mod_subflow g : keeps_on normal silent (mod_subflow g : M unit).
Proof. apply silent_run_mod. by intros. Qed.
Lemma silent_set_status n st : keeps_on normal silent (set_status n st : M unit).
Proof. apply silent_run_mod. by intros. Qed.
#[local] Hint Resolve silent_mod_state silent_mod_outputs silent_mod_error silent_mod_run silent_mod_async
  silent_mod_par silent_mod_subflow silent_set_status : keeps.

Ltac silent := solve_keeps; eauto with keeps.

Lemma silent_copy_json v : keeps_on normal silent (copy_json v : M json).
Proof. unfold copy_json. silent. Qed.
Lemma silent_run_id : keeps_on normal silent (run_id_string : M string).
Proof. unfold run_id_string. silent. Qed.
Lemma silent_elapsed : keeps_on normal silent (current_elapsed host : M Z).
Proof. unfold current_elapsed. silent. Qed.
Lemma silent_injected p n : keeps_on normal silent (injected cfg host p n : M bool).
Proof. unfold injected. silent. Qed.
#[local] Hint Resolve silent_copy_json silent_run_id silent_elapsed silent_injected : keeps.
Lemma silent_save : keeps_on normal silent (save_checkpoint cfg : M (Result unit)).
Proof. unfold save_checkpoint. silent. Qed.
#[local] Hint Resolve silent_save : keeps.
Lemma silent_persist : keeps_on normal silent (persist cfg : M unit).
Proof. unfold persist. silent. Qed.
#[local] Hint Resolve silent_persist : keeps.

(** *** Events *)

(** [m] emits nothing and never ends the step, except by an exception. *)
Definition inner {A} (m : M A) : Prop :=
  forall s, match m s with (Ok _, s') => silent s s' | (Err e, _) => ~ normal e end.
Lemma inner_bind {A B} (m : M A) (f : A -> M B) : inner m -> (forall a, inner (f a)) -> inner (m ≫= f).
Proof.
  intros Hm Hf s. specialize (Hm s). unfold mbind, act_bind. destruct (m s) as [[a|e] s']; [|done].
  specialize (Hf a s'). destruct (f a s') as [[b|e] s'']; [by etrans|done].
Qed.
Lemma inner_try {A} (m : exc A) : inner (try_ m : M A).
Proof. intros s. unfold try_, lift. destruct m; [done|]. by intros []. Qed.
Lemma inner_silent {A} (m : M A) : (forall s, is_ok (m s).1 = true) -> keeps_on normal silent m -> inner m.
Proof. intros Hok Hs s. specialize (Hok s). specialize (Hs s). by destruct (m s) as [[a|e] s']. Qed.
Lemma inner_ask {A} (f : W -> A * W) : inner (ask f : M A).
Proof. apply inner_silent; [|apply silent_ask]. intros s. unfold ask. by destruct (f (m_world s)). Qed.
Lemma inner_run_mod f :
  (forall r, r_options (f r) = r_options r /\ r_event_sequence (f r) = r_event_sequence r) -> inner (run_mod f : M unit).
Proof. intros Hf. apply inner_silent; [done|]. by apply silent_run_mod. Qed.
Lemma inner_run_get {A} (f : RunImpl -> A) : inner (run_get f : M A).
Proof. by intros s. Qed.
Lemma inner_mod_json f set g :
  (forall v r, r_options (set v r) = r_options r /\ r_event_sequence (set v r) = r_event_sequence r) ->
  inner (mod_json f set g : M unit).
Proof.
  intros Hs. apply inner_bind; [apply inner_run_get|]. intros v. apply inner_bind; [apply inner_try|].
  intros v'. by apply inner_run_mod.
Qed.
Lemma inner_elapsed : inner (current_elapsed host : M Z).
Proof.
  apply inner_bind; [apply inner_ask|]. intros n. apply inner_bind; [apply inner_run_get|]. by intros st s.
Qed.

Lemma closing_inner {A B} (m : M A) (f : A -> M B) :
  inner m -> (forall a, keeps_on normal closing (f a)) -> keeps_on normal closing (m ≫= f).
Proof.
  intros Hm Hf s. specialize (Hm s). unfold mbind, act_bind. destruct (m s) as [[a|e] s']; [|done].
  destruct Hm as (O & T & Q). specialize (Hf a s').
  assert (traced s' = traced s) as E by (unfold traced; by rewrite O).
  assert (forall s'', closing s' s'' -> closing s s'') as Hc.
  { intros s'' (O' & Q' & l & T' & C'). split_and!; [congruence|congruence|]. exists l. rewrite T', T.
    split; [done|]. by rewrite E, Q in C'. }
  destruct (f a s') as [[b|e] s'']; [by apply Hc|]. intros He. by apply Hc, Hf.
Qed.

Lemma closing_silent {A B} (m : M A) (f : A -> M B) :
  keeps_on normal closing m -> (forall a, keeps_on normal silent (f a)) -> keeps_on normal closing (m ≫= f).
Proof.
  intros Hm Hf s. specialize (Hm s). unfold mbind, act_bind. destruct (m s) as [[a|e] s']; [|done].
  destruct Hm as (O & Q & l & T & C). specialize (Hf a s').
  assert (forall s'', silent s' s'' -> closing s s'') as Hc.
  { intros s'' (O' & T' & Q'). split_and!; [congruence|congruence|]. exists l. by rewrite T', T. }
  destruct (f a s') as [[b|e] s'']; [by apply Hc|]. intros He. by apply Hc, Hf.
Qed.

Lemma closing_emit name node attempt result payload level :
  keeps_on normal closing (emit cfg host name node attempt result payload level : M unit).
Proof.
  unfold emit. apply closing_inner.
  { destruct (c_events cfg); simpl; [|by intros s]. apply inner_silent; [done|apply silent_note]. }
  intros _ s. unfold run_get, gets, mbind, act_bind, id. cbn beta iota.
  assert (negb (c_trace_sink cfg) || bool_decide (o_trace_capture (r_options (m_run s)) = CaptureOff)
          = negb (traced s)) as -> by (unfold traced; by destruct (c_trace_sink cfg), (bool_decide _)).
  destruct (traced s) eqn:Ht; cbn [negb].
  2:{ split_and!; try done. exists []. by rewrite app_nil_r, Ht. }
  unfold try_, lift. destruct (get_string "id" "" (r_run (m_run s))); [|by intros []].
  unfold ask. destruct (h_unix_ms host (m_world s)) as [ts w].
  destruct (r_initialized (m_run s)); unfold current_elapsed, ask, run_get, gets, mbind, act_bind; simpl.
  1: destruct (h_steady_ms host w) as [now w'].
  all: split_and!; try done; eexists; rewrite Ht; split; reflexivity.
Qed.

Lemma bump_closing {A} (m : M A) : keeps_on normal closing m -> keeps_on normal gapless (bump;; m).
Proof.
  intros Hm s. unfold bump, run_mod, modify, mbind, act_bind.
  set (s1 := s <| m_run := _ |>). specialize (Hm s1).
  assert (forall s', closing s1 s' -> gapless s s') as Hc.
  { intros s' (O & Q & l & T & C). split; [done|]. exists l. split; [done|].
    change (traced s1) with (traced s) in C. destruct (traced s); [|done]. rewrite C, Q. by repeat constructor. }
  destruct (m s1) as [[a|e] s']; [by apply Hc|]. intros He. by apply Hc, Hm.
Qed.

Lemma gapless_event name node attempt result payload level :
  keeps_on normal gapless (event cfg host name node attempt result payload level : M unit).
Proof. apply bump_closing, closing_emit. Qed.
Lemma gapless_plain name node : keeps_on normal gapless (plain_event cfg host name node : M unit).
Proof. apply gapless_event. Qed.
#[local] Hint Resolve gapless_event gapless_plain : keeps.
#[local] Hint Extern 5 (keeps_on normal gapless _) => (apply keeps_silent_gapless; solve [auto with keeps]) : keeps.

(** *** The step, block by block *)
Ltac gapless := solve_keeps.

Lemma gapless_completed {A} : keeps_on normal gapless (completed_result : M A).
Proof. unfold completed_result. gapless. Qed.
Lemma gapless_initialize input : keeps_on normal gapless (initialize cfg host input : M unit).
Proof. unfold initialize. gapless. Qed.
Lemma gapless_check_cancelled c : keeps_on normal gapless (check_cancelled cfg host c : M unit).
Proof. unfold check_cancelled. gapless. Qed.
Lemma gapless_continuations c : keeps_on normal gapless (continuations c : M Continuing).
Proof. unfold continuations. gapless. Qed.
Lemma gapless_count_step k : keeps_on normal gapless (count_step cfg k : M unit).
Proof. unfold count_step. gapless. Qed.
Lemma gapless_check_deadline : keeps_on normal gapless (check_deadline cfg host : M unit).
Proof. unfold check_deadline. gapless. Qed.
Lemma gapless_start_node c : keeps_on normal gapless (start_node cfg host c : M unit).
Proof. unfold start_node. gapless. Qed.
#[local] Hint Resolve gapless_check_cancelled gapless_continuations gapless_count_step gapless_check_deadline
  gapless_start_node : keeps.
Lemma gapless_enter_node c l : keeps_on normal gapless (enter_node cfg host c l : M _).
Proof. unfold enter_node. gapless. Qed.
Lemma gapless_check_blocked c n : keeps_on normal gapless (check_blocked cfg host c n : M unit).
Proof. unfold check_blocked. gapless. Qed.
Lemma gapless_effect_status c n : keeps_on normal gapless (effect_status c n : M string).
Proof. unfold effect_status. gapless. Qed.
Lemma silent_set_effect c f v : keeps_on normal silent (set_effect c f v : M unit).
Proof. unfold set_effect. solve_keeps. Qed.
#[local] Hint Resolve gapless_check_blocked gapless_effect_status silent_set_effect : keeps.
Lemma gapless_prepare c n : keeps_on normal gapless (prepare_effect cfg host c n : M unit).
Proof. unfold prepare_effect. gapless. Qed.
#[local] Hint Resolve gapless_prepare : keeps.
Lemma gapless_admit c n k : keeps_on normal gapless (admit_effect cfg host c n k : M bool).
Proof. unfold admit_effect. gapless. Qed.
Lemma silent_output_of n : keeps_on normal silent (output_of n : M json).
Proof. unfold output_of. solve_keeps. Qed.
#[local] Hint Resolve silent_output_of : keeps.
Lemma gapless_resolve_input c n : keeps_on normal gapless (resolve_input cfg host c n : M json).
Proof. unfold resolve_input. gapless. Qed.
Lemma silent_remaining : keeps_on normal silent (deadline_remaining cfg host : M Z).
Proof. unfold deadline_remaining. solve_keeps. Qed.
Lemma silent_lease_request c n r x : keeps_on normal silent (lease_request c n r x : M _).
Proof. unfold lease_request. solve_keeps. Qed.
#[local] Hint Resolve silent_remaining silent_lease_request : keeps.
Lemma gapless_acquire c n r a x : keeps_on normal gapless (acquire_lease cfg host c n r a x : M _).
Proof. unfold acquire_lease. gapless. Qed.
Lemma gapless_release c a l : keeps_on normal gapless (release_lease cfg host c a l : M unit).
Proof. unfold release_lease. gapless. Qed.
Lemma gapless_call_executor n ctx t i : keeps_on normal gapless (call_executor host n ctx t i : M _).
Proof. unfold call_executor. gapless. Qed.
Lemma gapless_confirm c n b r : keeps_on normal gapless (confirm_effect cfg host c n b r : M _).
Proof. unfold confirm_effect. gapless. Qed.
#[local] Hint Resolve gapless_acquire gapless_release gapless_call_executor gapless_confirm : keeps.
Lemma gapless_sync_attempt c n i a mx : keeps_on normal gapless (sync_attempt cfg host c n i a mx : M _).
Proof. unfold sync_attempt. gapless. Qed.
#[local] Hint Resolve gapless_sync_attempt : keeps.
Lemma gapless_sync_attempts k c n i mx r : keeps_on normal gapless (sync_attempts cfg host k c n i mx r : M _).
Proof. revert r. induction k; intros r; cbn [sync_attempts]; gapless. Qed.
#[local] Hint Resolve gapless_sync_attempts : keeps.
Lemma gapless_run_sync c n i r : keeps_on normal gapless (run_sync cfg host c n i r : M _).
Proof. unfold run_sync. gapless. Qed.
Lemma gapless_start_async c n i k : keeps_on normal gapless (start_async cfg host c n i k : M _).
Proof. unfold start_async. gapless. Qed.
Lemma gapless_confirm_async c n r : keeps_on normal gapless (confirm_async cfg host c n r : M _).
Proof. unfold confirm_async. gapless. Qed.
#[local] Hint Resolve gapless_run_sync gapless_start_async gapless_confirm_async : keeps.
Lemma gapless_continue_async c n : keeps_on normal gapless (continue_async cfg host c n : M _).
Proof. unfold continue_async, retry_async. gapless. Qed.
Lemma gapless_replay_outcome c : keeps_on normal gapless (replay_outcome c : M _).
Proof. unfold replay_outcome. gapless. Qed.
#[local] Hint Resolve gapless_continue_async gapless_replay_outcome : keeps.
Lemma gapless_run_executor c n i k r : keeps_on normal gapless (run_executor cfg host c n i k r : M _).
Proof. unfold run_executor. gapless. Qed.
Lemma gapless_run_subflow c n i k : keeps_on normal gapless (run_subflow cfg host c n i k : M _).
Proof. unfold run_subflow. gapless. Qed.
Lemma silent_poll : keeps_on normal silent (poll_children host : M unit).
Proof. unfold poll_children. solve_keeps. Qed.
Lemma silent_get_par : keeps_on normal silent (get_par : M _).
Proof. unfold get_par. solve_keeps. Qed.
#[local] Hint Resolve gapless_run_executor gapless_run_subflow silent_poll silent_get_par : keeps.
Lemma gapless_start_parallel c n : keeps_on normal gapless (start_parallel cfg host c n : M unit).
Proof. unfold start_parallel. gapless. Qed.
Lemma gapless_record_branch b r : keeps_on normal gapless (record_branch b r : M unit).
Proof. unfold record_branch. gapless. Qed.
Lemma gapless_restore_child b r c : keeps_on normal gapless (restore_child cfg host b r c : M _).
Proof. unfold restore_child. gapless. Qed.
#[local] Hint Resolve gapless_start_parallel gapless_record_branch gapless_restore_child : keeps.
Lemma gapless_launch c b : keeps_on normal gapless (launch_branch cfg host c b : M unit).
Proof. unfold launch_branch. gapless. Qed.
#[local] Hint Resolve gapless_launch : keeps.
Lemma gapless_parallel_turn c r : keeps_on normal gapless (parallel_turn cfg host c r : M _).
Proof. unfold parallel_turn. gapless. Qed.
#[local] Hint Resolve gapless_parallel_turn : keeps.
Lemma gapless_parallel_loop f c r : keeps_on normal gapless (parallel_loop cfg host f c r : M _).
Proof. induction f; cbn [parallel_loop]; gapless. Qed.
#[local] Hint Resolve gapless_parallel_loop : keeps.
Lemma gapless_run_parallel c n r : keeps_on normal gapless (run_parallel cfg host c n r : M _).
Proof. unfold run_parallel. gapless. Qed.
#[local] Hint Resolve gapless_run_parallel : keeps.
Lemma gapless_execute_node c n k b i : keeps_on normal gapless (execute_node cfg host c n k b i : M _).
Proof. unfold execute_node. gapless. Qed.

Lemma gapless_check_suspended c n r : keeps_on normal gapless (check_suspended cfg host c n r : M unit).
Proof.
  unfold check_suspended. apply keeps_when; [typeclasses eauto|].
  do 2 (apply keeps_bind; [typeclasses eauto|gapless|]; intros _).
  apply bump_closing, closing_inner; [apply inner_elapsed|]. intros e.
  apply closing_inner; [by apply inner_run_mod|]. intros _.
  apply closing_silent; [apply closing_emit|]. intros _. solve_keeps.
Qed.
Lemma gapless_record_success c r : keeps_on normal gapless (record_success cfg host c r : M unit).
Proof.
  unfold record_success. apply keeps_bind; [typeclasses eauto|gapless|]. intros _. apply bump_closing.
  apply closing_inner; [apply inner_try|]. intros o. apply closing_inner; [by apply inner_mod_json|]. intros _.
  apply closing_inner; [by apply inner_run_mod|]. intros _. apply closing_emit.
Qed.
Lemma gapless_record_failure c r : keeps_on normal gapless (record_failure cfg host c r : M unit).
Proof.
  unfold record_failure. do 4 (apply keeps_bind; [typeclasses eauto|gapless|]; intros _). apply bump_closing.
  do 3 (apply closing_inner; [by apply inner_mod_json|]; intros _). apply closing_emit.
Qed.
#[local] Hint Resolve gapless_record_success gapless_record_failure : keeps.
Lemma gapless_record_outcome c r : keeps_on normal gapless (record_outcome cfg host c r : M unit).
Proof. unfold record_outcome. gapless. Qed.
Lemma gapless_select_edge c i es : keeps_on normal gapless (select_edge cfg host c i es : M _).
Proof. induction es; cbn [select_edge]; gapless. Qed.
Lemma gapless_apply_set c i v : keeps_on normal gapless (apply_set c i v : M unit).
Proof. unfold apply_set. gapless. Qed.
Lemma gapless_apply_loop c n l r : keeps_on normal gapless (apply_loop c n l r : M _).
Proof. unfold apply_loop. gapless. Qed.
Lemma gapless_apply_max_hits c n h r : keeps_on normal gapless (apply_max_hits c n h r : M _).
Proof. unfold apply_max_hits. gapless. Qed.
#[local] Hint Resolve gapless_select_edge gapless_apply_set gapless_apply_loop gapless_apply_max_hits : keeps.
Lemma gapless_take_edge c i r e : keeps_on normal gapless (take_edge cfg host c i r e : M _).
Proof. unfold take_edge. gapless. Qed.
Lemma gapless_leave_parallel c : keeps_on normal gapless (leave_parallel c : M _).
Proof. unfold leave_parallel. gapless. Qed.
#[local] Hint Resolve gapless_take_edge gapless_leave_parallel : keeps.
Lemma gapless_choose_next c n i r : keeps_on normal gapless (choose_next cfg host c n i r : M _).
Proof. unfold choose_next. gapless. Qed.
Lemma gapless_record_run_result r : keeps_on normal gapless (record_run_result r : M unit).
Proof. unfold record_run_result. gapless. Qed.
Lemma gapless_erase c : keeps_on normal gapless (erase_child c : M unit).
Proof. unfold erase_child. gapless. Qed.
#[local] Hint Resolve gapless_record_run_result gapless_erase : keeps.
Lemma gapless_finish_turn c r l : keeps_on normal gapless (finish_turn cfg host c r l : M unit).
Proof. unfold finish_turn. gapless. Qed.
#[local] Hint Resolve gapless_enter_node gapless_admit gapless_resolve_input gapless_execute_node
  gapless_check_suspended gapless_record_outcome gapless_choose_next gapless_finish_turn : keeps.
Lemma gapless_run_node c n k : keeps_on normal gapless (run_node cfg host c n k : M _).
Proof. unfold run_node. gapless. Qed.
#[local] Hint Resolve gapless_run_node : keeps.
Lemma gapless_turn c r : keeps_on normal gapless (turn cfg host c r : M _).
Proof. unfold turn. gapless. Qed.
#[local] Hint Resolve gapless_turn : keeps.
Lemma gapless_turns f r : keeps_on normal gapless (turns cfg host f r : M _).
Proof. revert r. induction f; intros r; cbn [turns]; gapless. Qed.
#[local] Hint Resolve gapless_turns gapless_completed gapless_initialize : keeps.

(** C21: whatever the host, the store and the failures injected, a step that returns a
    result has emitted events numbered consecutively from the run's counter, which
    ends at the last of them; with tracing off it emits none. *)
Theorem step_trace_gapless fuel input s r s' :
  execute_step cfg host fuel input s = (Err (Return r), s') ->
  exists evs, m_trace s' = m_trace s ++ evs
    /\ if traced s then consecutive (r_event_sequence (m_run s)) (ev_sequence <$> evs) (r_event_sequence (m_run s'))
       else evs = [].
Proof.
  intros Hs. assert (keeps_on normal gapless (execute_step cfg host fuel input)) as Hk
    by (unfold execute_step; gapless).
  specialize (Hk s). rewrite Hs in Hk. by destruct Hk as [_ Hk].
Qed.
End RunTrace.
