(* ===== verification/RunCalm.v ===== *)
(** * What most of a step leaves alone

    [calm] relates two machines between which the run's identity, options, step
    count, retry budget and asynchronous continuation stand, and no executor was
    called; [quiet kp kf] has the parallel and subflow continuations stand as well, where
    the flags [kp] and [kf] say so, and the recorded outcomes of a replay where either does.
    Every block of a step but a handful keeps it, on every exit; the theorems about
    executors, retries and bounds treat the remaining blocks. *)

From S2P Require Import Prelude Json Expr Sha256 Ir Reliability Workflow Trace RunState RunStep.
Open Scope string_scope.
Open Scope list_scope.
Open Scope Z_scope.

(** Calls that hand work to an executor. *)
Definition is_call (c : host_call) : bool :=
  match c with CallExecute _ _ _ | CallStart _ _ _ _ => true | _ => false end.

(** The identifier of the run, as the code reads it. *)
Definition id_json (r : RunImpl) `{JsonLib} : exc json := jget "id" (r_run r).

(** The fields that stand. *)
Definition same_core {J : JsonLib} (kp kf : bool) (r r' : RunImpl) : Prop :=
  r_options r' = r_options r /\ r_deterministic_replay r' = r_deterministic_replay r
  /\ r_async r' = r_async r /\ r_step r' = r_step r /\ r_retry_remaining r' = r_retry_remaining r
  /\ id_json r' = id_json r /\ r_initialized r' = r_initialized r
  /\ (kp = true -> r_parallel r' = r_parallel r) /\ (kf = true -> r_subflow r' = r_subflow r)
  /\ t_invocation_id (r_trace r') = t_invocation_id (r_trace r)
  /\ (kp || kf = true -> r_replay_outcomes r' = r_replay_outcomes r).
Definition quiet {J : JsonLib} {S W} (kp kf : bool) (s s' : machine S W) : Prop :=
  same_core kp kf (m_run s) (m_run s') /\ exists new, m_log s' = m_log s ++ new /\ Forall (fun c => is_call c = false) new.

Abbreviation calm := (quiet false false).

#[export] Instance quiet_preorder {J : JsonLib} {S W} kp kf : PreOrder (quiet (S:=S) (W:=W) kp kf).
Proof.
  split.
  - intros s. split; [done|]. exists []. by rewrite app_nil_r.
  - intros x y z [(?&?&?&?&?&?&?&P&F&?&O) (l & L & N)] [(?&?&?&?&?&?&?&P'&F'&?&O') (l' & L' & N')]. split.
    { split_and!; try congruence; intros Hb; [rewrite P' by done|rewrite F' by done|rewrite O' by done]; auto. }
    exists (l ++ l'). rewrite L', L, app_assoc. split; [done|]. by apply Forall_app.
Qed.

Section Calm.
Context {J : JsonLib} {S : Type} `{StateStore S} {W : Type} (cfg : RunConfig) (host : Host W) (kp kf : bool).
Abbreviation M A := (act exit (machine S W) A).

Lemma calm_run_mod f : (forall r, same_core kp kf r (f r)) -> keeps (quiet kp kf) (run_mod f : M unit).
Proof.
  intros Hf. apply keeps_modify. intros s. split; [apply Hf|]. exists []. by rewrite app_nil_r.
Qed.
Lemma calm_note c : is_call c = false -> keeps (quiet kp kf) (note c : M unit).
Proof. intros Hc. apply keeps_modify. intros s. split; [done|]. exists [c]. by repeat constructor. Qed.
Lemma calm_ask {A} (f : W -> A * W) : keeps (quiet kp kf) (ask f : M A).
Proof.
  intros s. unfold ask. destruct (f (m_world s)). split; [done|]. exists []. by rewrite app_nil_r.
Qed.
Lemma calm_store s0 : keeps (quiet kp kf) (put_store s0 : M unit).
Proof. apply keeps_modify. intros s. split; [done|]. exists []. by rewrite app_nil_r. Qed.
Lemma calm_trace f : keeps (quiet kp kf) (modify (fun m => m <| m_trace := f m |>) : M unit).
Proof. apply keeps_modify. intros s. split; [done|]. exists []. by rewrite app_nil_r. Qed.
#[local] Hint Resolve calm_ask calm_store calm_trace : keeps.
#[local] Hint Extern 1 (keeps_on _ (quiet kp kf) (note _)) => (apply calm_note; reflexivity) : keeps.
#[local] Hint Extern 1 (keeps_on _ (quiet kp kf) (run_mod _)) => (apply calm_run_mod; intros; split_and!; first [reflexivity|by intros ?]) : keeps.

Lemma calm_mod_json f set g : (forall v r, same_core kp kf r (set v r)) -> keeps (quiet kp kf) (mod_json f set g : M unit).
Proof. intros Hs. unfold mod_json. solve_keeps. by apply calm_run_mod. Qed.
Lemma calm_mod_state g : keeps (quiet kp kf) (mod_state g : M unit).
Proof. by apply calm_mod_json. Qed.
Lemma calm_mod_outputs g : keeps (quiet kp kf) (mod_outputs g : M unit).
Proof. by apply calm_mod_json. Qed.
Lemma calm_mod_error g : keeps (quiet kp kf) (mod_error g : M unit).
Proof. by apply calm_mod_json. Qed.
Lemma calm_set_status n st : keeps (quiet kp kf) (set_status n st : M unit).
Proof. apply calm_run_mod. by intros. Qed.
Lemma calm_mod_run k x : k <> "id" -> keeps (quiet kp kf) (mod_run (jset k x) : M unit).
Proof.
  intros Hk s. unfold mod_run, mod_json, run_get, gets, mbind, act_bind, try_, lift.
  destruct (jset k x (r_run (m_run s))) as [v|e] eqn:E; cbn; [|intros _; reflexivity].
  split; [|exists []; by rewrite app_nil_r]. split_and!; try done. unfold id_json. simpl. by eapply jget_jset_ne.
Qed.
#[local] Hint Resolve calm_mod_state calm_mod_outputs calm_mod_error calm_set_status : keeps.
#[local] Hint Extern 1 (keeps_on _ (quiet kp kf) (mod_run (jset _ _))) => (apply calm_mod_run; discriminate) : keeps.

Lemma calm_copy_json v : keeps (quiet kp kf) (copy_json v : M json).
Proof. unfold copy_json. solve_keeps. Qed.
Lemma calm_run_id : keeps (quiet kp kf) (run_id_string : M string).
Proof. unfold run_id_string. solve_keeps. Qed.
Lemma calm_elapsed : keeps (quiet kp kf) (current_elapsed host : M Z).
Proof. unfold current_elapsed. solve_keeps. Qed.
Lemma calm_injected p n : keeps (quiet kp kf) (injected cfg host p n : M bool).
Proof. unfold injected. solve_keeps. Qed.
#[local] Hint Resolve calm_copy_json calm_run_id calm_elapsed calm_injected : keeps.
Lemma calm_bump : keeps (quiet kp kf) (bump : M unit).
Proof. unfold bump. solve_keeps. Qed.
Lemma calm_emit n c a r p l : keeps (quiet kp kf) (emit cfg host n c a r p l : M unit).
Proof. unfold emit. solve_keeps. apply calm_trace. Qed.
#[local] Hint Resolve calm_bump calm_emit : keeps.
Lemma calm_event n c a r p l : keeps (quiet kp kf) (event cfg host n c a r p l : M unit).
Proof. unfold event. solve_keeps. Qed.
#[local] Hint Resolve calm_event : keeps.
Lemma calm_plain n c : keeps (quiet kp kf) (plain_event cfg host n c : M unit).
Proof. unfold plain_event. solve_keeps. Qed.
Lemma calm_save : keeps (quiet kp kf) (save_checkpoint cfg : M (Result unit)).
Proof. unfold save_checkpoint. solve_keeps. Qed.
#[local] Hint Resolve calm_plain calm_save : keeps.
Lemma calm_persist : keeps (quiet kp kf) (persist cfg : M unit).
Proof. unfold persist. solve_keeps. Qed.
#[local] Hint Resolve calm_persist : keeps.
Lemma calm_completed {A} : keeps (quiet kp kf) (completed_result : M A).
Proof. unfold completed_result. solve_keeps. Qed.
#[local] Hint Resolve calm_completed : keeps.
Lemma calm_check_deadline : keeps (quiet kp kf) (check_deadline cfg host : M unit).
Proof. unfold check_deadline. solve_keeps. Qed.
#[local] Hint Resolve calm_check_deadline : keeps.
Lemma calm_start_node c : keeps (quiet kp kf) (start_node cfg host c : M unit).
Proof. unfold start_node. solve_keeps. Qed.
#[local] Hint Resolve calm_start_node : keeps.
Lemma calm_check_blocked c n : keeps (quiet kp kf) (check_blocked cfg host c n : M unit).
Proof. unfold check_blocked. solve_keeps. Qed.
#[local] Hint Resolve calm_check_blocked : keeps.
Lemma calm_effect_status c n : keeps (quiet kp kf) (effect_status c n : M string).
Proof. unfold effect_status. solve_keeps. Qed.
#[local] Hint Resolve calm_effect_status : keeps.
Lemma calm_set_effect c f v : keeps (quiet kp kf) (set_effect c f v : M unit).
Proof. unfold set_effect. solve_keeps. Qed.
#[local] Hint Resolve calm_set_effect : keeps.
Lemma calm_prepare c n : keeps (quiet kp kf) (prepare_effect cfg host c n : M unit).
Proof. unfold prepare_effect. solve_keeps. Qed.
#[local] Hint Resolve calm_prepare : keeps.
Lemma calm_admit c n k : keeps (quiet kp kf) (admit_effect cfg host c n k : M bool).
Proof. unfold admit_effect. solve_keeps. Qed.
#[local] Hint Resolve calm_admit : keeps.
Lemma calm_output_of n : keeps (quiet kp kf) (output_of n : M json).
Proof. unfold output_of. solve_keeps. Qed.
#[local] Hint Resolve calm_output_of : keeps.
Lemma calm_resolve_input c n : keeps (quiet kp kf) (resolve_input cfg host c n : M json).
Proof. unfold resolve_input. solve_keeps. Qed.
#[local] Hint Resolve calm_resolve_input : keeps.
Lemma calm_remaining : keeps (quiet kp kf) (deadline_remaining cfg host : M Z).
Proof. unfold deadline_remaining. solve_keeps. Qed.
#[local] Hint Resolve calm_remaining : keeps.
Lemma calm_lease_request c n r x : keeps (quiet kp kf) (lease_request c n r x : M _).
Proof. unfold lease_request. solve_keeps. Qed.
#[local] Hint Resolve calm_lease_request : keeps.
Lemma calm_acquire c n r a x : keeps (quiet kp kf) (acquire_lease cfg host c n r a x : M _).
Proof. unfold acquire_lease. solve_keeps. Qed.
#[local] Hint Resolve calm_acquire : keeps.
Lemma calm_release c a l : keeps (quiet kp kf) (release_lease cfg host c a l : M unit).
Proof. unfold release_lease. solve_keeps. Qed.
#[local] Hint Resolve calm_release : keeps.
Lemma calm_confirm c n b r : keeps (quiet kp kf) (confirm_effect cfg host c n b r : M _).
Proof. unfold confirm_effect. solve_keeps. Qed.
#[local] Hint Resolve calm_confirm : keeps.
Lemma calm_confirm_async c n r : keeps (quiet kp kf) (confirm_async cfg host c n r : M _).
Proof. unfold confirm_async. solve_keeps. Qed.
#[local] Hint Resolve calm_confirm_async : keeps.
Lemma calm_get_par : keeps (quiet kp kf) (get_par : M _).
Proof. unfold get_par. solve_keeps. Qed.
#[local] Hint Resolve calm_get_par : keeps.
Lemma calm_restore_child b r c : keeps (quiet kp kf) (restore_child cfg host b r c : M _).
Proof. unfold restore_child. solve_keeps. Qed.
#[local] Hint Resolve calm_restore_child : keeps.
Lemma calm_check_suspended c n r : keeps (quiet kp kf) (check_suspended cfg host c n r : M unit).
Proof. unfold check_suspended. solve_keeps. Qed.
#[local] Hint Resolve calm_check_suspended : keeps.
Lemma calm_record_success c r : keeps (quiet kp kf) (record_success cfg host c r : M unit).
Proof. unfold record_success. solve_keeps. Qed.
#[local] Hint Resolve calm_record_success : keeps.
Lemma calm_record_failure c r : keeps (quiet kp kf) (record_failure cfg host c r : M unit).
Proof. unfold record_failure. solve_keeps. Qed.
#[local] Hint Resolve calm_record_failure : keeps.
Lemma calm_record_outcome c r : keeps (quiet kp kf) (record_outcome cfg host c r : M unit).
Proof. unfold record_outcome. solve_keeps. Qed.
#[local] Hint Resolve calm_record_outcome : keeps.
Lemma calm_select_edge c i es : keeps (quiet kp kf) (select_edge cfg host c i es : M _).
Proof. induction es; cbn [select_edge]; solve_keeps. Qed.
#[local] Hint Resolve calm_select_edge : keeps.
Lemma calm_apply_set c i v : keeps (quiet kp kf) (apply_set c i v : M unit).
Proof. unfold apply_set. solve_keeps. Qed.
#[local] Hint Resolve calm_apply_set : keeps.
Lemma calm_apply_loop c n l r : keeps (quiet kp kf) (apply_loop c n l r : M _).
Proof. unfold apply_loop. solve_keeps. Qed.
#[local] Hint Resolve calm_apply_loop : keeps.
Lemma calm_apply_max_hits c n h r : keeps (quiet kp kf) (apply_max_hits c n h r : M _).
Proof. unfold apply_max_hits. solve_keeps. Qed.
#[local] Hint Resolve calm_apply_max_hits : keeps.
Lemma calm_take_edge c i r e : keeps (quiet kp kf) (take_edge cfg host c i r e : M _).
Proof. unfold take_edge. solve_keeps. Qed.
#[local] Hint Resolve calm_take_edge : keeps.
Lemma calm_leave_parallel c : keeps (quiet kp kf) (leave_parallel c : M _).
Proof. unfold leave_parallel. solve_keeps. Qed.
#[local] Hint Resolve calm_leave_parallel : keeps.
Lemma calm_choose_next c n i r : keeps (quiet kp kf) (choose_next cfg host c n i r : M _).
Proof. unfold choose_next. solve_keeps. Qed.
#[local] Hint Resolve calm_choose_next : keeps.
Lemma calm_record_run_result r : keeps (quiet kp kf) (record_run_result r : M unit).
Proof. unfold record_run_result. solve_keeps. Qed.
#[local] Hint Resolve calm_record_run_result : keeps.
Lemma calm_erase c : keeps (quiet kp kf) (erase_child c : M unit).
Proof. unfold erase_child. solve_keeps. Qed.
#[local] Hint Resolve calm_erase : keeps.
Lemma calm_finish_turn c r l : keeps (quiet kp kf) (finish_turn cfg host c r l : M unit).
Proof. unfold finish_turn. solve_keeps. Qed.
#[local] Hint Resolve calm_finish_turn : keeps.
End Calm.

(** The blocks that are calm, for the proofs of the other files. *)
Create HintDb calm.
#[export] Hint Resolve calm_copy_json calm_run_id calm_elapsed calm_injected calm_bump calm_emit calm_event
  calm_plain calm_save calm_persist calm_ask calm_store calm_mod_state calm_mod_outputs calm_mod_error
  calm_set_status calm_completed calm_check_deadline calm_start_node
  calm_check_blocked calm_effect_status calm_set_effect calm_prepare calm_admit calm_output_of
  calm_resolve_input calm_remaining calm_lease_request calm_acquire calm_release calm_confirm
  calm_confirm_async calm_get_par calm_restore_child
  calm_check_suspended calm_record_success calm_record_failure calm_record_outcome calm_select_edge
  calm_apply_set calm_apply_loop calm_apply_max_hits calm_take_edge calm_leave_parallel calm_choose_next
  calm_record_run_result calm_erase calm_finish_turn : calm.
#[export] Hint Extern 1 (keeps_on _ (quiet _ _) (note _)) => (apply calm_note; reflexivity) : calm.
#[export] Hint Extern 1 (keeps_on _ (quiet _ _) (run_mod _)) =>
  (apply calm_run_mod; intros; split_and!; first [reflexivity|by intros ?]) : calm.
#[export] Hint Extern 1 (keeps_on _ (quiet _ _) (mod_run (jset _ _))) => (apply calm_mod_run; discriminate) : calm.

(** The blocks that work on the other continuations. *)
Section Children.
Context {J : JsonLib} {S : Type} `{StateStore S} {W : Type} (cfg : RunConfig) (host : Host W) (kp kf : bool).
Abbreviation M A := (act exit (machine S W) A).
#[local] Hint Extern 2 (keeps_on _ (quiet _ _) _) => (solve [auto with calm]) : keeps.

Lemma calm_replay_outcome c : keeps calm (replay_outcome c : M _).
Proof. unfold replay_outcome. solve_keeps. Qed.
Lemma calm_mod_par g : keeps (quiet false kf) (mod_par g : M unit).
Proof. apply calm_run_mod. by intros. Qed.
#[local] Hint Resolve calm_mod_par : keeps.
Lemma calm_mod_subflow g : keeps (quiet kp false) (mod_subflow g : M unit).
Proof. apply calm_run_mod. by intros. Qed.
#[local] Hint Resolve calm_mod_subflow : keeps.
Lemma calm_run_subflow c n i k : keeps (quiet kp false) (run_subflow cfg host c n i k : M _).
Proof. unfold run_subflow. solve_keeps. Qed.
#[local] Hint Resolve calm_run_subflow : keeps.
Lemma calm_poll : keeps (quiet false kf) (poll_children host : M unit).
Proof. unfold poll_children. solve_keeps. Qed.
#[local] Hint Resolve calm_poll : keeps.
Lemma calm_start_parallel c n : keeps (quiet false kf) (start_parallel cfg host c n : M unit).
Proof. unfold start_parallel. solve_keeps. Qed.
#[local] Hint Resolve calm_start_parallel : keeps.
Lemma calm_record_branch b r : keeps (quiet false kf) (record_branch b r : M unit).
Proof. unfold record_branch. solve_keeps. Qed.
#[local] Hint Resolve calm_record_branch : keeps.
Lemma calm_launch c b : keeps (quiet false kf) (launch_branch cfg host c b : M unit).
Proof. unfold launch_branch. solve_keeps. Qed.
#[local] Hint Resolve calm_launch : keeps.
Lemma calm_parallel_turn c r : keeps (quiet false kf) (parallel_turn cfg host c r : M _).
Proof. unfold parallel_turn. solve_keeps. Qed.
#[local] Hint Resolve calm_parallel_turn : keeps.
Lemma calm_parallel_loop f c r : keeps (quiet false kf) (parallel_loop cfg host f c r : M _).
Proof. induction f; cbn [parallel_loop]; solve_keeps. Qed.
#[local] Hint Resolve calm_parallel_loop : keeps.
Lemma calm_run_parallel c n r : keeps (quiet false kf) (run_parallel cfg host c n r : M _).
Proof. unfold run_parallel. solve_keeps. Qed.
#[local] Hint Resolve calm_run_parallel : keeps.
End Children.
#[export] Hint Resolve calm_replay_outcome calm_mod_par calm_mod_subflow calm_run_subflow calm_poll calm_start_parallel
  calm_record_branch calm_launch calm_parallel_turn calm_parallel_loop calm_run_parallel : calm.
