(* ===== verification/RunEffects.v ===== *)
(** * Effects of a run

    What a run may ask the outside to do.  [step_calls_authorised]: an executor is
    only called for a node whose effect the run's options admit, with the policy's
    consent and the node's own idempotency key; a shadow or deterministic-replay run
    calls no writing executor.  [step_fenced]: no executor of a writing node is
    called before a checkpoint that records its effect as prepared has been saved. *)

From S2P Require Import Prelude Json Expr Sha256 Ir Reliability Workflow Trace RunState RunStep RunCalm.
Open Scope string_scope.
Open Scope list_scope.
Open Scope Z_scope.

Section Effects.
Context {J : JsonLib} {S : Type} `{StateStore S} {W : Type} (cfg : RunConfig) (host : Host W).
Abbreviation M A := (act exit (machine S W) A).
Let ir := c_workflow cfg.

(** ** Authorisation *)
Definition policy_allows (executor : string) : bool :=
  match c_policy cfg with Some policy => policy executor | None => true end.

Definition call_authorised (r : RunImpl) (executor : string) (ctx : ExecutionContext) : Prop :=
  exists n, find_node ir (x_node_id ctx) = Some n /\ executor = n_executor n
    /\ effect_blocked r n = false /\ r_deterministic_replay r = false /\ policy_allows executor = true
    /\ x_effect_committer ctx = is_write n
    /\ x_idempotency_key ctx = fold_keys (x_node_id ctx) (x_run_id ctx) (n_idempotency_key n).
Definition authorised_call (r : RunImpl) (c : host_call) : Prop :=
  match c with
  | CallExecute executor ctx _ | CallStart executor ctx _ _ => call_authorised r executor ctx
  | _ => True
  end.

Definition authorised (s s' : machine S W) : Prop :=
  r_options (m_run s') = r_options (m_run s)
  /\ r_deterministic_replay (m_run s') = r_deterministic_replay (m_run s)
  /\ exists new, m_log s' = m_log s ++ new /\ Forall (authorised_call (m_run s)) new.

Lemma effect_blocked_core r r' n :
  r_options r' = r_options r -> r_deterministic_replay r' = r_deterministic_replay r ->
  effect_blocked r' n = effect_blocked r n.
Proof. unfold effect_blocked. by intros -> ->. Qed.

Lemma authorised_call_core r r' c :
  r_options r' = r_options r -> r_deterministic_replay r' = r_deterministic_replay r ->
  authorised_call r' c -> authorised_call r c.
Proof.
  intros Ho Hd. assert (forall ex ctx, call_authorised r' ex ctx -> call_authorised r ex ctx) as Hc.
  { intros ex ctx (n & ? & ? & ? & ? & ? & ? & ?). exists n. rewrite <- (effect_blocked_core r r') by done.
    rewrite <- Hd. done. }
  destruct c; simpl; auto.
Qed.

#[local] Instance authorised_preorder : PreOrder authorised.
Proof.
  split.
  - intros s. split_and!; [done..|]. exists []. by rewrite app_nil_r.
  - intros x y z (O & D & l & L & F) (O' & D' & l' & L' & F'). split_and!; [congruence..|].
    exists (l ++ l'). rewrite L', L, app_assoc. split; [done|]. apply Forall_app. split; [done|].
    eapply Forall_impl; [done|]. intros c. by apply authorised_call_core.
Qed.

Lemma calm_authorised s s' : calm s s' -> authorised s s'.
Proof.
  intros [(O & D & _) (l & L & F)]. split_and!; [done..|]. exists l. split; [done|].
  eapply Forall_impl; [done|]. intros [] Hc; done.
Qed.

(** The node being executed is one the run may execute. *)
Definition admissible (current : string) (n : NodeIR) (s : machine S W) : Prop :=
  find_node ir current = Some n /\ effect_blocked (m_run s) n = false
  /\ r_deterministic_replay (m_run s) = false /\ policy_allows (n_executor n) = true.
Definition authorised_for current n := given (admissible current n) authorised.
#[local] Instance authorised_for_preorder current n : PreOrder (authorised_for current n).
Proof.
  apply given_preorder; [typeclasses eauto|]. intros s s' (? & Hb & Hd & ?) (O & D & _).
  split_and!; [done| |congruence|done]. by rewrite (effect_blocked_core (m_run s)).
Qed.

#[local] Hint Extern 2 (keeps_on _ authorised _) =>
  (apply (keeps_weaken _ calm); [apply calm_authorised|solve [auto with calm]]) : keeps.
#[local] Hint Extern 2 (keeps_on _ (authorised_for _ _) _) =>
  (apply (keeps_weaken _ calm); [intros ? ? ? ?; by apply calm_authorised|solve [auto with calm]]) : keeps.

Lemma authorised_run_mod f :
  (forall r, r_options (f r) = r_options r /\ r_deterministic_replay (f r) = r_deterministic_replay r) ->
  keeps authorised (run_mod f : M unit).
Proof.
  intros Hf. apply keeps_modify. intros s. destruct (Hf (m_run s)). split_and!; [done..|].
  exists []. by rewrite app_nil_r.
Qed.
#[local] Hint Extern 1 (keeps_on _ authorised (run_mod _)) =>
  (apply authorised_run_mod; intros; split; reflexivity) : keeps.
#[local] Hint Extern 1 (keeps_on _ (authorised_for _ _) (run_mod _)) =>
  (apply (keeps_weaken _ authorised); [by intros ? ? ? ?|apply authorised_run_mod; intros; split; reflexivity]) : keeps.
#[local] Hint Extern 1 (keeps_on _ (authorised_for _ _) (mod_async _)) =>
  (apply (keeps_weaken _ authorised); [by intros ? ? ? ?|apply authorised_run_mod; intros; split; reflexivity]) : keeps.
#[local] Hint Extern 1 (keeps_on _ authorised (mod_async _)) =>
  (apply authorised_run_mod; intros; split; reflexivity) : keeps.

Lemma authorised_call_note current n attempt remaining run_id mode lease input c :
  c = CallExecute (n_executor n) (make_context current n attempt remaining run_id mode lease) input
  \/ (exists g, c = CallStart (n_executor n) (make_context current n attempt remaining run_id mode lease) input g) ->
  keeps (authorised_for current n) (note c : M unit).
Proof.
  intros Hc. apply keeps_modify. intros s (Hn & Hb & Hd & Hp). split_and!; [done..|]. exists [c]. split; [done|].
  repeat constructor. destruct Hc as [->|[g ->]]; by exists n.
Qed.
Lemma authorised_call_executor current n attempt remaining run_id mode lease t i :
  keeps (authorised_for current n)
    (call_executor host n (make_context current n attempt remaining run_id mode lease) t i : M _).
Proof. unfold call_executor. solve_keeps. eapply authorised_call_note. by left. Qed.
#[local] Hint Resolve authorised_call_executor : keeps.
Lemma authorised_sync_attempt current n i a mx :
  keeps (authorised_for current n) (sync_attempt cfg host current n i a mx : M _).
Proof. unfold sync_attempt. solve_keeps. Qed.
#[local] Hint Resolve authorised_sync_attempt : keeps.
Lemma authorised_sync_attempts current n k i mx r :
  keeps (authorised_for current n) (sync_attempts cfg host k current n i mx r : M _).
Proof. revert r. induction k; intros r; cbn [sync_attempts]; solve_keeps. Qed.
#[local] Hint Resolve authorised_sync_attempts : keeps.
Lemma authorised_run_sync current n i r : keeps (authorised_for current n) (run_sync cfg host current n i r : M _).
Proof. unfold run_sync. solve_keeps. Qed.
Lemma authorised_start_async current n i k :
  keeps (authorised_for current n) (start_async cfg host current n i k : M _).
Proof. unfold start_async. solve_keeps. eapply authorised_call_note. right. by eexists. Qed.
Lemma authorised_continue_async current n : keeps authorised (continue_async cfg host current n : M _).
Proof. unfold continue_async, retry_async. solve_keeps. Qed.
#[local] Hint Resolve authorised_run_sync authorised_start_async authorised_continue_async : keeps.

(** Outside the executors' branch nothing needs the run's consent. *)
Definition admitted (current : string) (n : NodeIR) (s : machine S W) : Prop :=
  find_node ir current = Some n /\ effect_blocked (m_run s) n = false.

Lemma authorised_run_executor current n i k r s :
  admitted current n s -> authorised s (run_executor cfg host current n i k r s).2.
Proof.
  intros [Hn Hb]. unfold run_executor, run_get, gets, mbind, act_bind, id. cbn beta iota.
  destruct (r_deterministic_replay (m_run s)) eqn:Hd.
  { apply (keeps_run authorised). auto with keeps. }
  destruct (match c_policy cfg with Some _ => _ | None => _ end) eqn:Hp; [reflexivity|].
  destruct (_ && _); [reflexivity|].
  assert (admissible current n s) as Ha.
  { split_and!; try done. unfold policy_allows. destruct (c_policy cfg); [by apply negb_false_iff|done]. }
  destruct (k_async k); [apply (keeps_run authorised); auto with keeps|].
  destruct (mem_str (n_executor n) (c_async_executors cfg));
    apply (keeps_run (authorised_for current n)); auto with keeps.
Qed.

Definition authorised_if current n := given (admitted current n) authorised.
#[local] Instance authorised_if_preorder current n : PreOrder (authorised_if current n).
Proof.
  apply given_preorder; [typeclasses eauto|]. intros s s' (? & Hb) (O & D & _).
  split; [done|]. by rewrite (effect_blocked_core (m_run s)).
Qed.
#[local] Hint Extern 2 (keeps_on _ (authorised_if _ _) _) =>
  (apply (keeps_weaken _ calm); [intros ? ? ? ?; by apply calm_authorised|solve [auto with calm]]) : keeps.
Lemma authorised_if_executor current n i k r :
  keeps (authorised_if current n) (run_executor cfg host current n i k r : M _).
Proof.
  intros s. pose proof (authorised_run_executor current n i k r s) as Hr.
  destruct (run_executor cfg host current n i k r s) as [[a|e] s']; [done|by intros _].
Qed.
#[local] Hint Resolve authorised_if_executor : keeps.
Lemma authorised_execute_node current n k b i :
  keeps (authorised_if current n) (execute_node cfg host current n k b i : M _).
Proof. unfold execute_node. solve_keeps. Qed.
#[local] Hint Resolve authorised_execute_node : keeps.

Lemma authorised_initialize i : keeps authorised (initialize cfg host i : M unit).
Proof. unfold initialize, mod_run, mod_json. solve_keeps. Qed.
Lemma authorised_check_cancelled c : keeps authorised (check_cancelled cfg host c : M unit).
Proof. unfold check_cancelled. solve_keeps. Qed.
Lemma authorised_continuations c : keeps authorised (continuations c : M Continuing).
Proof. unfold continuations. solve_keeps. Qed.
Lemma authorised_count_step k : keeps authorised (count_step cfg k : M unit).
Proof. unfold count_step. solve_keeps. Qed.
#[local] Hint Resolve authorised_check_cancelled authorised_continuations authorised_count_step : keeps.
Lemma authorised_enter_node c l : keeps authorised (enter_node cfg host c l : M _).
Proof. unfold enter_node. solve_keeps. Qed.

(** The gate hands over the node it found, admission one that is not blocked. *)
Lemma enter_node_found c l (s : machine S W) n k s' : enter_node cfg host c l s = (Ok (n, k), s') -> find_node ir c = Some n.
Proof.
  unfold enter_node. intros Hs. do 7 (apply bind_inv in Hs as (? & ? & _ & Hs)).
  fold ir in Hs. destruct (find_node ir c) as [n'|]; [|done].
  do 5 (apply bind_inv in Hs as (? & ? & _ & Hs)). by injection Hs as -> _ _.
Qed.

Lemma check_blocked_Ok c n (s : machine S W) u s' :
  check_blocked cfg host c n s = (Ok u, s') -> s' = s /\ effect_blocked (m_run s) n = false.
Proof.
  unfold check_blocked. intros Hs. apply bind_inv in Hs as (r & s1 & Hr & Hs). injection Hr as <- <-.
  unfold id in Hs. destruct (effect_blocked (m_run s) n); [|by injection Hs]. exfalso. cbn [when] in Hs.
  do 2 apply bind_inv in Hs as (? & ? & _ & Hs). done.
Qed.

Lemma admit_not_blocked c n k (s : machine S W) b s' :
  admit_effect cfg host c n k s = (Ok b, s') -> effect_blocked (m_run s') n = false.
Proof.
  unfold admit_effect. intros Hs. apply bind_inv in Hs as ([] & s1 & [-> Hnb]%check_blocked_Ok & Hs).
  match type of Hs with ?m s = _ => assert (keeps authorised m) as Hk by solve_keeps end.
  specialize (Hk s). rewrite Hs in Hk. destruct Hk as (O & D & _). by rewrite (effect_blocked_core (m_run s)).
Qed.

Lemma authorised_run_node c n k :
  keeps (given (fun _ => find_node ir c = Some n) authorised) (run_node cfg host c n k : M _).
Proof.
  assert (PreOrder (given (fun _ : machine S W => find_node ir c = Some n) authorised)) as Hpo
    by (apply given_preorder; [typeclasses eauto|done]).
  unfold run_node. apply (keeps_bind_post _ _ (fun _ s => effect_blocked (m_run s) n = false)).
  { apply (keeps_weaken _ calm); [intros ? ? ? _; by apply calm_authorised|auto with calm]. }
  { intros s b s'. apply admit_not_blocked. }
  intros b. apply (keeps_weaken _ (authorised_if c n)); [|solve_keeps].
  intros s s' Ha Hb Hn. by apply Ha.
Qed.
Lemma authorised_turn c l : keeps authorised (turn cfg host c l : M _).
Proof.
  unfold turn. apply (keeps_bind_post _ _ (fun nk _ => find_node ir c = Some nk.1)).
  - apply authorised_enter_node.
  - intros s [n k] s'. apply enter_node_found.
  - intros [n k]. apply authorised_run_node.
Qed.
#[local] Hint Resolve authorised_turn authorised_initialize : keeps.
Lemma authorised_turns f l : keeps authorised (turns cfg host f l : M _).
Proof. revert l. induction f; intros l; cbn [turns]; solve_keeps. Qed.
#[local] Hint Resolve authorised_turns : keeps.
Lemma authorised_step f i : keeps authorised (execute_step cfg host f i : M _).
Proof. unfold execute_step. solve_keeps. Qed.

(** C19: however a step ends, every executor it called, synchronously or not, is the
    executor of a node of the workflow whose effect and replay policy the run's mode
    and options admit, with the policy's consent, outside deterministic replay, and
    was given an effect fence exactly when the node writes and the node's own
    idempotency key. *)
Theorem step_calls_authorised fuel input s out s' :
  execute_step cfg host fuel input s = (out, s') ->
  exists new, m_log s' = m_log s ++ new /\ Forall (authorised_call (m_run s)) new.
Proof.
  intros Hs. pose proof (keeps_run authorised _ s (authorised_step fuel input)) as Hk.
  rewrite Hs in Hk. by destruct Hk as (_ & _ & Hk).
Qed.

Definition writes (c : host_call) : bool :=
  match c with CallExecute _ ctx _ | CallStart _ ctx _ _ => x_effect_committer ctx | _ => false end.

(** a shadow run, and a run that is not allowed external writes nor irreversible
    effects, never calls the executor of a writing node. *)
Theorem shadow_never_writes fuel input s out s' :
  let o := r_options (m_run s) in
  o_mode o = Shadow \/ (o_allow_external_writes o = false /\ o_allow_irreversible o = false) ->
  execute_step cfg host fuel input s = (out, s') ->
  exists new, m_log s' = m_log s ++ new /\ Forall (fun c => writes c = false) new.
Proof.
  intros o Ho Hs. pose proof (keeps_run authorised _ s (authorised_step fuel input)) as Hk.
  rewrite Hs in Hk. destruct Hk as (_ & _ & new & L & F). exists new. split; [done|].
  eapply Forall_impl; [done|]. clear F L. subst o.
  assert (forall ex ctx, call_authorised (m_run s) ex ctx -> x_effect_committer ctx = false) as Hc.
  { intros ex ctx (n & _ & _ & Hb & Hd & _ & -> & _). unfold effect_blocked in Hb. rewrite Hd in Hb.
    unfold is_write in *. cbn [negb andb] in Hb.
    destruct Ho as [Hm|[H1 H2]]; [rewrite Hm in Hb|rewrite H1, H2 in Hb];
      destruct (external_write n), (irreversible n); cbn in Hb; try done; by rewrite ?orb_true_r in Hb. }
  intros [] Hauth; try done; by eapply Hc.
Qed.

(** A step of a deterministic replay calls no executor at all. *)
Theorem replay_never_executes fuel input s out s' :
  r_deterministic_replay (m_run s) = true ->
  execute_step cfg host fuel input s = (out, s') ->
  exists new, m_log s' = m_log s ++ new /\ Forall (fun c => is_call c = false) new.
Proof.
  intros Hd Hs. pose proof (keeps_run authorised _ s (authorised_step fuel input)) as Hk.
  rewrite Hs in Hk. destruct Hk as (_ & _ & new & L & F). exists new. split; [done|].
  eapply Forall_impl; [done|]. intros [] Ha; try done; destruct Ha as (n & _ & _ & _ & Hd' & _); congruence.
Qed.

(** ** The fence

    [prepared_in current id log]: a checkpoint of run [id] was saved that records the
    effect of [current] as prepared. *)
Definition effect_prepared (current : string) (r : RunImpl) : Prop :=
  jget_path ["_effects"; current; "status"] (r_state r) = Ok (JString "prepared").
Definition prepared_in (current run_id : string) (log : list host_call) : Prop :=
  exists version r text, CallSaved run_id version r text ∈ log /\ effect_prepared current r.

(** Every call of a writing executor comes after the save of its fence. *)
Definition call_fenced (before : list host_call) (c : host_call) : Prop :=
  match c with
  | CallExecute _ ctx _ | CallStart _ ctx _ _ =>
    x_effect_committer ctx = true -> prepared_in (x_node_id ctx) (x_run_id ctx) before
  | _ => True
  end.
Definition log_fenced (log : list host_call) : Prop :=
  forall before c after, log = before ++ c :: after -> call_fenced before c.

Definition run_id_of (r : RunImpl) : exc string := x ← id_json r; jl_as_string x.
Definition node_fenced (current : string) (n : NodeIR) (s : machine S W) : Prop :=
  is_write n = true -> forall run_id, run_id_of (m_run s) = Ok run_id -> prepared_in current run_id (m_log s).
Definition pending_fenced (s : machine S W) : Prop :=
  let a := r_async (m_run s) in
  a_pending a = true -> forall n, find_node ir (a_node a) = Some n -> node_fenced (a_node a) n s.
Definition fence_inv (s : machine S W) : Prop := log_fenced (m_log s) /\ pending_fenced s.

Lemma log_fenced_snoc log c : log_fenced log -> call_fenced log c -> log_fenced (log ++ [c]).
Proof.
  intros Hl Hc before d after E. destruct after as [|a after _] using rev_ind.
  - by apply app_inj_tail in E as [<- <-].
  - change (before ++ d :: after ++ [a]) with (before ++ (d :: after) ++ [a]) in E. rewrite app_assoc in E.
    apply app_inj_tail in E as [-> _]. by eapply Hl.
Qed.
Lemma prepared_in_app c i l l' : prepared_in c i l -> prepared_in c i (l ++ l').
Proof. intros (v & r & t & Hin & Hp). exists v, r, t. split; [|done]. apply elem_of_app. by left. Qed.
Lemma log_fenced_neutral log new :
  log_fenced log -> Forall (fun c => is_call c = false) new -> log_fenced (log ++ new).
Proof.
  intros Hl. revert log Hl. induction new as [|c new IH]; intros log Hl Hf; [by rewrite app_nil_r|].
  inversion_clear Hf. change (c :: new) with ([c] ++ new). rewrite app_assoc. apply IH; [|done].
  apply log_fenced_snoc; [done|]. by destruct c.
Qed.

(** [fencing I]: the invariant carries over, where [I] says it held to begin with. *)
Definition fencing (I : Prop) (s s' : machine S W) : Prop :=
  id_json (m_run s') = id_json (m_run s) /\ r_deterministic_replay (m_run s') = r_deterministic_replay (m_run s)
  /\ r_initialized (m_run s') = r_initialized (m_run s)
  /\ (exists new, m_log s' = m_log s ++ new) /\ (I -> fence_inv s -> fence_inv s').
#[local] Instance fencing_preorder I : PreOrder (fencing I).
Proof.
  split.
  - intros s. split_and!; try done. exists []. by rewrite app_nil_r.
  - intros x y z (E & D & N & [l L] & F) (E' & D' & N' & [l' L'] & F'). split_and!; [congruence..| |auto].
    exists (l ++ l'). by rewrite L', L, app_assoc.
Qed.

Lemma node_fenced_mono I c n s s' : fencing I s s' -> node_fenced c n s -> node_fenced c n s'.
Proof.
  intros (E & _ & _ & [l L] & _) Hf Hw i Hi. rewrite L. apply prepared_in_app, Hf; [done|].
  unfold run_id_of in *. by rewrite <- E.
Qed.
Lemma calm_fencing I s s' : calm s s' -> fencing I s s'.
Proof.
  intros [(_ & D & A & _ & _ & E & N & _) (l & L & F)]. split_and!; [done..|by exists l|].
  intros _ [Hl Hp]. split; [rewrite L; by apply log_fenced_neutral|].
  unfold pending_fenced. rewrite A. intros Ha n Hn Hw i Hi. rewrite L. apply prepared_in_app.
  eapply Hp; [done..|]. unfold run_id_of in *. by rewrite <- E.
Qed.

(** A change of the run that starts nothing asynchronous. *)
Definition starts_nothing (r r' : RunImpl) : Prop :=
  id_json r' = id_json r /\ r_deterministic_replay r' = r_deterministic_replay r
  /\ r_initialized r' = r_initialized r
  /\ (a_pending (r_async r') = true -> a_pending (r_async r) = true /\ a_node (r_async r') = a_node (r_async r)).
Lemma fencing_run_mod I f : (forall r, starts_nothing r (f r)) -> keeps (fencing I) (run_mod f : M unit).
Proof.
  intros Hf. apply keeps_modify. intros s. destruct (Hf (m_run s)) as (E & D & N & A).
  split_and!; [done..|exists []; by rewrite app_nil_r|]. intros _ [Hl Hp]. split; [done|].
  intros Ha n Hn. destruct (A Ha) as [Ha' En]. simpl in *. rewrite En in *. intros Hw i Hi.
  eapply Hp; [done..|]. unfold run_id_of in *. by rewrite <- E.
Qed.

#[local] Hint Extern 2 (keeps_on _ (fencing _) _) =>
  (apply (keeps_weaken _ calm); [apply calm_fencing|solve [auto with calm]]) : keeps.
#[local] Hint Extern 1 (keeps_on _ (fencing _) (run_mod _)) =>
  (apply fencing_run_mod; intros; split_and!; [reflexivity..|by intros ?]) : keeps.
#[local] Hint Extern 1 (keeps_on _ (fencing _) (mod_async _)) =>
  (apply fencing_run_mod; intros; split_and!; [reflexivity..|by intros ?]) : keeps.

(** The executing node's fence is in the log. *)
Definition fencing_for (I : Prop) current n := given (fun s => I -> node_fenced current n s) (fencing I).
#[local] Instance fencing_for_preorder I current n : PreOrder (fencing_for I current n).
Proof.
  apply given_preorder; [typeclasses eauto|]. intros s s' Hn Hf HI. eapply node_fenced_mono; [done|]. by apply Hn.
Qed.
Lemma keeps_fencing_for {A} I c n (m : M A) : keeps (fencing I) m -> keeps (fencing_for I c n) m.
Proof. apply keeps_weaken. by intros s s' Hf _. Qed.
#[local] Hint Extern 3 (keeps_on _ (fencing_for _ _ _) _) =>
  (apply keeps_fencing_for; solve [auto with keeps]) : keeps.

(** ... and the run's identifier is known. *)
Definition call_ready (I : Prop) current n run_id (s : machine S W) : Prop :=
  (I -> node_fenced current n s) /\ run_id_of (m_run s) = Ok run_id.
Definition fencing_call (I : Prop) current n run_id := given (call_ready I current n run_id) (fencing I).
#[local] Instance fencing_call_preorder I current n run_id : PreOrder (fencing_call I current n run_id).
Proof.
  apply given_preorder; [typeclasses eauto|]. intros s s' [Hn Hi] Hf. split.
  - intros HI. eapply node_fenced_mono; [done|]. by apply Hn.
  - destruct Hf as (E & _). unfold run_id_of in *. by rewrite E.
Qed.
Lemma keeps_fencing_call {A} I c n i (m : M A) : keeps (fencing I) m -> keeps (fencing_call I c n i) m.
Proof. apply keeps_weaken. by intros s s' Hf _. Qed.
#[local] Hint Extern 3 (keeps_on _ (fencing_call _ _ _ _) _) =>
  (apply keeps_fencing_call; solve [auto with keeps]) : keeps.

Lemma run_id_string_Ok (s : machine S W) i s' :
  run_id_string s = (Ok i, s') -> s' = s /\ run_id_of (m_run s) = Ok i.
Proof.
  unfold run_id_string, run_id_of, id_json, run_get, gets, try_, lift, mbind, act_bind, res_bind.
  destruct (jget "id" (r_run (m_run s))) as [x|]; [|done]. destruct (jl_as_string x); [|done]. by intros [= <- <-].
Qed.
Lemma bind_run_id {A} I c n (f : string -> M A) :
  (forall i, keeps (fencing_call I c n i) (f i)) -> keeps (fencing_for I c n) (run_id_string ≫= f).
Proof.
  intros Hf. apply (keeps_bind_post _ _ (fun i s => run_id_of (m_run s) = Ok i)).
  - auto with keeps.
  - intros s i s' [-> Hi]%run_id_string_Ok. done.
  - intros i. eapply keeps_weaken; [|apply Hf]. intros s s' Hc Hi Hn. by apply Hc.
Qed.

Lemma fencing_call_note I current n attempt remaining run_id mode lease input c :
  c = CallExecute (n_executor n) (make_context current n attempt remaining run_id mode lease) input
  \/ (exists g, c = CallStart (n_executor n) (make_context current n attempt remaining run_id mode lease) input g) ->
  keeps (fencing_call I current n run_id) (note c : M unit).
Proof.
  intros Hc. apply keeps_modify. intros s [Hn Hi]. split_and!; [done..|by exists [c]|].
  intros HI [Hl Hp]. split.
  - apply log_fenced_snoc; [done|]. destruct Hc as [->|[g ->]]; intros Hw; by apply Hn.
  - intros Ha m Hm Hw i' Hi'. simpl. apply prepared_in_app. by eapply Hp.
Qed.
Lemma fencing_call_executor I current n attempt remaining run_id mode lease t i :
  keeps (fencing_call I current n run_id)
    (call_executor host n (make_context current n attempt remaining run_id mode lease) t i : M _).
Proof. unfold call_executor. solve_keeps. eapply fencing_call_note. by left. Qed.
#[local] Hint Resolve fencing_call_executor : keeps.
Lemma fencing_sync_attempt I current n i a mx :
  keeps (fencing_for I current n) (sync_attempt cfg host current n i a mx : M _).
Proof.
  unfold sync_attempt. keeps_step; [solve_keeps..|]. intros r. keeps_step; [solve_keeps|].
  keeps_step; [solve_keeps..|]. intros _. apply bind_run_id. intros run_id. solve_keeps.
Qed.
#[local] Hint Resolve fencing_sync_attempt : keeps.
Lemma fencing_sync_attempts I current n k i mx r :
  keeps (fencing_for I current n) (sync_attempts cfg host k current n i mx r : M _).
Proof. revert r. induction k; intros r; cbn [sync_attempts]; solve_keeps. Qed.
#[local] Hint Resolve fencing_sync_attempts : keeps.
Lemma fencing_run_sync I current n i r : keeps (fencing_for I current n) (run_sync cfg host current n i r : M _).
Proof. unfold run_sync. solve_keeps. Qed.

Lemma fencing_complete I g r : keeps (fencing I) (mod_async (complete_async g r) : M unit).
Proof.
  apply fencing_run_mod. intros x. split_and!; [done..|]. simpl. unfold complete_async.
  by destruct (negb _ || _ || _).
Qed.
#[local] Hint Resolve fencing_complete : keeps.

(** Making the node the pending one is covered by its fence. *)
Lemma fencing_pending I current n i f :
  find_node ir current = Some n ->
  (forall a, a_node (f a) = current) ->
  keeps (fencing_call I current n i) (mod_async f : M unit).
Proof.
  intros Hn Hf. apply keeps_modify. intros s [Hnf Hi].
  split_and!; [done..|exists []; by rewrite app_nil_r|]. intros HI [Hl _]. split; [done|].
  intros Ha m Hm. simpl in *. rewrite Hf in *. assert (m = n) as -> by congruence.
  intros Hw i' Hi'. by apply Hnf.
Qed.
Lemma fencing_start_async I current n i k :
  find_node ir current = Some n -> keeps (fencing_for I current n) (start_async cfg host current n i k : M _).
Proof.
  intros Hn. unfold start_async. do 2 (keeps_step; [solve_keeps..|]; intros ?). apply bind_run_id. intros run_id.
  do 2 (keeps_step; [solve_keeps..|]; intros ?). keeps_step; [solve_keeps..|]. intros leased.
  destruct leased as [lease|e]; [|solve_keeps].
  keeps_step; [solve_keeps..|]. intros _. keeps_step; [solve_keeps|by apply fencing_pending|].
  solve_keeps. eapply fencing_call_note. right. by eexists.
Qed.
Lemma fencing_continue_async I current n : keeps (fencing I) (continue_async cfg host current n : M _).
Proof. unfold continue_async, retry_async. solve_keeps. Qed.
#[local] Hint Resolve fencing_run_sync fencing_start_async fencing_continue_async : keeps.

(** ** The step *)
Definition exec_ready (I : Prop) current n (k : Continuing) (committed : bool) (s : machine S W) : Prop :=
  I -> r_deterministic_replay (m_run s) = false -> committed = false -> k_async k = false -> node_fenced current n s.
Definition fencing_exec (I : Prop) current n k committed := given (exec_ready I current n k committed) (fencing I).
#[local] Instance fencing_exec_preorder I current n k b : PreOrder (fencing_exec I current n k b).
Proof.
  apply given_preorder; [typeclasses eauto|]. intros s s' Hr Hf HI Hd Hb Hk.
  eapply node_fenced_mono; [done|]. apply Hr; try done. destruct Hf as (_ & D & _). congruence.
Qed.
Lemma keeps_fencing_exec {A} I c n k b (m : M A) : keeps (fencing I) m -> keeps (fencing_exec I c n k b) m.
Proof. apply keeps_weaken. by intros s s' Hf _. Qed.
#[local] Hint Extern 3 (keeps_on _ (fencing_exec _ _ _ _ _) _) =>
  (apply keeps_fencing_exec; solve [auto with keeps]) : keeps.

Lemma fencing_run_executor I c n i k r :
  find_node ir c = Some n -> keeps (fencing_exec I c n k false) (run_executor cfg host c n i k r : M _).
Proof.
  intros Hn s. unfold run_executor, run_get, gets, mbind, act_bind, id. cbn beta iota.
  assert (forall (m : M ExecutionResult), keeps (fencing I) m ->
    match m s with (Ok _, s') => fencing_exec I c n k false s s' | (Err e, s') => True -> fencing_exec I c n k false s s' end) as Hany.
  { intros m Hm. exact (keeps_fencing_exec I c n k false m Hm s). }
  destruct (r_deterministic_replay (m_run s)) eqn:Hd; [apply Hany; auto with keeps|].
  destruct (match c_policy cfg with Some _ => _ | None => _ end); [apply Hany; solve_keeps|].
  destruct (_ && _); [apply Hany; solve_keeps|].
  destruct (k_async k) eqn:Hk; [apply Hany; auto with keeps|].
  assert (forall (m : M ExecutionResult), keeps (fencing_for I c n) m ->
    match m s with (Ok _, s') => fencing_exec I c n k false s s' | (Err e, s') => True -> fencing_exec I c n k false s s' end) as Hfor.
  { intros m Hm. specialize (Hm s). destruct (m s) as [[a|e] s']; [intros Hr|intros _ Hr]; apply Hm; auto. }
  destruct (mem_str (n_executor n) (c_async_executors cfg)); apply Hfor; auto with keeps.
Qed.
#[local] Hint Resolve fencing_run_executor : keeps.
Lemma fencing_execute_node I c n k b i :
  find_node ir c = Some n -> keeps (fencing_exec I c n k b) (execute_node cfg host c n k b i : M _).
Proof. intros Hn. unfold execute_node. destruct b; solve_keeps. Qed.

Lemma fencing_check_cancelled I c : keeps (fencing I) (check_cancelled cfg host c : M unit).
Proof. unfold check_cancelled. solve_keeps. Qed.
Lemma fencing_continuations I c : keeps (fencing I) (continuations c : M Continuing).
Proof. unfold continuations. solve_keeps. Qed.
Lemma fencing_count_step I k : keeps (fencing I) (count_step cfg k : M unit).
Proof. unfold count_step. solve_keeps. Qed.
#[local] Hint Resolve fencing_check_cancelled fencing_continuations fencing_count_step fencing_execute_node : keeps.
Lemma fencing_enter_node I c l : keeps (fencing I) (enter_node cfg host c l : M _).
Proof. unfold enter_node. solve_keeps. Qed.

(** A retry resumes the pending node, whose fence the invariant keeps. *)
Lemma continuations_retry c (s : machine S W) k s' :
  continuations c s = (Ok k, s') -> k_retry k = true ->
  a_pending (r_async (m_run s)) = true /\ a_node (r_async (m_run s)) = c.
Proof.
  unfold continuations. intros Hs Hk. apply bind_inv in Hs as (r & s1 & Hr & Hs). injection Hr as <- <-.
  apply bind_inv in Hs as ([ka kr] & s2 & Hr & Hs). cbv zeta in Hs.
  apply bind_inv in Hs as (ks & s3 & _ & Hs). injection Hs as <- _. simpl in Hk. subst kr. unfold id in Hr.
  destruct (a_pending (r_async (m_run s))); [|done].
  destruct (String.eqb_spec (a_node (r_async (m_run s))) c); done.
Qed.
Lemma enter_node_retry c l (s : machine S W) n k s' :
  enter_node cfg host c l s = (Ok (n, k), s') -> k_retry k = true -> fence_inv s -> node_fenced c n s'.
Proof.
  intros Hs Hk Hinv. pose proof (enter_node_found _ _ _ _ _ _ Hs) as Hn. unfold enter_node in Hs.
  apply bind_inv in Hs as (u & s1 & H1 & Hs). apply bind_inv in Hs as (k' & s2 & H2 & Hs).
  pose proof (fencing_check_cancelled True c s) as F1. rewrite H1 in F1. destruct F1 as (_ & _ & _ & _ & F1).
  pose proof (fencing_continuations True c s1) as F2. rewrite H2 in F2.
  match type of Hs with ?m s2 = _ => assert (keeps (fencing True) m) as Hm by solve_keeps end.
  specialize (Hm s2). rewrite Hs in Hm.
  assert (k' = k) as ->.
  { do 5 (apply bind_inv in Hs as (? & ? & _ & Hs)). fold ir in Hs. rewrite Hn in Hs.
    do 5 (apply bind_inv in Hs as (? & ? & _ & Hs)). by injection Hs. }
  destruct (continuations_retry _ _ _ _ H2 Hk) as [Hp Ha].
  do 2 (eapply node_fenced_mono; [done|]). destruct (F1 I Hinv) as [_ Hpf].
  rewrite <- Ha. apply Hpf; [done|]. by rewrite Ha.
Qed.

(** Admission leaves a first attempt fenced. *)
Lemma set_effect_Ok c f v (s : machine S W) u s' :
  set_effect c f v s = (Ok u, s') ->
  jset_path ["_effects"; c; f] (JString v) (r_state (m_run s)) = Ok (r_state (m_run s')).
Proof.
  unfold set_effect, mod_state, mod_json, run_get, gets, try_, lift, mbind, act_bind.
  destruct (jset_path _ _ _) as [x|]; [|done]. by intros [= _ <-].
Qed.
Lemma save_checkpoint_Ok (s : machine S W) u s' :
  c_store cfg = true -> save_checkpoint cfg s = (Ok (Ok u), s') ->
  exists i version text, run_id_of (m_run s) = Ok i /\ m_log s' = m_log s ++ [CallSaved i version (m_run s) text].
Proof.
  intros Hst. unfold save_checkpoint. rewrite Hst. cbn [negb]. intros Hs.
  apply bind_inv in Hs as (r & s1 & Hr & Hs). injection Hr as <- <-.
  apply bind_inv in Hs as (p & s1 & Hp & Hs). unfold try_, lift in Hp. injection Hp as _ <-.
  apply bind_inv in Hs as (p' & s1 & Hp & Hs). unfold try_, lift in Hp. injection Hp as _ <-.
  apply bind_inv in Hs as (i & s1 & [-> Hi]%run_id_string_Ok & Hs).
  apply bind_inv in Hs as (m & s1 & Hr & Hs). injection Hr as <- <-.
  destruct (store_compare_exchange _ _ _ _) as [saved st]. cbn zeta in Hs.
  apply bind_inv in Hs as ([] & s1 & Hr & Hs). injection Hr as <-.
  destruct saved as [v|e]; [|by injection Hs].
  do 2 (apply bind_inv in Hs as ([] & ? & Hr & Hs); injection Hr as <-). injection Hs as _ <-.
  by eexists i, v, _.
Qed.
Lemma persist_Ok (s : machine S W) u s' :
  c_store cfg = true -> persist cfg s = (Ok u, s') ->
  exists i version text, run_id_of (m_run s) = Ok i /\ m_log s' = m_log s ++ [CallSaved i version (m_run s) text].
Proof.
  intros Hst. unfold persist. intros Hs. apply bind_inv in Hs as (saved & s1 & H1 & Hs).
  destruct saved as [x|e]; [|done]. injection Hs as _ <-. by eapply save_checkpoint_Ok.
Qed.
Lemma prepare_effect_Ok c n (s : machine S W) u s' :
  c_store cfg = true -> prepare_effect cfg host c n s = (Ok u, s') -> node_fenced c n s'.
Proof.
  intros Hst. unfold prepare_effect. intros Hs. apply bind_inv in Hs as (? & s1 & H1%set_effect_Ok & Hs).
  apply bind_inv in Hs as (i & s2 & [-> Hi]%run_id_string_Ok & Hs).
  apply bind_inv in Hs as (? & s3 & H3%set_effect_Ok & Hs).
  apply bind_inv in Hs as (? & s4 & H4 & Hs).
  match type of Hs with ?m s4 = _ => assert (keeps (fencing True) m) as Hm by solve_keeps end.
  specialize (Hm s4). rewrite Hs in Hm. eapply node_fenced_mono; [done|].
  pose proof (calm_persist cfg false false s3) as Hc. rewrite H4 in Hc. destruct Hc as [(_ & _ & _ & _ & _ & E & _) _].
  apply persist_Ok in H4 as (i' & v & text & Hi' & L); [|done].
  intros _ j Hj. unfold run_id_of in *. rewrite E, Hi' in Hj. injection Hj as <-.
  exists v, (m_run s3), text. split; [rewrite L; set_solver|]. unfold effect_prepared.
  pose proof (jget_set_path_ne ["_effects"; c] "idempotency_key" "status" _ _ _ ltac:(done) H3) as E2.
  cbn [app] in E2. rewrite E2. by eapply jget_set_path.
Qed.

Lemma admit_fenced c n k (s : machine S W) b s' :
  c_store cfg = true -> admit_effect cfg host c n k s = (Ok b, s') ->
  r_deterministic_replay (m_run s') = false -> b = false -> k_async k = false -> k_retry k = false ->
  node_fenced c n s'.
Proof.
  intros Hst. unfold admit_effect. intros Hs Hd Hb Ha Hr. apply bind_inv in Hs as (? & s1 & _ & Hs).
  apply bind_inv in Hs as (status & s2 & _ & Hs). cbv zeta in Hs. apply bind_inv in Hs as (? & s3 & _ & Hs).
  apply bind_inv in Hs as (r & s4 & Hg & Hs). injection Hg as <- <-. unfold id in Hs.
  apply bind_inv in Hs as (u & s4 & Hp & Hs). injection Hs as <- <-. rewrite Hb, Ha, Hr in Hp. cbn [negb] in Hp.
  rewrite !andb_true_r in Hp.
  assert (r_deterministic_replay (m_run s3) = false) as Hd3.
  { match type of Hp with ?m s3 = _ => assert (keeps (fencing True) m) as Hm by solve_keeps end.
    specialize (Hm s3). rewrite Hp in Hm. destruct Hm as (_ & D & _). congruence. }
  rewrite Hd3 in Hp. cbn [negb andb] in Hp. destruct (is_write n) eqn:Hw.
  - by eapply prepare_effect_Ok.
  - intros Hw'. congruence.
Qed.

Lemma fencing_run_node I c n k :
  c_store cfg = true -> find_node ir c = Some n ->
  keeps (given (fun s => k_retry k = true -> I -> node_fenced c n s) (fencing I)) (run_node cfg host c n k : M _).
Proof.
  intros Hst Hn. unfold run_node. apply keeps_bind_from.
  { apply (keeps_weaken _ calm); [intros ? ? ? _; by apply calm_fencing|auto with calm]. }
  intros s0 b s1 H1 F1. apply (keeps_from _ (fencing_exec I c n k b)); [solve_keeps|].
  intros s' Hx Hr. specialize (F1 Hr). etrans; [done|]. apply Hx. intros HI Hd Hb Ha.
  destruct (k_retry k) eqn:Hk; [|by eapply admit_fenced]. eapply node_fenced_mono; [done|]. by apply Hr.
Qed.

Lemma fencing_turn c l : c_store cfg = true -> keeps (fencing True) (turn cfg host c l : M _).
Proof.
  intros Hst. unfold turn. apply keeps_bind_from; [apply fencing_enter_node|]. intros s0 [n k] s1 H1 F1.
  eapply keeps_from; [apply (fencing_run_node (fence_inv s0)); [done|]; by eapply enter_node_found|].
  intros s' Hg. destruct Hg as (E & D & N & [l2 L] & F).
  { intros Hk Hinv. by eapply enter_node_retry. }
  destruct F1 as (E1 & D1 & N1 & [l1 L1] & F1).
  split_and!; [congruence..|exists (l1 ++ l2); by rewrite L, L1, app_assoc|]. intros _ Hinv. apply F; auto.
Qed.
Lemma fencing_turns f l : c_store cfg = true -> keeps (fencing True) (turns cfg host f l : M _).
Proof.
  intros Hst. revert l. induction f; intros l; cbn [turns]; solve_keeps. by apply fencing_turn.
Qed.

(** Initialisation may name the run, but starts nothing. *)
Definition starting (s s' : machine S W) : Prop :=
  r_async (m_run s') = r_async (m_run s)
  /\ exists new, m_log s' = m_log s ++ new /\ Forall (fun c => is_call c = false) new.
#[local] Instance starting_preorder : PreOrder starting.
Proof.
  split.
  - intros s. split; [done|]. exists []. by rewrite app_nil_r.
  - intros x y z [A (l & L & N)] [A' (l' & L' & N')]. split; [congruence|].
    exists (l ++ l'). rewrite L', L, app_assoc. split; [done|]. by apply Forall_app.
Qed.
Lemma starting_run_mod f : (forall r, r_async (f r) = r_async r) -> keeps starting (run_mod f : M unit).
Proof. intros Hf. apply keeps_modify. intros s. split; [apply Hf|]. exists []. by rewrite app_nil_r. Qed.
#[local] Hint Extern 1 (keeps_on _ starting (run_mod _)) => (apply starting_run_mod; reflexivity) : keeps.
#[local] Hint Extern 2 (keeps_on _ starting _) =>
  (apply (keeps_weaken _ calm); [by intros ? ? [(_ & _ & A & _) L]|solve [auto with calm]]) : keeps.
Lemma starting_initialize i : keeps starting (initialize cfg host i : M unit).
Proof. unfold initialize, mod_run, mod_json. solve_keeps. Qed.

Lemma initialize_initialized i (s : machine S W) u s' :
  initialize cfg host i s = (Ok u, s') -> r_initialized (m_run s') = true.
Proof.
  unfold initialize. intros Hs. do 10 (apply bind_inv in Hs as (? & ? & _ & Hs)).
  apply bind_inv in Hs as ([] & s1 & H1 & Hs). injection H1 as <-.
  apply bind_inv in Hs as (r & s1 & H1 & Hs). injection H1 as <- <-.
  match type of Hs with ?m ?s0 = _ => assert (keeps calm m) as Hm by auto with calm end.
  match type of Hs with ?m ?s0 = _ => specialize (Hm s0) end. rewrite Hs in Hm.
  by destruct Hm as [(_ & _ & _ & _ & _ & _ & -> & _) _].
Qed.

(** What a run brings to its next step. *)
Definition step_ready (s : machine S W) : Prop :=
  fence_inv s /\ (r_initialized (m_run s) = false -> a_pending (r_async (m_run s)) = false).
Lemma starting_ready (s s' : machine S W) :
  starting s s' -> step_ready s -> r_initialized (m_run s) = false -> step_ready s'.
Proof.
  intros [A (l & L & N)] [[Hl _] Hi] Hn. specialize (Hi Hn). split; [split|].
  - rewrite L. by apply log_fenced_neutral.
  - unfold pending_fenced. rewrite A, Hi. done.
  - by rewrite A.
Qed.

(** C1: the effect fence.  With a state store, a step that starts from a machine whose
    log is fenced leaves it fenced, however it ends: every executor call that may
    write comes after a checkpoint was saved, under the very run identifier the
    executor is given, that records the node's effect as prepared; a retry of an
    asynchronous node included. *)
Theorem step_fenced fuel input s out s' :
  c_store cfg = true -> step_ready s -> execute_step cfg host fuel input s = (out, s') -> step_ready s'.
Proof.
  intros Hst Hr Hs. unfold execute_step, run_get, gets in Hs. unfold mbind, act_bind in Hs. cbn beta iota in Hs.
  unfold id in Hs. destruct (r_completed (m_run s)).
  { pose proof (keeps_run (A:=unit) calm _ s (calm_completed false false)) as Hc. rewrite Hs in Hc.
    pose proof (calm_fencing True _ _ Hc) as (_ & _ & _ & _ & F).
    destruct Hc as [(_ & _ & A & _ & _ & _ & N & _) _]. destruct Hr as [Hf Hi]. split; [by apply F|]. simpl in *. by rewrite A, N. }
  assert (forall t t' o, step_ready t -> r_initialized (m_run t) = true ->
    turns cfg host fuel (ok_result (JObject [])) t = (o, t') -> step_ready t') as Hturns.
  { intros t t' o [Hf _] Hi Ht. pose proof (keeps_run (fencing True) _ t (fencing_turns fuel (ok_result (JObject [])) Hst)) as Hk.
    rewrite Ht in Hk. destruct Hk as (_ & _ & N & _ & F). split; [by apply F|]. simpl in N. congruence. }
  destruct (r_initialized (m_run s)) eqn:Hi; cbn [negb when] in Hs.
  - by eapply Hturns.
  - pose proof (starting_initialize input s) as Hk. destruct (initialize cfg host input s) as [[u|e] s1] eqn:Hini.
    + eapply Hturns; [by eapply starting_ready| |done]. by eapply initialize_initialized.
    + injection Hs as _ <-. eapply starting_ready; [by apply Hk|done..].
Qed.
End Effects.
