(* ===== verification/RunBudget.v ===== *)
(** * What a step may spend (src/dage.cpp: Run::execute_step)

    Every call of an executor is paid for: by the step counted for the visit of its
    node, by a retry taken from the run's budget, or by the retry delay that had
    elapsed when the step began. *)

From S2P Require Import Prelude Json Expr Sha256 Ir Reliability Workflow Trace RunState RunStep RunCalm RunBounds.
Open Scope string_scope.
Open Scope list_scope.
Open Scope Z_scope.

Section Budget.
Context {J : JsonLib} {S : Type} `{StateStore S} {W : Type} (cfg : RunConfig) (host : Host W).
Abbreviation M A := (act exit (machine S W) A).
Let ir := c_workflow cfg.

Definition calls (log : list host_call) : Z := Z.of_nat (length (List.filter is_call log)).
Abbreviation left s := (r_retry_remaining (m_run s)).
Abbreviation steps s := (r_step (m_run s)).

(** [spend c]: at most [c] calls more than steps counted and retries taken. *)
Definition spend (c : Z) (s s' : machine S W) : Prop :=
  calls (m_log s') + left s' + steps s <= c + calls (m_log s) + left s + steps s'
  /\ (0 <= left s -> 0 <= left s' <= left s).
Lemma spend_trans a b (x y z : machine S W) : spend a x y -> spend b y z -> spend (a + b) x z.
Proof. intros [H1 R1] [H2 R2]. split; [lia|]. intros Hx. specialize (R1 Hx). lia. Qed.
#[local] Instance spend_preorder : PreOrder (spend 0).
Proof. split; [intros x; split; lia|]. intros x y z Hx Hy. exact (spend_trans 0 0 x y z Hx Hy). Qed.
Lemma spend_more a b (x y : machine S W) : spend a x y -> a <= b -> spend b x y.
Proof. intros [H1 R1] Hab. split; [lia|done]. Qed.

Lemma calls_app l l' : calls (l ++ l') = calls l + calls l'.
Proof. unfold calls. rewrite List.filter_app, length_app. lia. Qed.
Lemma calls_none l : Forall (fun c => is_call c = false) l -> calls l = 0.
Proof. unfold calls. induction 1 as [|c l E _ IH]; simpl; [done|]. by rewrite E. Qed.
Lemma quiet_spend kp kf (s s' : machine S W) : quiet kp kf s s' -> spend 0 s s'.
Proof.
  intros [(_ & _ & _ & St & R & _) (l & L & F)]. split; [|lia]. rewrite L, calls_app, (calls_none l F), St, R. lia.
Qed.
#[local] Hint Extern 3 (keeps_on _ (spend 0) _) =>
  (apply (keeps_weaken _ calm); [apply quiet_spend|solve [auto with calm]]) : keeps.
#[local] Hint Extern 1 (keeps_on _ (spend 0) (run_mod _)) => (apply keeps_modify; intros; split; simpl; lia) : keeps.
#[local] Hint Extern 1 (keeps_on _ (spend 0) (mod_async _)) => (apply keeps_modify; intros; split; simpl; lia) : keeps.

#[local] Hint Extern 2 (keeps_on _ (quiet _ _) _) => (solve [auto with calm]) : keeps.

(** A block that spends, after one that does not, and before. *)
Lemma keeps_spend_bind {A B} a b (m : M A) (f : A -> M B) :
  keeps (spend a) m -> (forall x, keeps (spend b) (f x)) -> 0 <= b -> keeps (spend (a + b)) (m ≫= f).
Proof.
  intros Hm Hf Hb s. specialize (Hm s). unfold mbind, act_bind. destruct (m s) as [[x|e] s1].
  - specialize (Hf x s1). destruct (f x s1) as [[y|e] s2]; [|intros _]; (eapply spend_trans; [done|by try apply Hf]).
  - intros _. eapply spend_more; [by apply Hm|lia].
Qed.
Lemma keeps_spend_more {A} a b (m : M A) : keeps (spend a) m -> a <= b -> keeps (spend b) m.
Proof. intros Hm Hab. eapply keeps_weaken; [|done]. intros s s' Hs. by eapply spend_more. Qed.
Lemma spend_pre {A B} c (m : M A) (f : A -> M B) :
  keeps (spend 0) m -> (forall x, keeps (spend c) (f x)) -> 0 <= c -> keeps (spend c) (m ≫= f).
Proof. intros Hm Hf Hc. by apply (keeps_spend_bind 0 c). Qed.
Lemma spend_post {A B} c (m : M A) (f : A -> M B) :
  keeps (spend c) m -> (forall x, keeps (spend 0) (f x)) -> keeps (spend c) (m ≫= f).
Proof. intros Hm Hf. replace c with (c + 0) by lia. by apply keeps_spend_bind. Qed.

Lemma spend_note c : keeps (spend 1) (note c : M unit).
Proof.
  apply keeps_modify. intros s. split; [|simpl; lia]. simpl. rewrite calls_app. unfold calls at 2. simpl.
  destruct (is_call c); simpl; lia.
Qed.
Lemma spend_call_executor n x t i : keeps (spend 1) (call_executor host n x t i : M _).
Proof.
  unfold call_executor. apply spend_pre; [solve_keeps| |lia]. intros input.
  apply spend_post; [apply spend_note|]. intros []. solve_keeps.
Qed.
(** The first attempt costs a call; each further one is paid from the budget. *)
Lemma spend_attempt {A} a (x : A) (rest : RunImpl -> M A) :
  (forall r, keeps (spend 1) (rest r)) ->
  keeps (spend (if 1 <? a then 0 else 1)) (r ← run_get id;
    if (1 <? a) && (r_retry_remaining r =? 0) then mret x else
    when (1 <? a) (run_mod (fun r => r <| r_retry_remaining := r_retry_remaining r - 1 |>));; rest r).
Proof.
  intros Hrest s. unfold run_get, gets, mbind, act_bind, id. cbn beta iota.
  destruct (1 <? a); cbn [andb when].
  - destruct (Z.eqb_spec (left s) 0) as [|Hne]; [split; simpl; lia|]. unfold run_mod, modify.
    eapply keeps_from; [apply Hrest|]. intros s' [Hc Hr]. simpl in *. split; [lia|]. intros H0. lia.
  - eapply keeps_from; [apply Hrest|]. done.
Qed.
Lemma spend_sync_attempt c n i a mx : keeps (spend (if 1 <? a then 0 else 1)) (sync_attempt cfg host c n i a mx : M _).
Proof.
  unfold sync_attempt. apply spend_attempt. intros r.
  do 3 (apply spend_pre; [solve_keeps| |lia]; intros ?).
  match goal with |- keeps _ (match ?l with _ => _ end) => destruct l as [lease|e] end;
    [|apply (keeps_spend_more 0); [solve_keeps|lia]].
  cbv zeta. destruct (_ && _); [apply (keeps_spend_more 0); [solve_keeps|lia]|].
  apply spend_post; [apply spend_call_executor|]. intros [res com]. solve_keeps.
Qed.
Lemma spend_retries k c n i mx r :
  Z.of_nat k < mx -> keeps (spend 0) (sync_attempts cfg host k c n i mx r : M _).
Proof.
  revert r. induction k as [|k IH]; intros r Hk; cbn [sync_attempts]; [solve_keeps|].
  apply keeps_bind; [typeclasses eauto| |intros [x|x]; [solve_keeps|apply IH; lia]].
  pose proof (spend_sync_attempt c n i (mx - Z.of_nat k) mx) as Ha.
  by rewrite (proj2 (Z.ltb_lt 1 (mx - Z.of_nat k))) in Ha by lia.
Qed.
Lemma spend_run_sync c n i r : keeps (spend 1) (run_sync cfg host c n i r : M _).
Proof.
  unfold run_sync. set (mx := i32 (n_max_attempts n)). destruct (Z.to_nat mx) as [|k] eqn:Ek; cbn [sync_attempts].
  { apply (keeps_spend_more 0); [solve_keeps|lia]. }
  apply spend_post.
  - eapply keeps_spend_more; [apply spend_sync_attempt|]. by destruct (1 <? _).
  - intros [x|x]; [solve_keeps|]. apply spend_retries. lia.
Qed.
Lemma spend_start_async c n i k : keeps (spend 1) (start_async cfg host c n i k : M _).
Proof.
  unfold start_async. do 6 (apply spend_pre; [solve_keeps| |lia]; intros ?).
  match goal with |- keeps _ (match ?l with _ => _ end) => destruct l as [lease|e] end;
    [|apply (keeps_spend_more 0); [solve_keeps|lia]].
  do 3 (cbv zeta; apply spend_pre; [solve_keeps| |lia]; intros ?).
  cbv zeta. apply spend_pre; [solve_keeps| |lia]. intros ?. apply spend_post; [|intros [[res|] []]; solve_keeps].
  destruct (copy_value i); [|apply (keeps_spend_more 0); [solve_keeps|lia]].
  apply spend_post; [apply spend_note|]. intros ?. solve_keeps.
Qed.
Lemma spend_retry_async c n a r : keeps (spend 0) (retry_async cfg host c n a r : M _).
Proof.
  intros s. unfold retry_async, id. unfold mbind at 1, act_bind at 1, run_get at 1, gets at 1. cbv zeta beta iota.
  assert (forall m : M ExecutionResult, keeps (spend 0) m ->
    match m s with (Ok _, s') => spend 0 s s' | (Err e, s') => True -> spend 0 s s' end) as Hany by (intros m Hm; apply Hm).
  destruct (_ && _) eqn:Eb; [|destruct (xe_retryable _ && _); apply Hany; solve_keeps].
  apply andb_prop in Eb as [_ Eb]. apply negb_true_iff, Z.eqb_neq in Eb.
  unfold mbind at 1, act_bind at 1, run_mod at 1, modify at 1. cbv zeta beta iota.
  apply (keeps_from _ (spend 0)); [solve_keeps|]. intros s' [Hc Hr]. simpl in *. split; [|intros H0]; lia.
Qed.
#[local] Hint Resolve spend_retry_async : keeps.
Lemma spend_continue_async c n : keeps (spend 0) (continue_async cfg host c n : M _).
Proof. unfold continue_async. solve_keeps. Qed.
Lemma spend_run_executor c n i k r : keeps (spend (if k_async k then 0 else 1)) (run_executor cfg host c n i k r : M _).
Proof.
  unfold run_executor. apply spend_pre; [solve_keeps| |by destruct (k_async k)]. intros x. cbv zeta.
  assert (forall m : M ExecutionResult, keeps (spend 0) m -> keeps (spend (if k_async k then 0 else 1)) m) as Hfree
    by (intros m Hm; eapply keeps_spend_more; [done|by destruct (k_async k)]).
  destruct (r_deterministic_replay x); [apply Hfree; solve_keeps|].
  destruct (match c_policy cfg with Some _ => _ | None => _ end); [apply Hfree; solve_keeps|].
  destruct (_ && _); [apply Hfree; solve_keeps|].
  destruct (k_async k); [apply spend_continue_async|]. destruct (mem_str _ _); [apply spend_start_async|apply spend_run_sync].
Qed.
Lemma spend_execute_node c n k b i : keeps (spend (if k_async k then 0 else 1)) (execute_node cfg host c n k b i : M _).
Proof.
  assert (forall m : M ExecutionResult, keeps (spend 0) m -> keeps (spend (if k_async k then 0 else 1)) m) as Hfree
    by (intros m Hm; eapply keeps_spend_more; [done|by destruct (k_async k)]).
  unfold execute_node. do 2 (apply spend_pre; [solve_keeps| |by destruct (k_async k)]; intros ?; cbv zeta).
  destruct b; [apply Hfree; solve_keeps|]. destruct (_ && _); [apply Hfree; solve_keeps|].
  destruct (n_type n); cbn [needs_executor]; first [apply spend_run_executor | apply Hfree; solve_keeps].
Qed.
Lemma spend_run_node c n k : keeps (spend (if k_async k then 0 else 1)) (run_node cfg host c n k : M _).
Proof.
  unfold run_node. do 2 (apply spend_pre; [solve_keeps| |by destruct (k_async k)]; intros ?).
  apply spend_post; [apply spend_execute_node|]. intros y. solve_keeps.
Qed.

(** ** A turn *)
Definition childless (r : RunImpl) : Prop := r_parallel r = None /\ sf_pending (r_subflow r) = false.
(** A retry delay that has elapsed stands for a retry already taken. *)
Definition credit (r : RunImpl) : Z :=
  let a := r_async r in
  if a_pending a && a_ready a && String.eqb (xe_code (xr_error (a_result a))) "ASYNC_RETRY_READY" then 1 else 0.

Lemma rests_childless (s s' : machine S W) : rests s s' -> childless (m_run s) -> childless (m_run s').
Proof. intros (_ & P & F & _) [? ?]. split; auto. Qed.
Lemma rests_credit (s s' : machine S W) : rests s s' -> credit (m_run s') <= credit (m_run s).
Proof.
  intros (_ & _ & _ & A). unfold credit. destruct (a_pending (r_async (m_run s'))) eqn:E.
  - destruct (A eq_refl) as (-> & -> & ->). lia.
  - cbn [andb]. destruct (_ && _); lia.
Qed.

(** What both exits of the gate spend, and what it hands on. *)
Record gate_Ok (s s1 : machine S W) (k : Continuing) : Prop := {
  gate_spend : spend (if k_any k then 0 else -1) s s1;
  gate_childless : childless (m_run s1);
  gate_any : k_any k = k_async k || k_retry k;
  gate_credit : credit (m_run s1) + (if k_retry k then 1 else 0) <= credit (m_run s);
  gate_steps : 0 <= steps s1 <= w_max_steps ir
}.
Lemma continuations_gate c (s : machine S W) k s1 :
  continuations c s = (Ok k, s1) -> childless (m_run s) ->
  spend 0 s s1 /\ steps s1 = steps s /\ childless (m_run s1) /\ k_any k = k_async k || k_retry k
  /\ credit (m_run s1) + (if k_retry k then 1 else 0) <= credit (m_run s).
Proof.
  unfold continuations. intros Hs [Hp Hf]. apply bind_inv in Hs as (r & s2 & E & Hs). injection E as <- <-. unfold id in Hs.
  cbv zeta in Hs. rewrite Hp, Hf in Hs. cbn [andb] in Hs. apply bind_inv in Hs as ([ka kr] & s2 & H2 & Hs).
  injection Hs as <- <-. unfold k_any. simpl. rewrite !orb_false_r. unfold credit.
  destruct (a_pending (r_async (m_run s))) eqn:Ep; cbn [andb] in H2 |- *; [|injection H2 as <- <- <-; rewrite Ep; simpl; done].
  destruct (String.eqb _ c); [|injection H2 as <- <- <-; rewrite Ep; split_and!; [done..|simpl; lia]].
  destruct (a_ready (r_async (m_run s))) eqn:Er; [|done]. cbn [negb] in H2.
  destruct (String.eqb (xe_code _) _) eqn:Ec.
  - apply bind_inv in H2 as ([] & s3 & E & H2). injection E as <-. injection H2 as <- <- <-. simpl.
    split_and!; [split; simpl; lia|done..].
  - injection H2 as <- <- <-. rewrite Ep, Er, Ec. done.
Qed.
Lemma count_step_gate k (s : machine S W) :
  0 <= steps s < u64_max ->
  let '(out, s1) := count_step cfg k s in
  spend (if k_any k then 0 else -1) s s1 /\ r_async (m_run s1) = r_async (m_run s)
  /\ (childless (m_run s) -> childless (m_run s1))
  /\ (is_ok out = true -> steps s <= w_max_steps ir -> 0 <= steps s1 <= w_max_steps ir).
Proof.
  intros Hb. unfold count_step. destruct (k_any k); cbn [negb when].
  { simpl. split_and!; [split; lia|done..|lia]. }
  unfold run_mod, modify, run_get, gets. unfold mbind, act_bind. cbn beta iota zeta.
  fold ir. assert (u64 (r_step (m_run s) + 1) = r_step (m_run s) + 1) as E
    by (rewrite u64_small; [done|unfold is_u64, u64_max in *; lia]).
  simpl. rewrite E. destruct (Z.ltb_spec (w_max_steps ir) (r_step (m_run s) + 1)); cbn [when];
    simpl; (split_and!; [split; simpl; lia|done..|simpl; lia]).
Qed.

Lemma bind_all {A B} (Q : res exit B -> machine S W -> Prop) (m : M A) (f : A -> M B) s :
  (forall e s1, m s = (Err e, s1) -> Q (Err e) s1) ->
  (forall a s1, m s = (Ok a, s1) -> let '(out, s2) := f a s1 in Q out s2) ->
  let '(out, s2) := (m ≫= f) s in Q out s2.
Proof. unfold mbind, act_bind. destruct (m s) as [[a|e] s1]; intros H1 H2; [by apply (H2 a)|by apply H1]. Qed.
Lemma exit_of {A} (R : machine S W -> machine S W -> Prop) (m : M A) s e s' : keeps R m -> m s = (Err e, s') -> R s s'.
Proof. intros Hm E. specialize (Hm s). rewrite E in Hm. by apply Hm. Qed.

Lemma enter_gate c l (s : machine S W) :
  childless (m_run s) -> 0 <= steps s <= w_max_steps ir -> w_max_steps ir < u64_max ->
  let '(out, s') := enter_node cfg host c l s in
  match out with Ok (n, k) => gate_Ok s s' k | Err _ => spend 0 s s' end.
Proof.
  intros Hch Hb Hm. unfold enter_node. apply bind_all; [intros e s1 E; eapply exit_of; [|exact E]; unfold check_cancelled; solve_keeps|].
  intros [] s1 E1. assert (spend 0 s s1) as P1 by (eapply ok_of; [|exact E1]; unfold check_cancelled; solve_keeps).
  pose proof (ok_of _ _ _ _ _ (still_check_cancelled cfg host c) E1) as R1%still_rests.
  pose proof (rests_childless _ _ R1 Hch) as Hch1. pose proof (rests_credit _ _ R1) as Hcr1. destruct R1 as [St1 _].
  apply bind_all; [intros e s2 E; etrans; [exact P1|]; eapply exit_of; [|exact E]; unfold continuations; solve_keeps|].
  intros k s2 E2. apply continuations_gate in E2 as (P2 & St2 & Hch2 & Hany & Hcr2); [|done].
  assert (spend 0 s s2) as P02 by (by etrans).
  apply bind_all; [done|]. intros r s3 E3. injection E3 as <- <-.
  apply bind_all; [intros e s3 E; etrans; [exact P02|]; eapply exit_of; [|exact E]; solve_keeps|].
  intros [] s3 E3. apply bind_all.
  { intros e s4 E. etrans; [exact P02|]. etrans; [eapply ok_of; [|exact E3]; solve_keeps|].
    eapply exit_of; [|exact E]; solve_keeps. }
  intros [] s4 E4. assert (quiet true true s2 s4) as Q4.
  { etrans; [eapply ok_of, E3; solve [solve_keeps]|eapply ok_of, E4; solve [solve_keeps]]. }
  assert (spend 0 s s4) as P4 by (etrans; [exact P02|by eapply quiet_spend]). clear E3 E4.
  apply quiet_still, still_rests in Q4. pose proof (rests_childless _ _ Q4 Hch2) as Hch4.
  pose proof (rests_credit _ _ Q4) as Hcr4. destruct Q4 as [St4 _].
  pose proof (count_step_gate k s4) as Hcount. assert (0 <= steps s4 < u64_max) as Hb4 by lia. specialize (Hcount Hb4).
  destruct (count_step cfg k s4) as [out s5] eqn:E5. destruct Hcount as (P5 & A5 & C5 & B5).
  assert (spend (if k_any k then 0 else -1) s s5) as P05 by (exact (spend_trans 0 _ _ _ _ P4 P5)).
  apply bind_all.
  { intros e s6 E. rewrite E5 in E. injection E as _ <-. eapply spend_more; [exact P05|by destruct (k_any k)]. }
  intros [] s6 E. rewrite E5 in E. injection E as -> <-. clear E5.
  match goal with |- let '(_, _) := ?m s5 in _ => assert (keeps (quiet true true) m) as Hq by solve_keeps;
    specialize (Hq s5); destruct (m s5) as [[[n k']|e] s7] eqn:E7 end.
  2: { eapply spend_more; [eapply spend_trans; [exact P05|by eapply quiet_spend, Hq]|by destruct (k_any k)]. }
  assert (k' = k) as ->.
  { clear -E7. apply bind_inv in E7 as (? & ? & _ & E7). destruct (find_node _ c); [|done].
    do 5 (apply bind_inv in E7 as (? & ? & _ & E7)). by injection E7. }
  apply quiet_still in Hq as Hq'. apply still_rests in Hq'. pose proof (rests_credit _ _ Hq') as Hcr7. split.
  - replace (if k_any k then 0 else -1) with ((if k_any k then 0 else -1) + 0) by lia.
    eapply spend_trans; [exact P05|by eapply quiet_spend].
  - eapply rests_childless; [done|]. by apply C5.
  - done.
  - assert (credit (m_run s5) = credit (m_run s4)) as E by (unfold credit; by rewrite A5). lia.
  - destruct Hq' as [-> _]. apply B5; [done|lia].
Qed.
Lemma turn_gate c l (s : machine S W) :
  childless (m_run s) -> 0 <= steps s <= w_max_steps ir -> w_max_steps ir < u64_max ->
  let '(out, s') := turn cfg host c l s in
  match out with
  | Ok _ => spend (credit (m_run s) - credit (m_run s')) s s' /\ childless (m_run s') /\ 0 <= steps s' <= w_max_steps ir
  | Err _ => spend (credit (m_run s)) s s'
  end.
Proof.
  intros Hch Hb Hm. pose proof (enter_gate c l s Hch Hb Hm) as Hg. unfold turn.
  assert (0 <= credit (m_run s)) as H0 by (unfold credit; destruct (_ && _); lia).
  destruct (enter_node cfg host c l s) as [out s1] eqn:E1.
  apply bind_all; [intros e s2 E; rewrite E1 in E; injection E as -> <-; by eapply spend_more|].
  intros [n k] s2 E. rewrite E1 in E. injection E as -> <-. destruct Hg as [G1 G2 G3 G4 G5].
  assert (0 <= credit (m_run s1)) as H1 by (unfold credit; destruct (_ && _); lia).
  pose proof (spend_run_node c n k s1) as Hn. destruct (run_node cfg host c n k s1) as [[r|e] s3] eqn:E3.
  - apply run_node_rests in E3. pose proof (rests_credit _ _ E3). split_and!; [|by eapply rests_childless|..].
    + eapply spend_more; [eapply spend_trans; [exact G1|exact Hn]|]. rewrite G3 in *. destruct (k_async k), (k_retry k); simpl in *; lia.
    + destruct E3 as [-> _]. apply G5.
    + destruct E3 as [-> _]. apply G5.
  - eapply spend_more; [eapply spend_trans; [exact G1|by apply Hn]|]. rewrite G3 in *. destruct (k_async k), (k_retry k); simpl in *; lia.
Qed.
Lemma turns_gate fuel l (s : machine S W) :
  childless (m_run s) -> 0 <= steps s <= w_max_steps ir -> w_max_steps ir < u64_max ->
  spend (credit (m_run s)) s (turns cfg host fuel l s).2.
Proof.
  revert l s. induction fuel as [|fuel IH]; intros l s Hch Hb Hm; cbn [turns];
    (assert (spend (credit (m_run s)) s s) as Hrefl by (split; [unfold credit; destruct (_ && _); lia|lia]));
    unfold run_get, gets; unfold mbind at 1, act_bind at 1; cbn beta iota; (destruct (str_empty _); [exact Hrefl|]); [exact Hrefl|].
  pose proof (turn_gate (r_current (m_run s)) l s Hch Hb Hm) as Ht. unfold mbind, act_bind.
  destruct (turn cfg host (r_current (m_run s)) l s) as [[r|e] s1]; [|exact Ht]. destruct Ht as (P1 & Hch1 & Hb1).
  eapply spend_more; [eapply spend_trans; [exact P1|by apply IH]|]. lia.
Qed.

(** C22: the executor budget.  In a step that starts with no child run pending, the
    executor calls are at most the node visits counted plus the retries taken from
    the run's retry budget, plus one where an elapsed retry delay is due; the budget
    never grows nor goes below zero. *)
Theorem step_call_budget fuel input (s s' : machine S W) out :
  childless (m_run s) -> 0 <= r_step (m_run s) <= w_max_steps ir -> w_max_steps ir < u64_max ->
  0 <= r_retry_remaining (m_run s) -> execute_step cfg host fuel input s = (out, s') ->
  calls (m_log s') - calls (m_log s) <=
    (r_step (m_run s') - r_step (m_run s)) + (r_retry_remaining (m_run s) - r_retry_remaining (m_run s')) + credit (m_run s)
  /\ 0 <= r_retry_remaining (m_run s') <= r_retry_remaining (m_run s).
Proof.
  intros Hch Hb Hm Hr Hs. cut (spend (credit (m_run s)) s s'); [intros [H1 H2]; split; [lia|by apply H2]|].
  assert (0 <= credit (m_run s)) as H0 by (unfold credit; destruct (_ && _); lia).
  unfold execute_step, run_get, gets in Hs. unfold mbind at 1, act_bind at 1 in Hs. cbn beta iota in Hs. unfold id in Hs.
  destruct (r_completed (m_run s)).
  { pose proof (keeps_run (A:=unit) calm _ s (calm_completed false false)) as Hc. rewrite Hs in Hc.
    eapply spend_more; [by eapply quiet_spend|done]. }
  unfold mbind, act_bind in Hs. set (m := when _ _) in Hs. assert (keeps (spend 0) m /\ keeps still m) as [Hk1 Hk2].
  { subst m. split; [unfold initialize, mod_run, mod_json; solve_keeps|apply still_initialize]. }
  specialize (Hk1 s). specialize (Hk2 s). destruct (m s) as [[[]|e] s1].
  - apply still_rests in Hk2. pose proof (rests_credit _ _ Hk2) as Hc1. pose proof (rests_childless _ _ Hk2 Hch) as Hch1.
    destruct Hk2 as [St _]. pose proof (turns_gate fuel (ok_result (JObject [])) s1 Hch1) as Ht. rewrite St, Hs in Ht.
    eapply spend_more; [eapply spend_trans; [exact Hk1|by apply Ht]|lia].
  - injection Hs as _ <-. eapply spend_more; [by apply Hk1|done].
Qed.
End Budget.
