(* ===== verification/Restore.v ===== *)
(** * Recovery (src/dage.cpp: Engine::create_run, create_replay_run, restore_run, Run::snapshot)

    A run is rebuilt from the checkpoint another process saved: the checkpoint's
    format, workflow and bundle are checked, the stored record is claimed under the
    checkpoint's version, and nodes that were running become pending again where
    their replay policy allows it.  [restore_run] acts on a machine whose run is
    the one under construction. *)

From S2P Require Import Prelude Json Expr Sha256 Ir Reliability Workflow Trace RunState RunStep RunCalm RunEffects.
Open Scope string_scope.
Open Scope list_scope.
Open Scope Z_scope.

Section Restore.
Context {J : JsonLib} {S : Type} `{StateStore S} {W : Type} (cfg : RunConfig) (host : Host W).
Abbreviation M A := (act exit (machine S W) A).
Let ir := c_workflow cfg.

(** [v[k].asT()] *)
Definition read_at {A} (conv : json -> exc A) (k : string) (v : json) : exc A := x ← jget k v; conv x.

(** ** The checkpoint's fields *)
Definition run_mode_of (mode : string) : RunMode :=
  if String.eqb mode "replay" then Replay else if String.eqb mode "shadow" then Shadow else Normal.
Definition trace_capture_of (capture : string) : TraceCapture :=
  if String.eqb capture "off" then CaptureOff
  else if String.eqb capture "inputs" then CaptureInputs
  else if String.eqb capture "full" then CaptureFull else CaptureMetadata.
Definition node_status_of (status : string) : NodeStatus :=
  if String.eqb status "running" then Running
  else if String.eqb status "succeeded" then Succeeded
  else if String.eqb status "failed" then Failed
  else if String.eqb status "suspended" then Suspended
  else if String.eqb status "skipped" then Skipped
  else if String.eqb status "blocked" then Blocked else Pending.

(** [for(name:v.getMemberNames()) m[name]=f(v[name])] *)
Fixpoint read_names {A} (f : json -> exc A) (v : json) (names : list string) (m : list (string * A))
    : exc (list (string * A)) :=
  match names with
  | [] => Ok m
  | name :: rest => x ← read_at f name v; read_names f v rest (om_set name x m)
  end.
Definition read_members {A} (f : json -> exc A) (k : string) (cp : json) (m : list (string * A))
    : exc (list (string * A)) :=
  v ← jget k cp; names ← jmembers v; read_names f v names m.

Definition check_format (bundle_digest : string) (cp : json) : exc unit :=
  format ← get_string "format" "" cp;
  supported ← (if negb (String.eqb format "dage-checkpoint") then Ok false else
               version ← get_string "format_version" "" cp; Ok (String.eqb version "0.2.0"));
  if negb (supported : bool) then Err (RuntimeError "unsupported checkpoint format") else
  digest ← get_string "workflow_digest" "" cp;
  if negb (String.eqb digest (w_digest ir)) then
    Err (RuntimeError ("checkpoint workflow mismatch: checkpoint=" +:+ digest +:+ ", workflow=" +:+ w_digest ir))
  else
  bundle ← get_string "bundle_digest" "" cp;
  if negb (String.eqb bundle bundle_digest) then Err (RuntimeError "checkpoint bundle mismatch") else Ok tt.

Definition restore_options (cp : json) : exc RunOptions :=
  mode ← get_string "run_mode" "normal" cp;
  allow_external_writes ← get_bool "allow_external_writes" true cp;
  allow_irreversible ← get_bool "allow_irreversible" false cp;
  deadline_ms ← get_uint64 "deadline_ms" 0 cp;
  retry_budget ← get_uint "retry_budget_remaining" 0 cp;
  capture ← get_string "trace_capture" "metadata" cp;
  components ← read_members jl_as_string "component_identities" cp [];
  limits ← jget "resource_limits" cp;
  max_output_bytes ← get_uint64 "max_output_bytes" (16 * 1024 * 1024) limits;
  max_state_bytes ← get_uint64 "max_state_bytes" (32 * 1024 * 1024) limits;
  max_events ← get_uint64 "max_events" 100000 limits;
  max_in_flight_tasks ← get_uint "max_in_flight_tasks" 64 limits;
  retention ← get_string "child_record_retention" "delete_on_parent_commit" cp;
  Ok (mkOptions (run_mode_of mode) allow_external_writes allow_irreversible deadline_ms retry_budget
        max_output_bytes max_state_bytes max_events max_in_flight_tasks (trace_capture_of capture)
        (if String.eqb retention "keep" then Keep else DeleteOnParentCommit) components).

Definition restore_fields (cp : json) (now : Z) (x : RunImpl) : exc RunImpl :=
  current ← read_at jl_as_string "current" cp;
  workflow_input ← jget "workflow_input" cp;
  outputs ← jget "outputs" cp;
  state ← jget "state" cp;
  error ← jget "error" cp;
  run ← jget "run" cp;
  step ← read_at jl_as_uint64 "step" cp;
  elapsed_ms ← read_at jl_as_uint64 "elapsed_ms" cp;
  suspended ← read_at jl_as_bool "suspended" cp;
  completed ← read_at jl_as_bool "completed" cp;
  event_sequence ← get_uint64 "event_sequence" 0 cp;
  state_version ← get_uint64 "state_version" 0 cp;
  trace ← jget "trace" cp;
  trace_id ← get_string "trace_id" "" trace;
  last_span_id ← get_string "last_span_id" "" trace;
  invocation_id ← get_string "invocation_id" "root" trace;
  current_span_id ← get_string "current_span_id" "" trace;
  parent_span_id ← get_string "parent_span_id" "" trace;
  causation_id ← get_string "causation_id" "" trace;
  Ok (x <| r_current := current |> <| r_workflow_input := workflow_input |> <| r_outputs := outputs |>
        <| r_state := state |> <| r_error := error |> <| r_run := run |> <| r_step := step |>
        <| r_elapsed_ms := elapsed_ms |> <| r_is_suspended := suspended |> <| r_completed := completed |>
        <| r_initialized := true |> <| r_started := now |> <| r_event_sequence := event_sequence |>
        <| r_store_version := state_version |>
        <| r_trace := mkIds trace_id current_span_id parent_span_id last_span_id causation_id invocation_id |>).

(** ** The claim of the stored record *)
Definition provider_failure (e : Error) : exn := RuntimeError (err_code e +:+ ": " +:+ err_message e).

Definition claim_run (cp : json) : M unit :=
  run ← try_ (jget "run" cp);
  named ← (if c_store cfg then try_ (jmember "id" run) else mret false);
  when named (
    run_id ← try_ (read_at jl_as_string "id" run);
    m ← get_state;
    let '(existing, s) := store_load run_id (m_store m) in
    put_store s;;
    match existing with
    | Ok _ =>
      n ← ask (h_recovery_owner host);
      let owner := "recovery-" +:+ to_string n in
      state_version ← try_ (get_uint64 "state_version" 0 cp);
      m ← get_state;
      let '(claimed, s) := store_claim run_id state_version owner (m_store m) in
      put_store s;;
      match claimed with
      | Err e => leave (Throw (provider_failure e))
      | Ok record =>
        run_mod (fun x => x <| r_store_version := sr_version record |>);;
        mod_run (jset "recovery_owner" (JString owner));;
        mod_run (jset "recovery_epoch" (JUInt (sr_epoch record)))
      end
    | Err e => when (negb (String.eqb (err_code e) "STATE_NOT_FOUND")) (leave (Throw (provider_failure e)))
    end).

(** ** Nodes that were running *)
Definition resumable (node : string) : bool :=
  match find_node ir node with
  | None => false
  | Some n => match n_replay n with AtMostOnce | Manual | Forbidden => false | _ => true end
  end.
Fixpoint requeue (statuses : list (string * NodeStatus)) : exc (list (string * NodeStatus)) :=
  match statuses with
  | [] => Ok []
  | (node, status) :: rest =>
    status' ← (if bool_decide (status = Running) then
                 if resumable node then Ok Pending
                 else Err (RuntimeError ("checkpoint contains an in-flight node that cannot be safely resumed: " +:+ node))
               else Ok status);
    rest' ← requeue rest;
    Ok ((node, status') :: rest')
  end.

(** ** Engine::restore_run *)
Definition finish_restore (cp : json) : M unit :=
  statuses ← run_get r_node_status;
  statuses ← try_ (read_members (fun v => node_status_of <$> jl_as_string v) "node_status" cp statuses);
  statuses ← try_ (requeue statuses);
  run_mod (fun x => x <| r_node_status := statuses |>);;
  hits ← try_ (read_members jl_as_int "hits" cp []);
  loops ← try_ (read_members jl_as_int "loops" cp []);
  run_mod (fun x => x <| r_hits := hits |> <| r_loops := loops |>);;
  bump;;
  checkpoint_sequence ← try_ (jget_or "event_sequence" (JInt 0) cp);
  run ← run_get r_run;
  owner ← try_ (jget_or "recovery_owner" (JString "") run);
  epoch ← try_ (jget_or "recovery_epoch" (JInt 0) run);
  let payload := obj [("checkpoint_sequence", checkpoint_sequence); ("recovery_owner", owner);
                      ("recovery_epoch", epoch)] in
  run_mod (fun x => x <| r_trace := (r_trace x) <| t_causation_id := t_last_span_id (r_trace x) |> |>);;
  x ← run_get id;
  emit cfg host "run_restored" (r_current x) 0 None (write_json payload false) CaptureMetadata.

Definition restore_run (bundle_digest checkpoint_json : string) : M unit :=
  cp ← try_ (parse_json checkpoint_json);
  try_ (check_format bundle_digest cp);;
  options ← try_ (restore_options cp);
  run_mod (fun _ => new_run ir options bundle_digest);;
  now ← ask (h_steady_ms host);
  x ← run_get id;
  x ← try_ (restore_fields cp now x);
  run_mod (fun _ => x);;
  claim_run cp;;
  finish_restore cp.

(** ** Engine::create_replay_run *)
Record TraceReplayOutcome := mkReplayOutcome {
  tr_invocation_id : string; tr_node_id : string; tr_attempt : Z; tr_result : ExecutionResult
}.
Record TraceReplayPlan := mkReplayPlan {
  rp_source_run_id : string; rp_trace_id : string; rp_workflow_digest : string; rp_bundle_digest : string;
  rp_workflow_input : json; rp_executor_outcomes : list TraceReplayOutcome; rp_expected_result : ExecutionResult
}.
Definition add_outcome (m : list (string * list ExecutionResult)) (o : TraceReplayOutcome) :
    list (string * list ExecutionResult) :=
  let key := tr_invocation_id o +:+ nl +:+ tr_node_id o in
  om_set key (default [] (om_get key m) ++ [tr_result o]) m.
Definition create_replay_run (bundle_digest : string) (plan : TraceReplayPlan) : exc RunImpl :=
  if negb (String.eqb (rp_workflow_digest plan) (w_digest ir)) then
    Err (InvalidArgument "replay Workflow digest mismatch")
  else if negb (String.eqb (rp_bundle_digest plan) bundle_digest) then
    Err (InvalidArgument "replay Bundle digest mismatch")
  else
  let options := default_options <| o_mode := Replay |> <| o_allow_external_writes := false |>
    <| o_allow_irreversible := false |> <| o_trace_capture := CaptureMetadata |> in
  Ok ((new_run ir options bundle_digest)
      <| r_deterministic_replay := true |>
      <| r_replay_outcomes := foldl add_outcome [] (rp_executor_outcomes plan) |>).

(** ** Run::snapshot *)
Definition snapshot (r : RunImpl) : exc json :=
  run_id ← jget_or "id" (JString "") (r_run r);
  copy_value (obj [
    ("run_id", run_id); ("mode", JString (run_mode_name (o_mode (r_options r))));
    ("current_node", JString (r_current r)); ("step", JUInt (r_step r));
    ("event_sequence", JUInt (r_event_sequence r)); ("suspended", JBool (r_is_suspended r));
    ("completed", JBool (r_completed r)); ("cancelled", JBool (r_cancelled r));
    ("workflow_digest", JString (w_digest ir)); ("bundle_digest", JString (r_bundle_digest r));
    ("retry_budget_remaining", JUInt (r_retry_remaining r));
    ("nodes", obj (prod_map id (fun s => JString (node_status_name s)) <$> r_node_status r))]).
End Restore.

(** ** Reading back what a checkpoint says *)
Section ReadBack.
Context {J : JsonLib} {L : JsonLaws J}.

Definition member (k : string) (v : json) : option json := match v with JObject m => om_get k m | _ => None end.

Lemma om_get_canon k m : om_get k (prod_map id canon <$> m) = canon <$> om_get k m.
Proof. induction m as [|[k' v] m IH]; simpl; [done|]. by destruct (String.eqb k k'). Qed.
Lemma member_canon k v x : member k v = Some x -> member k (canon v) = Some (canon x).
Proof. destruct v; simpl; try done. intros E. by rewrite om_get_canon, E. Qed.
Lemma jget_canon k v x : member k v = Some x -> jget k (canon v) = Ok (canon x).
Proof. intros E%member_canon. destruct (canon v); try done. simpl in *. by rewrite E. Qed.
Lemma jget_or_canon k d v x : member k v = Some x -> jget_or k d (canon v) = Ok (canon x).
Proof. intros E%member_canon. destruct (canon v); try done. simpl in *. by rewrite E. Qed.

Lemma as_uint64_canon z : is_u64 z -> jl_as_uint64 (canon (JUInt z)) = Ok z.
Proof.
  intros Hz. simpl. destruct (z <? 2 ^ 63); [apply jl_as_uint64_int|apply jl_as_uint64_uint];
    unfold is_u64, u64_max in *; lia.
Qed.
Lemma as_uint_canon z : 0 <= z <= u32_max -> jl_as_uint (canon (JUInt z)) = Ok z.
Proof. intros Hz. simpl. destruct (z <? 2 ^ 63); [by apply jl_as_uint_int|by apply jl_as_uint_uint]. Qed.

Lemma get_string_canon k d v s : member k v = Some (JString s) -> get_string k d (canon v) = Ok s.
Proof. intros E. unfold get_string. erewrite jget_or_canon by done. apply jl_as_string_string. Qed.
Lemma get_bool_canon k d v b : member k v = Some (JBool b) -> get_bool k d (canon v) = Ok b.
Proof. intros E. unfold get_bool. erewrite jget_or_canon by done. apply jl_as_bool_bool. Qed.
Lemma get_uint64_canon k d v z : member k v = Some (JUInt z) -> is_u64 z -> get_uint64 k d (canon v) = Ok z.
Proof. intros E Hz. unfold get_uint64. erewrite jget_or_canon by done. by apply as_uint64_canon. Qed.
Lemma get_uint_canon k d v z : member k v = Some (JUInt z) -> 0 <= z <= u32_max -> get_uint k d (canon v) = Ok z.
Proof. intros E Hz. unfold get_uint. erewrite jget_or_canon by done. by apply as_uint_canon. Qed.
Lemma read_string_canon k v s : member k v = Some (JString s) -> read_at jl_as_string k (canon v) = Ok s.
Proof. intros E. unfold read_at. erewrite jget_canon by done. apply jl_as_string_string. Qed.
Lemma read_bool_canon k v b : member k v = Some (JBool b) -> read_at jl_as_bool k (canon v) = Ok b.
Proof. intros E. unfold read_at. erewrite jget_canon by done. apply jl_as_bool_bool. Qed.
Lemma read_uint64_canon k v z : member k v = Some (JUInt z) -> is_u64 z -> read_at jl_as_uint64 k (canon v) = Ok z.
Proof. intros E Hz. unfold read_at. erewrite jget_canon by done. by apply as_uint64_canon. Qed.

Lemma sorted_map {A B} (f : A -> B) m : om_sorted m -> om_sorted (prod_map id f <$> m).
Proof. unfold om_sorted. by rewrite <- list_fmap_compose. Qed.
Lemma obj_sorted m : om_sorted m -> obj m = JObject m.
Proof. intros Hm. unfold obj. by rewrite om_sets_self. Qed.

Lemma member_obj k l : NoDup l.*1 -> member k (obj l) = om_get k l.
Proof. intros Hl. unfold obj. simpl. rewrite om_sets_get by done. by destruct (om_get k l). Qed.

(** A map saved entry by entry is read back over the map it is read into. *)
Lemma read_names_ok {A} (f : json -> exc A) (g : A -> json) l :
  Forall (fun p => f (canon (g p.2)) = Ok p.2) l -> om_sorted l -> forall all m,
  (forall k x, om_get k l = Some x -> om_get k all = Some x) ->
  read_names f (JObject (prod_map id (canon ∘ g) <$> all)) l.*1 m = Ok (foldl (fun m p => om_set p.1 p.2 m) m l).
Proof.
  unfold om_sorted. induction 1 as [|[k x] l Hf _ IH]; simpl; intros Hs all m Ha; [done|].
  apply StronglySorted_inv in Hs as [Hs Hlt]. unfold read_at. simpl.
  assert (om_get k (prod_map id (canon ∘ g) <$> all) = Some (canon (g x))) as ->.
  { clear -Ha. specialize (Ha k x). rewrite str_eqb_refl in Ha. specialize (Ha eq_refl).
    induction all as [|[k' y] all IH]; simpl in *; [done|]. destruct (String.eqb k k'); [|by apply IH]. by injection Ha as ->. }
  simpl. simpl in Hf. rewrite Hf. simpl. apply IH; [done|]. intros k' y Hk'. apply Ha.
  destruct (String.eqb_spec k' k) as [E|]; [|done]. subst k'. exfalso.
  rewrite om_get_None in Hk'; [done|]. intros Hin. rewrite Forall_forall in Hlt.
  apply Hlt in Hin. by rewrite str_compare_refl in Hin.
Qed.
Lemma read_members_ok {A} (f : json -> exc A) (g : A -> json) k v l m :
  member k v = Some (obj (prod_map id g <$> l)) -> om_sorted l -> Forall (fun p => f (canon (g p.2)) = Ok p.2) l ->
  read_members f k (canon v) m = Ok (foldl (fun m p => om_set p.1 p.2 m) m l).
Proof.
  intros E Hs Hf. unfold read_members. erewrite jget_canon by done. rewrite obj_sorted by by apply sorted_map.
  simpl. rewrite <- !list_fmap_compose.
  replace (prod_map id canon ∘ prod_map id g <$> l) with (prod_map id (canon ∘ g) <$> l)
    by (apply list_fmap_ext; by intros ? []).
  by apply read_names_ok.
Qed.
End ReadBack.

(** ** The round trip *)
Section RoundTrip.
Context {J : JsonLib} {L : JsonLaws J} {S : Type} `{StateStore S} {W : Type} (cfg : RunConfig) (host : Host W).
Let ir := c_workflow cfg.

(** The run's fields fit their C++ types and its maps are maps. *)
Record run_ok (r : RunImpl) : Prop := {
  ok_text : text_ok jl_str_ok jl_real_ok 1000 (checkpoint (w_digest ir) r);
  ok_size : str_len (write_json (checkpoint (w_digest ir) r) true) <= 16 * 1024 * 1024;
  ok_u64 : Forall is_u64 [r_step r; r_elapsed_ms r; r_event_sequence r; r_store_version r;
    o_deadline_ms (r_options r); o_max_output_bytes (r_options r); o_max_state_bytes (r_options r);
    o_max_events (r_options r)];
  ok_u32 : Forall (fun z => 0 <= z <= u32_max) [r_retry_remaining r; o_max_in_flight_tasks (r_options r)];
  ok_components : om_sorted (o_component_identities (r_options r));
  ok_statuses : om_sorted (r_node_status r);
  ok_nodes : forall n, n ∈ w_nodes ir -> n_id n ∈ (r_node_status r).*1;
  ok_hits : om_sorted (r_hits r) /\ Forall (fun p => - 2 ^ 31 <= p.2 < 2 ^ 31) (r_hits r);
  ok_loops : om_sorted (r_loops r) /\ Forall (fun p => - 2 ^ 31 <= p.2 < 2 ^ 31) (r_loops r);
  ok_run : is_object (r_run r) = true;
  ok_id : is_ok (get_string "id" "" (canon (r_run r))) = true
}.

(** What a run is after its recovery: nothing in flight, a new token, the budget that
    was left, and the documents as their text reads. *)
Definition requeued (p : string * NodeStatus) : string * NodeStatus :=
  (p.1, if bool_decide (p.2 = Running) then Pending else p.2).
Definition read_back (now : Z) (r x : RunImpl) : RunImpl :=
  x <| r_current := r_current r |> <| r_workflow_input := canon (r_workflow_input r) |>
    <| r_outputs := canon (r_outputs r) |> <| r_state := canon (r_state r) |>
    <| r_error := canon (r_error r) |> <| r_run := canon (r_run r) |> <| r_step := r_step r |>
    <| r_elapsed_ms := r_elapsed_ms r |> <| r_is_suspended := r_is_suspended r |>
    <| r_completed := r_completed r |> <| r_initialized := true |> <| r_started := now |>
    <| r_event_sequence := r_event_sequence r |> <| r_store_version := r_store_version r |> <| r_trace := r_trace r |>.
Definition recovered (now : Z) (r : RunImpl) : RunImpl :=
  (read_back now r (new_run ir ((r_options r) <| o_retry_budget := r_retry_remaining r |>) (r_bundle_digest r)))
    <| r_node_status := requeued <$> r_node_status r |>
    <| r_hits := r_hits r |> <| r_loops := r_loops r |> <| r_event_sequence := u64 (r_event_sequence r + 1) |>
    <| r_trace := (r_trace r) <| t_causation_id := t_last_span_id (r_trace r) |> |>.

Ltac checkpoint_member :=
  unfold checkpoint; rewrite member_obj by (apply (bool_decide_unpack _); vm_compute; exact I); reflexivity.

Section Fields.
Context (r : RunImpl) (Hr : run_ok r).
Abbreviation cp := (canon (checkpoint (w_digest ir) r)).

Lemma read_checkpoint : parse_json (write_json (checkpoint (w_digest ir) r) true) = Ok cp.
Proof.
  unfold parse_json, write_json. destruct (Z.ltb_spec (16 * 1024 * 1024) (str_len (jl_write true (checkpoint (w_digest ir) r)))).
  - pose proof (ok_size r Hr). unfold write_json in *. lia.
  - by rewrite jl_parse_write by apply (ok_text r Hr).
Qed.
Lemma read_format : check_format cfg (r_bundle_digest r) cp = Ok tt.
Proof.
  unfold check_format. erewrite get_string_canon by reflexivity. cbn.
  erewrite get_string_canon by reflexivity. cbn. erewrite get_string_canon by reflexivity. cbn.
  fold ir. rewrite str_eqb_refl. cbn. erewrite get_string_canon by reflexivity. cbn. by rewrite str_eqb_refl.
Qed.
Lemma run_mode_back m : run_mode_of (run_mode_name m) = m.
Proof. by destruct m. Qed.
Lemma capture_back c : trace_capture_of (trace_capture_name c) = c.
Proof. by destruct c. Qed.
Lemma status_back s : node_status_of (node_status_name s) = s.
Proof. by destruct s. Qed.
Ltac bounds :=
  pose proof (ok_u64 r Hr) as Hu; pose proof (ok_u32 r Hr) as Hv;
  repeat match goal with X : Forall _ (_ :: _) |- _ => apply Forall_cons in X as [? X] end.
Ltac read_fields := repeat (first
  [ erewrite get_string_canon by reflexivity | erewrite get_bool_canon by reflexivity
  | erewrite get_uint64_canon by (reflexivity || eassumption) | erewrite get_uint_canon by (reflexivity || eassumption)
  | erewrite read_string_canon by reflexivity | erewrite read_bool_canon by reflexivity
  | erewrite read_uint64_canon by (reflexivity || eassumption) | erewrite jget_canon by reflexivity ];
  cbn [mbind res_bind]).
Lemma read_options : restore_options cp = Ok ((r_options r) <| o_retry_budget := r_retry_remaining r |>).
Proof.
  bounds. unfold restore_options. read_fields.
  rewrite (read_members_ok jl_as_string JString _ _ (o_component_identities (r_options r)));
    [|checkpoint_member|apply (ok_components r Hr)|apply Forall_true; intros; apply jl_as_string_string].
  cbn [mbind res_bind]. read_fields. rewrite run_mode_back, capture_back, om_sets_self by apply (ok_components r Hr).
  unfold upd. by destruct (r_options r) as [? ? ? ? ? ? ? ? ? ? [] ?].
Qed.
Lemma read_run now x : restore_fields cp now x = Ok (read_back now r x).
Proof. bounds. unfold restore_fields, read_back. read_fields. by destruct (r_trace r). Qed.
Lemma read_statuses m :
  om_sorted m -> (forall k, k ∈ m.*1 -> k ∈ (r_node_status r).*1) ->
  read_members (fun v => node_status_of <$> jl_as_string v) "node_status" cp m = Ok (r_node_status r).
Proof.
  intros Hm Hk. rewrite (read_members_ok _ (fun s => JString (node_status_name s)) _ _ (r_node_status r));
    [|checkpoint_member|apply (ok_statuses r Hr)|].
  - by rewrite om_sets_over by (apply (ok_statuses r Hr) || done).
  - apply Forall_true. intros [k v]. simpl. rewrite jl_as_string_string. simpl. by rewrite status_back.
Qed.
Lemma read_counts k l :
  member k (checkpoint (w_digest ir) r) = Some (obj (prod_map id JInt <$> l)) ->
  om_sorted l /\ Forall (fun p => - 2 ^ 31 <= p.2 < 2 ^ 31) l -> read_members jl_as_int k cp [] = Ok l.
Proof.
  intros E [Hs Hb]. rewrite (read_members_ok _ JInt _ _ l); [|done..|].
  2: { eapply Forall_impl; [done|]. intros. by apply jl_as_int_int. }
  by rewrite om_sets_self.
Qed.
End Fields.

Lemma requeue_ok l :
  (forall node, (node, Running) ∈ l -> resumable cfg node = true) -> requeue cfg l = Ok (requeued <$> l).
Proof.
  induction l as [|[node status] l IH]; intros Hl; simpl; [done|]. unfold requeued at 1. simpl.
  rewrite IH by (intros n Hn; apply Hl; set_solver).
  case_bool_decide as E; [|done]. subst. by rewrite Hl by set_solver.
Qed.
Lemma new_statuses_sorted o b : om_sorted (r_node_status (new_run ir o b)).
Proof.
  unfold new_run. simpl. generalize (w_nodes ir). assert (om_sorted (A := NodeStatus) []) as Hn by constructor.
  revert Hn. generalize (@nil (string * NodeStatus)). intros m Hm l. revert m Hm.
  induction l as [|n l IH]; intros m Hm; simpl; [done|]. by apply IH, om_set_sorted.
Qed.
Lemma new_statuses_keys o b k : k ∈ (r_node_status (new_run ir o b)).*1 -> exists n, n ∈ w_nodes ir /\ n_id n = k.
Proof.
  unfold new_run. simpl. assert (forall l (m : list (string * NodeStatus)),
    k ∈ (foldl (fun m n => om_set (n_id n) Pending m) m l).*1 -> k ∈ m.*1 \/ exists n, n ∈ l /\ n_id n = k) as G.
  { induction l as [|n l IH]; intros m Hk; simpl in *; [by left|]. apply IH in Hk as [Hk|(n' & Hn & E)]; [|set_solver].
    apply om_set_keys in Hk as [->|Hk]; [|by left]. right. exists n. set_solver. }
  intros Hk. apply G in Hk as [Hk|Hk]; [set_solver|done].
Qed.

(** A restored run reports itself; the report leaves the run alone. *)
Lemma emit_id name node payload level (s : machine S W) :
  is_ok (get_string "id" "" (r_run (m_run s))) = true ->
  exists s', emit cfg host name node 0 None payload level s = (Ok tt, s')
    /\ m_run s' = m_run s /\ m_store s' = m_store s.
Proof.
  intros Hid. unfold emit, run_get, gets, id, mbind, act_bind, note, modify, when, current_elapsed, run_get, gets, ask.
  destruct (c_events cfg); cbn -[get_string]; (destruct (_ || _); [by eexists|]);
    unfold try_, lift; cbn -[get_string]; (destruct (get_string _ _ _) as [i|]; [|done]);
    destruct (h_unix_ms host _); cbn; (destruct (r_initialized _); [|by eexists]);
    unfold mbind, act_bind; cbn; destruct (h_steady_ms host _); cbn; by eexists.
Qed.

Lemma bind_Ok_act {A B} (m : act exit (machine S W) A) (f : A -> act exit (machine S W) B) s a s1 :
  m s = (Ok a, s1) -> (m ≫= f) s = f a s1.
Proof. intros E. unfold mbind, act_bind. by rewrite E. Qed.
Lemma try_Ok {A} (m : exc A) a (s : machine S W) : m = Ok a -> try_ m s = (Ok a, s).
Proof. by intros ->. Qed.

Lemma finish_restore_ok r (s : machine S W) :
  run_ok r -> (forall node, (node, Running) ∈ r_node_status r -> resumable cfg node = true) ->
  om_sorted (r_node_status (m_run s)) ->
  (forall k, k ∈ (r_node_status (m_run s)).*1 -> k ∈ (r_node_status r).*1) ->
  is_object (r_run (m_run s)) = true -> is_ok (get_string "id" "" (r_run (m_run s))) = true ->
  exists s', finish_restore cfg host (canon (checkpoint (w_digest ir) r)) s = (Ok tt, s')
    /\ m_store s' = m_store s /\ m_run s' = (m_run s) <| r_node_status := requeued <$> r_node_status r |>
      <| r_hits := r_hits r |> <| r_loops := r_loops r |> <| r_event_sequence := u64 (r_event_sequence (m_run s) + 1) |>
      <| r_trace := (r_trace (m_run s)) <| t_causation_id := t_last_span_id (r_trace (m_run s)) |> |>.
Proof.
  intros Hr Hrun Hs Hk Ho Hid. unfold finish_restore. erewrite (bind_Ok_act (run_get _)) by reflexivity.
  rewrite (bind_Ok_act _ _ _ _ _ (try_Ok _ _ _ (read_statuses r Hr _ Hs Hk))).
  rewrite (bind_Ok_act _ _ _ _ _ (try_Ok _ _ _ (requeue_ok _ Hrun))).
  erewrite (bind_Ok_act (run_mod _)) by reflexivity.
  rewrite (bind_Ok_act _ _ _ _ _ (try_Ok _ _ _ (read_counts r "hits" (r_hits r) ltac:(checkpoint_member) (ok_hits r Hr)))).
  rewrite (bind_Ok_act _ _ _ _ _ (try_Ok _ _ _ (read_counts r "loops" (r_loops r) ltac:(checkpoint_member) (ok_loops r Hr)))).
  erewrite (bind_Ok_act (run_mod _)) by reflexivity. erewrite (bind_Ok_act bump) by reflexivity.
  erewrite (bind_Ok_act (try_ _)) by (apply try_Ok, jget_or_canon; reflexivity).
  erewrite (bind_Ok_act (run_get _)) by reflexivity. simpl r_run.
  destruct (r_run (m_run s)) as [| | | | | | |m] eqn:E; try done.
  do 2 (erewrite (bind_Ok_act (try_ _)) by reflexivity).
  erewrite (bind_Ok_act (run_mod _)) by reflexivity. erewrite (bind_Ok_act (run_get _)) by reflexivity.
  match goal with |- context [emit _ _ ?n ?c _ _ ?p ?l ?t] => destruct (emit_id n c p l t) as (s' & -> & Er & Es) end.
  - simpl. by rewrite E.
  - exists s'. by rewrite Er, Es.
Qed.

(** C11: without a store, restoring the checkpoint of a run succeeds and gives back the
    run itself, at the same node, step and version, with its outputs, state, counters
    and remaining retry budget, the documents as their text reads; running nodes are
    pending again.  The run is one whose checkpoint fits the 16 MiB a text may have and
    is written as a text the JSON library reads back, whose fields fit their types, and
    whose nodes in flight may all be run again. *)
Theorem restore_roundtrip (r : RunImpl) (s : machine S W) :
  c_store cfg = false -> run_ok r ->
  (forall node, (node, Running) ∈ r_node_status r -> resumable cfg node = true) ->
  exists s', restore_run cfg host (r_bundle_digest r) (write_json (checkpoint (w_digest ir) r) true) s = (Ok tt, s')
    /\ m_run s' = recovered (h_steady_ms host (m_world s)).1 r.
Proof.
  intros Hst Hr Hrun. unfold restore_run.
  rewrite (bind_Ok_act _ _ _ _ _ (try_Ok _ _ _ (read_checkpoint r Hr))).
  rewrite (bind_Ok_act _ _ _ _ _ (try_Ok _ _ _ (read_format r))).
  rewrite (bind_Ok_act _ _ _ _ _ (try_Ok _ _ _ (read_options r Hr))).
  erewrite (bind_Ok_act (run_mod _)) by reflexivity.
  assert (forall x : machine S W, ask (h_steady_ms host) x
    = (Ok (h_steady_ms host (m_world x)).1, x <| m_world := (h_steady_ms host (m_world x)).2 |>)) as Hask.
  { intros x. unfold ask. by destruct (h_steady_ms host (m_world x)). }
  rewrite (bind_Ok_act _ _ _ _ _ (Hask _)). simpl m_world. generalize (h_steady_ms host (m_world s)). intros [now w].
  erewrite (bind_Ok_act (run_get _)) by reflexivity. unfold id at 1. simpl m_run.
  rewrite (bind_Ok_act _ _ _ _ _ (try_Ok _ _ _ (read_run r Hr _ _))).
  erewrite (bind_Ok_act (run_mod _)) by reflexivity.
  assert (forall t : machine S W, claim_run cfg host (canon (checkpoint (w_digest ir) r)) t = (Ok tt, t)) as Hclaim.
  { intros t. unfold claim_run. erewrite (bind_Ok_act (try_ _)) by (apply try_Ok, jget_canon; reflexivity).
    rewrite Hst. by erewrite (bind_Ok_act (mret _)) by reflexivity. }
  rewrite (bind_Ok_act _ _ _ _ _ (Hclaim _)).
  match goal with |- exists s', finish_restore _ _ _ ?t = _ /\ _ => edestruct (finish_restore_ok r t) as (s' & -> & _ & Er) end;
    [done|done|exact (new_statuses_sorted default_options "")| | | |exists s'; split; [done|exact Er]].
  - intros k Hk. destruct (new_statuses_keys default_options "" k Hk) as (n & Hn & <-). by apply (ok_nodes r Hr).
  - pose proof (ok_run r Hr) as Ho. simpl. revert Ho. by destruct (r_run r).
  - apply (ok_id r Hr).
Qed.
End RoundTrip.

(** ** Claims and safety *)
Section Claims.
Context {J : JsonLib} {S : Type} `{StateStoreLaws S} {W : Type} (cfg : RunConfig) (host : Host W).
Abbreviation M A := (act exit (machine S W) A).
Let ir := c_workflow cfg.

(** What the last part of a recovery leaves alone. *)
Definition settled (s s' : machine S W) : Prop :=
  m_store s' = m_store s /\ r_store_version (m_run s') = r_store_version (m_run s)
  /\ r_run (m_run s') = r_run (m_run s).
#[local] Instance settled_preorder : PreOrder settled.
Proof. split; [done|]. intros x y z (? & ? & ?) (? & ? & ?). split_and!; congruence. Qed.
Lemma settled_ask {A} (f : W -> A * W) : keeps settled (ask f : M A).
Proof. intros s. unfold ask. by destruct (f (m_world s)). Qed.
#[local] Hint Resolve settled_ask : keeps.
#[local] Hint Extern 1 (keeps_on _ settled (run_mod _)) => (by apply keeps_modify) : keeps.
#[local] Hint Extern 1 (keeps_on _ settled (note _)) => (by apply keeps_modify) : keeps.
#[local] Hint Extern 1 (keeps_on _ settled bump) => (by apply keeps_modify) : keeps.
Lemma settled_emit n c a r p l : keeps settled (emit cfg host n c a r p l : M unit).
Proof. unfold emit, current_elapsed. solve_keeps. by apply keeps_modify. Qed.
#[local] Hint Resolve settled_emit : keeps.
Lemma settled_finish cp : keeps settled (finish_restore cfg host cp : M unit).
Proof. unfold finish_restore. solve_keeps. Qed.

Lemma try_inv {A} (m : exc A) (s : machine S W) a s' : try_ m s = (Ok a, s') -> m = Ok a /\ s' = s.
Proof. unfold try_, lift. destruct m; [|done]. by intros [= <- <-]. Qed.

(** The parts of a recovery that succeeded. *)
Lemma restore_inv bundle text (s s' : machine S W) :
  restore_run cfg host bundle text s = (Ok tt, s') ->
  exists cp s1 s2, parse_json text = Ok cp /\ check_format cfg bundle cp = Ok tt /\ m_store s1 = m_store s
    /\ claim_run cfg host cp s1 = (Ok tt, s2) /\ finish_restore cfg host cp s2 = (Ok tt, s').
Proof.
  unfold restore_run. intros Hs. apply bind_inv in Hs as (cp & s0 & [Hp ->]%try_inv & Hs).
  apply bind_inv in Hs as ([] & s0 & [Hf ->]%try_inv & Hs).
  apply bind_inv in Hs as (o & s0 & [_ ->]%try_inv & Hs).
  apply bind_inv in Hs as ([] & s0 & E & Hs). injection E as <-.
  apply bind_inv in Hs as (now & s0 & E & Hs). unfold ask in E. destruct (h_steady_ms _ _). injection E as <- <-.
  apply bind_inv in Hs as (x & s0 & E & Hs). injection E as <- <-.
  apply bind_inv in Hs as (x' & s0 & [_ ->]%try_inv & Hs).
  apply bind_inv in Hs as ([] & s0 & E & Hs). injection E as <-.
  apply bind_inv in Hs as ([] & s1 & Hc & Hs).
  eexists cp, _, s1. do 2 (split; [done|]). split; [|split; [exact Hc|done]]. done.
Qed.

Lemma mod_run_inv g (s s' : machine S W) u :
  mod_run g s = (Ok u, s') -> m_store s' = m_store s /\ r_store_version (m_run s') = r_store_version (m_run s).
Proof.
  unfold mod_run, mod_json, run_get, gets, mbind, act_bind, try_, lift. destruct (g _); [|done]. by intros [= _ <-].
Qed.

(** A claim succeeds only under the version the record has, and moves it on. *)
Lemma claim_inv cp run run_id (s s' : machine S W) :
  c_store cfg = true -> jget "run" cp = Ok run -> jmember "id" run = Ok true ->
  read_at jl_as_string "id" run = Ok run_id -> ss_content (m_store s) run_id <> empty_record ->
  claim_run cfg host cp s = (Ok tt, s') ->
  exists v owner, owner <> "" /\ get_uint64 "state_version" 0 cp = Ok v /\ sr_version (ss_content (m_store s) run_id) = v
    /\ ss_content (m_store s') run_id = claim_record (ss_content (m_store s) run_id) owner
    /\ r_store_version (m_run s') = u64 (v + 1).
Proof.
  intros Hst Hrun Hid Hri Hne. unfold claim_run. intros Hs.
  apply bind_inv in Hs as (? & s0 & [E ->]%try_inv & Hs). rewrite Hrun in E. injection E as <-.
  apply bind_inv in Hs as (? & s0 & E & Hs). rewrite Hst in E. apply try_inv in E as [E ->].
  rewrite Hid in E. injection E as <-. cbn [when] in Hs.
  apply bind_inv in Hs as (? & s0 & [E ->]%try_inv & Hs). rewrite Hri in E. injection E as <-.
  apply bind_inv in Hs as (m & s0 & E & Hs). injection E as <- <-.
  unfold store_load in Hs. destruct (ss_load run_id (m_store s)) as [ld st] eqn:El. cbv beta iota zeta in Hs.
  apply bind_inv in Hs as ([] & s1 & E & Hs). injection E as <-. cbn [call_state_provider] in Hs.
  destruct ld as [rec|e].
  2: { destruct (String.eqb_spec (err_code e) "STATE_NOT_FOUND") as [Hc|]; [|done]. by eapply ss_load_missing in El. }
  apply ss_load_ok in El as [_ El].
  apply bind_inv in Hs as (n & s1 & E & Hs). unfold ask in E. destruct (h_recovery_owner _ _). injection E as <- <-.
  apply bind_inv in Hs as (v & s1 & [Hv ->]%try_inv & Hs).
  apply bind_inv in Hs as (m & s1 & E & Hs). injection E as <- <-. cbn [m_store] in Hs.
  unfold store_claim in Hs. destruct (ss_claim _ _ _ _) as [cl st'] eqn:Ec. cbv beta iota zeta in Hs.
  apply bind_inv in Hs as ([] & s1 & E & Hs). injection E as <-. cbn [call_state_provider] in Hs.
  destruct cl as [rec'|e]; [|done]. destruct (negb (sr_version rec' =? u64 (v + 1))) eqn:Eb; [done|].
  destruct (negb (String.eqb (sr_owner rec') _)); [done|]. cbn [orb] in Hs. apply negb_false_iff, Z.eqb_eq in Eb.
  apply ss_claim_ok in Ec as (Ev & -> & Ec). simpl m_store in *. rewrite El in Ev, Ec, Eb.
  apply bind_inv in Hs as ([] & s1 & E & Hs). injection E as <-.
  apply bind_inv in Hs as ([] & s2 & [E1 V1]%mod_run_inv & [E2 V2]%mod_run_inv).
  exists v, ("recovery-" +:+ to_string z). split_and!; [done|done|done|by rewrite E2, E1|].
  rewrite V2, V1. simpl. by rewrite El.
Qed.

(** C12: recovery is exclusive.  Once a process restored a stored run, restoring the
    same checkpoint again fails, whatever bundle, host or machine it is tried on, as
    long as the store is the one the first recovery left. *)
Theorem restore_exclusive bundle bundle' text cp run run_id (s s1 s2 : machine S W) :
  c_store cfg = true -> parse_json text = Ok cp -> jget "run" cp = Ok run -> jmember "id" run = Ok true ->
  read_at jl_as_string "id" run = Ok run_id -> ss_content (m_store s) run_id <> empty_record ->
  restore_run cfg host bundle text s = (Ok tt, s1) -> m_store s2 = m_store s1 ->
  forall s3, restore_run cfg host bundle' text s2 <> (Ok tt, s3).
Proof.
  intros Hst Hp Hr Hm Hid Hne H1 E12 s3 H2.
  apply restore_inv in H1 as (cp1 & t1 & t2 & Hp1 & _ & Et & Hc & Hf). rewrite Hp in Hp1. injection Hp1 as <-.
  apply restore_inv in H2 as (cp2 & u1 & u2 & Hp2 & _ & Eu & Hc2 & _). rewrite Hp in Hp2. injection Hp2 as <-.
  pose proof (settled_finish cp t2) as Hk. rewrite Hf in Hk. destruct Hk as [Es _].
  rewrite <- Et in Hne. destruct (claim_inv _ _ _ _ _ Hst Hr Hm Hid Hne Hc) as (v & o & Ho & Hv & Ev & Ec & _).
  rewrite <- Es, <- E12, <- Eu in Ec.
  assert (ss_content (m_store u1) run_id <> empty_record) as Hne2 by (rewrite Ec; intros [=]; congruence).
  destruct (claim_inv _ _ _ _ _ Hst Hr Hm Hid Hne2 Hc2) as (v' & o' & _ & Hv' & Ev' & _ & _).
  rewrite Ec in Ev'. simpl in Ev'. rewrite Ev in Ev'. assert (u64 (v + 1) = v) as Eu' by congruence.
  by apply u64_succ_ne in Eu'.
Qed.

Lemma requeue_inv l l' :
  requeue cfg l = Ok l' -> forall node st, om_get node l = Some st ->
  (st = Running -> resumable cfg node = true) /\ om_get node l' <> Some Running.
Proof.
  revert l'. induction l as [|[k x] l IH]; simpl; intros l' E node st Hg; [done|].
  apply bind_Ok in E as (x' & Ex & E). apply bind_Ok in E as (rest & Er & E). injection E as <-. simpl.
  destruct (String.eqb_spec node k) as [->|]; [|by eapply IH]. injection Hg as <-.
  case_bool_decide as Hx; [|injection Ex as <-; naive_solver].
  destruct (resumable cfg k) eqn:Hk; [|done]. injection Ex as <-. done.
Qed.
Lemma requeue_get_None l l' node : requeue cfg l = Ok l' -> om_get node l = None -> om_get node l' = None.
Proof.
  revert l'. induction l as [|[k x] l IH]; simpl; intros l' E Hg; [by injection E as <-|].
  apply bind_Ok in E as (x' & Ex & E). apply bind_Ok in E as (rest & Er & E). injection E as <-. simpl.
  destruct (String.eqb_spec node k); [done|]. by eapply IH.
Qed.
Lemma read_names_get {A} (f : json -> exc A) v names m m' node x :
  read_names f v names m = Ok m' -> read_at f node v = Ok x ->
  (node ∈ names \/ om_get node m = Some x) -> om_get node m' = Some x.
Proof.
  revert m. induction names as [|k names IH]; simpl; intros m E Hx Hn.
  - injection E as <-. set_solver.
  - apply bind_Ok in E as (y & Ey & E). eapply IH; [done..|]. destruct (decide (k = node)) as [->|Hne].
    + right. rewrite om_get_set_eq. congruence.
    + rewrite om_get_set_ne by done. set_solver.
Qed.

Definition status_kept (s s' : machine S W) : Prop := r_node_status (m_run s') = r_node_status (m_run s).
#[local] Instance status_kept_preorder : PreOrder status_kept.
Proof. split; [done|]. intros x y z. unfold status_kept. congruence. Qed.
#[local] Hint Extern 1 (keeps_on _ status_kept (run_mod _)) => (by apply keeps_modify) : keeps.
#[local] Hint Extern 1 (keeps_on _ status_kept (note _)) => (by apply keeps_modify) : keeps.
#[local] Hint Extern 1 (keeps_on _ status_kept bump) => (by apply keeps_modify) : keeps.
Lemma status_ask {A} (f : W -> A * W) : keeps status_kept (ask f : M A).
Proof. intros s. unfold ask. by destruct (f (m_world s)). Qed.
#[local] Hint Resolve status_ask : keeps.
Lemma status_emit n c a r p l : keeps status_kept (emit cfg host n c a r p l : M unit).
Proof. unfold emit, current_elapsed. solve_keeps. by apply keeps_modify. Qed.
#[local] Hint Resolve status_emit : keeps.

(** C16: a recovery succeeds only for a checkpoint of this workflow and bundle, and only
    when every node the checkpoint has as running exists and its policy is not at_most_once,
    manual or forbidden; afterwards no node
    of the run is running. *)
Theorem restore_safe `{!JsonLaws J} bundle text cp (s s' : machine S W) :
  parse_json text = Ok cp -> restore_run cfg host bundle text s = (Ok tt, s') ->
  get_string "workflow_digest" "" cp = Ok (w_digest ir) /\ get_string "bundle_digest" "" cp = Ok bundle
  /\ (forall node, jget_path ["node_status"; node] cp = Ok (JString "running") ->
        exists n, find_node ir node = Some n /\ n_replay n <> AtMostOnce /\ n_replay n <> Manual /\ n_replay n <> Forbidden)
  /\ (forall node, om_get node (r_node_status (m_run s')) <> Some Running).
Proof.
  intros Hp Hs. apply restore_inv in Hs as (cp' & s1 & s2 & Hp' & Hf & _ & _ & Hs). rewrite Hp in Hp'.
  injection Hp' as <-. assert (get_string "workflow_digest" "" cp = Ok (w_digest ir) /\ get_string "bundle_digest" "" cp = Ok bundle) as [Hd Hb].
  { unfold check_format in Hf. apply bind_Ok in Hf as (f & _ & Hf). apply bind_Ok in Hf as (sup & _ & Hf).
    destruct sup; [|done]. cbn [negb] in Hf. apply bind_Ok in Hf as (d & -> & Hf).
    destruct (String.eqb_spec d (w_digest (c_workflow cfg))) as [E|]; [|done]. cbn [negb] in Hf.
    apply bind_Ok in Hf as (b & -> & Hf). destruct (String.eqb_spec b bundle); [|done]. unfold ir; split; congruence. }
  do 2 (split; [done|]). unfold finish_restore in Hs.
  apply bind_inv in Hs as (st0 & t & _ & Hs). apply bind_inv in Hs as (st1 & t1 & [Hr ->]%try_inv & Hs).
  apply bind_inv in Hs as (st2 & t1 & [Hq ->]%try_inv & Hs). apply bind_inv in Hs as ([] & t1 & E & Hs). injection E as <-.
  assert (r_node_status (m_run s') = st2) as ->.
  { match type of Hs with ?m ?t0 = _ => assert (keeps status_kept m) as Hk by solve_keeps end.
    match type of Hs with ?m ?t0 = _ => specialize (Hk t0) end. rewrite Hs in Hk. exact Hk. }
  split.
  - intros node Hn. cbn [jget_path] in Hn. apply bind_Ok in Hn as (v & Hv & Hn). apply bind_Ok in Hn as (x & Hx & Hn).
    injection Hn as ->. unfold read_members in Hr. rewrite Hv in Hr. cbn [mbind res_bind] in Hr. apply bind_Ok in Hr as (names & Hnm & Hr).
    assert (om_get node st1 = Some Running) as Hg.
    { eapply read_names_get; [done| |left].
      - unfold read_at. rewrite Hx. cbn. by rewrite jl_as_string_string.
      - destruct v; try done. injection Hnm as <-. apply om_mem_keys. unfold om_mem. simpl in Hx.
        by destruct (om_get node m). }
    eapply requeue_inv in Hg as [Hg _]; [|done]. specialize (Hg eq_refl). unfold resumable in Hg. fold ir in Hg.
    destruct (find_node ir node) as [n|]; [|done]. exists n. by destruct (n_replay n).
  - intros node Hg. destruct (om_get node st1) as [st|] eqn:E.
    + by eapply requeue_inv in E as [_ E].
    + by rewrite (requeue_get_None _ _ _ Hq E) in Hg.
Qed.
End Claims.
