(* ===== verification/RunReplay.v ===== *)
(** * Runs that replay a trace (src/dage.cpp: Engine::create_replay_run, Run::execute_step)

    A run created from a replay plan holds the plan's recorded outcomes, one queue per
    invocation and node.  Every step of such a run takes the results of the nodes that
    have an executor from the front of those queues and calls no executor, whatever
    happens to the run between its steps. *)

From S2P Require Import Prelude Json Expr Sha256 Ir Reliability Workflow Trace RunState RunStep RunCalm RunEffects RunBounds Restore.
Open Scope string_scope.
Open Scope list_scope.
Open Scope Z_scope.

(** ** What a plan records and what a run has left of it *)
Definition replay_key (invocation node : string) : string := invocation +:+ nl +:+ node.
Definition recorded_at (plan : TraceReplayPlan) (key : string) : list ExecutionResult :=
  tr_result <$> filter (fun o => replay_key (tr_invocation_id o) (tr_node_id o) = key) (rp_executor_outcomes plan).
Definition left_at (r : RunImpl) (key : string) : list ExecutionResult :=
  default [] (om_get key (r_replay_outcomes r)).
Definition missing_outcome : ExecutionResult :=
  fail_result "trace_replay" "REPLAY_OUTCOME_MISSING" "Recorded executor outcome is missing.".

(** The next result of a queue, and the queue without it. *)
Definition takes (before : list ExecutionResult) (result : ExecutionResult) (after : list ExecutionResult) : Prop :=
  match before with
  | recorded :: rest => result = recorded /\ after = rest
  | [] => result = missing_outcome /\ after = []
  end.

Lemma add_outcome_left m o key :
  default [] (om_get key (add_outcome m o))
  = default [] (om_get key m) ++ (if decide (replay_key (tr_invocation_id o) (tr_node_id o) = key) then [tr_result o] else []).
Proof.
  unfold add_outcome, replay_key. case_decide as E; [subst key; by rewrite om_get_set_eq|].
  by rewrite om_get_set_ne, app_nil_r by congruence.
Qed.
Lemma add_outcomes_left os key m :
  default [] (om_get key (foldl add_outcome m os))
  = default [] (om_get key m)
      ++ (tr_result <$> filter (fun o => replay_key (tr_invocation_id o) (tr_node_id o) = key) os).
Proof.
  revert m. induction os as [|o os IH]; intros m; [by rewrite app_nil_r|].
  cbn [foldl]. rewrite IH, add_outcome_left, <- app_assoc, filter_cons. by case_decide.
Qed.

Section Replaying.
Context {J : JsonLib} {S : Type} `{StateStore S} {W : Type} (cfg : RunConfig) (host : Host W).
Abbreviation M A := (act exit (machine S W) A).

Lemma create_replay_run_left bundle plan r :
  create_replay_run cfg bundle plan = Ok r ->
  r_deterministic_replay r = true /\ forall key, left_at r key = recorded_at plan key.
Proof.
  unfold create_replay_run. intros Hc. destruct (negb _); [done|]. destruct (negb _); [done|]. injection Hc as <-.
  split; [done|]. intros key. unfold left_at. cbn -[om_get]. by rewrite add_outcomes_left.
Qed.

(** ** What a step does with the queues *)
Definition consumes (s s' : machine S W) : Prop :=
  r_deterministic_replay (m_run s') = r_deterministic_replay (m_run s)
  /\ (r_deterministic_replay (m_run s) = true ->
      forall key, exists taken, left_at (m_run s) key = taken ++ left_at (m_run s') key).
#[local] Instance consumes_preorder : PreOrder consumes.
Proof.
  split.
  - intros s. split; [done|]. intros _ key. by exists [].
  - intros x y z [D C] [D' C']. split; [congruence|]. intros Hd key. destruct (C Hd key) as [t E].
    destruct (C' ltac:(congruence) key) as [t' E']. exists (t ++ t'). by rewrite E, E', app_assoc.
Qed.
Lemma quiet_left kp kf (s s' : machine S W) key :
  quiet kp kf s s' -> kp || kf = true -> left_at (m_run s') key = left_at (m_run s) key.
Proof. intros [(_ & _ & _ & _ & _ & _ & _ & _ & _ & _ & O) _] Hk. unfold left_at. by rewrite O. Qed.
Lemma quiet_consumes kp kf s s' : kp || kf = true -> quiet kp kf s s' -> consumes s s'.
Proof.
  intros Hk Hq. split; [by destruct Hq as [(_ & D & _) _]|]. intros _ key. exists []. by rewrite (quiet_left _ _ _ _ _ Hq Hk).
Qed.
Lemma consumes_run_mod f :
  (forall r, r_deterministic_replay (f r) = r_deterministic_replay r /\ r_replay_outcomes (f r) = r_replay_outcomes r) ->
  keeps consumes (run_mod f : M unit).
Proof.
  intros Hf. apply keeps_modify. intros s. destruct (Hf (m_run s)) as [D O]. split; [done|]. intros _ key. exists [].
  unfold left_at. simpl. by rewrite O.
Qed.
#[local] Hint Extern 1 (keeps_on _ consumes (run_mod _)) => (apply consumes_run_mod; intros; split; reflexivity) : keeps.
#[local] Hint Extern 1 (keeps_on _ consumes (mod_async _)) => (apply consumes_run_mod; intros; split; reflexivity) : keeps.
#[local] Hint Extern 2 (keeps_on _ consumes _) =>
  (first [apply (keeps_weaken _ (quiet true true)); [intros ? ?; by apply quiet_consumes|solve [auto with calm]]
         |apply (keeps_weaken _ (quiet true false)); [intros ? ?; by apply quiet_consumes|solve [auto with calm]]
         |apply (keeps_weaken _ (quiet false true)); [intros ? ?; by apply quiet_consumes|solve [auto with calm]]]) : keeps.

Lemma replay_outcome_takes c (s : machine S W) :
  exists result s', replay_outcome c s = (Ok result, s')
    /\ r_deterministic_replay (m_run s') = r_deterministic_replay (m_run s)
    /\ t_invocation_id (r_trace (m_run s')) = t_invocation_id (r_trace (m_run s))
    /\ r_options (m_run s') = r_options (m_run s)
    /\ takes (left_at (m_run s) (replay_key (t_invocation_id (r_trace (m_run s))) c)) result
         (left_at (m_run s') (replay_key (t_invocation_id (r_trace (m_run s))) c))
    /\ forall key, key <> replay_key (t_invocation_id (r_trace (m_run s))) c ->
         left_at (m_run s') key = left_at (m_run s) key.
Proof.
  unfold replay_outcome, run_get, gets, mbind, act_bind, id. cbn beta iota. fold (replay_key (t_invocation_id (r_trace (m_run s))) c).
  set (key := replay_key _ c). unfold takes, left_at. destruct (om_get key (r_replay_outcomes (m_run s))) as [[|x rest]|] eqn:E;
    eexists _, _; (split; [reflexivity|]); cbn -[om_get om_set]; rewrite ?E; split_and!; try done.
  - by rewrite om_get_set_eq.
  - intros k Hk. by rewrite om_get_set_ne.
Qed.
Lemma consumes_replay_outcome c : keeps consumes (replay_outcome c : M _).
Proof.
  intros s. destruct (replay_outcome_takes c s) as (x & s' & -> & D & _ & _ & T & N). split; [done|]. intros _ key.
  destruct (decide (key = replay_key (t_invocation_id (r_trace (m_run s))) c)) as [->|Hk]; [|exists []; by rewrite N].
  unfold takes in T. destruct (left_at (m_run s) _) as [|y rest]; destruct T as [_ ->]; [by exists []|by exists [y]].
Qed.
#[local] Hint Resolve consumes_replay_outcome : keeps.
Lemma consumes_note c : keeps consumes (note c : M unit).
Proof. apply keeps_modify. intros s. split; [done|]. intros _ key. by exists []. Qed.
#[local] Hint Resolve consumes_note : keeps.
Lemma consumes_call_executor n x t i : keeps consumes (call_executor host n x t i : M _).
Proof. unfold call_executor. solve_keeps. Qed.
#[local] Hint Resolve consumes_call_executor : keeps.
Lemma consumes_sync_attempt c n i a mx : keeps consumes (sync_attempt cfg host c n i a mx : M _).
Proof. unfold sync_attempt. solve_keeps. Qed.
#[local] Hint Resolve consumes_sync_attempt : keeps.
Lemma consumes_sync_attempts c n k i mx r : keeps consumes (sync_attempts cfg host k c n i mx r : M _).
Proof. revert r. induction k; intros r; cbn [sync_attempts]; solve_keeps. Qed.
#[local] Hint Resolve consumes_sync_attempts : keeps.
Lemma consumes_run_executor c n i k r : keeps consumes (run_executor cfg host c n i k r : M _).
Proof. unfold run_executor, run_sync, start_async, continue_async, retry_async. solve_keeps. Qed.
#[local] Hint Resolve consumes_run_executor : keeps.
Lemma consumes_execute_node c n k b i : keeps consumes (execute_node cfg host c n k b i : M _).
Proof. unfold execute_node. solve_keeps. Qed.
#[local] Hint Resolve consumes_execute_node : keeps.
Lemma consumes_turn c l : keeps consumes (turn cfg host c l : M _).
Proof. unfold turn, enter_node, check_cancelled, continuations, count_step, run_node. solve_keeps. Qed.
#[local] Hint Resolve consumes_turn : keeps.
Lemma consumes_turns f l : keeps consumes (turns cfg host f l : M _).
Proof. revert l. induction f; intros l; cbn [turns]; solve_keeps. Qed.
#[local] Hint Resolve consumes_turns : keeps.
Lemma consumes_initialize i : keeps consumes (initialize cfg host i : M unit).
Proof. unfold initialize, mod_run, mod_json. solve_keeps. Qed.
#[local] Hint Resolve consumes_initialize : keeps.
Lemma consumes_step f i : keeps consumes (execute_step cfg host f i : M _).
Proof. unfold execute_step. solve_keeps. Qed.

(** ** The node that takes its outcome *)
Definition node_executes (n : NodeIR) : bool := needs_executor (n_type n).
Lemma execute_node_takes c n k i (s : machine S W) result s' :
  r_deterministic_replay (m_run s) = true -> node_executes n = true ->
  bool_decide (n_type n = Human) && r_has_resume (m_run s) = false ->
  execute_node cfg host c n k false i s = (Ok result, s') ->
  r_options (m_run s') = r_options (m_run s)
  /\ let key := replay_key (t_invocation_id (r_trace (m_run s))) c in
     takes (left_at (m_run s) key) result (left_at (m_run s') key).
Proof.
  unfold node_executes. intros Hd Hx Hh Hs. unfold execute_node in Hs. apply bind_inv in Hs as (i' & s1 & H1 & Hs). cbv zeta in Hs.
  assert (s1 = s) as ->.
  { unfold copy_json, try_, lift in H1. by injection H1. }
  apply bind_inv in Hs as (r & s2 & E & Hs). injection E as <- <-. unfold id in Hs. rewrite Hh in Hs.
  assert (replay_outcome c s = (Ok result, s')) as Hr.
  { destruct (n_type n); cbn [needs_executor] in *; try done; unfold run_executor in Hs;
      apply bind_inv in Hs as (r & s2 & E & Hs); injection E as <- <-; unfold id in Hs; by rewrite Hd in Hs. }
  destruct (replay_outcome_takes c s) as (x & t & E & _ & _ & O & T & _). rewrite Hr in E. by injection E as -> ->.
Qed.
Lemma run_node_takes c n k (s : machine S W) result s' :
  r_deterministic_replay (m_run s) = true -> node_executes n = true -> n_type n <> Human ->
  run_node cfg host c n k s = (Ok result, s') ->
  (exists t, admit_effect cfg host c n k s = (Ok true, t))
  \/ exists recorded, result = limit_output (m_run s) recorded
       /\ let key := replay_key (t_invocation_id (r_trace (m_run s))) c in
          takes (left_at (m_run s) key) recorded (left_at (m_run s') key).
Proof.
  intros Hd Hx Hh Hs. unfold run_node in Hs. apply bind_inv in Hs as (b & s1 & H1 & Hs).
  destruct b; [left; by exists s1|right]. apply bind_inv in Hs as (i & s2 & H2 & Hs).
  assert (quiet true true s s2) as Q.
  { etrans; [eapply ok_of, H1; auto with calm|eapply ok_of, H2; auto with calm]. }
  apply bind_inv in Hs as (x & s3 & H3 & Hs). pose proof Q as [(O & D & _ & _ & _ & _ & _ & _ & _ & I & _) _].
  eapply execute_node_takes in H3 as [O3 T]; [|congruence|done|by rewrite bool_decide_eq_false_2].
  cbv zeta in T. rewrite I, (quiet_left _ _ _ _ _ Q) in T by done. exists x.
  apply bind_inv in Hs as ([] & s4 & H4 & Hs). apply bind_inv in Hs as (r & s5 & E & Hs). injection E as <- <-.
  assert (quiet true true s3 s4) as Q4 by (eapply ok_of, H4; auto with calm). cbv zeta in Hs.
  apply bind_inv in Hs as ([] & s5 & H5 & Hs). apply bind_inv in Hs as ([p cs] & s6 & H6 & Hs).
  apply bind_inv in Hs as ([] & s7 & H7 & Hs). injection Hs as <- <-.
  assert (quiet true true s3 s7) as Q7.
  { etrans; [exact Q4|]. etrans; [eapply ok_of, H5; auto with calm|].
    etrans; [eapply ok_of, H6; auto with calm|eapply ok_of, H7; auto with calm]. }
  destruct Q4 as [(O4 & _) _]. split; [|cbv zeta; by rewrite (quiet_left _ _ _ _ _ Q7)].
  unfold limit_output, id. by rewrite O4, O3, O.
Qed.

(** ** Replays *)

(** The machines a replay of [plan] reaches: its run's steps, and between them whatever
    else changes the run (completions of children and timers, cancellation, answers to
    human nodes), which leaves the recorded outcomes alone and calls no executor. *)
Inductive replay_reaches (bundle : string) (plan : TraceReplayPlan) : machine S W -> Prop :=
| ReplayCreated s : create_replay_run cfg bundle plan = Ok (m_run s) -> m_log s = [] -> replay_reaches bundle plan s
| ReplayStep fuel input out s s' :
    replay_reaches bundle plan s -> execute_step cfg host fuel input s = (out, s') -> replay_reaches bundle plan s'
| ReplayBetween s s' :
    replay_reaches bundle plan s -> r_deterministic_replay (m_run s') = r_deterministic_replay (m_run s) ->
    r_replay_outcomes (m_run s') = r_replay_outcomes (m_run s) -> m_log s' = m_log s -> replay_reaches bundle plan s'.

Lemma replay_reaches_left bundle plan s :
  replay_reaches bundle plan s ->
  r_deterministic_replay (m_run s) = true
  /\ Forall (fun c => is_call c = false) (m_log s)
  /\ forall key, exists taken, recorded_at plan key = taken ++ left_at (m_run s) key.
Proof.
  induction 1 as [s Hc L|fuel input out s s' _ (D & L & T) Hs|s s' _ (D & L & T) Hd Ho Hl].
  - apply create_replay_run_left in Hc as [D E]. split; [done|]. rewrite L. split; [constructor|].
    intros key. exists []. by rewrite E.
  - destruct (replay_never_executes cfg host fuel input s out s' D Hs) as (new & -> & F).
    pose proof (keeps_run consumes _ s (consumes_step fuel input)) as Hk. rewrite Hs in Hk. destruct Hk as [D' C]. simpl in D', C.
    split; [congruence|]. split; [by apply Forall_app|]. intros key. destruct (T key) as [t ->], (C D key) as [t' E].
    exists (t ++ t'). by rewrite E, app_assoc.
  - split; [congruence|]. rewrite Hl. split; [done|]. intros key. unfold left_at. rewrite Ho. apply T.
Qed.

(** C20: a deterministic replay runs on the recorded outcomes alone.  In every machine a
    run created from a plan reaches, no executor has been called, and what the run has
    left for an invocation and node is the plan's recorded outcomes for them without a
    number of the first ones.  There a node with an executor whose effect is not already
    committed gets the next recorded outcome of its invocation, which leaves the queue,
    or the failure REPLAY_OUTCOME_MISSING when none is left (a human node that was
    answered takes the answer); the run goes on with that result, cut to the output
    limit. *)
Theorem replay_takes_recorded bundle plan s :
  replay_reaches bundle plan s ->
  Forall (fun c => is_call c = false) (m_log s)
  /\ (forall key, exists taken, recorded_at plan key = taken ++ left_at (m_run s) key)
  /\ (forall current node k input result s',
        node_executes node = true -> bool_decide (n_type node = Human) && r_has_resume (m_run s) = false ->
        execute_node cfg host current node k false input s = (Ok result, s') ->
        let key := replay_key (t_invocation_id (r_trace (m_run s))) current in
        takes (left_at (m_run s) key) result (left_at (m_run s') key))
  /\ (forall current node k result s',
        node_executes node = true -> n_type node <> Human ->
        run_node cfg host current node k s = (Ok result, s') ->
        (exists t, admit_effect cfg host current node k s = (Ok true, t))
        \/ exists recorded, result = limit_output (m_run s) recorded
             /\ let key := replay_key (t_invocation_id (r_trace (m_run s))) current in
                takes (left_at (m_run s) key) recorded (left_at (m_run s') key)).
Proof.
  intros Hr. apply replay_reaches_left in Hr as (D & L & T). split_and!; [done..| |].
  - intros c n k i x s' Hx Hh Hs. by eapply execute_node_takes.
  - intros c n k x s' Hx Hh Hs. by eapply run_node_takes.
Qed.
End Replaying.
