(* ===== verification/Drive.v ===== *)
(** * Driving a run (src/dage.cpp: Run::execute_async, execute, cancel, resume, selective_rerun)

    A run is driven by tasks on a scheduler: each runs one [execute_step] and then
    either delivers the result to the caller or, when a continuation is pending,
    leaves the run to whoever completes it.  Completions, timers, child runs and
    cancellation arrive on other threads.  [Driver] is the run with the fields
    guarded by [continuation_mutex], the tasks on the scheduler and the threads
    between two critical sections; every critical section is a function and every
    thread switch between two of them is possible in [drives].  The scheduler may
    refuse what it is given, and a step may throw.

    Every execution has a drive of its own, a function behind a shared pointer; it is
    known by the number of the execution.  Tasks and [resume_drive] are copies of the
    function, so that a task of one execution may still run in the next one; but what
    it schedules is read through the pointer, which is emptied when the execution is
    answered. *)

From S2P Require Import Prelude Json Expr Sha256 Ir Reliability Workflow Trace RunState RunStep.
Open Scope string_scope.
Open Scope list_scope.
Open Scope Z_scope.

(** Where a drive task is: before its step, after it, between its looks at the
    three kinds of continuation ([ready] is what it saw so far), and after the critical
    section that delivers, with the callback it took and the result.  The thread of a
    refused execution goes through the last as well. *)
Inductive phase :=
| Entered
| Stepped (result : ExecutionResult)
| SawAsync (ready : bool)
| SawParallel (ready : bool)
| Answering (answer : option (nat * ExecutionResult)).

(** What leaves a run without the task it should have: a continuation the scheduler
    refused, an emptied drive that was scheduled, and an exception that left a step or
    was not caught by [execute_async]. *)
Inductive loss := Refused | Emptied | Threw.

Record Driver (S W : Type) := mkDriver {
  d_machine : machine S W;
  d_completion : option nat; d_input : json; d_delivered : bool; d_resume : option nat; d_driving : bool;
  d_arming : list nat;
  d_launching : list nat;
  d_tasks : list nat;
  d_wakes : list nat;
  d_notices : list bool;
  d_drives : list (nat * phase);
  d_emptied : list nat;
  d_executes : nat;
  d_callbacks : list (nat * ExecutionResult);
  d_rejected : list nat;
  d_losses : list loss
}.
Arguments mkDriver {S W}. Arguments d_machine {S W}. Arguments d_completion {S W}. Arguments d_input {S W}.
Arguments d_delivered {S W}. Arguments d_resume {S W}. Arguments d_driving {S W}. Arguments d_arming {S W}.
Arguments d_launching {S W}. Arguments d_tasks {S W}. Arguments d_wakes {S W}. Arguments d_notices {S W}.
Arguments d_drives {S W}. Arguments d_emptied {S W}. Arguments d_executes {S W}. Arguments d_callbacks {S W}.
Arguments d_rejected {S W}. Arguments d_losses {S W}.
#[export] Instance eta_Driver {S W} : Settable (Driver S W) := fun d =>
  mkDriver (d_machine d) (d_completion d) (d_input d) (d_delivered d) (d_resume d) (d_driving d) (d_arming d)
    (d_launching d) (d_tasks d) (d_wakes d) (d_notices d) (d_drives d) (d_emptied d) (d_executes d) (d_callbacks d)
    (d_rejected d) (d_losses d).

Section Drive.
Context {J : JsonLib} {S : Type} `{StateStore S} {W : Type} (cfg : RunConfig) (host : Host W).
Abbreviation D := (Driver S W).

Definition on_run (f : RunImpl -> RunImpl) (d : D) : D :=
  d <| d_machine := (d_machine d) <| m_run := f (m_run (d_machine d)) |> |>.
Definition the_run (d : D) : RunImpl := m_run (d_machine d).

(** ** Run::execute_async

    The first critical section; the caller's thread then enters the second, and hands
    the drive to the scheduler. *)
Definition begin_execute (input : json) (d : D) : exc D :=
  if bool_decide (is_Some (d_completion d)) && negb (d_delivered d) then Err (LogicError "run already has an active completion callback")
  else Ok (d <| d_completion := Some (d_executes d) |> <| d_input := input |> <| d_delivered := false |>
             <| d_arming := d_arming d ++ [d_executes d] |> <| d_executes := Datatypes.S (d_executes d) |>).
Definition arm (k : nat) (rest : list nat) (d : D) : D :=
  d <| d_arming := rest |> <| d_resume := Some k |> <| d_launching := d_launching d ++ [k] |>.

(** The scheduler took the first task; it refused it with an exception [execute_async]
    catches; or with one it does not. *)
Definition launched (k : nat) (rest : list nat) (d : D) : D :=
  d <| d_launching := rest |> <| d_tasks := d_tasks d ++ [k] |>.
Definition rejection (what : string) : ExecutionResult := fail_retryable "resource_limit" "SCHEDULER_REJECTED" what true.
Definition refused (k : nat) (what : string) (rest : list nat) (d : D) : D :=
  d <| d_launching := rest |> <| d_delivered := true |> <| d_completion := None |> <| d_resume := None |>
    <| d_drives := d_drives d ++ [(k, Answering (Some (k, rejection what)))] |> <| d_rejected := d_rejected d ++ [k] |>.
Definition unlaunched (rest : list nat) (d : D) : D :=
  d <| d_launching := rest |> <| d_losses := Threw :: d_losses d |>.

(** ** The drive task *)
Definition enter (k : nat) (rest : list nat) (d : D) : D :=
  d <| d_tasks := rest |> <| d_driving := true |> <| d_drives := d_drives d ++ [(k, Entered)] |>.

Definition is_pending (result : ExecutionResult) : bool :=
  negb (xr_success result) && String.eqb (xe_code (xr_error result)) "ASYNC_PENDING".

Definition parallel_ready (r : RunImpl) : bool :=
  match r_parallel r with Some p => p_batch_ready p | None => false end.

(** [schedule_continuation], with its failure swallowed; an empty function is refused
    by every scheduler.  [takes]: what the scheduler decides. *)
Definition schedule_copy (takes : bool) (k : nat) (d : D) : D :=
  if takes then d <| d_tasks := d_tasks d ++ [k] |> else d <| d_losses := Refused :: d_losses d |>.
Definition schedule_drive (takes : bool) (k : nat) (d : D) : D :=
  if bool_decide (k ∈ d_emptied d) then d <| d_losses := Emptied :: d_losses d |> else schedule_copy takes k d.

(** [driving=false; ready=async_ready], the look at the parallel continuation, and
    the look at the subflow with the task that follows. *)
Definition look_async (k : nat) (rest : list (nat * phase)) (d : D) : D :=
  d <| d_driving := false |> <| d_drives := rest ++ [(k, SawAsync (a_ready (r_async (the_run d))))] |>.
Definition look_parallel (k : nat) (ready : bool) (rest : list (nat * phase)) (d : D) : D :=
  d <| d_drives := rest ++ [(k, SawParallel (ready || parallel_ready (the_run d)))] |>.
Definition look_subflow (takes : bool) (k : nat) (ready : bool) (rest : list (nat * phase)) (d : D) : D :=
  let d := d <| d_drives := rest |> in
  if ready || sf_ready (r_subflow (the_run d)) then schedule_drive takes k d else d.

(** The critical section that takes the callback, at most once, and what follows it:
    the drive is emptied, then the callback is called. *)
Definition settle (a : AsyncState) : AsyncState :=
  a <| a_pending := false |> <| a_ready := false |> <| a_node := "" |> <| a_lease := None |>
    <| a_attempt_cancellation := None |> <| a_timer := false |> <| a_committer := false |>.
Definition settle_subflow (s : SubflowState) : SubflowState :=
  s <| sf_pending := false |> <| sf_ready := false |> <| sf_child := false |>.
Definition deliver (k : nat) (result : ExecutionResult) (rest : list (nat * phase)) (d : D) : D :=
  if d_delivered d then d <| d_driving := false |> <| d_drives := rest |> else
  let d' := on_run (fun r => r <| r_async := settle (r_async r) |> <| r_subflow := settle_subflow (r_subflow r) |>) d in
  d' <| d_driving := false |> <| d_delivered := true |> <| d_completion := None |> <| d_resume := None |>
    <| d_drives := rest ++ [(k, Answering ((fun id => (id, result)) <$> d_completion d))] |>.
Definition respond (k : nat) (answer : option (nat * ExecutionResult)) (rest : list (nat * phase)) (d : D) : D :=
  d <| d_drives := rest |> <| d_emptied := d_emptied d ++ [k] |> <| d_callbacks := d_callbacks d ++ option_list answer |>.

(** ** Other threads *)

(** A thread that finished a continuation takes a copy of the drive to schedule it. *)
Definition wake (go : bool) (d : D) : D :=
  match d_resume d with
  | Some k => if go then d <| d_wakes := d_wakes d ++ [k] |> else d
  | None => d
  end.
Definition woken (takes : bool) (k : nat) (rest : list nat) (d : D) : D :=
  schedule_copy takes k (d <| d_wakes := rest |>).

(** An executor's completion, a node's timeout or an elapsed retry delay. *)
Definition async_done (generation : Z) (result : ExecutionResult) (d : D) : D :=
  let a := r_async (the_run d) in
  if negb (a_pending a) || a_ready a || negb (a_generation a =? generation) then d
  else wake (negb (d_driving d)) (on_run (fun r => r <| r_async := complete_async generation result a |>) d).

(** A child run of a subflow node. *)
Definition subflow_done (result : ExecutionResult) (d : D) : D :=
  let s := r_subflow (the_run d) in
  if negb (sf_pending s) || sf_ready s then d
  else wake (negb (d_driving d))
         (on_run (fun r => r <| r_subflow := (r_subflow r) <| sf_result := result |> <| sf_ready := true |> |>) d).

(** A branch of a parallel node: two critical sections, [batch_ready] read in the first. *)
Definition branch_done (branch : string) (result : ExecutionResult) (d : D) : D :=
  let d := on_run (fun r => r <| r_parallel := child_done branch result <$> r_parallel r |>) d in
  d <| d_notices := d_notices d ++ [parallel_ready (the_run d)] |>.
Definition notice (batch_ready : bool) (rest : list bool) (d : D) : D :=
  wake (batch_ready && negb (d_driving d)) (d <| d_notices := rest |>).

(** ** Run::cancel, for the run itself *)
Definition cancel (reason : string) (d : D) : D :=
  wake true (on_run (cancel_run reason) d).

(** ** Run::resume and Run::selective_rerun

    An early return is [inl]. *)
Definition resume (human_output : json) (now : Z) (d : D) : exc (ExecutionResult + D) :=
  if negb (r_is_suspended (the_run d)) then
    Ok (inl (fail_result "invalid_input" "RUN_NOT_SUSPENDED" "Run is not suspended."))
  else
  output ← parse_json (write_json human_output false);
  d ← begin_execute (JObject [])
        (on_run (fun r => r <| r_resume_output := output |> <| r_has_resume := true |> <| r_started := now |>) d);
  Ok (inr d).

(** The nodes a node leads to, in the order they are pushed. *)
Definition successors (n : NodeIR) : list string :=
  (e_target <$> n_next n) ++ (e_target <$> n_error n) ++ n_branches n
  ++ (if str_empty (n_parallel_join n) then [] else [n_parallel_join n]).
Definition rerun_graph (ir : WorkflowIR) : list (string * list string) :=
  omap (fun p => n ← find_node ir p.1; Some (p.1, successors n)) (w_index ir).

(** [reachable] is a [std::set]: visited in order. *)
Definition rerun_nodes (ir : WorkflowIR) (node : string) : list string :=
  let graph := rerun_graph ir in
  (foldl (fun m k => om_set k tt m) [] (reach (reach_fuel graph) graph [node] [])).*1.

Fixpoint reset_nodes (nodes : list string) (r : RunImpl) : exc RunImpl :=
  match nodes with
  | [] => Ok r
  | node :: rest =>
    outputs ← jremove node (r_outputs r);
    effects ← jget "_effects" (r_state r);
    effects ← jremove node effects;
    state ← jset "_effects" effects (r_state r);
    reset_nodes rest (r <| r_outputs := outputs |> <| r_state := state |>
                        <| r_node_status := om_set node Pending (r_node_status r) |>)
  end.

Definition selective_rerun (node_id : string) (now : Z) (d : D) : exc (ExecutionResult + D) :=
  match find_node (c_workflow cfg) node_id with
  | None => Ok (inl (fail_result "invalid_input" "RERUN_NODE_NOT_FOUND" "Selective rerun node does not exist."))
  | Some start =>
    match n_replay start with
    | AtMostOnce | Manual | Forbidden =>
      Ok (inl (fail_result "effect_blocked" "RERUN_POLICY_BLOCKED" "Node replay policy forbids selective rerun."))
    | _ =>
      r ← reset_nodes (rerun_nodes (c_workflow cfg) node_id) (the_run d);
      d ← begin_execute (JObject []) (on_run (fun _ => r
        <| r_current := node_id |> <| r_completed := false |> <| r_is_suspended := false |>
        <| r_options := (r_options r) <| o_mode := Replay |> |> <| r_started := now |>) d);
      Ok (inr d)
    end
  end.

(** ** Interleavings

    [drives] is one critical section of one of the threads.  A step that ends the process
    ([Terminate]) has no successor. *)
Inductive drives : D -> D -> Prop :=
| DExecute input d d' : begin_execute input d = Ok d' -> drives d d'
| DResume output now d d' : resume output now d = Ok (inr d') -> drives d d'
| DRerun node now d d' : selective_rerun node now d = Ok (inr d') -> drives d d'
| DArm pre k post d : d_arming d = pre ++ k :: post -> drives d (arm k (pre ++ post) d)
| DLaunch pre k post d : d_launching d = pre ++ k :: post -> drives d (launched k (pre ++ post) d)
| DRefused what pre k post d : d_launching d = pre ++ k :: post -> drives d (refused k what (pre ++ post) d)
| DUnlaunched pre k post d : d_launching d = pre ++ k :: post -> drives d (unlaunched (pre ++ post) d)
| DEnter pre k post d : d_tasks d = pre ++ k :: post -> drives d (enter k (pre ++ post) d)
| DStep fuel pre k post m' r d :
    d_drives d = pre ++ (k, Entered) :: post ->
    execute_step cfg host fuel (d_input d) (d_machine d) = (Err (Return r), m') ->
    drives d (d <| d_machine := m' |> <| d_drives := pre ++ (k, Stepped r) :: post |>)
| DThrow fuel pre k post m' e d :
    d_drives d = pre ++ (k, Entered) :: post ->
    execute_step cfg host fuel (d_input d) (d_machine d) = (Err (Throw e), m') ->
    drives d (d <| d_machine := m' |> <| d_drives := pre ++ post |> <| d_losses := Threw :: d_losses d |>)
| DPending pre k post r d :
    d_drives d = pre ++ (k, Stepped r) :: post -> is_pending r = true -> drives d (look_async k (pre ++ post) d)
| DDeliver pre k post r d :
    d_drives d = pre ++ (k, Stepped r) :: post -> is_pending r = false -> drives d (deliver k r (pre ++ post) d)
| DParallel pre k post ready d :
    d_drives d = pre ++ (k, SawAsync ready) :: post -> drives d (look_parallel k ready (pre ++ post) d)
| DSubflow takes pre k post ready d :
    d_drives d = pre ++ (k, SawParallel ready) :: post -> drives d (look_subflow takes k ready (pre ++ post) d)
| DRespond pre k post answer d :
    d_drives d = pre ++ (k, Answering answer) :: post -> drives d (respond k answer (pre ++ post) d)
| DWoken takes pre k post d : d_wakes d = pre ++ k :: post -> drives d (woken takes k (pre ++ post) d)
| DAsyncDone generation result d : drives d (async_done generation result d)
| DSubflowDone result d : drives d (subflow_done result d)
| DBranchDone branch result d : drives d (branch_done branch result d)
| DNotice pre post ready d :
    d_notices d = pre ++ ready :: post -> drives d (notice ready (pre ++ post) d)
| DCancel reason d : drives d (cancel reason d).

(** A run nobody executed yet. *)
Definition undriven (m : machine S W) : D := mkDriver m None (JObject []) false None false [] [] [] [] [] [] [] 0 [] [] [].

(** ** Answers

    The answers given and those a thread is about to give. *)
Definition owed_by (p : nat * phase) : option (nat * ExecutionResult) := match p.2 with Answering answer => answer | _ => None end.
Definition answers_due (d : D) : list (nat * ExecutionResult) := d_callbacks d ++ omap owed_by (d_drives d).
Definition given_answers (d : D) : list ExecutionResult := (d_callbacks d).*2.
Definition awaited (d : D) : bool := bool_decide (is_Some (d_completion d)) && negb (d_delivered d).
Definition awaits (k : nat) (d : D) : bool := bool_decide (d_completion d = Some k) && negb (d_delivered d).
Definition times (k : nat) (l : list nat) : nat := length (filter (eq k) l).
Definition one (b : bool) : nat := if b then 1 else 0.
#[local] Arguments answers_due : simpl never.
#[local] Arguments times : simpl never.
Record delivers_once (d : D) : Prop := mkOnce {
  once_each : forall k, (times k (answers_due d).*1 + one (awaits k d) <= one (bool_decide (k < d_executes d)%nat) + times k (d_rejected d))%nat;
  once_refused : forall k, (times k (d_rejected d) + times k (d_launching d) + times k (d_arming d) <= one (bool_decide (k < d_executes d)%nat))%nat;
  once_all : (length (answers_due d) + one (awaited d) <= d_executes d + length (d_rejected d))%nat;
  once_results : Forall (fun a => is_pending a.2 = false) (answers_due d)
}.

Lemma times_app k l1 l2 : times k (l1 ++ l2) = (times k l1 + times k l2)%nat.
Proof. unfold times. by rewrite filter_app, length_app. Qed.
Lemma times_cons k x l : times k (x :: l) = (one (bool_decide (k = x)) + times k l)%nat.
Proof. unfold times. rewrite filter_cons. by destruct (decide (k = x)); [rewrite bool_decide_eq_true_2|rewrite bool_decide_eq_false_2]. Qed.
Lemma awaits_awaited k d : awaits k d = true -> awaited d = true.
Proof. unfold awaits, awaited. rewrite !andb_true_iff, !bool_decide_eq_true. intros [-> ->]. by split; [eexists|]. Qed.
Lemma awaited_one d : awaited d = true -> exists k, d_completion d = Some k /\ d_delivered d = false /\ forall j, awaits j d = bool_decide (j = k).
Proof.
  unfold awaited, awaits. rewrite andb_true_iff, bool_decide_eq_true, negb_true_iff. intros [[k ->] ->]. exists k. split_and!; [done..|].
  intros j. rewrite andb_true_r. apply bool_decide_ext. naive_solver.
Qed.
Lemma unawaited d : awaited d = false -> forall k, awaits k d = false.
Proof. intros E k. destruct (awaits k d) eqn:Ek; [|done]. apply awaits_awaited in Ek. congruence. Qed.

Lemma begin_execute_Ok input d d' : begin_execute input d = Ok d' ->
  awaited d = false /\ d' = d <| d_completion := Some (d_executes d) |> <| d_input := input |> <| d_delivered := false |>
    <| d_arming := d_arming d ++ [d_executes d] |> <| d_executes := Datatypes.S (d_executes d) |>.
Proof. unfold begin_execute, awaited. by destruct (_ && _); intros [= <-]. Qed.
(** Resuming and rerunning are an execution on a changed run. *)
Lemma resume_Ok o now d d' : resume o now d = Ok (inr d') -> exists f, begin_execute (JObject []) (on_run f d) = Ok d'.
Proof.
  unfold resume. destruct (negb _); [done|]. intros E. simplify_res. eauto.
Qed.
Lemma rerun_Ok n now d d' : selective_rerun n now d = Ok (inr d') -> exists f, begin_execute (JObject []) (on_run f d) = Ok d'.
Proof.
  unfold selective_rerun. destruct (find_node _ _) as [st|]; [|done].
  destruct (n_replay st); intros E; try done; apply bind_Ok in E as (r & _ & E);
    apply bind_Ok in E as (x & Ex & E); injection E as <-; eexists; exact Ex.
Qed.
Lemma on_run_id (d : D) : on_run id d = d.
Proof. by destruct d as [[]]. Qed.
(** What an execution, a resumption and a rerun have in common. *)
Lemma begins d d' : (exists input, begin_execute input d = Ok d') \/ (exists output now, resume output now d = Ok (inr d'))
  \/ (exists node now, selective_rerun node now d = Ok (inr d')) ->
  exists f input, begin_execute input (on_run f d) = Ok d'.
Proof.
  intros [[i E]|[(o & now & [f E]%resume_Ok)|(n & now & [f E]%rerun_Ok)]]; [|by eexists _, _..].
  exists id, i. by rewrite on_run_id.
Qed.
Lemma once_begin f i d d' : begin_execute i (on_run f d) = Ok d' -> delivers_once d -> delivers_once d'.
Proof.
  intros [Ha ->]%begin_execute_Ok [H1 H2 H3 H4]. change (awaited d = false) in Ha. unfold on_run. split; cbn.
  - intros k. specialize (H1 k). rewrite (unawaited _ Ha) in H1. unfold awaits. cbn. rewrite andb_true_r.
    change (answers_due _) with (answers_due d). destruct (decide (k = d_executes d)) as [->|Hne].
    + rewrite !bool_decide_eq_true_2 by (done || lia). rewrite bool_decide_eq_false_2 in H1 by lia. cbn in *. lia.
    + rewrite (bool_decide_eq_false_2 (Some _ = Some _)) by naive_solver.
      rewrite (bool_decide_ext (k < Datatypes.S _)%nat (k < d_executes d)%nat) by lia. exact H1.
  - intros k. specialize (H2 k). rewrite times_app, times_cons. change (times k []) with 0%nat. destruct (decide (k = d_executes d)) as [->|Hne].
    + rewrite !bool_decide_eq_true_2 by (done || lia). rewrite bool_decide_eq_false_2 in H2 by lia. cbn in *. lia.
    + rewrite (bool_decide_eq_false_2 (k = _)) by done.
      rewrite (bool_decide_ext (k < Datatypes.S _)%nat (k < d_executes d)%nat) by lia. cbn. lia.
  - rewrite Ha in H3. unfold awaited. cbn in *. change (answers_due _) with (answers_due d). lia.
  - exact H4.
Qed.
(** A change of fields that keeps the answers, and moves executions towards their launch. *)
Lemma once_same d d' : answers_due d' ≡ₚ answers_due d -> d_completion d' = d_completion d -> d_delivered d' = d_delivered d ->
  d_executes d' = d_executes d -> d_rejected d' = d_rejected d ->
  (forall k, (times k (d_launching d') + times k (d_arming d') <= times k (d_launching d) + times k (d_arming d))%nat) ->
  delivers_once d -> delivers_once d'.
Proof.
  intros Ea Ec Ed Ee Er Hl [H1 H2 H3 H4]. split; unfold awaits, awaited in *; rewrite ?Ec, ?Ed, ?Ee, ?Er.
  - intros k. unfold times at 1. rewrite Ea. apply H1.
  - intros k. specialize (Hl k). specialize (H2 k). lia.
  - by rewrite Ea.
  - by rewrite Ea.
Qed.
Lemma answered_drives d d' : d_callbacks d' = d_callbacks d -> omap owed_by (d_drives d') = omap owed_by (d_drives d) -> answers_due d' = answers_due d.
Proof. intros E1 E2. unfold answers_due. by rewrite E1, E2. Qed.
(** A step that keeps what the threads owe. *)
Ltac same_answers E := first [apply answered_drives|apply reflexive_eq, answered_drives]; [done|cbn; rewrite ?E, ?omap_app; cbn; rewrite ?app_nil_r].
Lemma once_refuse k what pre post d : d_launching d = pre ++ k :: post -> delivers_once d -> delivers_once (refused k what (pre ++ post) d).
Proof.
  intros El [H1 H2 H3 H4]. assert (answers_due (refused k what (pre ++ post) d) = answers_due d ++ [(k, rejection what)]) as Ea.
  { unfold answers_due, refused. cbn. by rewrite omap_app, app_assoc. }
  split; rewrite ?Ea; cbn.
  - intros j. specialize (H1 j). unfold awaits. cbn. rewrite fmap_app, !times_app. change (fmap fst [(k, rejection what)]) with [k]. rewrite !times_cons.
    change (times j []) with 0%nat. cbn. rewrite andb_false_r. cbn. lia.
  - intros j. specialize (H2 j). rewrite El in H2. rewrite !times_app, times_cons in *. change (times j []) with 0%nat. lia.
  - unfold awaited. cbn. rewrite !length_app. cbn. lia.
  - apply Forall_app. split; [done|by repeat constructor].
Qed.
Lemma once_deliver k r pre post d : d_drives d = pre ++ (k, Stepped r) :: post -> is_pending r = false -> delivers_once d -> delivers_once (deliver k r (pre ++ post) d).
Proof.
  intros E Hp Hd. unfold deliver. destruct (d_delivered d) eqn:Ed.
  { apply (once_same d); try done. by same_answers E. }
  destruct Hd as [H1 H2 H3 H4]. match goal with |- delivers_once ?x => set (d' := x) end.
  assert (answers_due d' = answers_due d ++ option_list ((fun id => (id, r)) <$> d_completion d)) as Ea.
  { unfold answers_due, d', on_run. cbn. rewrite E, !omap_app. cbn. destruct (d_completion d); cbn; by rewrite ?app_nil_r, ?app_assoc. }
  split; rewrite ?Ea; unfold awaits, awaited in *; subst d'; cbn; try done.
  - intros j. specialize (H1 j). rewrite Ed, andb_true_r in H1. rewrite fmap_app, times_app, andb_false_r.
    destruct (d_completion d) as [c|]; cbn in *; [|change (times j []) with 0%nat; lia]. rewrite times_cons. change (times j []) with 0%nat.
    rewrite (bool_decide_ext (Some c = Some j) (j = c)) in H1 by naive_solver. lia.
  - rewrite length_app. rewrite Ed in H3. destruct (d_completion d); cbn in *; lia.
  - apply Forall_app. split; [done|]. destruct (d_completion d); by repeat constructor.
Qed.
Lemma wake_same b d : answers_due (wake b d) = answers_due d /\ d_completion (wake b d) = d_completion d /\ d_delivered (wake b d) = d_delivered d
  /\ d_executes (wake b d) = d_executes d /\ d_rejected (wake b d) = d_rejected d /\ d_launching (wake b d) = d_launching d
  /\ d_arming (wake b d) = d_arming d /\ d_losses (wake b d) = d_losses d /\ d_callbacks (wake b d) = d_callbacks d.
Proof. unfold wake. destruct (d_resume d); [destruct b|]; done. Qed.
Lemma once_wake b d : delivers_once d -> delivers_once (wake b d).
Proof. destruct (wake_same b d) as (Ea & ? & ? & ? & ? & El & Er & _). apply once_same; [by rewrite Ea|done..|]. intros k. by rewrite El, Er. Qed.
Lemma schedule_same takes k d : let d' := schedule_drive takes k d in answers_due d' = answers_due d /\ d_completion d' = d_completion d
  /\ d_delivered d' = d_delivered d /\ d_executes d' = d_executes d /\ d_rejected d' = d_rejected d /\ d_launching d' = d_launching d
  /\ d_arming d' = d_arming d /\ d_callbacks d' = d_callbacks d.
Proof. unfold schedule_drive, schedule_copy. destruct (bool_decide _); [done|]. by destruct takes. Qed.

Lemma delivers_once_step d d' : drives d d' -> delivers_once d -> delivers_once d'.
Proof.
  assert (forall x y : D, (exists f i, begin_execute i (on_run f x) = Ok y) -> delivers_once x -> delivers_once y) as Hexec.
  { intros x y (f & i & E). by eapply once_begin. }
  destruct 1 as [i d d' E|o now d d' E|n now d d' E|pre k post d E|pre k post d E|what pre k post d E|pre k post d E|pre k post d E
    |fuel pre k post m' r d E Es|fuel pre k post m' e d E Es|pre k post r d E Hr|pre k post r d E Hr|pre k post b d E|t pre k post b d E
    |pre k post a d E|t pre k post d E|g r d|r d|b r d|pre post b d E|w d]; intros Hd.
  - apply (Hexec d), Hd. apply begins. eauto.
  - apply (Hexec d), Hd. apply begins. eauto.
  - apply (Hexec d), Hd. apply begins. eauto.
  - apply (once_same d); try done. intros j. cbn. rewrite E, !times_app, !times_cons. change (times j []) with 0%nat. lia.
  - apply (once_same d); try done. intros j. cbn. rewrite E, !times_app, !times_cons. lia.
  - by apply once_refuse.
  - apply (once_same d); try done. intros j. cbn. rewrite E, !times_app, !times_cons. lia.
  - apply (once_same d); try done. by same_answers E.
  - apply (once_same d); try done. by same_answers E.
  - apply (once_same d); try done. by same_answers E.
  - apply (once_same d); try done. by same_answers E.
  - by apply once_deliver.
  - apply (once_same d); try done. by same_answers E.
  - unfold look_subflow. set (d0 := d <| d_drives := pre ++ post |>).
    assert (answers_due d0 = answers_due d) as Ea by by same_answers E.
    destruct (_ || _); [|by apply (once_same d); try done; rewrite Ea].
    destruct (schedule_same t k d0) as (? & ? & ? & ? & ? & El & Er & _). apply (once_same d0); [by apply reflexive_eq|done..| |].
    + intros j. by rewrite El, Er.
    + by apply (once_same d); try done; rewrite Ea.
  - apply (once_same d); try done. unfold answers_due, respond. cbn. rewrite E, !omap_app. cbn. rewrite <- app_assoc. f_equiv.
    destruct a as [a|]; cbn; [|done]. by rewrite Permutation_middle.
  - unfold woken, schedule_copy. by destruct t; apply (once_same d).
  - unfold async_done. destruct (_ || _); [done|]. by apply once_wake, (once_same d).
  - unfold subflow_done. destruct (_ || _); [done|]. by apply once_wake, (once_same d).
  - by apply (once_same d).
  - by apply once_wake, (once_same d).
  - by apply once_wake, (once_same d).
Qed.

Lemma once_undriven m : delivers_once (undriven m).
Proof.
  split; [|intros ?; apply Nat.le_0_l|apply Nat.le_0_l|constructor]. intros k. rewrite (unawaited (undriven m)) by done. apply Nat.le_0_l.
Qed.
(** C2: an execution is answered once.  However drives, completions, retries, child
    runs, cancellations, resumptions, reruns, refusals of the scheduler and exceptions
    interleave, an execution is answered at most once, counting the answer it still
    waits for; only one whose first task the scheduler refused is answered twice at
    most.  No answer carries the internal pending result. *)
Theorem callback_once m d k : rtc drives (undriven m) d ->
  (times k (d_callbacks d).*1 + one (awaits k d) <= one (bool_decide (k < d_executes d)%nat) + times k (d_rejected d))%nat
  /\ (times k (d_rejected d) <= 1)%nat /\ Forall (fun r => is_pending r = false) (given_answers d).
Proof.
  intros Hr. assert (delivers_once d) as [H1 H2 _ H4].
  { pose proof (once_undriven m) as H0.
    induction Hr as [|x y z Hxy _ IH]; [done|]. by eapply IH, delivers_once_step. }
  specialize (H1 k). specialize (H2 k). unfold answers_due in H1, H4. rewrite fmap_app, times_app in H1. split_and!; [lia| |].
  - destruct (bool_decide _); cbn in *; lia.
  - apply Forall_app in H4 as [H4 _]. unfold given_answers. by rewrite Forall_fmap.
Qed.

(** ** Wake-ups

    [stirring]: a task is on its way to the next step, or a thread that will put one
    there, given the run as it stands. *)
Definition any_ready (r : RunImpl) : bool := a_ready (r_async r) || parallel_ready r || sf_ready (r_subflow r).
Definition running (ph : phase) : bool := match ph with Entered | Stepped _ => true | _ => false end.
Definition notes (r : RunImpl) (ph : phase) : bool :=
  match ph with
  | Entered | Stepped _ => true
  | SawAsync ready => ready || parallel_ready r || sf_ready (r_subflow r)
  | SawParallel ready => ready || sf_ready (r_subflow r)
  | Answering _ => false
  end.
Definition some_drive (P : phase -> bool) (d : D) : Prop := exists k ph, (k, ph) ∈ d_drives d /\ P ph = true.
Definition stirring (d : D) : Prop :=
  d_arming d <> [] \/ d_launching d <> [] \/ d_tasks d <> [] \/ d_wakes d <> [] \/ true ∈ d_notices d
  \/ some_drive (notes (the_run d)) d.
Record alert (d : D) : Prop := {
  alert_resume : awaited d = true -> is_Some (d_resume d) \/ d_arming d <> [];
  alert_driving : d_driving d = true -> some_drive running d;
  alert_ready : awaited d = true -> any_ready (the_run d) = true -> stirring d
}.

Lemma running_notes r d : some_drive running d -> some_drive (notes r) d.
Proof. intros (k & ph & Hin & Hr). exists k, ph. by destruct ph. Qed.
Lemma snoc_nonempty {A} (l : list A) x : l ++ [x] <> [].
Proof. by destruct l. Qed.
(** The thread of a drive leaves its place. *)
Lemma elsewhere (P : phase -> bool) pre k ph post d : d_drives d = pre ++ (k, ph) :: post -> some_drive P d ->
  P ph = true \/ exists j q, (j, q) ∈ pre ++ post /\ P q = true.
Proof.
  intros E (j & q & Hin & Hq). rewrite E in Hin. apply elem_of_app in Hin as [Hin|[[= -> ->]|Hin]%elem_of_cons];
    [right|by left|right]; exists j, q; set_solver.
Qed.

(** A thread that found nobody driving wakes the run; otherwise the driver is awake. *)
Lemma wake_alert go d :
  (awaited d = true -> is_Some (d_resume d) \/ d_arming d <> []) -> (d_driving d = true -> some_drive running d) ->
  (go = false -> awaited d = true -> any_ready (the_run d) = true -> stirring d) -> alert (wake go d).
Proof.
  intros H1 H2 H3. unfold wake. destruct (d_resume d) as [k|] eqn:E.
  - destruct go; split; cbn; auto. intros _ _. do 3 right. left. apply snoc_nonempty.
  - split; [by rewrite E|exact H2|]. intros Ha _. left. by destruct (H1 Ha) as [[? ?]|].
Qed.
Lemma done_alert f d : alert d -> alert (wake (negb (d_driving d)) (on_run f d)).
Proof.
  intros [H1 H2 H3]. apply wake_alert; [done..|]. intros Hd%negb_false_iff _ _. do 5 right. by apply running_notes, H2.
Qed.
Lemma execute_alert f i d d' : begin_execute i (on_run f d) = Ok d' -> alert d -> alert d'.
Proof.
  intros [_ ->]%begin_execute_Ok [H1 H2 H3]. split; cbn; [intros _; right|exact H2|intros _ _; left]; apply snoc_nonempty.
Qed.
Lemma branch_alert b x d : alert d -> alert (branch_done b x d).
Proof.
  intros [H1 H2 H3]. split; [exact H1|exact H2|]. intros Ha Hr.
  destruct (parallel_ready (the_run (branch_done b x d))) eqn:Ep.
  { do 4 right. left. change (true ∈ d_notices d ++ [parallel_ready (the_run (branch_done b x d))]). rewrite Ep. set_solver. }
  assert (parallel_ready (the_run d) = false) as Ep0.
  { revert Ep. unfold branch_done, the_run, on_run, parallel_ready. simpl.
    destruct (r_parallel _) as [p|]; [|done]. simpl. by destruct (_ && _). }
  destruct (H3 Ha) as [Hs|[Hs|[Hs|[Hs|[Hs|(k & ph & Hin & Hn)]]]]].
  { revert Hr. unfold any_ready. rewrite Ep, Ep0. done. }
  - by left.
  - right. by left.
  - do 2 right. by left.
  - do 3 right. by left.
  - do 4 right. left. unfold branch_done. simpl. set_solver.
  - do 5 right. exists k, ph. split; [done|]. destruct ph; try done; cbn in *; by rewrite ?Ep, Ep0 in *.
Qed.
(** A thread that moves on keeps the run stirring, if where it stands now still does. *)
Lemma moved_alert pre k ph ph' post d d' : d_drives d = pre ++ (k, ph) :: post -> running ph = false ->
  d_drives d' = (pre ++ post) ++ [(k, ph')] -> awaited d' = awaited d -> d_resume d' = d_resume d -> d_arming d' = d_arming d ->
  d_driving d' = d_driving d -> the_run d' = the_run d -> d_launching d' = d_launching d -> d_tasks d' = d_tasks d -> d_wakes d' = d_wakes d ->
  d_notices d' = d_notices d -> (notes (the_run d) ph = true -> notes (the_run d) ph' = true) -> alert d -> alert d'.
Proof.
  intros E Hrun E' Ea Er Eg Ed Em El Et Ew En Hn [H1 H2 H3]. unfold stirring in *. split; rewrite ?Ea, ?Er, ?Eg, ?Ed, ?Em; [done| |].
  - intros Hd. apply H2, (elsewhere _ _ _ _ _ _ E) in Hd as [|(j & q & Hin & Hq)]; [congruence|]. exists j, q. rewrite E'. set_solver.
  - intros Ha Hr. unfold stirring. rewrite Eg, El, Et, Ew, En, Em. destruct (H3 Ha Hr) as [Hs|[Hs|[Hs|[Hs|[Hs|Hs]]]]]; [tauto..|].
    do 5 right. apply (elsewhere _ _ _ _ _ _ E) in Hs as [Hs|(j & q & Hin & Hq)]; [exists k, ph'|exists j, q]; rewrite E'; set_solver.
Qed.
Lemma losses_grow d d' : drives d d' -> d_losses d' = [] -> d_losses d = [].
Proof.
  assert (forall x y : D, (exists f i, begin_execute i (on_run f x) = Ok y) -> d_losses y = d_losses x) as Hexec.
  { by intros x y (f & i & [_ ->]%begin_execute_Ok). }
  assert (forall b (x : D), d_losses (wake b x) = d_losses x) as Hwake by (intros b x; apply wake_same).
  destruct 1 as [i d d' E|o now d d' E|n now d d' E|pre k post d E|pre k post d E|what pre k post d E|pre k post d E|pre k post d E
    |fuel pre k post m' r d E Es|fuel pre k post m' e d E Es|pre k post r d E Hr|pre k post r d E Hr|pre k post b d E|t pre k post b d E
    |pre k post a d E|t pre k post d E|g r d|r d|b r d|pre post b d E|w d]; cbn; try done.
  1-3: rewrite (Hexec d) by (apply begins; eauto); done.
  - unfold deliver. by destruct (d_delivered d).
  - unfold look_subflow, schedule_drive, schedule_copy. by repeat case_match.
  - unfold woken, schedule_copy. by destruct t.
  - unfold async_done. destruct (_ || _); [done|]. by rewrite Hwake.
  - unfold subflow_done. destruct (_ || _); [done|]. by rewrite Hwake.
  - unfold notice. by rewrite Hwake.
  - unfold cancel. by rewrite Hwake.
Qed.
Lemma look_subflow_alert t pre k b post d : d_drives d = pre ++ (k, SawParallel b) :: post ->
  d_losses (look_subflow t k b (pre ++ post) d) = [] -> alert d -> alert (look_subflow t k b (pre ++ post) d).
Proof.
  intros E Hl [H1 H2 H3]. unfold look_subflow, schedule_drive, schedule_copy in *. cbn in *.
  assert (d_driving d = true -> exists j q, (j, q) ∈ pre ++ post /\ running q = true) as Hdr.
  { intros Hd. by apply H2, (elsewhere _ _ _ _ _ _ E) in Hd as [|]. }
  change (the_run (d <| d_drives := pre ++ post |>)) with (the_run d) in *.
  destruct (b || _) eqn:Eb; [destruct (bool_decide _); [done|]; destruct t; [|done]|].
  - split; cbn; [exact H1|exact Hdr|]. intros _ _. do 2 right. left. apply snoc_nonempty.
  - split; cbn; [exact H1|exact Hdr|]. intros Ha Hr. unfold stirring. cbn. destruct (H3 Ha Hr) as [Hs|[Hs|[Hs|[Hs|[Hs|Hs]]]]]; [tauto..|].
    do 5 right. apply (elsewhere _ _ _ _ _ _ E) in Hs as [Hs|Hs]; [cbn in Hs; congruence|exact Hs].
Qed.
Lemma alert_step d d' : drives d d' -> d_losses d' = [] -> alert d -> alert d'.
Proof.
  assert (forall x y : D, (exists f i, begin_execute i (on_run f x) = Ok y) -> alert x -> alert y) as Hexec.
  { intros x y (f & i & E). by eapply execute_alert. }
  destruct 1 as [i d d' E|o now d d' E|n now d d' E|pre k post d E|pre k post d E|what pre k post d E|pre k post d E|pre k post d E
    |fuel pre k post m' r d E Es|fuel pre k post m' e d E Es|pre k post r d E Hr|pre k post r d E Hr|pre k post b d E|t pre k post b d E
    |pre k post a d E|t pre k post d E|g r d|r d|b r d|pre post b d E|w d]; intros Hl Hd; pose proof Hd as [H1 H2 H3]; try done.
  - apply (Hexec d), Hd. apply begins. eauto.
  - apply (Hexec d), Hd. apply begins. eauto.
  - apply (Hexec d), Hd. apply begins. eauto.
  - split; cbn; [by left; eexists|exact H2|]. intros _ _. right. left. apply snoc_nonempty.
  - split; cbn; [exact H1|exact H2|]. intros _ _. do 2 right. left. apply snoc_nonempty.
  - split; unfold awaited; cbn; rewrite ?andb_false_r; try done. intros (j & q & Hin & Hq)%H2. exists j, q. cbn. set_solver.
  - split; cbn; [exact H1| |]; [intros _|intros _ _; do 5 right]; exists k, Entered; cbn; set_solver.
  - split; cbn; [exact H1| |]; [intros _|intros _ _; do 5 right]; exists k, (Stepped r); cbn; set_solver.
  - split; cbn; [exact H1|done|]. intros _ Hready. do 5 right. eexists k, _. cbn. split; [apply elem_of_app; right; by apply list_elem_of_singleton|done].
  - unfold deliver. destruct (d_delivered d) eqn:Ed; split; unfold awaited; cbn; rewrite ?Ed, ?andb_false_r; done.
  - eapply moved_alert; [exact E|done..].
  - by apply look_subflow_alert.
  - assert (forall P, P (Answering a) = false -> some_drive P d -> some_drive P (respond k a (pre ++ post) d)) as Hph.
    { intros P HP Hx. by apply (elsewhere _ _ _ _ _ _ E) in Hx as [?|Hx]; [congruence|]. }
    split; cbn; [exact H1|by intros ?; apply Hph, H2|]. intros Ha Hr. destruct (H3 Ha Hr) as [Hs|[Hs|[Hs|[Hs|[Hs|Hs]]]]]; [by unfold stirring; cbn; tauto..|].
    do 5 right. by apply Hph.
  - unfold woken, schedule_copy in *. destruct t; [|done]. split; cbn; [exact H1|exact H2|]. intros _ _. do 2 right. left. apply snoc_nonempty.
  - unfold async_done in *. destruct (_ || _); [done|]. by apply done_alert.
  - unfold subflow_done in *. destruct (_ || _); [done|]. by apply done_alert.
  - by apply branch_alert.
  - apply wake_alert; [exact H1|exact H2|]. intros Hb Ha Hready.
    destruct (H3 Ha Hready) as [Hs|[Hs|[Hs|[Hs|[Hs|Hs]]]]]; [by unfold stirring; cbn; tauto..| |by unfold stirring; cbn; tauto]. rewrite E in Hs.
    apply elem_of_app in Hs as [Hs|[<-|Hs]%elem_of_cons]; [do 4 right; left; cbn; set_solver| |do 4 right; left; cbn; set_solver].
    apply negb_false_iff in Hb. do 5 right. by apply running_notes, H2.
  - by apply wake_alert.
Qed.

Lemma alert_steps d d' : rtc drives d d' -> d_losses d' = [] -> alert d -> alert d'.
Proof.
  intros Hd Hl. enough (d_losses d = [] /\ (alert d -> alert d')) by tauto. induction Hd as [|x y z Hxy _ IH]; [done|].
  destruct (IH Hl) as [Hy Ha]. split; [by eapply losses_grow|]. intros Hx. by eapply Ha, alert_step.
Qed.

(** The executions around: none is newer than the last one, and while that one is
    awaited its drive is whole. *)
Definition around (d : D) : list nat :=
  option_list (d_resume d) ++ d_arming d ++ d_launching d ++ d_tasks d ++ d_wakes d ++ (d_drives d).*1 ++ d_emptied d.
Definition closing (p : nat * phase) : option nat := match p.2 with Answering _ => Some p.1 | _ => None end.
Definition spent (d : D) : list nat := d_emptied d ++ omap closing (d_drives d).
Record orderly (d : D) : Prop := {
  orderly_ids : forall k, k ∈ around d -> (k < d_executes d)%nat;
  orderly_old : awaited d = true -> forall k, k ∈ spent d -> (Datatypes.S k < d_executes d)%nat
}.
(** A drive that will schedule nothing: its execution is answered. *)
Definition stale (d : D) : Prop := exists k, k ∈ (d_drives d).*1 /\ k ∈ d_emptied d.
Lemma orderly_same d d' : around d' ⊆ around d -> d_executes d' = d_executes d ->
  (awaited d' = true -> awaited d = true /\ spent d' ⊆ spent d) -> orderly d -> orderly d'.
Proof.
  intros Hr Ee Ha [H1 H2]. split; rewrite Ee.
  - intros k Hk. by apply H1, Hr.
  - intros Ha' k Hk. destruct (Ha Ha') as [Ha0 Hs]. by apply H2, Hs.
Qed.
Lemma orderly_begin f i d d' : begin_execute i (on_run f d) = Ok d' -> orderly d -> orderly d'.
Proof.
  intros [_ ->]%begin_execute_Ok [H1 _].
  assert (spent d ⊆ around d) as Hs.
  { unfold spent, around. intros k [Hk|Hk]%elem_of_app; [set_solver|]. apply list_elem_of_omap in Hk as ([j ph] & Hin & Hc).
    destruct ph; try done. injection Hc as <-. apply elem_of_app. right. do 4 (apply elem_of_app; right). apply elem_of_app. left.
    apply list_elem_of_fmap. by eexists (_, _). }
  split; cbn.
  - intros k Hk. destruct (decide (k = d_executes d)) as [->|]; [lia|]. assert (k ∈ around d) as Hk'%H1; [|lia].
    unfold around in *. cbn in Hk. set_solver.
  - intros _ k Hk. assert (k < d_executes d)%nat; [|lia]. apply H1, Hs. exact Hk.
Qed.
Lemma wake_around go d : around (wake go d) ⊆ around d /\ spent (wake go d) = spent d /\ awaited (wake go d) = awaited d.
Proof.
  unfold wake. destruct (d_resume d) as [k|] eqn:E; [destruct go|]; split_and!; try done.
  unfold around. cbn. rewrite E. set_solver.
Qed.
Lemma orderly_wake go d : orderly d -> orderly (wake go d).
Proof. destruct (wake_around go d) as (? & Es & Ea). apply orderly_same; [done|apply wake_same|]. rewrite Es, Ea. done. Qed.
(** One thread steps: the executions of the others stay. *)
Ltac around_same E := unfold around, spent; cbn; rewrite ?E, ?fmap_app, ?omap_app; cbn; set_solver.
Lemma orderly_step d d' : drives d d' -> orderly d -> orderly d'.
Proof.
  assert (forall x y : D, (exists f i, begin_execute i (on_run f x) = Ok y) -> orderly x -> orderly y) as Hexec.
  { intros x y (f & i & E). by eapply orderly_begin. }
  destruct 1 as [i d d' E|o now d d' E|n now d d' E|pre k post d E|pre k post d E|what pre k post d E|pre k post d E|pre k post d E
    |fuel pre k post m' r d E Es|fuel pre k post m' e d E Es|pre k post r d E Hr|pre k post r d E Hr|pre k post b d E|t pre k post b d E
    |pre k post a d E|t pre k post d E|g r d|r d|b r d|pre post b d E|w d]; intros Hd.
  - apply (Hexec d), Hd. apply begins. eauto.
  - apply (Hexec d), Hd. apply begins. eauto.
  - apply (Hexec d), Hd. apply begins. eauto.
  - apply (orderly_same d); [around_same E|done|by intros|done].
  - apply (orderly_same d); [around_same E|done|by intros|done].
  - apply (orderly_same d); [around_same E|done|unfold awaited; cbn; by rewrite ?andb_false_r|done].
  - apply (orderly_same d); [around_same E|done|by intros|done].
  - apply (orderly_same d); [around_same E|done|intros Ha; split; [done|around_same E]|done].
  - apply (orderly_same d); [around_same E|done|intros Ha; split; [done|around_same E]|done].
  - apply (orderly_same d); [around_same E|done|intros Ha; split; [done|around_same E]|done].
  - apply (orderly_same d); [around_same E|done|intros Ha; split; [done|around_same E]|done].
  - unfold deliver. destruct (d_delivered d) eqn:Ed; (apply (orderly_same d); [around_same E|done| |done]); unfold awaited; cbn; rewrite ?Ed, ?andb_false_r; done.
  - apply (orderly_same d); [around_same E|done|intros Ha; split; [done|around_same E]|done].
  - unfold look_subflow, schedule_drive, schedule_copy. repeat case_match;
      (apply (orderly_same d); [around_same E|done|intros Ha; split; [done|around_same E]|done]).
  - apply (orderly_same d); [around_same E|done|intros Ha; split; [done|around_same E]|done].
  - unfold woken, schedule_copy. destruct t; (apply (orderly_same d); [around_same E|done|by intros|done]).
  - unfold async_done. destruct (_ || _); [done|]. by apply orderly_wake, (orderly_same d).
  - unfold subflow_done. destruct (_ || _); [done|]. by apply orderly_wake, (orderly_same d).
  - by apply (orderly_same d).
  - by apply orderly_wake, (orderly_same d).
  - by apply orderly_wake, (orderly_same d).
Qed.

(** The threads and tasks already under way, with no event from outside and a scheduler
    that takes what they schedule. *)
Inductive internal : D -> D -> Prop :=
| IArm pre k post d : d_arming d = pre ++ k :: post -> internal d (arm k (pre ++ post) d)
| ILaunch pre k post d : d_launching d = pre ++ k :: post -> internal d (launched k (pre ++ post) d)
| IEnter pre k post d : d_tasks d = pre ++ k :: post -> internal d (enter k (pre ++ post) d)
| IPending pre k post r d :
    d_drives d = pre ++ (k, Stepped r) :: post -> is_pending r = true -> internal d (look_async k (pre ++ post) d)
| IDeliver pre k post r d :
    d_drives d = pre ++ (k, Stepped r) :: post -> is_pending r = false -> internal d (deliver k r (pre ++ post) d)
| IParallel pre k post ready d :
    d_drives d = pre ++ (k, SawAsync ready) :: post -> internal d (look_parallel k ready (pre ++ post) d)
| ISubflow pre k post ready d :
    d_drives d = pre ++ (k, SawParallel ready) :: post -> internal d (look_subflow true k ready (pre ++ post) d)
| IRespond pre k post answer d :
    d_drives d = pre ++ (k, Answering answer) :: post -> internal d (respond k answer (pre ++ post) d)
| IWoken pre k post d : d_wakes d = pre ++ k :: post -> internal d (woken true k (pre ++ post) d)
| INotice pre post ready d :
    d_notices d = pre ++ ready :: post -> internal d (notice ready (pre ++ post) d).

(** The next step begins, or the result is delivered. *)
Definition moves_on (d : D) : Prop :=
  exists d', rtc internal d d' /\ ((exists k, (k, Entered) ∈ d_drives d') \/ d_delivered d' = true).
Lemma moves_step d d' : internal d d' -> moves_on d' -> moves_on d.
Proof. intros Hi (e & He & Hm). exists e. split; [by eapply rtc_l|done]. Qed.
Lemma nonempty_split {A} (l : list A) : l <> [] -> exists pre x post, l = pre ++ x :: post.
Proof. destruct l as [|x l]; [done|]. by exists [], x, l. Qed.
Lemma moves_tasks d : d_tasks d <> [] -> moves_on d.
Proof.
  intros (pre & k & post & E)%nonempty_split. exists (enter k (pre ++ post) d). split; [by apply rtc_once, IEnter|]. left. exists k. cbn. set_solver.
Qed.
Lemma moves_launching d : d_launching d <> [] -> moves_on d.
Proof. intros (pre & k & post & E)%nonempty_split. eapply moves_step; [by eapply ILaunch|]. apply moves_tasks, snoc_nonempty. Qed.
Lemma moves_arming d : d_arming d <> [] -> moves_on d.
Proof. intros (pre & k & post & E)%nonempty_split. eapply moves_step; [by eapply IArm|]. apply moves_launching, snoc_nonempty. Qed.
Lemma moves_wakes d : d_wakes d <> [] -> moves_on d.
Proof. intros (pre & k & post & E)%nonempty_split. eapply moves_step; [by eapply IWoken|]. apply moves_tasks, snoc_nonempty. Qed.
Lemma moves_parallel d k ready : (k, SawParallel ready) ∈ d_drives d -> k ∉ d_emptied d -> notes (the_run d) (SawParallel ready) = true -> moves_on d.
Proof.
  intros (pre & post & E)%list_elem_of_split Hk Hn. eapply moves_step; [by eapply ISubflow|]. apply moves_tasks.
  unfold look_subflow, schedule_drive, schedule_copy. cbn in *. change (the_run (d <| d_drives := pre ++ post |>)) with (the_run d).
  rewrite Hn, bool_decide_eq_false_2 by done. apply snoc_nonempty.
Qed.
Lemma moves_async d k ready : (k, SawAsync ready) ∈ d_drives d -> k ∉ d_emptied d -> notes (the_run d) (SawAsync ready) = true -> moves_on d.
Proof.
  intros (pre & post & E)%list_elem_of_split Hk Hn. eapply moves_step; [by eapply IParallel|].
  eapply (moves_parallel _ k); [cbn; apply elem_of_app; right; by apply list_elem_of_singleton|done|exact Hn].
Qed.
Lemma moves_phase d : any_ready (the_run d) = true -> some_drive (notes (the_run d)) d -> moves_on d \/ stale d.
Proof.
  intros Hr (k & ph & Hin & Hn). destruct (decide (k ∈ d_emptied d)) as [Hk|Hk].
  { right. exists k. split; [|done]. apply list_elem_of_fmap. by eexists (_, _). }
  left. destruct ph as [|r|b|b|a]; [| |by eapply moves_async|by eapply moves_parallel|done].
  { exists d. split; [done|]. left. by exists k. }
  apply list_elem_of_split in Hin as (pre & post & E). destruct (is_pending r) eqn:Ep.
  - eapply moves_step; [by eapply IPending|].
    eapply (moves_async _ k); [cbn; apply elem_of_app; right; by apply list_elem_of_singleton|done|exact Hr].
  - eexists. split; [by eapply rtc_once, IDeliver|]. right. unfold deliver. by destruct (d_delivered d) eqn:Ed.
Qed.

(** C9: no wake-up is lost but by the scheduler, by an exception or by the task of an
    earlier execution.  Take any interleaving in which the scheduler refused no
    continuation, no emptied drive was scheduled and no step threw.  Whenever a caller
    waits for a run whose asynchronous, parallel or subflow continuation is ready, the
    tasks and threads already under way lead to the next step, or to the answer, with
    no further event from outside; or else a task of an execution that was answered
    before this one is still at work, and its drive is empty. *)
Theorem no_lost_wakeup m d : rtc drives (undriven m) d -> d_losses d = [] ->
  awaited d = true -> any_ready (the_run d) = true -> moves_on d \/ (stale d /\ (2 <= d_executes d)%nat).
Proof.
  intros Hd Hl Ha Hr. assert (alert d) as [H1 H2 H3].
  { by apply (alert_steps (undriven m)). }
  assert (orderly d) as [_ Ho].
  { assert (orderly (undriven m)) as H0 by (split; [by intros k ?%elem_of_nil|done]). clear Hl Ha Hr H1 H2 H3.
    induction Hd as [|x y z Hxy _ IH]; [done|]. by eapply IH, orderly_step. }
  assert (some_drive (notes (the_run d)) d -> moves_on d \/ (stale d /\ (2 <= d_executes d)%nat)) as Hph.
  { intros Hs. destruct (moves_phase d Hr Hs) as [|Hst]; [by left|]. right. split; [done|]. destruct Hst as (k & _ & Hk).
    specialize (Ho Ha k). assert (Datatypes.S k < d_executes d)%nat; [|lia]. apply Ho, elem_of_app. by left. }
  destruct (H3 Ha Hr) as [Hs|[Hs|[Hs|[Hs|[Hs|Hs]]]]].
  - left. by apply moves_arming.
  - left. by apply moves_launching.
  - left. by apply moves_tasks.
  - left. by apply moves_wakes.
  - destruct (d_driving d) eqn:Ed; [by apply Hph, running_notes, H2|]. left. destruct (H1 Ha) as [[k Ek]|]; [|by apply moves_arming].
    apply list_elem_of_split in Hs as (pre & post & E). eapply moves_step; [by eapply INotice|].
    apply moves_wakes. unfold notice, wake. cbn. rewrite Ek, Ed. apply snoc_nonempty.
  - by apply Hph.
Qed.

(** ** An exception in a step *)
Definition stranded (d : D) : Prop :=
  d_arming d = [] /\ d_launching d = [] /\ d_tasks d = [] /\ d_wakes d = [] /\ d_drives d = [] /\ d_driving d = true
  /\ awaited d = true.
Lemma stranded_step d d' :
  stranded d -> drives d d' -> (forall reason, d' <> cancel reason d) -> stranded d' /\ d_callbacks d' = d_callbacks d.
Proof.
  intros (G & L & T & Wk & Dr & Dv & A) Hs Hc.
  assert (forall x, (exists f i, begin_execute i (on_run f d) = Ok x) -> False) as Hno.
  { intros x (f & i & [Ha _]%begin_execute_Ok). change (awaited d = false) in Ha. congruence. }
  assert (forall go x, go = false -> wake go x = x) as Hwake by (intros ? x ->; unfold wake; by destruct (d_resume x)).
  destruct Hs as [i d d' E|o now d d' E|n now d d' E|pre k post d E|pre k post d E|what pre k post d E|pre k post d E|pre k post d E
    |fuel pre k post m' r d E Es|fuel pre k post m' e d E Es|pre k post r d E Hr|pre k post r d E Hr|pre k post b d E|t pre k post b d E
    |pre k post a d E|t pre k post d E|g r d|r d|b r d|pre post b d E|w d]; try (exfalso; rewrite ?G, ?L, ?T, ?Wk, ?Dr in E; by destruct pre).
  1-3: exfalso; eapply Hno, begins; eauto.
  - unfold async_done. destruct (_ || _); [done|]. rewrite Hwake by by rewrite Dv. done.
  - unfold subflow_done. destruct (_ || _); [done|]. rewrite Hwake by by rewrite Dv. done.
  - done.
  - unfold notice. rewrite Hwake by (rewrite Dv; apply andb_false_r). done.
  - by destruct (Hc w).
Qed.

(** an exception that leaves a step strands the run.  When the only drive task's
    step throws, no completion, timer, child run or new execution that follows ever
    answers the caller; only a cancellation drives the run again. *)
Theorem escaped_exception_strands fuel m' e k d d' :
  d_drives d = [(k, Entered)] -> d_arming d = [] -> d_tasks d = [] -> d_launching d = [] -> d_wakes d = [] -> d_driving d = true ->
  awaited d = true -> execute_step cfg host fuel (d_input d) (d_machine d) = (Err (Throw e), m') ->
  exists d1, drives d d1 /\
    (rtc (fun a b => drives a b /\ forall reason, b <> cancel reason a) d1 d' ->
     d_callbacks d' = d_callbacks d /\ awaited d' = true).
Proof.
  intros Dr G T L Wk Dv A Hs. eexists. split; [by eapply (DThrow fuel [] k [] m' e)|].
  assert (forall x y, rtc (fun a b => drives a b /\ forall reason, b <> cancel reason a) x y -> stranded x ->
    stranded y /\ d_callbacks y = d_callbacks x) as Hall.
  { intros x y. induction 1 as [|x y z [Hd Hc] _ IH]; [done|]. intros Hx.
    destruct (stranded_step _ _ Hx Hd Hc) as [Hy E]. destruct (IH Hy) as [Hz E']. split; [done|congruence]. }
  intros Hr. apply Hall in Hr as [(_ & _ & _ & _ & _ & _ & Ha) E]; done.
Qed.

(** ** Selective rerun *)
Definition leads (ir : WorkflowIR) (x y : string) : Prop := exists n, find_node ir x = Some n /\ y ∈ successors n.

Lemma rerun_graph_of ir x : graph_of (rerun_graph ir) x = match find_node ir x with Some n => successors n | None => [] end.
Proof.
  unfold graph_of, rerun_graph.
  assert (forall idx, om_get x (omap (fun p : string * nat => n ← find_node ir p.1; Some (p.1, successors n)) idx)
    = if om_mem x idx then successors <$> find_node ir x else None) as ->.
  { intros idx. unfold om_mem. induction idx as [|[k i] idx IH]; simpl; [done|].
    destruct (String.eqb_spec x k) as [<-|Hne].
    - destruct (find_node ir x) eqn:E; simpl; [by rewrite str_eqb_refl|]. etrans; [exact IH|]. by destruct (om_get x idx).
    - destruct (find_node ir k); simpl; [|exact IH]. by destruct (String.eqb_spec x k). }
  unfold om_mem, find_node. by destruct (om_get x (w_index ir)); simpl; [destruct (w_nodes ir !! _)|].
Qed.
Lemma rerun_nodes_spec ir node x : x ∈ rerun_nodes ir node <-> rtc (leads ir) node x.
Proof.
  unfold rerun_nodes. cbv zeta.
  assert (forall l (m : list (string * unit)), x ∈ (foldl (fun m k => om_set k tt m) m l).*1 <-> x ∈ l \/ x ∈ m.*1) as ->.
  { induction l as [|k l IH]; intros m; simpl; [set_solver|]. rewrite IH, om_set_keys. set_solver. }
  rewrite reach_spec. assert (forall a b, arc_in (rerun_graph ir) a b <-> leads ir a b) as Harc.
  { intros a b. unfold arc_in, leads. rewrite rerun_graph_of. destruct (find_node ir a); [naive_solver|set_solver]. }
  split.
  - intros [Hr|[]%elem_of_nil]. induction Hr; [done|]. eapply rtc_l; [by apply Harc|done].
  - intros Hr. left. induction Hr; [done|]. eapply rtc_l; [by apply Harc|done].
Qed.

(** One node's reset, and that of a list of nodes. *)
Lemma reset_nodes_spec nodes r r' x :
  reset_nodes nodes r = Ok r' ->
  (x ∈ nodes -> jget x (r_outputs r') = Ok JNull /\ jget_path ["_effects"; x] (r_state r') = Ok JNull
     /\ om_get x (r_node_status r') = Some Pending)
  /\ (x ∉ nodes -> jget x (r_outputs r') = jget x (r_outputs r)
     /\ jget_path ["_effects"; x] (r_state r') = jget_path ["_effects"; x] (r_state r)
     /\ om_get x (r_node_status r') = om_get x (r_node_status r)).
Proof.
  revert r. induction nodes as [|k nodes IH]; simpl; intros r E; [by injection E as <-; split; [set_solver|]|].
  apply bind_Ok in E as (o & Eo & E). apply bind_Ok in E as (f & Ef & E). apply bind_Ok in E as (f' & Ef' & E).
  apply bind_Ok in E as (st & Es & E). apply IH in E as [I1 I2]. simpl in I2.
  destruct (decide (x ∈ nodes)) as [Hx|Hx]; [split; [auto|set_solver]|]. clear I1. destruct (I2 Hx) as (-> & -> & ->).
  rewrite (jget_jset_eq _ _ _ _ Es). cbn [mbind res_bind]. split.
  - intros [->|]%elem_of_cons; [|done]. rewrite om_get_set_eq. cbn [mbind res_bind].
    by rewrite (jget_jremove_eq _ _ _ Eo), (jget_jremove_eq _ _ _ Ef').
  - intros Hk. assert (k <> x) as Hne by set_solver. rewrite om_get_set_ne by done. rewrite Ef. cbn [mbind res_bind].
    by rewrite (jget_jremove_ne _ _ _ _ Hne Eo), (jget_jremove_ne _ _ _ _ Hne Ef').
Qed.

(** a selective rerun of a node that may be replayed starts the run again at that
    node, in replay mode, with the output, the effect record and the status of exactly
    the nodes it leads to, along edges, error edges, branches and joins, forgotten;
    every other node keeps them. *)
Theorem rerun_resets_reachable node now d d' x :
  selective_rerun node now d = Ok (inr d') ->
  let r := the_run d in let r' := the_run d' in
  r_current r' = node /\ r_completed r' = false /\ o_mode (r_options r') = Replay /\ awaited d' = true
  /\ (rtc (leads (c_workflow cfg)) node x -> jget x (r_outputs r') = Ok JNull
        /\ jget_path ["_effects"; x] (r_state r') = Ok JNull /\ om_get x (r_node_status r') = Some Pending)
  /\ (~ rtc (leads (c_workflow cfg)) node x -> jget x (r_outputs r') = jget x (r_outputs r)
        /\ jget_path ["_effects"; x] (r_state r') = jget_path ["_effects"; x] (r_state r)
        /\ om_get x (r_node_status r') = om_get x (r_node_status r)).
Proof.
  unfold selective_rerun. intros E. destruct (find_node _ node) as [st|]; [|done].
  assert (exists r1, reset_nodes (rerun_nodes (c_workflow cfg) node) (the_run d) = Ok r1
    /\ the_run d' = r1 <| r_current := node |> <| r_completed := false |> <| r_is_suspended := false |>
        <| r_options := (r_options r1) <| o_mode := Replay |> |> <| r_started := now |> /\ awaited d' = true) as (r1 & Hr & -> & Ha).
  { destruct (n_replay st); try done; apply bind_Ok in E as (r1 & Hr & E); apply bind_Ok in E as (e & Ee & E);
      injection E as ->; apply begin_execute_Ok in Ee as [_ ->]; by exists r1. }
  cbv zeta. simpl. apply (reset_nodes_spec _ _ _ x) in Hr as [H1 H2]. rewrite rerun_nodes_spec in H1, H2. done.
Qed.
End Drive.
