(* ===== verification/Lease.v ===== *)
(** * Resource leases (src/resource_lease.cpp)

    [FairResourceLeaseProvider] hands out units of named resources, for a limited time,
    to callers that queue by priority, age and fairness key; [SemaphoreLeaseProvider] is
    the one-resource case.  An operation under the provider's mutex is a function on
    [Provider]; a caller inside [acquire] is a [Call], and [leasing] interleaves any
    number of them with renewals, destructions and expiry.  Clocks are arguments:
    [unix] in milliseconds, [steady] in nanoseconds. *)

From S2P Require Import Prelude Json Expr Sha256 Ir Reliability Workflow Trace RunState.
Open Scope string_scope.
Open Scope list_scope.
Open Scope Z_scope.

Definition lease_error (code message : string) : Error := mkError "resource_limit" code message true.

Abbreviation amounts := (list (string * Z)).

(** The state a [FairLease] shares with the provider; [ls_alive] is whether the lease
    object still exists, which is what the provider's weak pointer sees. *)
Record LeaseState := mkLeaseState {
  ls_id : string; ls_token : Z; ls_expires : Z; ls_resources : amounts; ls_released : bool; ls_alive : bool
}.
#[export] Instance eta_LeaseState : Settable LeaseState := fun s =>
  mkLeaseState (ls_id s) (ls_token s) (ls_expires s) (ls_resources s) (ls_released s) (ls_alive s).

Record Waiter := mkWaiter { wt_sequence : Z; wt_priority : Z; wt_key : string; wt_enqueued : Z }.

Record Provider := mkProvider {
  lp_capacity : amounts; lp_available : amounts; lp_waiters : list Waiter; lp_active : list LeaseState;
  lp_last_key : string; lp_next_sequence : Z; lp_next_token : Z
}.
#[export] Instance eta_Provider : Settable Provider := fun p =>
  mkProvider (lp_capacity p) (lp_available p) (lp_waiters p) (lp_active p) (lp_last_key p)
    (lp_next_sequence p) (lp_next_token p).

(** ** Units *)

(** [available[name] += amount] and [-=], for every item. *)
Definition give (available resources : amounts) : amounts :=
  foldl (fun m item => om_set item.1 (u64 (default 0 (om_get item.1 m) + item.2)) m) available resources.
Definition take_units (available resources : amounts) : amounts :=
  foldl (fun m item => om_set item.1 (u64 (default 0 (om_get item.1 m) - item.2)) m) available resources.

Definition fits (resources : amounts) (p : Provider) : bool :=
  forallb (fun item => match om_get item.1 (lp_available p) with
                       | None => false
                       | Some found => negb (item.2 =? 0) && (item.2 <=? found)
                       end) resources
  && match resources with [] => false | _ => true end.

(** [Impl::sweep]: forget destroyed leases, take back expired ones. *)
Definition expired (unix : Z) (s : LeaseState) : bool := negb (ls_released s) && (ls_expires s <=? unix).
Fixpoint sweep_leases (unix : Z) (active : list LeaseState) (available : amounts) : list LeaseState * amounts :=
  match active with
  | [] => ([], available)
  | s :: rest =>
    if negb (ls_alive s) then sweep_leases unix rest available
    else if expired unix s then
      let '(rest, available) := sweep_leases unix rest (give available (ls_resources s)) in
      (s <| ls_released := true |> :: rest, available)
    else let '(rest, available) := sweep_leases unix rest available in (s :: rest, available)
  end.
Definition sweep (unix : Z) (p : Provider) : Provider :=
  let '(active, available) := sweep_leases unix (lp_active p) (lp_available p) in
  p <| lp_active := active |> <| lp_available := available |>.

(** ** Queueing *)

(** A waiter's priority, one higher for every tenth of a second it has waited. *)
Definition effective (steady : Z) (w : Waiter) : Z :=
  wt_priority w + ((steady - wt_enqueued w) ÷ 1000000) ÷ 100.
Definition best (steady : Z) (w : Waiter) (p : Provider) : Z :=
  foldl (fun b item => Z.max b (effective steady item)) (effective steady w) (lp_waiters p).
Definition selected (steady : Z) (w : Waiter) (p : Provider) : bool :=
  let b := best steady w p in
  let other item := (effective steady item =? b) && negb (String.eqb (wt_key item) (lp_last_key p)) in
  (effective steady w =? b)
  && forallb (fun item => negb (other item && (wt_sequence item <? wt_sequence w))) (lp_waiters p)
  && (negb (String.eqb (wt_key w) (lp_last_key p)) || forallb (fun item => negb (other item)) (lp_waiters p)).

(** [waiters.remove(waiter)]: waiters are told apart by their sequence numbers. *)
Definition remove_waiter (w : Waiter) (p : Provider) : Provider :=
  p <| lp_waiters := List.filter (fun x => negb (wt_sequence x =? wt_sequence w)) (lp_waiters p) |>.

(** ** acquire *)

(** The constructors. *)
Definition provider_new (capacities : amounts) : exc Provider :=
  match capacities with
  | [] => Err (InvalidArgument "resource capacities must not be empty")
  | _ => if existsb (fun item => str_empty item.1 || (item.2 =? 0)) capacities
         then Err (InvalidArgument "resource capacity must have a name and positive value")
         else Ok (mkProvider capacities capacities [] [] "" 1 1)
  end.
Definition semaphore_new (capacity : Z) : exc Provider :=
  p ← provider_new [("slots", capacity)];
  if capacity =? 0 then Err (InvalidArgument "lease capacity must be positive") else Ok p.

(** What is asked for: units of "slots" unless resources are named. *)
Definition requested (q : ResourceRequest) : amounts :=
  match q_resources q with [] => [("slots", q_units q)] | r => r end.

(** The checks made before queueing; the first bad resource is reported. *)
Definition bad_resource (p : Provider) (item : string * Z) : bool :=
  str_empty item.1 || (item.2 =? 0)
  || match om_get item.1 (lp_capacity p) with None => true | Some c => c <? item.2 end.
Definition check_request (q : ResourceRequest) (p : Provider) : Result amounts :=
  if q_lease_ttl_ms q =? 0 then Err (lease_error "LEASE_TTL_INVALID" "lease TTL must be positive")
  else match List.find (bad_resource p) (requested q) with
       | Some item => Err (lease_error "LEASE_CAPACITY" ("invalid resource request: " +:+ item.1))
       | None => Ok (requested q)
       end.

(** A caller in the loop of [acquire]: its waiter, what it asks for, when it started. *)
Record Call := mkCall { ac_waiter : Waiter; ac_resources : amounts; ac_request : ResourceRequest; ac_started : Z }.

Definition join_queue (steady : Z) (resources : amounts) (q : ResourceRequest) (p : Provider) : Call * Provider :=
  let key := if str_empty (q_fairness_key q) then q_run_id q else q_fairness_key q in
  let w := mkWaiter (lp_next_sequence p) (q_priority q) key steady in
  (mkCall w resources q steady,
   p <| lp_next_sequence := u64 (lp_next_sequence p + 1) |> <| lp_waiters := lp_waiters p ++ [w] |>).

Definition lease_of (s : LeaseState) : ResourceLease := mkLease (ls_id s) (ls_token s) (ls_expires s).

(** The granting branch of the loop. *)
Definition grant (unix : Z) (c : Call) (p : Provider) : LeaseState * Provider :=
  let token := lp_next_token p in
  let s := mkLeaseState ("lease-" +:+ to_string token) token (u64 (unix + q_lease_ttl_ms (ac_request c)))
             (ac_resources c) false true in
  let p := remove_waiter (ac_waiter c) (p <| lp_available := take_units (lp_available p) (ac_resources c) |>) in
  (s, p <| lp_last_key := wt_key (ac_waiter c) |> <| lp_next_token := u64 (token + 1) |>
        <| lp_active := lp_active p ++ [s] |>).

(** One turn of [for(;;)]: [None] waits on, otherwise what [acquire] returns.
    [cancelled] is the reason of a cancellation that was requested. *)
Definition poll (unix steady : Z) (cancelled : option string) (c : Call) (p : Provider)
    : option (Result ResourceLease) * Provider :=
  let p := sweep unix p in
  if selected steady (ac_waiter c) p && fits (ac_resources c) p then
    let '(s, p) := grant unix c p in (Some (Ok (lease_of s)), p)
  else match cancelled with
  | Some reason => (Some (Err (lease_error "LEASE_CANCELLED" reason)), remove_waiter (ac_waiter c) p)
  | None =>
    let deadline := q_deadline_remaining_ms (ac_request c) in
    if negb (deadline =? 0) && (deadline <=? u64 ((steady - ac_started c) ÷ 1000000)) then
      (Some (Err (lease_error "LEASE_DEADLINE" "resource lease deadline exceeded")), remove_waiter (ac_waiter c) p)
    else (None, p)
  end.

(** ** The lease *)
Definition on_lease (token : Z) (f : LeaseState -> LeaseState) (p : Provider) : Provider :=
  p <| lp_active := (fun s => if ls_token s =? token then f s else s) <$> lp_active p |>.
Definition find_lease (token : Z) (p : Provider) : option LeaseState :=
  List.find (fun s => ls_token s =? token) (lp_active p).

(** [FairLease::release] *)
Definition release (s : LeaseState) (p : Provider) : Provider :=
  if ls_released s then p
  else (on_lease (ls_token s) (fun s => s <| ls_released := true |>) p)
         <| lp_available := give (lp_available p) (ls_resources s) |>.

Definition renew (unix ttl_ms : Z) (s : LeaseState) (p : Provider) : Result Z * Provider :=
  if ttl_ms =? 0 then (Err (lease_error "LEASE_TTL_INVALID" "lease TTL must be positive"), p)
  else if ls_released s || (ls_expires s <=? unix) then
    (Err (lease_error "LEASE_EXPIRED" "lease has expired"), if negb (ls_released s) then release s p else p)
  else let expires := u64 (unix + ttl_ms) in
       (Ok expires, on_lease (ls_token s) (fun s => s <| ls_expires := expires |>) p).

(** [~FairLease]: released, and gone for the provider's weak pointer. *)
Definition destroy (s : LeaseState) (p : Provider) : Provider :=
  on_lease (ls_token s) (fun s => s <| ls_alive := false |>) (release s p).

Definition capacities (p : Provider) : amounts := lp_capacity p.
Definition available (unix : Z) (p : Provider) : amounts * Provider :=
  let p := sweep unix p in (lp_available p, p).
Definition semaphore_available (unix : Z) (p : Provider) : exc Z * Provider :=
  let '(a, p) := available unix p in
  (match om_get "slots" a with Some n => Ok (u32 n) | None => Err (LogicError "map::at") end, p).

(** ** Interleavings *)
Record System := mkSystem { sy_provider : Provider; sy_calls : list Call; sy_granted : list Z }.
#[export] Instance eta_System : Settable System := fun s => mkSystem (sy_provider s) (sy_calls s) (sy_granted s).

(** A [std::map<std::string,std::uint64_t>]. *)
Definition amounts_ok (l : amounts) : Prop := om_sorted l /\ Forall (fun item => is_u64 item.2) l.
Definition lease_token (out : option (Result ResourceLease)) : list Z :=
  match out with Some (Ok l) => [l_fencing_token l] | _ => [] end.

Inductive leasing : System -> System -> Prop :=
| LAsk steady q resources c p' s :
    amounts_ok (requested q) -> check_request q (sy_provider s) = Ok resources ->
    join_queue steady resources q (sy_provider s) = (c, p') ->
    leasing s (s <| sy_provider := p' |> <| sy_calls := sy_calls s ++ [c] |>)
| LTurn unix steady cancelled pre c post out p' s :
    sy_calls s = pre ++ c :: post -> poll unix steady cancelled c (sy_provider s) = (out, p') ->
    leasing s (s <| sy_provider := p' |>
                 <| sy_calls := match out with None => sy_calls s | Some _ => pre ++ post end |>
                 <| sy_granted := sy_granted s ++ lease_token out |>)
| LRenew unix ttl l s : l ∈ lp_active (sy_provider s) ->
    leasing s (s <| sy_provider := (renew unix ttl l (sy_provider s)).2 |>)
| LDestroy l s : l ∈ lp_active (sy_provider s) ->
    leasing s (s <| sy_provider := destroy l (sy_provider s) |>)
| LLook unix s : leasing s (s <| sy_provider := (available unix (sy_provider s)).2 |>).

(** ** The units in use *)
Definition units (r : string) (l : amounts) : Z :=
  sum_Z ((fun item => if String.eqb item.1 r then item.2 else 0) <$> l).
Definition held (r : string) (active : list LeaseState) : Z :=
  sum_Z ((fun s => if ls_released s then 0 else units r (ls_resources s)) <$> active).

Lemma units_cons r k v l : units r ((k, v) :: l) = (if String.eqb k r then v else 0) + units r l.
Proof. done. Qed.
Lemma held_cons r s a : held r (s :: a) = (if ls_released s then 0 else units r (ls_resources s)) + held r a.
Proof. done. Qed.
Lemma held_app r a b : held r (a ++ b) = held r a + held r b.
Proof. unfold held. by rewrite fmap_app, sum_Z_app. Qed.
Lemma units_nonneg r l : Forall (fun item => 0 <= item.2) l -> 0 <= units r l.
Proof. induction 1 as [|[k v] l Hv _ IH]; [done|]. rewrite units_cons. simpl in Hv. case_match; lia. Qed.
Lemma units_get r l : NoDup l.*1 -> units r l = default 0 (om_get r l).
Proof.
  induction l as [|[k v] l IH]; simpl; [done|]. intros [Hk Hd]%NoDup_cons. rewrite units_cons, IH by done.
  rewrite (String.eqb_sym k r). destruct (String.eqb_spec r k) as [->|]; simpl; [|lia].
  rewrite om_get_None by done. simpl. lia.
Qed.
#[local] Opaque units.

Lemma give_get r m l a :
  om_get r m = Some a -> 0 <= a -> Forall (fun item => 0 <= item.2) l -> a + units r l < 2 ^ 64 ->
  om_get r (give m l) = Some (a + units r l).
Proof.
  unfold give. intros Hm Ha Hl. revert m a Hm Ha. induction Hl as [|[k v] l Hv Hl IH]; intros m a Hm Ha Hb.
  { by rewrite Z.add_0_r. }
  pose proof (units_nonneg r l Hl) as Hn. rewrite units_cons in *. cbn [foldl fst snd] in *.
  destruct (String.eqb_spec k r) as [->|Hne].
  - rewrite (IH _ (a + v)); [f_equal; lia| |lia|lia].
    rewrite om_get_set_eq, Hm. simpl. rewrite u64_small; [done|]. unfold is_u64. lia.
  - rewrite (IH _ a); [f_equal; lia| |lia|lia]. by rewrite om_get_set_ne.
Qed.
Lemma take_get r m l a :
  om_get r m = Some a -> a < 2 ^ 64 -> Forall (fun item => 0 <= item.2) l -> units r l <= a ->
  om_get r (take_units m l) = Some (a - units r l).
Proof.
  unfold take_units. intros Hm Ha Hl. revert m a Hm Ha. induction Hl as [|[k v] l Hv Hl IH]; intros m a Hm Ha Hb.
  { by rewrite Z.sub_0_r. }
  pose proof (units_nonneg r l Hl) as Hn. rewrite units_cons in *. cbn [foldl fst snd] in *.
  destruct (String.eqb_spec k r) as [->|Hne].
  - rewrite (IH _ (a - v)); [f_equal; lia| |lia|lia].
    rewrite om_get_set_eq, Hm. simpl. rewrite u64_small; [done|]. unfold is_u64. lia.
  - rewrite (IH _ a); [f_equal; lia| |lia|lia]. by rewrite om_get_set_ne.
Qed.

(** ** The books balance *)

(** What is left of a resource and what unreleased leases hold make its capacity. *)
Definition balanced (p : Provider) : Prop :=
  forall r c, om_get r (lp_capacity p) = Some c ->
  exists a, om_get r (lp_available p) = Some a /\ 0 <= a /\ a + held r (lp_active p) = c.

Record books (s : System) : Prop := {
  bk_capacity : Forall (fun item => 0 < item.2 < 2 ^ 64) (lp_capacity (sy_provider s));
  bk_balanced : balanced (sy_provider s);
  bk_leases : Forall (fun l => Forall (fun item => 0 < item.2) (ls_resources l)
                /\ (ls_alive l = false -> ls_released l = true)
                /\ ls_token l < lp_next_token (sy_provider s)) (lp_active (sy_provider s));
  bk_tokens : NoDup (ls_token <$> lp_active (sy_provider s));
  bk_calls : Forall (fun c => NoDup (ac_resources c).*1
                /\ Forall (fun item => 0 < item.2) (ac_resources c)) (sy_calls s);
  bk_granted : lp_next_token (sy_provider s) = 1 + Z.of_nat (length (sy_granted s));
  bk_order : StronglySorted Z.lt (sy_granted s) /\ Forall (fun t => t < lp_next_token (sy_provider s)) (sy_granted s)
}.

Lemma om_get_pair {A} k (v : A) m : om_get k m = Some v -> (k, v) ∈ m.
Proof.
  induction m as [|[k' v'] m IH]; simpl; [done|].
  destruct (String.eqb_spec k k') as [->|]; [intros [= ->]; by left|]. intros H. right. by apply IH.
Qed.
Lemma held_nonneg r l :
  Forall (fun l => Forall (fun item => 0 < item.2) (ls_resources l)) l -> 0 <= held r l.
Proof.
  induction 1 as [|s l Hs _ IH]; [done|]. rewrite held_cons.
  assert (0 <= units r (ls_resources s)); [|case_match; lia].
  apply units_nonneg. eapply Forall_impl; [done|]. simpl. lia.
Qed.
Definition hold (r : string) (s : LeaseState) : Z := if ls_released s then 0 else units r (ls_resources s).
Lemma hold_nonneg r s : Forall (fun item => 0 < item.2) (ls_resources s) -> 0 <= hold r s.
Proof.
  intros Hs. unfold hold. case_match; [done|]. apply units_nonneg. eapply Forall_impl; [done|]. simpl. lia.
Qed.

Lemma hold_le_held r l active :
  Forall (fun l => Forall (fun item => 0 < item.2) (ls_resources l)) active -> l ∈ active -> hold r l <= held r active.
Proof.
  induction 1 as [|s rest Hs Hr IH]; intros Hl; [by apply elem_of_nil in Hl|]. rewrite held_cons. fold (hold r s).
  pose proof (hold_nonneg r s Hs). pose proof (held_nonneg r rest Hr).
  apply elem_of_cons in Hl as [->|Hl]; [lia|]. specialize (IH Hl). lia.
Qed.

(** Sweeping moves what expired leases held back to what is left. *)
Lemma sweep_leases_get unix active avail active' avail' r a :
  sweep_leases unix active avail = (active', avail') ->
  Forall (fun l => Forall (fun item => 0 < item.2) (ls_resources l) /\ (ls_alive l = false -> ls_released l = true)) active ->
  om_get r avail = Some a -> 0 <= a -> a + held r active < 2 ^ 64 ->
  exists a', om_get r avail' = Some a' /\ 0 <= a' /\ a' + held r active' = a + held r active.
Proof.
  revert avail active' a. induction active as [|s rest IH]; intros avail active' a E Hl Hg Ha Hb; simpl in E.
  { injection E as <- <-. eauto. }
  apply Forall_cons in Hl as [[Hs Hd] Hl]. rewrite held_cons in *. fold (hold r s) in *.
  assert (0 <= held r rest) as Hr.
  { apply held_nonneg. eapply Forall_impl; [done|]. by intros x []. }
  pose proof (hold_nonneg r s Hs) as Hh. destruct (negb (ls_alive s)) eqn:Ea.
  { unfold hold in *. rewrite Hd in * by by apply negb_true_iff. rewrite Z.add_0_l in *. by eapply IH. }
  destruct (expired unix s) eqn:Ex.
  - destruct (sweep_leases unix rest _) as [rest' avail''] eqn:Er. injection E as <- <-. rewrite held_cons. simpl.
    unfold expired in Ex. apply andb_true_iff in Ex as [Ex _]. apply negb_true_iff in Ex.
    assert (hold r s = units r (ls_resources s)) as Hu by (unfold hold; by rewrite Ex).
    destruct (IH _ _ (a + hold r s) Er Hl) as (a' & Hg' & Ha' & He); [|lia|lia|].
    + rewrite Hu. apply give_get; [done..| |lia]. eapply Forall_impl; [done|]. simpl. lia.
    + exists a'. split; [done|]. lia.
  - destruct (sweep_leases unix rest avail) as [rest' avail''] eqn:Er. injection E as <- <-. rewrite held_cons. fold (hold r s).
    destruct (IH _ _ a Er Hl Hg Ha) as (a' & ? & ? & ?); [lia|]. exists a'. split; [done|]. lia.
Qed.
Lemma sweep_leases_active unix active avail (P : LeaseState -> Prop) :
  (forall s, P s -> P (s <| ls_released := true |>)) -> Forall P active -> Forall P (sweep_leases unix active avail).1.
Proof.
  intros HP H. revert avail. induction H as [|s rest Hs _ IH]; intros avail; simpl; [constructor|].
  destruct (negb (ls_alive s)); [apply IH|].
  destruct (expired unix s);
    match goal with |- context [sweep_leases unix rest ?x] => specialize (IH x); destruct (sweep_leases unix rest x) end;
    simpl in *; constructor; auto.
Qed.
Lemma sweep_leases_tokens unix active avail :
  ls_token <$> (sweep_leases unix active avail).1 `sublist_of` ls_token <$> active.
Proof.
  revert avail. induction active as [|s rest IH]; intros avail; simpl; [constructor|].
  destruct (negb (ls_alive s)); [by apply sublist_cons|].
  destruct (expired unix s);
    match goal with |- context [sweep_leases unix rest ?x] => specialize (IH x); destruct (sweep_leases unix rest x) end;
    simpl in *; by apply sublist_skip.
Qed.

(** Changing the one lease with a given token. *)
Lemma held_update r l f (active : list LeaseState) :
  NoDup (ls_token <$> active) -> l ∈ active ->
  held r ((fun s => if ls_token s =? ls_token l then f s else s) <$> active) = held r active - hold r l + hold r (f l).
Proof.
  induction active as [|s rest IH]; intros Hn Hl; [by apply elem_of_nil in Hl|].
  rewrite fmap_cons in Hn. apply NoDup_cons in Hn as [Hs Hn]. rewrite fmap_cons, !held_cons. fold (hold r s).
  apply elem_of_cons in Hl as [->|Hl].
  - rewrite Z.eqb_refl. fold (hold r (f s)).
    replace ((fun x => if ls_token x =? ls_token s then f x else x) <$> rest) with rest; [lia|].
    symmetry. rewrite <- (list_fmap_id rest) at 2. apply list_fmap_ext. intros i x Hx. simpl.
    destruct (Z.eqb_spec (ls_token x) (ls_token s)) as [E|]; [|done].
    exfalso. apply Hs. rewrite <- E. apply list_elem_of_fmap_2. by eapply list_elem_of_lookup_2.
  - destruct (Z.eqb_spec (ls_token s) (ls_token l)) as [E|].
    { exfalso. apply Hs. rewrite E. by apply list_elem_of_fmap_2. }
    rewrite IH by done. fold (hold r s). lia.
Qed.
Lemma on_lease_tokens l f (active : list LeaseState) :
  (forall s, ls_token (f s) = ls_token s) ->
  ls_token <$> ((fun s => if ls_token s =? ls_token l then f s else s) <$> active) = ls_token <$> active.
Proof.
  intros Hf. rewrite <- list_fmap_compose. apply list_fmap_ext. intros i s _. simpl. case_match; auto.
Qed.

(** *** Each operation keeps the books *)
Definition lease_ok (next : Z) (l : LeaseState) : Prop :=
  Forall (fun item => 0 < item.2) (ls_resources l) /\ (ls_alive l = false -> ls_released l = true) /\ ls_token l < next.

(** What an operation that neither queues nor grants does to the provider. *)
Record upkeep (p p' : Provider) : Prop := {
  up_capacity : lp_capacity p' = lp_capacity p;
  up_next : lp_next_token p' = lp_next_token p;
  up_balanced : balanced p';
  up_leases : Forall (lease_ok (lp_next_token p)) (lp_active p');
  up_tokens : NoDup (ls_token <$> lp_active p')
}.
Lemma upkeep_books s p' : books s -> upkeep (sy_provider s) p' -> books (s <| sy_provider := p' |>).
Proof. intros [] [Hc Hn]. split; simpl; rewrite ?Hc, ?Hn; auto. Qed.

Lemma capacity_bound s r c : books s -> om_get r (lp_capacity (sy_provider s)) = Some c -> c < 2 ^ 64.
Proof. intros Hb Hc%om_get_pair. eapply (Forall_forall _ _) in Hc; [|apply (bk_capacity s Hb)]. simpl in Hc. lia. Qed.

Lemma sweep_upkeep unix s : books s -> upkeep (sy_provider s) (sweep unix (sy_provider s)).
Proof.
  intros Hb. pose proof (bk_leases s Hb) as Hl. unfold sweep.
  pose proof (sweep_leases_active unix (lp_active (sy_provider s)) (lp_available (sy_provider s))
    (lease_ok (lp_next_token (sy_provider s)))) as Ha.
  pose proof (sweep_leases_tokens unix (lp_active (sy_provider s)) (lp_available (sy_provider s))) as Ht.
  destruct (sweep_leases _ _ _) as [active avail] eqn:E. simpl in *. split; simpl; try done.
  - intros r c Hc. destruct (bk_balanced s Hb r c Hc) as (a & Hg & Ha0 & He).
    destruct (sweep_leases_get _ _ _ _ _ r a E) as (a' & ? & ? & ?); [|done|done| |exists a'; simpl; split; [done|lia]].
    + eapply Forall_impl; [done|]. by intros x (? & ? & ?).
    + rewrite He. by eapply capacity_bound.
  - apply Ha; [|done]. by intros x (? & ? & ?).
  - eapply sublist_NoDup; [apply (bk_tokens s Hb)|exact Ht].
Qed.

Lemma on_lease_upkeep l f avail s :
  books s -> l ∈ lp_active (sy_provider s) ->
  (forall x, ls_token (f x) = ls_token x /\ ls_resources (f x) = ls_resources x) ->
  (ls_alive (f l) = false -> ls_released (f l) = true) ->
  (forall r a, om_get r (lp_available (sy_provider s)) = Some a -> 0 <= a ->
     a + hold r l < 2 ^ 64 -> om_get r avail = Some (a + hold r l - hold r (f l)) /\ hold r (f l) <= hold r l) ->
  upkeep (sy_provider s) ((on_lease (ls_token l) f (sy_provider s)) <| lp_available := avail |>).
Proof.
  intros Hb Hl Hf Hd Hg. pose proof (bk_tokens s Hb) as Ht. pose proof (bk_leases s Hb) as Hls.
  split; simpl; try done.
  - intros r c Hc. destruct (bk_balanced s Hb r c Hc) as (a & Ha & Ha0 & He). simpl.
    rewrite held_update by done.
    assert (hold r l <= held r (lp_active (sy_provider s))) as Hle.
    { apply hold_le_held; [|done]. eapply Forall_impl; [exact Hls|]. by intros x (? & ? & ?). }
    destruct (Hg r a Ha Ha0) as [-> ?]; [pose proof (capacity_bound s r c Hb Hc); lia|].
    eexists. split; [done|]. lia.
  - apply Forall_forall. intros x Hx. apply list_elem_of_fmap in Hx as (y & -> & Hy).
    pose proof (proj1 (Forall_forall _ _) Hls y Hy) as (Hr & Hda & Htk).
    destruct (Z.eqb_spec (ls_token y) (ls_token l)) as [E|]; [|done].
    assert (y = l) as ->.
    { apply list_elem_of_lookup in Hy as [i Hi]. apply list_elem_of_lookup in Hl as [j Hj].
      assert (i = j) as ->; [|congruence]. eapply NoDup_lookup; [exact Ht| |]; rewrite list_lookup_fmap; [by rewrite Hi|].
      rewrite Hj. simpl. by rewrite E. }
    destruct (Hf l) as [Hft Hfr]. split; [by rewrite Hfr|]. split; [done|]. by rewrite Hft.
  - rewrite on_lease_tokens; [done|]. intros x. apply Hf.
Qed.

Lemma release_upkeep s l :
  books s -> l ∈ lp_active (sy_provider s) -> upkeep (sy_provider s) (release l (sy_provider s)).
Proof.
  intros Hb Hl. unfold release. destruct (ls_released l) eqn:El.
  { split; [done..|apply (bk_balanced s Hb)|apply (bk_leases s Hb)|apply (bk_tokens s Hb)]. }
  apply on_lease_upkeep; [done..|]. intros r a Ha Ha0 Hbound.
  assert (hold r l = units r (ls_resources l)) as Hu by (unfold hold; by rewrite El).
  pose proof (proj1 (Forall_forall _ _) (bk_leases s Hb) l Hl) as (Hr & _ & _).
  pose proof (hold_nonneg r l Hr). unfold hold at 2 3. simpl. split; [|lia].
  rewrite Hu in *. rewrite Z.sub_0_r. apply give_get; [done..| |lia]. eapply Forall_impl; [done|]. simpl. lia.
Qed.
Lemma upkeep_trans p p1 p2 : upkeep p p1 -> upkeep p1 p2 -> upkeep p p2.
Proof. intros [Hc Hn] [Hc' Hn' ? Hl' ?]. split; try congruence; try done. Qed.
Lemma upkeep_refl s : books s -> upkeep (sy_provider s) (sy_provider s).
Proof. intros Hb. split; [done..|apply (bk_balanced s Hb)|apply (bk_leases s Hb)|apply (bk_tokens s Hb)]. Qed.
(** A change of a lease that keeps what it holds. *)
Lemma on_lease_neutral l f s :
  books s -> l ∈ lp_active (sy_provider s) ->
  (forall x, ls_token (f x) = ls_token x /\ ls_resources (f x) = ls_resources x) ->
  ls_released (f l) = ls_released l -> (ls_alive (f l) = false -> ls_released l = true) ->
  upkeep (sy_provider s) (on_lease (ls_token l) f (sy_provider s)).
Proof.
  intros Hb Hl Hf Hr Ha.
  replace (on_lease (ls_token l) f (sy_provider s))
    with ((on_lease (ls_token l) f (sy_provider s)) <| lp_available := lp_available (sy_provider s) |>) by by destruct sy_provider.
  apply on_lease_upkeep; [done..|by rewrite Hr|]. intros r a Hg _ _. unfold hold.
  rewrite Hr, (proj2 (Hf l)). split; [|done]. by replace (a + _ - _) with a by lia.
Qed.
Lemma release_mem l s :
  books s -> l ∈ lp_active (sy_provider s) ->
  exists l', l' ∈ lp_active (release l (sy_provider s)) /\ ls_token l' = ls_token l /\ ls_released l' = true.
Proof.
  intros Hb Hl. unfold release. destruct (ls_released l) eqn:E; [by exists l|].
  exists (l <| ls_released := true |>). split; [|done]. simpl. apply list_elem_of_fmap.
  exists l. by rewrite Z.eqb_refl.
Qed.
Lemma destroy_upkeep l s :
  books s -> l ∈ lp_active (sy_provider s) -> upkeep (sy_provider s) (destroy l (sy_provider s)).
Proof.
  intros Hb Hl. pose proof (release_upkeep s l Hb Hl) as Hu. destruct (release_mem l s Hb Hl) as (l' & Hl' & Ht & Hr).
  eapply upkeep_trans; [exact Hu|]. unfold destroy. rewrite <- Ht.
  pose proof (on_lease_neutral l' (fun x => x <| ls_alive := false |>)
    (s <| sy_provider := release l (sy_provider s) |>)) as H. simpl in H.
  apply H; [by apply upkeep_books|done..].
Qed.
Lemma renew_upkeep unix ttl l s :
  books s -> l ∈ lp_active (sy_provider s) -> upkeep (sy_provider s) (renew unix ttl l (sy_provider s)).2.
Proof.
  intros Hb Hl. unfold renew. destruct (ttl =? 0); [by apply upkeep_refl|].
  destruct (_ || _) eqn:E; simpl.
  - destruct (negb _); [by apply release_upkeep|by apply upkeep_refl].
  - apply on_lease_neutral; try done. simpl. intros Ha.
    pose proof (proj1 (Forall_forall _ _) (bk_leases s Hb) l Hl) as (_ & H & _). auto.
Qed.

(** A request that fits is covered by what is left. *)
Lemma fits_units c p r a :
  NoDup (ac_resources c).*1 -> fits (ac_resources c) p = true -> om_get r (lp_available p) = Some a -> 0 <= a ->
  units r (ac_resources c) <= a.
Proof.
  intros Hn Hf Ha Ha0. apply andb_true_iff in Hf as [Hf _]. rewrite forallb_forall in Hf.
  rewrite units_get by done. destruct (om_get r (ac_resources c)) as [v|] eqn:E; simpl; [|done].
  apply om_get_pair, list_elem_of_In, Hf in E. simpl in E. rewrite Ha in E. lia.
Qed.

Lemma grant_books s unix c (pre post : list Call) l p' :
  books s -> sy_calls s = pre ++ c :: post -> fits (ac_resources c) (sy_provider s) = true ->
  grant unix c (sy_provider s) = (l, p') -> Z.of_nat (length (sy_granted s)) + 2 < 2 ^ 64 ->
  books (s <| sy_provider := p' |> <| sy_calls := pre ++ post |> <| sy_granted := sy_granted s ++ [ls_token l] |>).
Proof.
  intros Hb Hc Hf [= <- <-] Hroom. destruct Hb as [Hcap Hbal Hl Ht Hcs Hg [Ho Hlt]].
  rewrite Hc in Hcs. apply Forall_app in Hcs as [Hpre Hcs]. apply Forall_cons in Hcs as [[Hn Hpos] Hpost].
  assert (u64 (lp_next_token (sy_provider s) + 1) = lp_next_token (sy_provider s) + 1) as Hu.
  { apply u64_small. unfold is_u64. lia. }
  split; simpl; rewrite ?Hu.
  - done.
  - intros r v Hv. destruct (Hbal r v Hv) as (a & Ha & Ha0 & He). simpl.
    pose proof (fits_units c _ r a Hn Hf Ha Ha0) as Hle.
    assert (0 <= held r (lp_active (sy_provider s))) as Hh.
    { apply held_nonneg. eapply Forall_impl; [exact Hl|]. by intros x (? & ? & ?). }
    rewrite held_app, held_cons. simpl.
    erewrite take_get; [|done| |eapply Forall_impl; [done|]; simpl; lia|done].
    + eexists. split; [done|]. change (held r []) with 0. lia.
    + apply om_get_pair in Hv. apply (proj1 (Forall_forall _ _) Hcap) in Hv. simpl in Hv. lia.
  - apply Forall_app. split; [|constructor; [split_and!; simpl; [done..|lia]|constructor]].
    eapply Forall_impl; [exact Hl|]. intros x (? & ? & ?). split_and!; [done..|lia].
  - rewrite fmap_app. apply NoDup_app. split; [done|]. split; [|apply NoDup_singleton].
    intros t Hin ->%list_elem_of_singleton. apply list_elem_of_fmap in Hin as (x & E & Hx).
    apply (proj1 (Forall_forall _ _) Hl) in Hx as (_ & _ & Hx). simpl in E. lia.
  - by apply Forall_app.
  - rewrite length_app. simpl. lia.
  - split.
    + apply StronglySorted_app_2; [|done|repeat constructor]. intros x y Hx ->%list_elem_of_singleton.
      by apply (proj1 (Forall_forall _ _) Hlt) in Hx.
    + apply Forall_app. split; [|repeat constructor; lia]. eapply Forall_impl; [exact Hlt|]. simpl. lia.
Qed.

Lemma poll_books s unix steady cancelled (pre post : list Call) c out p' :
  books s -> sy_calls s = pre ++ c :: post -> poll unix steady cancelled c (sy_provider s) = (out, p') ->
  Z.of_nat (length (sy_granted s)) + 2 < 2 ^ 64 ->
  books (s <| sy_provider := p' |>
           <| sy_calls := match out with None => sy_calls s | Some _ => pre ++ post end |>
           <| sy_granted := sy_granted s ++ lease_token out |>).
Proof.
  intros Hb Hc Hp Hroom. unfold poll in Hp.
  pose proof (upkeep_books s _ Hb (sweep_upkeep unix s Hb)) as Hs. set (p := sweep unix (sy_provider s)) in *.
  assert (forall q, lp_capacity q = lp_capacity p -> lp_available q = lp_available p -> lp_active q = lp_active p ->
            lp_next_token q = lp_next_token p -> books (s <| sy_provider := q |> <| sy_calls := pre ++ post |>)) as Hleft.
  { intros q Eq1 Eq2 Eq3 Eq4. destruct Hs as [? Hbal ? ? Hcs ? ?]. simpl in *. split; simpl; rewrite ?Eq1, ?Eq3, ?Eq4; try done.
    - unfold balanced. by rewrite Eq1, Eq2, Eq3.
    - rewrite Hc in Hcs. apply Forall_app in Hcs as [? Hcs]. apply Forall_cons in Hcs as [_ ?]. by apply Forall_app. }
  destruct (selected _ _ _ && fits _ _) eqn:Esel.
  - apply andb_true_iff in Esel as [_ Hf]. destruct (grant unix c p) as [l q] eqn:Eg. injection Hp as <- <-.
    exact (grant_books (s <| sy_provider := p |>) unix c pre post l q Hs Hc Hf Eg Hroom).
  - assert (books (s <| sy_provider := remove_waiter (ac_waiter c) p |> <| sy_calls := pre ++ post |>
              <| sy_granted := sy_granted s ++ [] |>)) as Hout by (rewrite app_nil_r; by apply Hleft).
    destruct cancelled as [reason|]; [by injection Hp as <- <-|]. cbv zeta in Hp.
    destruct (negb _ && _); injection Hp as <- <-; [exact Hout|]. simpl. rewrite app_nil_r. exact Hs.
Qed.
Lemma requested_ok q : amounts_ok (requested q) -> NoDup (requested q).*1.
Proof. intros [Hs _]. by apply om_sorted_NoDup. Qed.
Lemma check_request_Ok q p resources :
  check_request q p = Ok resources -> resources = requested q /\ Forall (fun item => item.2 <> 0) resources.
Proof.
  unfold check_request. destruct (_ =? 0); [done|]. destruct (List.find _ _) eqn:E; [done|]. intros [= <-].
  split; [done|]. apply List.Forall_forall. intros item Hi. pose proof (List.find_none _ _ E item Hi) as H.
  unfold bad_resource in H. apply orb_false_iff in H as [H _]. apply orb_false_iff in H as [_ H]. lia.
Qed.

Lemma leasing_books s s' :
  leasing s s' -> Z.of_nat (length (sy_granted s)) + 2 < 2 ^ 64 -> books s -> books s'.
Proof.
  destruct 1 as [steady q resources c p' s Hq Hr Hj|unix steady cancelled pre c post out p' s Hc Hp|
                 unix ttl l s Hl|l s Hl|unix s]; intros Hroom Hb.
  - apply check_request_Ok in Hr as [-> Hnz]. injection Hj as <- <-. destruct Hb as [? ? ? ? Hcs ? ?]. split; try done.
    apply Forall_app. split; [done|]. repeat constructor; simpl; [by apply requested_ok|].
    destruct Hq as [_ Hq]. apply Forall_forall. intros item Hi.
    apply (proj1 (Forall_forall _ _) Hq) in Hi as H1. apply (proj1 (Forall_forall _ _) Hnz) in Hi. unfold is_u64 in H1. lia.
  - by eapply poll_books.
  - by apply upkeep_books, renew_upkeep.
  - by apply upkeep_books, destroy_upkeep.
  - by apply upkeep_books, sweep_upkeep.
Qed.

Lemma leasing_constant s s' :
  leasing s s' -> lp_capacity (sy_provider s') = lp_capacity (sy_provider s)
    /\ (length (sy_granted s) <= length (sy_granted s'))%nat.
Proof.
  assert (forall unix p, lp_capacity (sweep unix p) = lp_capacity p) as Hsw.
  { intros unix p. unfold sweep. by destruct (sweep_leases _ _ _). }
  assert (forall l p, lp_capacity (release l p) = lp_capacity p) as Hrel.
  { intros l p. unfold release. by destruct (ls_released l). }
  destruct 1 as [steady q resources c p' s Hq Hr Hj|unix steady cancelled pre c post out p' s Hc Hp|
                 unix ttl l s Hl|l s Hl|unix s]; simpl; (split; [|rewrite ?length_app; lia]).
  - by injection Hj as <- <-.
  - unfold poll in Hp. destruct (_ && _); [injection Hp as <- <-; apply Hsw|].
    destruct cancelled; [injection Hp as <- <-; apply Hsw|]. cbv zeta in Hp.
    destruct (negb _ && _); injection Hp as <- <-; apply Hsw.
  - unfold renew. destruct (ttl =? 0); [done|]. destruct (_ || _); simpl; [|done]. destruct (negb _); [apply Hrel|done].
  - apply Hrel.
  - apply Hsw.
Qed.
Lemma provider_new_books capacities p :
  amounts_ok capacities -> provider_new capacities = Ok p -> books (mkSystem p [] []) /\ lp_capacity p = capacities.
Proof.
  intros [Hs Hu] Hp. unfold provider_new in Hp. destruct capacities as [|x l] eqn:E; [done|]. rewrite <- E in *. clear E.
  destruct (existsb _ _) eqn:Hex; [done|]. injection Hp as <-. split; [|done].
  assert (Forall (fun item => 0 < item.2 < 2 ^ 64) capacities) as Hc.
  { apply List.Forall_forall. intros item Hi. pose proof (proj1 (List.Forall_forall _ _) Hu item Hi) as H1.
    unfold is_u64 in H1. destruct (Z.eqb_spec item.2 0) as [E|]; [|lia].
    assert (existsb (fun item => str_empty item.1 || (item.2 =? 0)) capacities = true) as Hy; [|congruence].
    apply existsb_exists. exists item. split; [done|]. by rewrite E, orb_true_r. }
  split; simpl; try done; try (by repeat constructor).
  intros r c Hg. exists c. simpl. change (held r []) with 0. split; [done|].
  apply om_get_pair in Hg. apply (proj1 (Forall_forall _ _) Hc) in Hg. simpl in Hg. lia.
Qed.
Lemma leasing_reachable capacities p s :
  amounts_ok capacities -> provider_new capacities = Ok p -> rtc leasing (mkSystem p [] []) s ->
  Z.of_nat (length (sy_granted s)) + 2 < 2 ^ 64 -> books s /\ lp_capacity (sy_provider s) = capacities.
Proof.
  intros Hc Hp. revert s.
  apply (rtc_ind_r (fun s => Z.of_nat (length (sy_granted s)) + 2 < 2 ^ 64 ->
                             books s /\ lp_capacity (sy_provider s) = capacities) (mkSystem p [] [])).
  - intros _. by eapply provider_new_books.
  - intros s s' Hr Hstep IH Hroom. pose proof (leasing_constant _ _ Hstep) as [Hcap Hlen]. destruct IH as [Hb Hcs]; [lia|].
    split; [|congruence]. eapply leasing_books; [done|lia|done].
Qed.

(** C32: resource leases are conserved.  Whatever the interleaving of requests, grants,
    timeouts, cancellations, renewals, expiries and destructions, the units left of a
    resource and the units unreleased leases hold add up to its capacity, so what is
    handed out never exceeds it and nothing is given back twice; and the fencing tokens
    are handed out in strictly increasing order. *)
Theorem leases_conserved capacities p s :
  amounts_ok capacities -> provider_new capacities = Ok p -> rtc leasing (mkSystem p [] []) s ->
  Z.of_nat (length (sy_granted s)) + 2 < 2 ^ 64 ->
  StronglySorted Z.lt (sy_granted s)
  /\ forall r c, om_get r capacities = Some c ->
     exists a, om_get r (lp_available (sy_provider s)) = Some a /\ 0 <= a /\ a + held r (lp_active (sy_provider s)) = c.
Proof.
  intros Hc Hp Hr Hroom. destruct (leasing_reachable _ _ _ Hc Hp Hr Hroom) as [Hb Hcs].
  split; [apply (bk_order s Hb)|]. intros r c Hg. apply (bk_balanced s Hb). by rewrite Hcs.
Qed.

(** ** Who is served *)
Lemma best_ge steady w p x : x ∈ lp_waiters p -> effective steady x <= best steady w p.
Proof.
  unfold best. generalize (effective steady w). induction (lp_waiters p) as [|y l IH]; intros b Hx; [by apply elem_of_nil in Hx|].
  simpl. apply elem_of_cons in Hx as [->|Hx]; [|by apply IH].
  clear IH. generalize (Z.max b (effective steady y)), (Z.le_max_r b (effective steady y)).
  induction l as [|z l IH]; intros b' Hb'; simpl; [done|]. apply IH. lia.
Qed.
Lemma best_is steady w p : w ∈ lp_waiters p -> exists x, x ∈ lp_waiters p /\ best steady w p = effective steady x.
Proof.
  unfold best. intros Hw. remember (effective steady w) as b eqn:Eb.
  assert (exists x, x ∈ lp_waiters p /\ b = effective steady x) as Hex by eauto. clear Hw Eb. revert b Hex.
  assert (forall l b, l ⊆ lp_waiters p -> (exists x, x ∈ lp_waiters p /\ b = effective steady x) ->
    exists x, x ∈ lp_waiters p /\ foldl (fun b item => Z.max b (effective steady item)) b l = effective steady x) as H; [|intros b Hb; by apply H].
  induction l as [|y l IH]; intros b Hl (x & Hx & ->); simpl; [eauto|]. apply IH; [set_solver|].
  destruct (Z.max_spec (effective steady x) (effective steady y)) as [[_ ->]|[_ ->]]; [exists y|exists x]; set_solver.
Qed.
Lemma best_same steady w w' p : w ∈ lp_waiters p -> w' ∈ lp_waiters p -> best steady w p = best steady w' p.
Proof.
  intros H H'. destruct (best_is steady w p H) as (x & Hx & E). destruct (best_is steady w' p H') as (y & Hy & E').
  pose proof (best_ge steady w p y Hy). pose proof (best_ge steady w' p x Hx). lia.
Qed.
(** A list with an element that satisfies [P] has a least one. *)
Lemma least_waiter (P : Waiter -> bool) (l : list Waiter) x :
  x ∈ l -> P x = true ->
  exists y, y ∈ l /\ P y = true /\ forall z, z ∈ l -> P z = true -> wt_sequence y <= wt_sequence z.
Proof.
  revert x. induction l as [|y l IH]; intros x Hx HP; [by apply elem_of_nil in Hx|].
  destruct (existsb P l) eqn:E.
  - apply existsb_exists in E as (z & Hz%list_elem_of_In & HPz).
    destruct (IH z Hz HPz) as (m & Hm & HPm & Hmin). destruct (P y && (wt_sequence y <? wt_sequence m)) eqn:Ey.
    + exists y. split; [set_solver|]. split; [by apply andb_true_iff in Ey as [? _]|].
      intros u Hu HPu. apply elem_of_cons in Hu as [->|Hu]; [lia|]. specialize (Hmin u Hu HPu). lia.
    + exists m. split; [set_solver|]. split; [done|]. intros u Hu HPu. apply elem_of_cons in Hu as [->|Hu]; [|by apply Hmin].
      rewrite HPu in Ey. simpl in Ey. lia.
  - exists y. assert (forall u, u ∈ l -> P u = false) as Hno.
    { intros u Hu. destruct (P u) eqn:Eu; [|done]. exfalso. assert (existsb P l = true); [|congruence].
      apply existsb_exists. exists u. split; [by apply list_elem_of_In|done]. }
    apply elem_of_cons in Hx as [->|Hx]; [|rewrite Hno in HP; done]. split; [set_solver|]. split; [done|].
    intros u Hu HPu. apply elem_of_cons in Hu as [->|Hu]; [done|]. rewrite Hno in HPu; done.
Qed.

(** A waiter of another key than the last one served is never passed over twice: the
    selection, spelled out. *)
Lemma selected_spec steady w p :
  w ∈ lp_waiters p ->
  let other x := effective steady x = best steady w p /\ wt_key x <> lp_last_key p in
  selected steady w p = true <->
    effective steady w = best steady w p
    /\ (forall x, x ∈ lp_waiters p -> other x -> wt_sequence w <= wt_sequence x)
    /\ (wt_key w = lp_last_key p -> forall x, x ∈ lp_waiters p -> ~ other x).
Proof.
  intros Hw other. unfold selected. rewrite !andb_true_iff, orb_true_iff, !forallb_forall, Z.eqb_eq, negb_true_iff.
  assert (forall x, (effective steady x =? best steady w p) && negb (String.eqb (wt_key x) (lp_last_key p)) = true <-> other x) as Ho.
  { intros x. rewrite andb_true_iff, Z.eqb_eq, negb_true_iff, String.eqb_neq. done. }
  rewrite String.eqb_neq. split.
  - intros [[He Hs] Hk]. split; [done|]. split.
    + intros x Hx Hox%Ho. specialize (Hs x (proj1 (list_elem_of_In _ _) Hx)). rewrite Hox in Hs. simpl in Hs. lia.
    + intros Hl x Hx Hox%Ho. destruct Hk as [?|Hk]; [done|].
      specialize (Hk x (proj1 (list_elem_of_In _ _) Hx)). by rewrite Hox in Hk.
  - intros (He & Hs & Hk). split; [split; [done|]|].
    + intros x Hx. apply negb_true_iff, andb_false_iff. destruct (_ && _) eqn:E; [right|by left].
      apply Ho in E. specialize (Hs x (proj2 (list_elem_of_In _ _) Hx) E). lia.
    + destruct (decide (wt_key w = lp_last_key p)) as [Hl|]; [right|by left]. intros x Hx. apply negb_true_iff.
      destruct (_ && _) eqn:E; [|done]. apply Ho in E. by destruct (Hk Hl x (proj2 (list_elem_of_In _ _) Hx)).
Qed.

(** a queue that is not empty always has a waiter to serve, of the highest effective
    priority; and two waiters it would serve are the same one unless both have the key
    served last and no waiter of that priority has another. *)
Theorem selection_decides steady p :
  (lp_waiters p <> [] -> exists w, w ∈ lp_waiters p /\ selected steady w p = true)
  /\ (forall w x, w ∈ lp_waiters p -> x ∈ lp_waiters p -> selected steady w p = true -> selected steady x p = true ->
      effective steady w = effective steady x
      /\ (wt_sequence w = wt_sequence x \/ (wt_key w = lp_last_key p /\ wt_key x = lp_last_key p))).
Proof.
  split.
  - destruct (lp_waiters p) as [|w0 l] eqn:El; [done|]. intros _. rewrite <- El.
    assert (w0 ∈ lp_waiters p) as H0 by (rewrite El; set_solver).
    destruct (best_is steady w0 p H0) as (b & Hb & Eb).
    set (other := fun x => (effective steady x =? best steady w0 p) && negb (String.eqb (wt_key x) (lp_last_key p))).
    destruct (existsb other (lp_waiters p)) eqn:Ex.
    + apply existsb_exists in Ex as (x & Hx%list_elem_of_In & Ho).
      destruct (least_waiter other _ x Hx Ho) as (y & Hy & Hoy & Hmin). exists y. split; [done|].
      apply selected_spec; [done|]. rewrite (best_same steady y w0 p) by done. unfold other in *.
      apply andb_true_iff in Hoy as [He Hk]. apply negb_true_iff, String.eqb_neq in Hk. split; [lia|]. split; [|done].
      intros z Hz [Hze Hzk]. apply Hmin; [done|]. apply andb_true_iff. split; [lia|]. by apply negb_true_iff, String.eqb_neq.
    + exists b. split; [done|]. assert (forall x, x ∈ lp_waiters p ->
          ~ (effective steady x = best steady b p /\ wt_key x <> lp_last_key p)) as Hno.
      { intros x Hx [He Hk]. assert (existsb other (lp_waiters p) = true); [|congruence].
        apply existsb_exists. exists x. split; [by apply list_elem_of_In|]. unfold other.
        rewrite (best_same steady w0 b p) by done. apply andb_true_iff. split; [lia|]. by apply negb_true_iff, String.eqb_neq. }
      apply selected_spec; [done|]. rewrite (best_same steady b w0 p) in * by done. split; [done|].
      split; [intros x Hx Ho; by destruct (Hno x Hx)|done].
  - intros w x Hw Hx Sw Sx. apply selected_spec in Sw as (Ew & Lw & Kw); [|done].
    apply selected_spec in Sx as (Ex & Lx & Kx); [|done]. rewrite (best_same steady x w p) in * by done.
    split; [lia|]. destruct (decide (wt_key w = lp_last_key p)) as [E|N]; destruct (decide (wt_key x = lp_last_key p)) as [E'|N'].
    + by right.
    + by destruct (Kw E x Hx).
    + by destruct (Kx E' w Hw).
    + left. specialize (Lw x Hx (conj Ex N')). specialize (Lx w Hw (conj Ew N)). lia.
Qed.

(** waiting beats priority.  A waiter is never outranked by one that came [k] tenths of
    a second later with a priority at most [k] higher, however long both wait. *)
Theorem ageing_bounds_overtaking steady w x k :
  wt_enqueued w + 100000000 * k <= wt_enqueued x -> wt_priority x <= wt_priority w + k -> 0 <= k ->
  wt_enqueued x <= steady -> effective steady x <= effective steady w.
Proof.
  intros He Hp Hk Hs. unfold effective. rewrite !Z.quot_div_nonneg by (try apply Z.quot_pos; lia).
  rewrite !Z.div_div by lia.
  assert ((steady - wt_enqueued x) `div` (1000000 * 100) + k <= (steady - wt_enqueued w) `div` (1000000 * 100)); [|lia].
  rewrite <- Z.div_add by lia. apply Z.div_le_mono; lia.
Qed.
