(* ===== verification/Scheduler.v ===== *)
(** * The thread pool (src/scheduler.cpp)

    [ThreadPoolScheduler]: a bounded queue, a fixed number of workers and three policies
    for a full queue.  A task is its number; a thread that schedules is described by its
    two thread-local variables.  [pooling] interleaves any number of threads with the
    workers and the shutdown, one critical section at a time. *)

From S2P Require Import Prelude.
Open Scope string_scope.
Open Scope list_scope.
Open Scope Z_scope.

Inductive QueueFullPolicy := Reject | BlockCaller | CallerRuns.
Record ThreadPoolOptions := mkPoolOptions {
  po_worker_count : Z; po_queue_capacity : Z; po_full_policy : QueueFullPolicy; po_max_inline_depth : Z
}.
Definition default_pool_options : ThreadPoolOptions := mkPoolOptions 0 0 Reject 1.

(** [active_pool == this] and [active_inline_depth] of the calling thread. *)
Record Caller := mkCaller { cl_in_pool : bool; cl_inline_depth : Z }.

(** [sp_idle] workers wait for a task, [sp_busy] run one, [sp_exited] have left their
    loop; [sp_accepted] and [sp_started] are the tasks queued and dequeued, in order, and
    [sp_inline] those a caller ran itself. *)
Record Pool := mkPool {
  sp_capacity : Z; sp_policy : QueueFullPolicy; sp_max_inline_depth : Z; sp_stopping : bool;
  sp_queue : list nat; sp_idle : nat; sp_busy : list nat; sp_exited : nat;
  sp_accepted : list nat; sp_started : list nat; sp_inline : list nat
}.
#[export] Instance eta_Pool : Settable Pool := fun p =>
  mkPool (sp_capacity p) (sp_policy p) (sp_max_inline_depth p) (sp_stopping p) (sp_queue p) (sp_idle p)
    (sp_busy p) (sp_exited p) (sp_accepted p) (sp_started p) (sp_inline p).

(** The constructor with [start]: [hardware] is [std::thread::hardware_concurrency()]. *)
Definition worker_count (hardware : Z) (o : ThreadPoolOptions) : Z :=
  if po_worker_count o =? 0 then (if hardware =? 0 then 1 else hardware) else po_worker_count o.
Definition queue_capacity (hardware : Z) (o : ThreadPoolOptions) : Z :=
  if po_queue_capacity o =? 0 then u64 (worker_count hardware o * 64) else po_queue_capacity o.
Definition pool_new (hardware : Z) (o : ThreadPoolOptions) : Pool :=
  mkPool (queue_capacity hardware o) (po_full_policy o) (po_max_inline_depth o) false [] (Z.to_nat (worker_count hardware o))
    [] 0 [] [] [].

(** What becomes of a call of [schedule]: the task is queued, or was run by the caller,
    or the call throws, or it waits for space. *)
Inductive scheduled := Queued | Inline | Refuses (e : exn) | Waits.

Definition run_inline (task : nat) (p : Pool) : Pool := p <| sp_inline := sp_inline p ++ [task] |>.
Definition enqueue (task : nat) (p : Pool) : Pool :=
  p <| sp_queue := sp_queue p ++ [task] |> <| sp_accepted := sp_accepted p ++ [task] |>.

(** [Impl::schedule]; an empty task is [None]. *)
Definition schedule (c : Caller) (task : option nat) (continuation : bool) (p : Pool) : scheduled * Pool :=
  match task with
  | None => (Refuses (InvalidArgument "scheduler task must not be empty"), p)
  | Some task =>
    if cl_in_pool c && negb continuation then
      match sp_policy p with
      | CallerRuns =>
        if cl_inline_depth c <? sp_max_inline_depth p then (Inline, run_inline task p)
        else (Refuses (RuntimeError "nested scheduling requires verified caller-runs metadata"), p)
      | _ => (Refuses (RuntimeError "nested scheduling requires verified caller-runs metadata"), p)
      end
    else if sp_stopping p then (Refuses (RuntimeError "scheduler is stopping"), p)
    else if sp_capacity p <=? Z.of_nat (length (sp_queue p)) then
      match sp_policy p with
      | BlockCaller => (Waits, p)
      | CallerRuns => (Inline, run_inline task p)
      | Reject => (Refuses (RuntimeError "scheduler queue is full"), p)
      end
    else (Queued, enqueue task p)
  end.

(** [worker_loop]: a waiting worker takes the first task, or leaves once the pool is
    stopping and the queue empty; [shutdown] sets the flag and joins. *)
Definition take_task (p : Pool) : option Pool :=
  match sp_idle p, sp_queue p with
  | S idle, task :: rest =>
    Some (p <| sp_idle := idle |> <| sp_queue := rest |> <| sp_busy := sp_busy p ++ [task] |>
            <| sp_started := sp_started p ++ [task] |>)
  | _, _ => None
  end.
Definition leave_loop (p : Pool) : option Pool :=
  match sp_idle p with
  | S idle => if sp_stopping p && match sp_queue p with [] => true | _ => false end
              then Some (p <| sp_idle := idle |> <| sp_exited := S (sp_exited p) |>) else None
  | O => None
  end.
Definition finish_task (before after : list nat) (p : Pool) : Pool :=
  p <| sp_busy := before ++ after |> <| sp_idle := S (sp_idle p) |>.
Definition shutdown (p : Pool) : Pool := p <| sp_stopping := true |>.

Inductive pooling : Pool -> Pool -> Prop :=
| PSchedule c task continuation p : pooling p (schedule c task continuation p).2
| PTake p p' : take_task p = Some p' -> pooling p p'
| PFinish before task after p : sp_busy p = before ++ task :: after -> pooling p (finish_task before after p)
| PLeave p p' : leave_loop p = Some p' -> pooling p p'
| PShutdown p : pooling p (shutdown p).

(** ** Invariants *)
Record pool_ok (workers capacity : Z) (p : Pool) : Prop := {
  pk_capacity : sp_capacity p = capacity /\ Z.of_nat (length (sp_queue p)) <= Z.max 0 capacity;
  pk_order : sp_accepted p = sp_started p ++ sp_queue p;
  pk_workers : Z.of_nat (sp_idle p + length (sp_busy p) + sp_exited p) = workers;
  pk_exit : sp_exited p <> 0%nat -> sp_stopping p = true /\ sp_queue p = []
}.
Lemma pool_new_ok hardware o : 0 <= worker_count hardware o ->
  pool_ok (worker_count hardware o) (queue_capacity hardware o) (pool_new hardware o).
Proof. intros Hw. split; simpl; try done; lia. Qed.

Lemma pooling_ok workers capacity p p' : pooling p p' -> pool_ok workers capacity p -> pool_ok workers capacity p'.
Proof.
  destruct 1 as [c task continuation p|p p' E|before task after p E|p p' E|p]; intros Hp;
    pose proof Hp as [[Hc Hq] Ho Hw He].
  - assert (forall task, pool_ok workers capacity (run_inline task p)) as Hi by by split.
    unfold schedule. destruct task as [task|]; [|exact Hp]. destruct (_ && _).
    { destruct (sp_policy p); [exact Hp..|]. destruct (_ <? _); [apply Hi|exact Hp]. }
    destruct (sp_stopping p) eqn:Es; [exact Hp|]. destruct (Z.leb_spec (sp_capacity p) (Z.of_nat (length (sp_queue p)))).
    { destruct (sp_policy p); [exact Hp..|apply Hi]. }
    split; simpl; [|by rewrite Ho, app_assoc|done|].
    + rewrite length_app. simpl. split; [done|]. lia.
    + intros [Hs _]%He. congruence.
  - unfold take_task in E. destruct (sp_idle p) as [|idle] eqn:Ei; [done|]. destruct (sp_queue p) as [|task rest] eqn:Eq; [done|].
    injection E as <-. split; simpl in *; [split; [done|lia]| | |].
    + by rewrite Ho, <- app_assoc.
    + rewrite length_app. simpl. lia.
    + by intros [_ ?]%He.
  - split; simpl; try done. rewrite E in Hw. rewrite length_app in *. simpl in Hw. lia.
  - unfold leave_loop in E. destruct (sp_idle p) as [|idle]; [done|]. destruct (sp_stopping p) eqn:Es; [|done].
    destruct (sp_queue p) eqn:Eq; [|done]. injection E as <-. split; simpl; rewrite ?Eq; try done. lia.
  - split; simpl; try done. by intros [_ ?]%He.
Qed.

(** C33: the pool keeps its promises to the callers.  However threads, workers and the
    shutdown interleave, the queue stays within its capacity, tasks start in the order
    they were accepted and each once, and when the last worker has left its loop every
    accepted task was started: a shutdown loses none. *)
Theorem pool_runs_accepted hardware o p :
  0 < worker_count hardware o -> rtc pooling (pool_new hardware o) p ->
  Z.of_nat (length (sp_queue p)) <= Z.max 0 (queue_capacity hardware o)
  /\ sp_accepted p = sp_started p ++ sp_queue p
  /\ (sp_idle p = 0%nat -> sp_busy p = [] -> sp_started p = sp_accepted p /\ sp_stopping p = true).
Proof.
  intros Hw Hr. assert (pool_ok (worker_count hardware o) (queue_capacity hardware o) p) as [[_ Hq] Ho Hn He].
  { pose proof (pool_new_ok hardware o ltac:(lia)) as Hok. induction Hr as [|p p1 p2 Hs _ IH]; [done|].
    by apply IH, (pooling_ok _ _ p). }
  split; [done|]. split; [done|]. intros Hi Hb. rewrite Hi, Hb in Hn. simpl in Hn.
  destruct He as [Hs Hqe]; [lia|]. by rewrite Ho, Hqe, app_nil_r.
Qed.
