(* ===== verification/Timer.v ===== *)
(** * Timers and completions (src/dage.cpp: TimerCoordinator, AsyncExecutorCompletion)

    One worker fires callbacks in the order of their due times; any thread may schedule
    or cancel.  A timer is its handle's number.  The priority queue is kept sorted by
    (due, sequence), which is the order in which [top] and [pop] of the source meet its
    elements.  A cancellation is two critical sections, the flag and the bookkeeping;
    firing is two as well, taking the task and looking at the flag again before the
    callback.  Time is the count of the steady clock, in nanoseconds as a signed 64-bit
    integer; delays are in milliseconds. *)

From S2P Require Import Prelude RunState.
Open Scope string_scope.
Open Scope list_scope.
Open Scope Z_scope.

Record Task := mkTask { tk_due : Z; tk_sequence : Z; tk_handle : nat }.

(** [now + milliseconds(delay_ms)]: the delay is converted to a signed count, then to
    nanoseconds, and added, each of which may overflow; as the processor does it. *)
Definition due_time (now delay_ms : Z) : Z := i64 (now + i64 (i64 delay_ms * 1000000)).

(** [tm_cancelling] counts cancellations whose bookkeeping is still to come, [tm_taken]
    is the task the worker holds, [tm_fired] the callbacks made, with the time;
    [tm_requests] records when each timer was asked for, and its delay. *)
Record Timers := mkTimers {
  tm_stopping : bool; tm_sequence : Z; tm_revision : Z; tm_cancelled_count : Z; tm_tasks : list Task;
  tm_cancelled : list bool; tm_cancelling : nat; tm_taken : option Task; tm_fired : list (Task * Z); tm_requests : list (Z * Z)
}.
#[export] Instance eta_Timers : Settable Timers := fun t =>
  mkTimers (tm_stopping t) (tm_sequence t) (tm_revision t) (tm_cancelled_count t) (tm_tasks t) (tm_cancelled t)
    (tm_cancelling t) (tm_taken t) (tm_fired t) (tm_requests t).
Definition timers_new : Timers := mkTimers false 0 0 0 [] [] 0 None [] [].

Definition is_cancelled (t : Timers) (h : nat) : bool := default false (tm_cancelled t !! h).

(** [Later]: the opposite of "goes first". *)
Definition later (a b : Task) : bool :=
  if tk_due a =? tk_due b then tk_sequence b <? tk_sequence a else tk_due b <? tk_due a.
Fixpoint push (x : Task) (tasks : list Task) : list Task :=
  match tasks with
  | [] => [x]
  | y :: rest => if later x y then y :: push x rest else x :: tasks
  end.

Definition compact (t : Timers) : Timers :=
  if (tm_cancelled_count t <? 64) || (u64 (tm_cancelled_count t * 2) <? Z.of_nat (length (tm_tasks t))) then t
  else t <| tm_tasks := foldl (fun kept x => if is_cancelled t (tk_handle x) then kept else push x kept) [] (tm_tasks t) |>
         <| tm_cancelled_count := 0 |>.

(** [schedule_after]; without a delay or a callback there is no handle. *)
Definition schedule_after (now delay_ms : Z) (callback : bool) (t : Timers) : option nat * Timers :=
  if (delay_ms =? 0) || negb callback then (None, t)
  else let h := length (tm_cancelled t) in
    (Some h, compact (t <| tm_cancelled := tm_cancelled t ++ [false] |> <| tm_requests := tm_requests t ++ [(now, delay_ms)] |>
                        <| tm_tasks := push (mkTask (due_time now delay_ms) (tm_sequence t) h) (tm_tasks t) |>
                        <| tm_sequence := u64 (tm_sequence t + 1) |> <| tm_revision := u64 (tm_revision t + 1) |>)).

(** [Handle::cancel]: the flag, once, and then [on_cancel_]. *)
Definition cancel_flag (h : nat) (t : Timers) : Timers :=
  if is_cancelled t h then t
  else t <| tm_cancelled := <[h := true]> (tm_cancelled t) |> <| tm_cancelling := S (tm_cancelling t) |>.
Definition on_cancel (t : Timers) : Timers :=
  compact (t <| tm_cancelling := pred (tm_cancelling t) |> <| tm_cancelled_count := u64 (tm_cancelled_count t + 1) |>
             <| tm_revision := u64 (tm_revision t + 1) |>).

(** [run]: cancelled tasks at the top are dropped; [stop] is the destructor's flag. *)
Definition drop_top (t : Timers) : option Timers :=
  match tm_taken t, tm_tasks t with
  | None, x :: rest =>
    if negb (tm_stopping t) && is_cancelled t (tk_handle x) then
      Some (t <| tm_tasks := rest |>
              <| tm_cancelled_count := if tm_cancelled_count t =? 0 then 0 else tm_cancelled_count t - 1 |>)
    else None
  | _, _ => None
  end.
(** The wait for the top's due time ran out. *)
Definition take_due (now : Z) (t : Timers) : option Timers :=
  match tm_taken t, tm_tasks t with
  | None, x :: rest =>
    if negb (tm_stopping t) && (tk_due x <=? now) then Some (t <| tm_tasks := rest |> <| tm_taken := Some x |>) else None
  | _, _ => None
  end.
Definition fire (now : Z) (t : Timers) : option Timers :=
  match tm_taken t with
  | Some x => Some (t <| tm_taken := None |>
      <| tm_fired := if is_cancelled t (tk_handle x) then tm_fired t else tm_fired t ++ [(x, now)] |>)
  | None => None
  end.
Definition stop_timers (t : Timers) : Timers := t <| tm_stopping := true |>.
Definition pending_count (t : Timers) : Z := Z.of_nat (length (tm_tasks t)).

(** The clock only moves forward. *)
Inductive timing : Z * Timers -> Z * Timers -> Prop :=
| TTick now now' t : now <= now' -> timing (now, t) (now', t)
| TSchedule delay callback now t : 0 <= delay <= u64_max -> timing (now, t) (now, (schedule_after now delay callback t).2)
| TCancel h now t : (h < length (tm_cancelled t))%nat -> timing (now, t) (now, cancel_flag h t)
| TCancelled now t : tm_cancelling t <> 0%nat -> timing (now, t) (now, on_cancel t)
| TDrop now t t' : drop_top t = Some t' -> timing (now, t) (now, t')
| TTake now t t' : take_due now t = Some t' -> timing (now, t) (now, t')
| TFire now t t' : fire now t = Some t' -> timing (now, t) (now, t')
| TStop now t : timing (now, t) (now, stop_timers t).

(** ** Invariants *)
Definition fired_handles (fired : list (Task * Z)) : list nat := tk_handle ∘ fst <$> fired.
Definition queued_handles (taken : option Task) (tasks : list Task) : list nat :=
  tk_handle <$> (option_list taken ++ tasks).
Definition flag (cancelled : list bool) (h : nat) : bool := default false (cancelled !! h).

(** [goes_first]: the order of the queue. *)
Definition goes_first (a b : Task) : Prop := later a b = false.
Record ok_fields (now : Z) (cancelled : list bool) (taken : option Task) (tasks : list Task) (fired : list (Task * Z))
    : Prop := {
  to_once : NoDup (fired_handles fired ++ queued_handles taken tasks);
  to_known : forall h, h ∈ fired_handles fired ++ queued_handles taken tasks -> (h < length cancelled)%nat;
  to_kept : forall h, (h < length cancelled)%nat -> flag cancelled h = false ->
              h ∈ fired_handles fired ++ queued_handles taken tasks;
  to_due : Forall (fun f => tk_due f.1 <= f.2) fired;
  to_taken : forall x, taken = Some x -> tk_due x <= now;
  to_sorted : StronglySorted goes_first tasks
}.
Definition timers_ok (now : Z) (t : Timers) : Prop :=
  ok_fields now (tm_cancelled t) (tm_taken t) (tm_tasks t) (tm_fired t).

Lemma goes_first_trans a b c : goes_first a b -> goes_first b c -> goes_first a c.
Proof.
  unfold goes_first, later. destruct (Z.eqb_spec (tk_due a) (tk_due b)), (Z.eqb_spec (tk_due b) (tk_due c)),
    (Z.eqb_spec (tk_due a) (tk_due c)); lia.
Qed.
Lemma later_first a b : later a b = true -> goes_first b a.
Proof.
  unfold goes_first, later. destruct (Z.eqb_spec (tk_due a) (tk_due b)), (Z.eqb_spec (tk_due b) (tk_due a)); lia.
Qed.
Lemma push_perm x l : push x l ≡ₚ x :: l.
Proof. induction l as [|y l IH]; simpl; [done|]. destruct (later x y); [|done]. rewrite IH. apply perm_swap. Qed.
Lemma push_sorted x l : StronglySorted goes_first l -> StronglySorted goes_first (push x l).
Proof.
  induction 1 as [|y l Hl IH Hy]; simpl; [repeat constructor|]. destruct (later x y) eqn:E.
  - constructor; [done|]. rewrite push_perm. constructor; [by apply later_first|done].
  - constructor; [by constructor|]. constructor; [done|]. eapply Forall_impl; [exact Hy|].
    intros z. by apply goes_first_trans.
Qed.
Lemma push_all_perm (keep : Task -> bool) l kept :
  foldl (fun kept x => if keep x then kept else push x kept) kept l
  ≡ₚ kept ++ List.filter (fun x => negb (keep x)) l.
Proof.
  revert kept. induction l as [|x l IH]; intros kept; simpl; [by rewrite app_nil_r|].
  rewrite IH. destruct (keep x); simpl; [done|]. rewrite push_perm. simpl. by rewrite Permutation_middle.
Qed.
Lemma push_all_sorted (keep : Task -> bool) l kept :
  StronglySorted goes_first kept ->
  StronglySorted goes_first (foldl (fun kept x => if keep x then kept else push x kept) kept l).
Proof.
  revert kept. induction l as [|x l IH]; intros kept H; simpl; [done|]. apply IH. by destruct (keep x); [|apply push_sorted].
Qed.
Lemma filter_split (f : Task -> bool) l :
  l ≡ₚ List.filter f l ++ List.filter (fun x => negb (f x)) l.
Proof. induction l as [|x l IH]; simpl; [done|]. destruct (f x); simpl; [by rewrite <- IH|]. by rewrite <- Permutation_middle, <- IH. Qed.

(** Cancelled tasks may be dropped from the queue. *)
Lemma drop_cancelled now c taken tasks tasks' dropped fired :
  ok_fields now c taken tasks fired -> tasks ≡ₚ dropped ++ tasks' ->
  Forall (fun x => flag c (tk_handle x) = true) dropped -> StronglySorted goes_first tasks' ->
  ok_fields now c taken tasks' fired.
Proof.
  intros [Ho Hk Hkept Hd Ht Hs] Hp Hdr Hs'. unfold queued_handles in *.
  assert (fired_handles fired ++ (tk_handle <$> option_list taken ++ tasks)
          ≡ₚ (tk_handle <$> dropped) ++ fired_handles fired ++ (tk_handle <$> option_list taken ++ tasks')) as HP.
  { rewrite Hp, !fmap_app. solve_Permutation. }
  rewrite HP in Ho. apply NoDup_app in Ho as (_ & _ & Ho). split; try done.
  - intros h Hh. apply Hk. rewrite HP. apply elem_of_app. by right.
  - intros h Hh Hc. specialize (Hkept h Hh Hc). rewrite HP in Hkept. apply elem_of_app in Hkept as [Hin|]; [|done].
    apply list_elem_of_fmap in Hin as (x & -> & Hx). apply (proj1 (Forall_forall _ _) Hdr) in Hx. simpl in Hx. congruence.
Qed.
Lemma compact_ok now t : timers_ok now t -> timers_ok now (compact t).
Proof.
  intros H. unfold compact. destruct (_ || _); [done|]. unfold timers_ok. simpl.
  eapply (drop_cancelled _ _ _ _ _ (List.filter (fun x => is_cancelled t (tk_handle x)) (tm_tasks t))); [exact H|..].
  - rewrite (push_all_perm (fun x => is_cancelled t (tk_handle x))). simpl. apply filter_split.
  - apply List.Forall_forall. intros x Hx. by apply filter_In in Hx as [_ Hx].
  - apply (push_all_sorted (fun x => is_cancelled t (tk_handle x))). constructor.
Qed.
Lemma flag_app c h : (h < length c)%nat -> flag (c ++ [false]) h = flag c h.
Proof. intros H. unfold flag. by rewrite lookup_app_l. Qed.

Lemma schedule_ok now delay callback t : timers_ok now t -> timers_ok now (schedule_after now delay callback t).2.
Proof.
  intros H. unfold schedule_after. destruct (_ || _); [done|]. simpl. apply compact_ok.
  destruct H as [Ho Hk Hkept Hd Ht Hs]. unfold timers_ok. simpl.
  set (h := length (tm_cancelled t)). set (x := mkTask _ _ h).
  assert (fired_handles (tm_fired t) ++ queued_handles (tm_taken t) (push x (tm_tasks t))
          ≡ₚ h :: fired_handles (tm_fired t) ++ queued_handles (tm_taken t) (tm_tasks t)) as HP.
  { unfold queued_handles. rewrite push_perm, !fmap_app, fmap_cons. solve_Permutation. }
  split; try done.
  - rewrite HP. constructor; [|done]. intros Hin%Hk. unfold h in Hin. lia.
  - intros y Hy. rewrite HP in Hy. rewrite length_app. simpl. apply elem_of_cons in Hy as [->|Hy]; [unfold h; lia|].
    specialize (Hk y Hy). lia.
  - intros y Hy Hc. rewrite HP. rewrite length_app in Hy. simpl in Hy.
    destruct (decide (y = h)) as [->|Hne]; [by left|]. right. assert (y < length (tm_cancelled t))%nat by (unfold h in Hne; lia).
    apply Hkept; [done|]. by rewrite flag_app in Hc.
  - by apply push_sorted.
Qed.
Lemma cancel_ok now h t : (h < length (tm_cancelled t))%nat -> timers_ok now t -> timers_ok now (cancel_flag h t).
Proof.
  intros Hh H. unfold cancel_flag. destruct (is_cancelled t h); [done|]. destruct H as [Ho Hk Hkept Hd Ht Hs].
  unfold timers_ok. simpl. split; try done; rewrite ?length_insert; try done.
  intros y Hy Hc. apply Hkept; [done|]. unfold flag in *.
  destruct (decide (h = y)) as [->|]; [by rewrite list_lookup_insert_eq in Hc|by rewrite list_lookup_insert_ne in Hc].
Qed.
Lemma take_ok now t t' : take_due now t = Some t' -> timers_ok now t -> timers_ok now t'.
Proof.
  unfold take_due. intros E [Ho Hk Hkept Hd Ht Hs]. unfold timers_ok.
  destruct (tm_taken t) eqn:Et; [done|]. destruct (tm_tasks t) as [|x rest] eqn:Eq; [done|].
  destruct (negb _ && (tk_due x <=? now)) eqn:Ed; [|done]. injection E as <-. simpl.
  split; try done.
  - intros y [= <-]. apply andb_true_iff in Ed as [_ Ed]. lia.
  - by apply StronglySorted_inv in Hs as [? _].
Qed.
Lemma fired_snoc l x n : fired_handles (l ++ [(x, n)]) = fired_handles l ++ [tk_handle x].
Proof. unfold fired_handles. by rewrite fmap_app. Qed.
Lemma fire_ok now t t' : fire now t = Some t' -> timers_ok now t -> timers_ok now t'.
Proof.
  unfold fire. intros E [Ho Hk Hkept Hd Ht Hs]. unfold timers_ok. destruct (tm_taken t) as [x|] eqn:Et; [|done].
  unfold is_cancelled in E. fold (flag (tm_cancelled t) (tk_handle x)) in E.
  unfold queued_handles in *. simpl in *.
  destruct (flag (tm_cancelled t) (tk_handle x)) eqn:Ec; injection E as <-; simpl.
  - apply NoDup_app in Ho as (H1 & H2 & H3). apply NoDup_cons in H3 as [H3 H4].
    split; simpl; try done.
    + apply NoDup_app. split; [done|]. split; [|done]. intros h Hh Hq. apply (H2 h Hh). by right.
    + intros h Hh. apply Hk. set_solver.
    + intros h Hh Hc. specialize (Hkept h Hh Hc). apply elem_of_app in Hkept as [?|Hq]; [set_solver|].
      apply elem_of_cons in Hq as [->|?]; [congruence|set_solver].
  - split; rewrite ?fired_snoc, <- ?app_assoc; simpl; try done.
    apply Forall_app. split; [done|]. constructor; [|constructor]. simpl. by apply Ht.
Qed.

Lemma timing_ok now t now' t' : timing (now, t) (now', t') -> timers_ok now t -> timers_ok now' t'.
Proof.
  intros Hs H. inversion Hs as [? ? ? Hle|? ? ? ? ?|h ? ? Hh|? ? Hc|? ? ? E|? ? ? E|? ? ? E|]; subst.
  - destruct H as [? ? ? ? Ht ?]. split; try done. intros x Hx. specialize (Ht x Hx). lia.
  - by apply schedule_ok.
  - by apply cancel_ok.
  - by apply compact_ok.
  - unfold drop_top in E. destruct (tm_taken t) eqn:Et; [done|]. destruct (tm_tasks t) as [|x rest] eqn:Eq; [done|].
    destruct (negb _ && _) eqn:Ed; [|done]. injection E as <-. apply andb_true_iff in Ed as [_ Ed].
    unfold timers_ok in *. rewrite Et, Eq in H. simpl. rewrite Et.
    eapply (drop_cancelled _ _ _ _ rest [x]); [exact H|done|by constructor|].
    apply to_sorted in H. by apply StronglySorted_inv in H as [? _].
  - by eapply take_ok.
  - by eapply fire_ok.
  - done.
Qed.
Lemma timers_reachable now t : rtc timing (0, timers_new) (now, t) -> timers_ok now t.
Proof.
  intros H. change (timers_ok (now, t).1 (now, t).2). revert H. generalize (now, t).
  apply (rtc_ind_r (fun p => timers_ok p.1 p.2) (0, timers_new)).
  - split; simpl; try done; [constructor|set_solver|lia|constructor].
  - intros [] [] _ Hs H. by eapply timing_ok.
Qed.

(** Every task is one that was asked for, with the due time of its delay. *)
Definition asked (t : Timers) (x : Task) : Prop :=
  exists start delay, tm_requests t !! tk_handle x = Some (start, delay) /\ tk_due x = due_time start delay.
Record all_asked (t : Timers) : Prop := {
  aa_length : length (tm_requests t) = length (tm_cancelled t);
  aa_tasks : forall x, x ∈ option_list (tm_taken t) ++ tm_tasks t ++ (tm_fired t).*1 -> asked t x
}.
Lemma asked_same t t' : tm_requests t' = tm_requests t -> length (tm_cancelled t') = length (tm_cancelled t) ->
  (forall x, x ∈ option_list (tm_taken t') ++ tm_tasks t' ++ (tm_fired t').*1 -> x ∈ option_list (tm_taken t) ++ tm_tasks t ++ (tm_fired t).*1) ->
  all_asked t -> all_asked t'.
Proof. intros Er Ec Hs [Hl Hx]. split; [by rewrite Er, Ec|]. intros x Hin%Hs%Hx. unfold asked. by rewrite Er. Qed.
Lemma compact_asked t : all_asked t -> all_asked (compact t).
Proof.
  intros Ha. unfold compact. destruct (_ || _); [done|]. apply (asked_same t); try done. intros x. cbn.
  rewrite (push_all_perm (fun x => is_cancelled t (tk_handle x))). cbn. rewrite !elem_of_app. intros [?|[Hin|?]]; [tauto| |tauto].
  right. left. apply list_elem_of_In in Hin. apply filter_In in Hin as [Hin _]. by apply list_elem_of_In.
Qed.
Lemma schedule_asked now delay callback t : all_asked t -> all_asked (schedule_after now delay callback t).2.
Proof.
  intros [Hl Hx]. unfold schedule_after. destruct (_ || _); [by split|]. cbn. apply compact_asked. split; cbn; [rewrite !length_app, Hl; done|].
  intros x. rewrite push_perm, !elem_of_app, elem_of_cons. unfold asked. cbn.
  assert (x ∈ option_list (tm_taken t) ++ tm_tasks t ++ (tm_fired t).*1 -> exists start delay0,
    (tm_requests t ++ [(now, delay)]) !! tk_handle x = Some (start, delay0) /\ tk_due x = due_time start delay0) as Hold.
  { intros (start & delay0 & E & Ed)%Hx. exists start, delay0. split; [|done]. by apply lookup_app_l_Some. }
  rewrite !elem_of_app in Hold. intros [?|[[->|?]|?]]; [tauto| |tauto..]. exists now, delay. cbn. split; [|done].
  by rewrite <- Hl, lookup_app_r, Nat.sub_diag by lia.
Qed.
Lemma timing_asked p p' : timing p p' -> all_asked p.2 -> all_asked p'.2.
Proof.
  destruct 1 as [| |h now t Hh|now t Hc|now t t' E|now t t' E|now t t' E|]; cbn; try done.
  - by apply schedule_asked.
  - intros Ha. unfold cancel_flag. destruct (is_cancelled t h); [done|]. apply (asked_same t); try done. cbn. by rewrite length_insert.
  - intros Ha. by apply compact_asked, (asked_same t).
  - unfold drop_top in E. destruct (tm_taken t) eqn:Et; [done|]. destruct (tm_tasks t) as [|x rest] eqn:Eq; [done|].
    destruct (_ && _); [|done]. injection E as <-. apply asked_same; try done. cbn. rewrite Et, Eq. set_solver.
  - unfold take_due in E. destruct (tm_taken t) eqn:Et; [done|]. destruct (tm_tasks t) as [|x rest] eqn:Eq; [done|].
    destruct (_ && _); [|done]. injection E as <-. apply asked_same; try done. cbn. rewrite Et, Eq. set_solver.
  - unfold fire in E. destruct (tm_taken t) as [x|] eqn:Et; [|done]. injection E as <-. apply asked_same; try done. cbn. rewrite Et.
    destruct (is_cancelled t (tk_handle x)); [set_solver|]. rewrite fmap_app. set_solver.
  - intros Ha. by apply (asked_same t).
Qed.
Lemma i64_exact z : - 2 ^ 63 <= z < 2 ^ 63 -> i64 z = z.
Proof. intros. unfold i64. rewrite Z.mod_small; lia. Qed.
Lemma due_time_exact now delay : 0 <= now -> 0 <= delay -> now + delay * 1000000 < 2 ^ 63 -> due_time now delay = now + delay * 1000000.
Proof. intros. unfold due_time. by rewrite (i64_exact delay), (i64_exact (delay * _)), i64_exact by lia. Qed.

(** C35: the timers are sound.  However scheduling, cancellation, compaction and the worker
    interleave, no timer fires twice, and one that fires was asked for, by a call whose
    time plus the delay, computed with 64-bit nanoseconds, has come; where that sum does
    not overflow this is the delay that was asked for.  A timer that was neither
    cancelled nor fired is still queued or in the worker's hands, and the first in the
    queue is due no later than any other. *)
Theorem timers_sound now t :
  rtc timing (0, timers_new) (now, t) ->
  NoDup (fired_handles (tm_fired t))
  /\ (forall x time, (x, time) ∈ tm_fired t -> exists start delay, tm_requests t !! tk_handle x = Some (start, delay)
      /\ due_time start delay <= time
      /\ (0 <= start -> 0 <= delay -> start + delay * 1000000 < 2 ^ 63 -> start + delay * 1000000 <= time))
  /\ (forall h, (h < length (tm_cancelled t))%nat -> is_cancelled t h = false ->
      h ∈ fired_handles (tm_fired t) \/ h ∈ queued_handles (tm_taken t) (tm_tasks t))
  /\ (forall x rest y, tm_tasks t = x :: rest -> y ∈ rest -> tk_due x <= tk_due y).
Proof.
  intros Hr. assert (all_asked t) as [_ Ha].
  { assert (all_asked (0, timers_new).2) as H0 by (split; [done|by intros x ?%elem_of_nil]). change (all_asked (now, t).2). revert H0.
    generalize dependent (now, t). intros p. induction 1 as [|x y z Hxy _ IH]; [done|]. intros Hx. by eapply IH, timing_asked. }
  apply timers_reachable in Hr as [Ho Hk Hkept Hd Ht Hs]. apply NoDup_app in Ho as (Ho & _). split_and!; [done| | |].
  - intros x time Hin. destruct (Ha x) as (start & delay & E & Ed).
    { apply elem_of_app. right. apply elem_of_app. right. apply list_elem_of_fmap. by exists (x, time). }
    exists start, delay. apply (proj1 (Forall_forall _ _) Hd) in Hin. cbn in Hin. rewrite Ed in Hin. split_and!; [done..|].
    intros H1 H2 H3. by rewrite due_time_exact in Hin.
  - intros h Hh Hc. by apply elem_of_app, Hkept.
  - intros x rest y E Hy. rewrite E in Hs. apply StronglySorted_inv in Hs as [_ Hf].
    apply (proj1 (Forall_forall _ _) Hf) in Hy. unfold goes_first, later in Hy. destruct (Z.eqb_spec (tk_due x) (tk_due y)); lia.
Qed.
(** A delay of more than about 292 years overflows, and its timer is due at once. *)
Lemma long_delay_due_at_once : due_time 0 9223372036855 < 0.
Proof. by vm_compute. Qed.

(** ** AsyncExecutorCompletion

    [complete] claims the completion under its mutex and then calls back; the callback may
    throw, which [complete] answers with [false]. *)
Record Completion := mkCompletion { cp_done : bool; cp_callback : bool; cp_calls : list ExecutionResult }.
#[export] Instance eta_Completion : Settable Completion := fun c => mkCompletion (cp_done c) (cp_callback c) (cp_calls c).
Definition complete (result : ExecutionResult) (throws : bool) (c : Completion) : bool * Completion :=
  if cp_done c then (false, c)
  else let c := c <| cp_done := true |> in
       if cp_callback c then (negb throws, c <| cp_calls := cp_calls c ++ [result] |>) else (true, c).
Definition completion_cancelled (token : option bool) : bool := default false token.
(** A completion answers once: whatever is completed later changes nothing. *)
Lemma complete_once r r' throws throws' c :
  complete r' throws' (complete r throws c).2 = (false, (complete r throws c).2).
Proof. unfold complete. destruct (cp_done c) eqn:E; simpl; [by rewrite E|]. by destruct (cp_callback c). Qed.
