(* ===== verification/Replay.v ===== *)
(** * Replaying traces and comparing shadow runs (src/dage.cpp: prepare_trace_replay,
    compare_shadow_evaluation)

    [prepare_trace_replay] reads a recorded trace into the plan a deterministic replay
    runs from (Restore.v: [create_replay_run]); [compare_shadow_evaluation] weighs a
    shadow run against its baseline.  The loops are folds over the events and metrics;
    an early [return failure] is [Ok (Err _)], an escaping jsoncpp exception [Err _]. *)

From S2P Require Import Prelude Json Expr Sha256 Ir Reliability Workflow Trace RunState RunStep RunTrace Restore.
From Stdlib Require Import SpecFloat.
Open Scope string_scope.
Open Scope list_scope.
Open Scope Z_scope.

Definition replay_error (code message : string) : Error := mkError "trace_replay" code message false.

(** The locals of the loop: the plan so far, [started], [finished], [previous]. *)
Record ReplayScan := mkReplayScan {
  rs_plan : TraceReplayPlan; rs_started : bool; rs_finished : bool; rs_previous : list (string * Z)
}.
#[export] Instance eta_TraceReplayPlan : Settable TraceReplayPlan := fun p =>
  mkReplayPlan (rp_source_run_id p) (rp_trace_id p) (rp_workflow_digest p) (rp_bundle_digest p)
    (rp_workflow_input p) (rp_executor_outcomes p) (rp_expected_result p).
#[export] Instance eta_ReplayScan : Settable ReplayScan := fun s =>
  mkReplayScan (rs_plan s) (rs_started s) (rs_finished s) (rs_previous s).
Definition empty_plan : TraceReplayPlan := mkReplayPlan "" "" "" "" JNull [] (mkResult false JNull no_error).
Definition scan_init : ReplayScan := mkReplayScan empty_plan false false [].

Section Replay.
Context {J : JsonLib}.
Abbreviation scanned := (exc (Result ReplayScan)).
Definition refuse (code message : string) : scanned := Ok (Err (replay_error code message)).
Definition go_on (s : ReplayScan) : scanned := Ok (Ok s).

(** The event that starts the recorded run. *)
Definition scan_start (expected_workflow expected_bundle : string) (e : EventEnvelope) (s : ReplayScan) : scanned :=
  if negb (ev_schema_version e =? 1) then refuse "REPLAY_SCHEMA_UNSUPPORTED" "unsupported trace schema"
  else if negb (String.eqb (ev_workflow_digest e) expected_workflow) then
    refuse "REPLAY_WORKFLOW_MISMATCH" "trace Workflow digest does not match"
  else if negb (str_empty expected_bundle) && negb (String.eqb (ev_bundle_digest e) expected_bundle) then
    refuse "REPLAY_BUNDLE_MISMATCH" "trace Bundle digest does not match"
  else match parse_json (ev_payload_json e) with
  | Err _ => refuse "REPLAY_FULL_TRACE_REQUIRED" "run_started payload is missing or invalid"
  | Ok payload =>
    has ← jmember "workflow_input" payload;
    if negb has then refuse "REPLAY_FULL_TRACE_REQUIRED" "Full trace with workflow input is required"
    else
      input ← jget "workflow_input" payload;
      input ← copy_value input;
      go_on (s <| rs_plan := (rs_plan s) <| rp_source_run_id := ev_run_id e |> <| rp_trace_id := ev_trace_id e |>
                    <| rp_workflow_digest := ev_workflow_digest e |> <| rp_bundle_digest := ev_bundle_digest e |>
                    <| rp_workflow_input := input |> |>
               <| rs_started := true |> <| rs_previous := om_set (ev_run_id e) (ev_sequence e) (rs_previous s) |>)
  end.

Definition push_outcome (e : EventEnvelope) (result : ExecutionResult) (s : ReplayScan) : ReplayScan :=
  s <| rs_plan := (rs_plan s) <| rp_executor_outcomes := rp_executor_outcomes (rs_plan s)
         ++ [mkReplayOutcome (ev_invocation_id e) (ev_node_id e) (ev_attempt e) result] |> |>.

(** [node_succeeded] and [node_failed] of a node with an executor; [run_completed]. *)
Definition scan_success (e : EventEnvelope) (s : ReplayScan) : scanned :=
  if str_empty (ev_invocation_id e) then refuse "REPLAY_INVOCATION_ID_REQUIRED" "executor event has no invocation identity"
  else if str_empty (ev_payload_json e) then refuse "REPLAY_FULL_TRACE_REQUIRED" "executor output is missing"
  else match parse_json (ev_payload_json e) with
  | Err _ => refuse "REPLAY_PAYLOAD_INVALID" "executor output is invalid JSON"
  | Ok output => go_on (push_outcome e (ok_result output) s)
  end.
Definition recorded_failure (code message : string) (v : json) : exc (string * string * string) :=
  category ← get_string "category" "execution_error" v;
  code ← get_string "code" code v;
  message ← get_string "message" message v;
  Ok (category, code, message).
Definition scan_failure (e : EventEnvelope) (s : ReplayScan) : scanned :=
  if str_empty (ev_invocation_id e) then refuse "REPLAY_INVOCATION_ID_REQUIRED" "executor event has no invocation identity"
  else match parse_json (ev_payload_json e) with
  | Err _ => refuse "REPLAY_FULL_TRACE_REQUIRED" "executor failure details are missing"
  | Ok payload =>
    f ← recorded_failure "REPLAY_FAILURE" "Recorded failure." payload;
    retryable ← get_bool "retryable" false payload;
    go_on (push_outcome e (fail_retryable f.1.1 f.1.2 f.2 retryable) s)
  end.
Definition scan_completed (e : EventEnvelope) (s : ReplayScan) : scanned :=
  match parse_json (ev_payload_json e) with
  | Err _ => refuse "REPLAY_FULL_TRACE_REQUIRED" "final result is missing"
  | Ok payload =>
    success ← get_bool "success" false payload;
    result ← (if success : bool then
        output ← jget "output" payload; output ← copy_value output; Ok (ok_result output)
      else
        error ← jget "error" payload;
        f ← recorded_failure "RUN_FAILED" "Recorded failure." error;
        Ok (fail_result f.1.1 f.1.2 f.2));
    go_on (s <| rs_plan := (rs_plan s) <| rp_expected_result := result |> |> <| rs_finished := true |>)
  end.

Definition has_executor (e : EventEnvelope) : bool := negb (str_empty (ev_executor e)).
Definition scan_event (expected_workflow expected_bundle : string) (e : EventEnvelope) (s : ReplayScan) : scanned :=
  if negb (rs_started s) then
    if negb (String.eqb (ev_event e) "run_started") then go_on s
    else scan_start expected_workflow expected_bundle e s
  else if negb (String.eqb (ev_trace_id e) (rp_trace_id (rs_plan s))) then go_on s
  else
    let seen := s <| rs_previous := om_set (ev_run_id e) (ev_sequence e) (rs_previous s) |> in
    match om_get (ev_run_id e) (rs_previous s) with
    | None =>
      if negb (String.eqb (ev_event e) "run_started") then refuse "REPLAY_TRACE_INCOMPLETE" "child run is missing run_started"
      else go_on seen
    | Some prior =>
      if ev_sequence e <=? prior then refuse "REPLAY_SEQUENCE_INVALID" "trace sequence is not strictly increasing"
      else if negb (ev_sequence e =? u64 (prior + 1)) then refuse "REPLAY_TRACE_INCOMPLETE" "trace contains a sequence gap"
      else if String.eqb (ev_event e) "node_succeeded" && has_executor e then scan_success e seen
      else if String.eqb (ev_event e) "node_failed" && has_executor e then scan_failure e seen
      else if String.eqb (ev_event e) "run_completed" && String.eqb (ev_run_id e) (rp_source_run_id (rs_plan s)) then
        scan_completed e seen
      else go_on seen
    end.
Fixpoint scan_events (expected_workflow expected_bundle : string) (events : list EventEnvelope) (s : ReplayScan) : scanned :=
  match events with
  | [] => go_on s
  | e :: rest =>
    out ← scan_event expected_workflow expected_bundle e s;
    match out with Ok s => scan_events expected_workflow expected_bundle rest s | Err f => Ok (Err f) end
  end.
Definition prepare_trace_replay (events : list EventEnvelope) (expected_workflow expected_bundle : string)
    : exc (Result TraceReplayPlan) :=
  out ← scan_events expected_workflow expected_bundle events scan_init;
  match out with
  | Err f => Ok (Err f)
  | Ok s =>
    if negb (rs_started s) then Ok (Err (replay_error "REPLAY_RUN_NOT_FOUND" "trace has no run_started event"))
    else if negb (rs_finished s) then Ok (Err (replay_error "REPLAY_TRACE_INCOMPLETE" "trace has no run_completed event"))
    else Ok (Ok (rs_plan s))
  end.
End Replay.

(** ** What an accepted trace certifies *)
Definition of_trace (trace : string) (events : list EventEnvelope) : list EventEnvelope :=
  List.filter (fun e => String.eqb (ev_trace_id e) trace) events.
Definition sequences (run : string) (events : list EventEnvelope) : list Z :=
  ev_sequence <$> List.filter (fun e => String.eqb (ev_run_id e) run) events.
(** The numbers of a run's events: none skipped, none repeated. *)
Definition unbroken (l : list Z) (last : option Z) : Prop :=
  match l, last with
  | [], None => True
  | first :: rest, Some n => consecutive first rest n
  | _, _ => False
  end.
Definition executor_event (e : EventEnvelope) : bool :=
  (String.eqb (ev_event e) "node_succeeded" || String.eqb (ev_event e) "node_failed") && has_executor e.
Definition outcome_key (o : TraceReplayOutcome) : string * string * Z := (tr_invocation_id o, tr_node_id o, tr_attempt o).
Definition event_key (e : EventEnvelope) : string * string * Z := (ev_invocation_id e, ev_node_id e, ev_attempt e).

Section Certifies.
Context {J : JsonLib} (expected_workflow expected_bundle : string).

(** The outcome recorded for an event: the output that is its payload, or the failure its
    payload describes. *)
Definition stands_for (e : EventEnvelope) (o : TraceReplayOutcome) : Prop :=
  outcome_key o = event_key e
  /\ exists payload, parse_json (ev_payload_json e) = Ok payload
     /\ if String.eqb (ev_event e) "node_succeeded" then tr_result o = ok_result payload
        else get_string "category" "execution_error" payload = Ok (xe_category (xr_error (tr_result o)))
          /\ get_string "code" "REPLAY_FAILURE" payload = Ok (xe_code (xr_error (tr_result o)))
          /\ get_string "message" "Recorded failure." payload = Ok (xe_message (xr_error (tr_result o)))
          /\ get_bool "retryable" false payload = Ok (xe_retryable (xr_error (tr_result o)))
          /\ xr_success (tr_result o) = false.

(** After the events [done] of the trace, the first of them the start. *)
Record scan_ok (start : EventEnvelope) (done : list EventEnvelope) (s : ReplayScan) : Prop := {
  so_started : rs_started s = true;
  so_source : rp_source_run_id (rs_plan s) = ev_run_id start /\ rp_trace_id (rs_plan s) = ev_trace_id start
    /\ rp_workflow_digest (rs_plan s) = ev_workflow_digest start /\ rp_bundle_digest (rs_plan s) = ev_bundle_digest start;
  so_unbroken : forall run, unbroken (sequences run done) (om_get run (rs_previous s));
  so_outcomes : Forall2 stands_for (List.filter executor_event done) (rp_executor_outcomes (rs_plan s))
}.

Lemma sequences_snoc run done e :
  sequences run (done ++ [e]) = sequences run done ++ (if String.eqb (ev_run_id e) run then [ev_sequence e] else []).
Proof. unfold sequences. rewrite List.filter_app, fmap_app. simpl. by destruct (String.eqb _ _). Qed.
Lemma unbroken_snoc l n z : unbroken l (Some n) -> z = u64 (n + 1) -> unbroken (l ++ [z]) (Some z).
Proof.
  destruct l as [|x l]; [done|]. simpl. intros Hc ->. eapply consecutive_app; [done|]. repeat constructor.
Qed.
Lemma unbroken_next run done e prev :
  (forall run, unbroken (sequences run done) (om_get run prev)) ->
  match om_get (ev_run_id e) prev with None => True | Some n => ev_sequence e = u64 (n + 1) end ->
  unbroken (sequences run (done ++ [e])) (om_get run (om_set (ev_run_id e) (ev_sequence e) prev)).
Proof.
  intros Hu He. rewrite sequences_snoc, om_get_set. destruct (String.eqb_spec (ev_run_id e) run) as [<-|Hne].
  - rewrite decide_True by done. specialize (Hu (ev_run_id e)). destruct (om_get (ev_run_id e) prev).
    + by eapply unbroken_snoc.
    + destruct (sequences (ev_run_id e) done); [constructor|done].
  - rewrite decide_False by done. by rewrite app_nil_r.
Qed.

(** The branches of the loop after the checks on the numbers. *)
Definition outcomes_of (e : EventEnvelope) (s s' : ReplayScan) : Prop :=
  rs_started s' = rs_started s /\ rs_previous s' = rs_previous s
  /\ rp_source_run_id (rs_plan s') = rp_source_run_id (rs_plan s) /\ rp_trace_id (rs_plan s') = rp_trace_id (rs_plan s)
  /\ rp_workflow_digest (rs_plan s') = rp_workflow_digest (rs_plan s)
  /\ rp_bundle_digest (rs_plan s') = rp_bundle_digest (rs_plan s)
  /\ exists new, rp_executor_outcomes (rs_plan s') = rp_executor_outcomes (rs_plan s) ++ new
     /\ Forall2 stands_for (if executor_event e then [e] else []) new.
Lemma push_outcome_of e r s : executor_event e = true ->
  stands_for e (mkReplayOutcome (ev_invocation_id e) (ev_node_id e) (ev_attempt e) r) -> outcomes_of e s (push_outcome e r s).
Proof. intros He Hr. unfold outcomes_of. rewrite He. split_and!; try done. eexists. split; [done|]. constructor; [done|constructor]. Qed.
Lemma same_outcomes e s : executor_event e = false -> outcomes_of e s s.
Proof. intros He. unfold outcomes_of. rewrite He. split_and!; try done. exists []. by rewrite app_nil_r. Qed.
Lemma scan_success_Ok e s s' :
  String.eqb (ev_event e) "node_succeeded" = true -> executor_event e = true -> scan_success e s = Ok (Ok s') -> outcomes_of e s s'.
Proof.
  intros Hn He. unfold scan_success. case_match; [done|]. case_match; [done|].
  destruct (parse_json (ev_payload_json e)) as [output|] eqn:Ep; [|done]. intros [= <-]. apply push_outcome_of; [done|].
  split; [done|]. exists output. by rewrite Hn.
Qed.
Lemma scan_failure_Ok e s s' :
  String.eqb (ev_event e) "node_succeeded" = false -> executor_event e = true -> scan_failure e s = Ok (Ok s') -> outcomes_of e s s'.
Proof.
  intros Hn He. unfold scan_failure. case_match; [done|]. destruct (parse_json (ev_payload_json e)) as [payload|] eqn:Ep; [|done].
  intros Hr. unfold go_on, recorded_failure in Hr. simplify_res. apply push_outcome_of; [done|].
  split; [done|]. exists payload. by rewrite Hn.
Qed.
Lemma scan_completed_Ok e s s' : executor_event e = false -> scan_completed e s = Ok (Ok s') -> outcomes_of e s s'.
Proof.
  intros He. unfold scan_completed. case_match; [|done]. intros Hr. unfold go_on in Hr. simplify_res.
  unfold outcomes_of. rewrite He. split_and!; try done. exists []. by rewrite app_nil_r.
Qed.

Lemma scan_event_ok e done start s s' :
  scan_ok start done s -> scan_event expected_workflow expected_bundle e s = Ok (Ok s') ->
  scan_ok start (done ++ of_trace (ev_trace_id start) [e]) s'.
Proof.
  intros [Hs (H1 & H2 & H3 & H4) Hu Ho] E. unfold scan_event in E. rewrite Hs in E. cbn [negb] in E.
  unfold of_trace. cbn [List.filter]. rewrite H2 in E.
  destruct (String.eqb (ev_trace_id e) (ev_trace_id start)); cbn [negb] in E.
  2: { injection E as <-. rewrite app_nil_r. by split. }
  set (seen := s <| rs_previous := om_set (ev_run_id e) (ev_sequence e) (rs_previous s) |>) in *.
  assert (forall s', outcomes_of e seen s' ->
            match om_get (ev_run_id e) (rs_previous s) with None => True | Some n => ev_sequence e = u64 (n + 1) end ->
            scan_ok start (done ++ [e]) s') as Hnext.
  { intros s2 (A & B & C & D & F & G & new & K & N) Hseq. split; [by rewrite A| |intros run; rewrite B; by apply unbroken_next|].
    - rewrite C, D, F, G. done.
    - rewrite K, List.filter_app. apply Forall2_app; [exact Ho|]. simpl. by destruct (executor_event e). }
  destruct (om_get (ev_run_id e) (rs_previous s)) as [prior|].
  - destruct (_ <=? _); [done|]. destruct (Z.eqb_spec (ev_sequence e) (u64 (prior + 1))) as [Eq|]; [|done]. cbn [negb] in E.
    apply Hnext; [|done].
    destruct (String.eqb (ev_event e) "node_succeeded" && has_executor e) eqn:Es.
    { apply andb_true_iff in Es as [En Ex]. apply scan_success_Ok in E; [exact E|done|]. unfold executor_event. by rewrite En, Ex. }
    destruct (String.eqb (ev_event e) "node_failed" && has_executor e) eqn:Ef.
    { apply andb_true_iff in Ef as [En Ex]. rewrite Ex, andb_true_r in Es. apply scan_failure_Ok in E; [exact E|done|].
      unfold executor_event. by rewrite En, Ex, orb_true_r. }
    assert (executor_event e = false) as Hno.
    { unfold executor_event. destruct (has_executor e); [|by rewrite andb_false_r].
      rewrite andb_true_r in Es, Ef. by rewrite Es, Ef. }
    destruct (_ && _) in E; [by apply scan_completed_Ok in E|]. injection E as <-. by apply same_outcomes.
  - destruct (String.eqb_spec (ev_event e) "run_started") as [Ee|]; [|done]. injection E as <-.
    apply Hnext; [|done]. apply same_outcomes. unfold executor_event. by rewrite Ee.
Qed.

Lemma scan_events_ok events done start s s' :
  scan_ok start done s -> scan_events expected_workflow expected_bundle events s = Ok (Ok s') ->
  scan_ok start (done ++ of_trace (ev_trace_id start) events) s'.
Proof.
  revert done s. induction events as [|e events IH]; intros done s Hs E; simpl in E.
  - injection E as <-. by rewrite app_nil_r.
  - destruct (scan_event _ _ e s) as [[s1|]|] eqn:Es; simpl in E; try done.
    apply (scan_event_ok e done start) in Es; [|done]. apply IH with (1 := Es) in E.
    unfold of_trace in *. by rewrite <- app_assoc, <- List.filter_app in E.
Qed.

Lemma scan_start_Ok e s :
  scan_start expected_workflow expected_bundle e scan_init = Ok (Ok s) ->
  ev_workflow_digest e = expected_workflow /\ (expected_bundle <> "" -> ev_bundle_digest e = expected_bundle)
  /\ (ev_event e = "run_started" -> scan_ok e [e] s).
Proof.
  unfold scan_start. destruct (negb _); [done|].
  destruct (String.eqb_spec (ev_workflow_digest e) expected_workflow) as [Hw|]; [|done]. cbn [negb].
  destruct (negb (str_empty expected_bundle) && _) eqn:Eb; [done|]. destruct (parse_json _); [|done]. unfold go_on, refuse. intros H.
  simplify_res. destruct a0; [|done]; cbn [negb] in *. simplify_res. split; [done|]. split.
  - intros Hne. destruct (str_empty expected_bundle) eqn:Ee; [by destruct expected_bundle|]. simpl in Eb.
    by apply negb_false_iff, String.eqb_eq in Eb.
  - intros He. split; simpl; try done.
    + intros run. rewrite <- (app_nil_l [e]). rewrite sequences_snoc. simpl. rewrite (String.eqb_sym run).
      destruct (String.eqb (ev_run_id e) run); [constructor|done].
    + unfold executor_event. by rewrite He.
Qed.
Lemma scan_events_start events s :
  scan_events expected_workflow expected_bundle events scan_init = Ok (Ok s) -> rs_started s = true ->
  exists pre start rest s1, events = pre ++ start :: rest /\ Forall (fun e => ev_event e <> "run_started") pre
    /\ ev_event start = "run_started" /\ scan_start expected_workflow expected_bundle start scan_init = Ok (Ok s1)
    /\ scan_events expected_workflow expected_bundle rest s1 = Ok (Ok s).
Proof.
  induction events as [|e events IH]; intros E Hs; simpl in E; [by injection E as <-|].
  unfold scan_event in E. cbn [rs_started scan_init negb] in E.
  destruct (String.eqb_spec (ev_event e) "run_started") as [He|He]; cbn [negb] in E.
  - destruct (scan_start _ _ e scan_init) as [[s1|]|] eqn:Es; simpl in E; try done.
    exists [], e, events, s1. done.
  - simpl in E. destruct (IH E Hs) as (pre & start & rest & s1 & -> & Hp & H). exists (e :: pre), start, rest, s1.
    split; [done|]. split; [by constructor|done].
Qed.

(** C36: what a replay plan stands on.  When a trace is accepted, it begins with a run of
    the expected workflow and bundle, the numbers of the events of each run of that trace
    that are in it go up by one from the first to the last of them, and the plan's
    outcomes are those of the executor events, one for each, in order: the output that is
    the payload of a success, the failure the payload describes otherwise.  Nothing says
    that a child run was recorded to its end. *)
Theorem prepare_certifies events plan :
  prepare_trace_replay events expected_workflow expected_bundle = Ok (Ok plan) ->
  rp_workflow_digest plan = expected_workflow /\ (expected_bundle <> "" -> rp_bundle_digest plan = expected_bundle)
  /\ exists pre start rest, events = pre ++ start :: rest /\ Forall (fun e => ev_event e <> "run_started") pre
     /\ ev_event start = "run_started" /\ rp_source_run_id plan = ev_run_id start
     /\ let trace := start :: of_trace (ev_trace_id start) rest in
        (forall run, exists last, unbroken (sequences run trace) last)
        /\ Forall2 stands_for (List.filter executor_event trace) (rp_executor_outcomes plan).
Proof.
  unfold prepare_trace_replay. destruct (scan_events _ _ events scan_init) as [[s|]|] eqn:E; simpl; try done.
  destruct (rs_started s) eqn:Hs; [|done]. destruct (rs_finished s); [|done]. simpl. intros [= <-].
  destruct (scan_events_start _ _ E Hs) as (pre & start & rest & s1 & -> & Hp & He & Hst & Hrest).
  apply scan_start_Ok in Hst as (Hw & Hb & Hok). apply (scan_events_ok _ [start] start) in Hrest; [|by apply Hok].
  destruct Hrest as [_ (H1 & H2 & H3 & H4) Hu Ho]. rewrite H3, H4. split; [done|]. split; [done|].
  exists pre, start, rest. split_and!; try done. intros run. eexists. apply (Hu run).
Qed.
End Certifies.

(** ** Shadow evaluation *)
Record EvaluationSample := mkSample {
  sm_label : string; sm_workflow_digest : string; sm_result : ExecutionResult; sm_trace : list EventEnvelope
}.
(** A [MetricFunction] is host code: it may be empty, fail, or throw. *)
Record MetricDefinition := mkMetric {
  md_name : string; md_weight : double; md_regression_tolerance : double;
  md_evaluate : option (EvaluationSample -> exc (Result double))
}.
Record MetricComparison := mkComparison {
  mc_name : string; mc_baseline : double; mc_candidate : double; mc_delta : double; mc_weighted_delta : double;
  mc_regressed : bool
}.
Record ShadowEvaluationReport := mkReport {
  sr_baseline_label : string; sr_candidate_label : string; sr_candidate_is_shadow : bool; sr_outputs_equal : bool;
  sr_recommended : bool; sr_weighted_score_delta : double; sr_metrics : list MetricComparison
}.

Section Shadow.
Context {J : JsonLib}.
Definition evaluation_error (code message : string) : Error := mkError "evaluation" code message false.

Definition outputs_equal (baseline candidate : ExecutionResult) : bool :=
  Bool.eqb (xr_success baseline) (xr_success candidate) &&
  (if xr_success baseline then String.eqb (write_json (xr_output baseline) false) (write_json (xr_output candidate) false)
   else String.eqb (xe_category (xr_error baseline)) (xe_category (xr_error candidate))
        && String.eqb (xe_code (xr_error baseline)) (xe_code (xr_error candidate))).

(** The [run_mode] of the first [run_started] event; a throw leaves the flag unset. *)
Fixpoint is_shadow_trace (trace : list EventEnvelope) : bool :=
  match trace with
  | [] => false
  | e :: rest =>
    if String.eqb (ev_event e) "run_started" then
      match payload ← parse_json (ev_payload_json e); get_string "run_mode" "" payload with
      | Ok mode => String.eqb mode "shadow"
      | Err _ => false
      end
    else is_shadow_trace rest
  end.

Definition d_zero : double := d_of_Z 0.
Definition evaluate_metric (m : MetricDefinition) (baseline candidate : EvaluationSample) : exc (Result MetricComparison) :=
  let invalid := Ok (Err (evaluation_error "METRIC_INVALID" "metric name, evaluator, weight, or tolerance is invalid")) in
  if str_empty (md_name m) then invalid else
  match md_evaluate m with
  | None => invalid
  | Some evaluate =>
    if d_ltb (md_weight m) d_zero || d_ltb (md_regression_tolerance m) d_zero then invalid else
    base ← evaluate baseline;
    match base with
    | Err f => Ok (Err (evaluation_error "METRIC_BASELINE_FAILED" (md_name m ++ ": " ++ err_message f)%string))
    | Ok base =>
      next ← evaluate candidate;
      match next with
      | Err f => Ok (Err (evaluation_error "METRIC_CANDIDATE_FAILED" (md_name m ++ ": " ++ err_message f)%string))
      | Ok next =>
        if negb (d_finite base) || negb (d_finite next) then
          Ok (Err (evaluation_error "METRIC_NON_FINITE" (md_name m ++ " returned a non-finite value")%string))
        else
          let delta := d_sub next base in
          Ok (Ok (mkComparison (md_name m) base next delta (d_mul delta (md_weight m))
                    (d_ltb delta (SFopp (md_regression_tolerance m)))))
      end
    end
  end.

Fixpoint evaluate_metrics (metrics : list MetricDefinition) (baseline candidate : EvaluationSample)
    (score : double) (done : list MetricComparison) : exc (Result (double * list MetricComparison)) :=
  match metrics with
  | [] => Ok (Ok (score, done))
  | m :: rest =>
    out ← evaluate_metric m baseline candidate;
    match out with
    | Err f => Ok (Err f)
    | Ok c => evaluate_metrics rest baseline candidate (d_add score (mc_weighted_delta c)) (done ++ [c])
    end
  end.

Definition compare_shadow_evaluation (baseline candidate : EvaluationSample) (metrics : list MetricDefinition)
    : exc (Result ShadowEvaluationReport) :=
  if (length metrics =? 0)%nat then Ok (Err (evaluation_error "METRICS_REQUIRED" "at least one metric is required"))
  else if str_empty (sm_workflow_digest baseline) || str_empty (sm_workflow_digest candidate) then
    Ok (Err (evaluation_error "WORKFLOW_IDENTITY_REQUIRED" "both samples require Workflow digests"))
  else if negb (is_shadow_trace (sm_trace candidate)) then
    Ok (Err (evaluation_error "CANDIDATE_NOT_SHADOW" "candidate trace must identify a Shadow run"))
  else
    out ← evaluate_metrics metrics baseline candidate d_zero [];
    match out with
    | Err f => Ok (Err f)
    | Ok (score, done) =>
      let regressed := existsb mc_regressed done in
      Ok (Ok (mkReport (sm_label baseline) (sm_label candidate) true (outputs_equal (sm_result baseline) (sm_result candidate))
                (xr_success (sm_result candidate) && negb regressed && d_leb d_zero score) score done))
    end.

(** What is known of a metric once its comparison is in the report. *)
Definition measured (baseline candidate : EvaluationSample) (m : MetricDefinition) (c : MetricComparison) : Prop :=
  exists evaluate, md_evaluate m = Some evaluate
  /\ evaluate baseline = Ok (Ok (mc_baseline c)) /\ evaluate candidate = Ok (Ok (mc_candidate c))
  /\ d_finite (mc_baseline c) = true /\ d_finite (mc_candidate c) = true
  /\ mc_name c = md_name m /\ mc_delta c = d_sub (mc_candidate c) (mc_baseline c)
  /\ mc_weighted_delta c = d_mul (mc_delta c) (md_weight m)
  /\ mc_regressed c = d_ltb (mc_delta c) (SFopp (md_regression_tolerance m)).

Lemma evaluate_metric_Ok m baseline candidate c :
  evaluate_metric m baseline candidate = Ok (Ok c) -> measured baseline candidate m c.
Proof.
  unfold evaluate_metric. destruct (str_empty _); [done|]. destruct (md_evaluate m) as [evaluate|] eqn:Em; [|done].
  destruct (_ || _); [done|]. intros H. simplify_res. destruct a as [base|]; [|done]. simplify_res.
  destruct a as [next|]; [|done]. destruct (d_finite base) eqn:Eb; [|done]. destruct (d_finite next) eqn:En; [|done].
  cbn [negb orb] in *. simplify_res. by exists evaluate.
Qed.
Lemma evaluate_metrics_Ok metrics baseline candidate score done score' done' :
  evaluate_metrics metrics baseline candidate score done = Ok (Ok (score', done')) ->
  exists cs, done' = done ++ cs /\ Forall2 (measured baseline candidate) metrics cs
    /\ score' = fold_left d_add (mc_weighted_delta <$> cs) score.
Proof.
  revert score done. induction metrics as [|m metrics IH]; simpl; intros score done H.
  { simplify_res. exists []. by rewrite app_nil_r. }
  simplify_res. destruct a as [c|]; [|done]. apply IH in H0 as (cs & -> & Hf & ->).
  apply evaluate_metric_Ok in H. exists (c :: cs). split; [by rewrite <- app_assoc|]. split; [by constructor|done].
Qed.

(** what a recommendation means.  When a candidate is recommended over its baseline,
    the candidate's trace is that of a shadow run which succeeded, there was at least one
    metric, every metric gave finite numbers for both samples and did not fall below its
    tolerance, and the sum of the weighted changes, in the order of the metrics, is not
    negative. *)
Theorem recommendation_sound baseline candidate metrics report :
  compare_shadow_evaluation baseline candidate metrics = Ok (Ok report) -> sr_recommended report = true ->
  is_shadow_trace (sm_trace candidate) = true /\ xr_success (sm_result candidate) = true /\ metrics <> []
  /\ Forall2 (measured baseline candidate) metrics (sr_metrics report)
  /\ Forall (fun c => mc_regressed c = false) (sr_metrics report)
  /\ sr_weighted_score_delta report = fold_left d_add (mc_weighted_delta <$> sr_metrics report) d_zero
  /\ d_leb d_zero (sr_weighted_score_delta report) = true.
Proof.
  unfold compare_shadow_evaluation. destruct metrics as [|m metrics]; [done|]. simpl (length _ =? 0)%nat. cbv iota.
  destruct (_ || _); [done|]. destruct (is_shadow_trace _); [|done]. cbn [negb]. intros H Hr. simplify_res.
  destruct a as [[score got]|]; [|done]. simplify_res.
  apply evaluate_metrics_Ok in H as (cs & -> & Hf & ->). cbn [sr_recommended sr_metrics sr_weighted_score_delta app] in *.
  apply andb_true_iff in Hr as [[Hs Hn]%andb_true_iff Hl]. split_and!; try done.
  apply Forall_forall. intros c Hc. apply negb_true_iff in Hn. destruct (mc_regressed c) eqn:E; [|done].
  exfalso. rewrite <- not_true_iff_false in Hn. apply Hn, existsb_exists. exists c. by rewrite <- list_elem_of_In.
Qed.
End Shadow.
