(* ===== verification/Patch.v ===== *)
(** * Patches and differences (src/dage.cpp: apply_patch, dry_run_patch, analyze_patch,
    diff_workflows)

    A patch is a document of changes against a workflow with a given digest.
    [apply_patch] edits a private copy of the document and loads it again; a failure is
    an exception that names a code and a place.  [dry_run_patch] reports instead of
    throwing, [analyze_patch] adds what a patch touches and the patch that takes it
    back, [diff_workflows] compares two workflows.  The root of a loaded workflow has
    an object under "nodes", so [root["nodes"]] never creates one. *)

From S2P Require Import Prelude Json Sha256 Ir Workflow.
Open Scope string_scope.
Open Scope list_scope.
Open Scope Z_scope.

Section Patch.
Context {J : JsonLib}.

(** ** Changes *)

(** [rename_edge_targets]: an edge is a name, an object with "to", or an array of both. *)
Definition rename_target (from to : string) (e : json) : exc json :=
  match e with
  | JString _ => x ← jl_as_string e; Ok (if String.eqb x from then JString to else e)
  | JObject _ => x ← get_string "to" "" e; if String.eqb x from then jset "to" (JString to) e else Ok e
  | _ => Ok e
  end.
Definition rename_edge_targets (field from to : string) (node : json) : exc json :=
  present ← jmember field node;
  if negb present then Ok node else
  value ← jget field node;
  value ← match value with
          | JArray l => l ← map_exc (rename_target from to) l; Ok (JArray l)
          | _ => rename_target from to value
          end;
  jset field value node.

(** [n["branches"]] on a mutable node leaves a null member behind where there was none. *)
Definition rename_branch (from to : string) (b : json) : exc json :=
  x ← jl_as_string b; Ok (if String.eqb x from then JString to else b).
Definition rename_branches (from to : string) (n : json) : exc json :=
  n ← touch "branches" n;
  branches ← jget "branches" n;
  match branches with
  | JArray l => l ← map_exc (rename_branch from to) l; jset "branches" (JArray l) n
  | _ => Ok n
  end.
Definition rename_in_node (from to : string) (n : json) : exc json :=
  n ← rename_edge_targets "next" from to n;
  n ← rename_edge_targets "on_error" from to n;
  join ← get_string "join" "" n;
  n ← (if String.eqb join from then jset "join" (JString to) n else Ok n);
  rename_branches from to n.
Fixpoint rename_in_nodes (from to : string) (names : list string) (root : json) : exc json :=
  match names with
  | [] => Ok root
  | name :: rest =>
    n ← jget_path ["nodes"; name] root;
    n ← rename_in_node from to n;
    root ← jset_path ["nodes"; name] n root;
    rename_in_nodes from to rest root
  end.
Definition rename_node (from to : string) (root : json) : exc json :=
  n ← jget_path ["nodes"; from] root;
  root ← jset_path ["nodes"; to] n root;
  nodes ← jget "nodes" root;
  nodes ← jremove from nodes;
  root ← jset "nodes" nodes root;
  entry ← jget "entry" root; entry ← jl_as_string entry;
  root ← (if String.eqb entry from then jset "entry" (JString to) root else Ok root);
  nodes ← jget "nodes" root;
  names ← jmembers nodes;
  rename_in_nodes from to names root.

Definition has_node (id : string) (root : json) : exc bool := nodes ← jget "nodes" root; jmember id nodes.
Definition is_index (v : json) : bool := jl_is_uint v || jl_is_uint64 v.
(** The elements [insert_next] starts from. *)
Definition next_items (next : json) : list json :=
  match next with JArray l => l | JNull => [] | v => [v] end.

(** One iteration of the loop over the changes; [path] is the place it reports. *)
Section Change.
Context (path : string) (change : json).
Definition fail {A} (code suffix message : string) : exc A := Err (PatchValidationError code (path +:+ suffix) message).
Definition need_node {A} (id : string) (root : json) (k : exc A) : exc A :=
  known ← has_node id root;
  if known : bool then k else fail "PATCH_NODE_NOT_FOUND" "/node_id" "Node does not exist.".
Definition need_object {A} (k : json -> exc A) : exc A :=
  node ← jget "node" change;
  if is_object node then k node else fail "PATCH_NODE_NOT_OBJECT" "/node" "node must be an object.".
Definition need_field {A} (k : string -> exc A) : exc A :=
  field ← jget "field" change;
  if negb (is_string field) then fail "PATCH_FIELD_REQUIRED" "/field" "field must be a non-empty string." else
  field ← jl_as_string field;
  if str_empty field then fail "PATCH_FIELD_REQUIRED" "/field" "field must be a non-empty string." else k field.

Definition change_set_entry (root : json) : exc json :=
  value ← jget "value" change;
  known ← (if is_string value then name ← jl_as_string value; has_node name root else Ok false);
  if known : bool then jset "entry" value root
  else fail "PATCH_ENTRY_NOT_FOUND" "/value" "set_entry requires an existing node.".
Definition change_add_node (id : string) (root : json) : exc json :=
  need_object (fun node =>
    known ← has_node id root;
    if known : bool then fail "PATCH_NODE_ALREADY_EXISTS" "/node_id" "Node already exists."
    else jset_path ["nodes"; id] node root).
Definition change_remove_node (id : string) (root : json) : exc json :=
  need_node id root (nodes ← jget "nodes" root; nodes ← jremove id nodes; jset "nodes" nodes root).
Definition change_replace_node (id : string) (root : json) : exc json :=
  need_object (fun node => need_node id root (jset_path ["nodes"; id] node root)).
Definition change_rename_node (id : string) (root : json) : exc json :=
  to ← jget "new_node_id" change; to ← jl_as_string to;
  if str_empty to then fail "PATCH_NEW_NODE_ID_REQUIRED" "/new_node_id" "new_node_id is required." else
  need_node id root (
    taken ← has_node to root;
    if taken : bool then fail "PATCH_NODE_ALREADY_EXISTS" "/new_node_id" "Target node already exists."
    else rename_node id to root).
Definition change_set_field (id : string) (root : json) : exc json :=
  need_field (fun field => need_node id root (value ← jget "value" change; jset_path ["nodes"; id; field] value root)).
Definition change_remove_field (id : string) (root : json) : exc json :=
  need_field (fun field => need_node id root (
    n ← jget_path ["nodes"; id] root;
    present ← jmember field n;
    if negb present then fail "PATCH_FIELD_NOT_FOUND" "/field" "Field does not exist."
    else n ← jremove field n; jset_path ["nodes"; id] n root)).
Definition change_set_edges (field id : string) (root : json) : exc json :=
  need_node id root (value ← jget "value" change; jset_path ["nodes"; id; field] value root).
Definition change_enable (enabled : bool) (id : string) (root : json) : exc json :=
  need_node id root (jset_path ["nodes"; id; "enabled"] (JBool enabled) root).
Definition change_insert_next (id : string) (root : json) : exc json :=
  need_node id root (
    given ← jmember "index" change;
    index ← jget "index" change;
    if given && negb (is_index index) then fail "PATCH_INDEX_INVALID" "/index" "index must be an unsigned integer." else
    next ← jget_path ["nodes"; id; "next"] root;
    let items := next_items next in
    index ← jget_or "index" (JUInt (Z.of_nat (length items))) change;
    index ← jl_as_uint index;
    let position := Z.to_nat (Z.min index (Z.of_nat (length items))) in
    value ← jget "value" change;
    jset_path ["nodes"; id; "next"] (JArray (take position items ++ [value] ++ drop position items)) root).
Definition change_remove_next (id : string) (root : json) : exc json :=
  need_node id root (
    index ← jget "index" change;
    if negb (is_index index) then fail "PATCH_INDEX_INVALID" "/index" "index must be an unsigned integer." else
    next ← jget_path ["nodes"; id; "next"] root;
    index ← jl_as_uint index;
    match next with
    | JArray l =>
      if Z.of_nat (length l) <=? index then fail "PATCH_INDEX_OUT_OF_RANGE" "/index" "index is outside the next array."
      else jset_path ["nodes"; id; "next"] (JArray (take (Z.to_nat index) l ++ drop (S (Z.to_nat index)) l)) root
    | _ => fail "PATCH_INDEX_OUT_OF_RANGE" "/index" "index is outside the next array."
    end).

Definition run_action (action id : string) (root : json) : exc json :=
  if String.eqb action "set_entry" then change_set_entry root
  else if String.eqb action "add_node" then change_add_node id root
  else if String.eqb action "remove_node" then change_remove_node id root
  else if String.eqb action "replace_node" then change_replace_node id root
  else if String.eqb action "rename_node" then change_rename_node id root
  else if String.eqb action "set_field" then change_set_field id root
  else if String.eqb action "remove_field" then change_remove_field id root
  else if String.eqb action "set_next" then change_set_edges "next" id root
  else if String.eqb action "set_on_error" then change_set_edges "on_error" id root
  else if String.eqb action "enable_node" then change_enable true id root
  else if String.eqb action "disable_node" then change_enable false id root
  else if String.eqb action "insert_next" then change_insert_next id root
  else if String.eqb action "remove_next" then change_remove_next id root
  else fail "PATCH_UNKNOWN_ACTION" "/action" ("Unknown Patch action: " +:+ action).
Definition apply_change (root : json) : exc json :=
  action ← jget "action" change; action ← jl_as_string action;
  id ← jget "node_id" change; id ← jl_as_string id;
  if negb (is_object change) then fail "PATCH_CHANGE_NOT_OBJECT" "" "Change must be an object."
  else if str_empty action then fail "PATCH_ACTION_REQUIRED" "/action" "action is required."
  else if str_empty id && negb (String.eqb action "set_entry") then
    fail "PATCH_NODE_ID_REQUIRED" "/node_id" "node_id is required."
  else run_action action id root.
End Change.

Fixpoint apply_changes (i : nat) (changes : list json) (root : json) : exc json :=
  match changes with
  | [] => Ok root
  | change :: rest =>
    root ← apply_change ("/changes/" +:+ to_string (Z.of_nat i)) change root;
    apply_changes (S i) rest root
  end.

(** ** apply_patch *)
Definition patch_error {A} (code path message : string) : exc A := Err (PatchValidationError code path message).
Definition revision_of (root : json) : exc Z := get_uint64 "x_revision" 0 root.

(** The preconditions on the document, in order; the changes to apply. *)
Definition check_patch (digest : string) (root patch : json) : exc (list json) :=
  if negb (is_object patch) then patch_error "PATCH_INVALID_DOCUMENT" "/" "Patch must be an object." else
  base ← jget "base_digest" patch;
  if negb (is_string base) then patch_error "PATCH_BASE_DIGEST_REQUIRED" "/base_digest" "base_digest is required." else
  base ← jl_as_string base;
  if str_empty base then patch_error "PATCH_BASE_DIGEST_REQUIRED" "/base_digest" "base_digest is required."
  else if negb (String.eqb base digest) then
    patch_error "PATCH_BASE_DIGEST_MISMATCH" "/base_digest" "Patch targets a different Workflow."
  else
  revision ← revision_of root;
  given ← jmember "base_revision" patch;
  base ← jget "base_revision" patch;
  if given && negb (is_index base) then
    patch_error "PATCH_INVALID_BASE_REVISION" "/base_revision" "base_revision must be an unsigned integer." else
  expected ← (if given : bool then jl_as_uint64 base else Ok revision);
  if negb (expected =? revision) then
    patch_error "PATCH_BASE_REVISION_MISMATCH" "/base_revision" "Patch targets a different revision." else
  changes ← jget "changes" patch;
  match changes with
  | JArray (c :: cs) => Ok (c :: cs)
  | _ => patch_error "PATCH_INVALID_CHANGES" "/changes" "changes must be a non-empty array."
  end.

Definition patched_root (w : Workflow) (patch_json : string) : exc json :=
  let root := wf_root w in
  patch ← parse_json patch_json;
  changes ← check_patch (w_digest (wf_compiled w)) root patch;
  root ← apply_changes 0 changes root;
  revision ← revision_of root;
  jset "x_revision" (JUInt (u64 (revision + 1))) root.

Context (limits : WorkflowResourceLimits).
Definition apply_patch (w : Workflow) (patch_json : string) : exc Workflow :=
  root ← patched_root w patch_json;
  load limits (write_json root false).

(** ** dry_run_patch *)
Record PatchDryRunResult := mkDryRun {
  dr_valid : bool; dr_base_digest : string; dr_candidate_digest : string; dr_candidate_revision : Z;
  dr_diagnostics : list Diagnostic
}.
Definition patch_actions : list string :=
  ["set_entry"; "add_node"; "remove_node"; "replace_node"; "rename_node"; "set_field"; "remove_field"; "set_next";
   "set_on_error"; "enable_node"; "disable_node"; "insert_next"; "remove_next"].

(** The shape of one change; what is wrong is added to the diagnostics. *)
Abbreviation shape A := (act exn (list Diagnostic) A).
Definition blame (base code suffix message : string) : shape unit :=
  modify (fun d => d ++ [mkDiag SevError code (base +:+ suffix) message "Fix this Patch change."]).
Definition blank (v : json) : exc bool :=
  if negb (is_string v) then Ok true else s ← jl_as_string v; Ok (str_empty s).
Definition check_shape (base : string) (change : json) : shape unit :=
  if negb (is_object change) then blame base "PATCH_CHANGE_NOT_OBJECT" "" "Change must be an object." else
  action ← lift (jget "action" change);
  none ← lift (blank action);
  if none : bool then blame base "PATCH_ACTION_REQUIRED" "/action" "action is required." else
  action ← lift (jl_as_string action);
  if negb (mem_str action patch_actions) then
    blame base "PATCH_UNKNOWN_ACTION" "/action" ("Unknown Patch action: " +:+ action) else
  let named name := String.eqb action name in
  when (negb (named "set_entry")) (
    id ← lift (jget "node_id" change); none ← lift (blank id);
    when none (blame base "PATCH_NODE_ID_REQUIRED" "/node_id" "node_id is required."));;
  node ← lift (jget "node" change);
  when ((named "add_node" || named "replace_node") && negb (is_object node))
    (blame base "PATCH_NODE_NOT_OBJECT" "/node" "node must be an object.");;
  when (named "set_field" || named "remove_field") (
    field ← lift (jget "field" change); none ← lift (blank field);
    when none (blame base "PATCH_FIELD_REQUIRED" "/field" "field must be a non-empty string."));;
  index ← lift (jget "index" change);
  given ← lift (jmember "index" change);
  when ((named "remove_next" && negb (is_index index)) || (named "insert_next" && given && negb (is_index index)))
    (blame base "PATCH_INDEX_INVALID" "/index" "index must be an unsigned integer.");;
  value ← lift (jget "value" change);
  when (named "set_entry" && negb (is_string value))
    (blame base "PATCH_ENTRY_NOT_FOUND" "/value" "set_entry value must be a node id.").
Fixpoint check_shapes (i : nat) (changes : list json) : shape unit :=
  match changes with
  | [] => mret tt
  | change :: rest =>
    check_shape ("/changes/" +:+ to_string (Z.of_nat i)) change;; check_shapes (S i) rest
  end.
(** The first [try] block: the flag says whether it returns early. *)
Definition check_document (patch_json : string) : shape bool :=
  document ← lift (parse_json patch_json);
  changes ← lift (jget "changes" document);
  match changes with
  | JArray l => check_shapes 0 l;; found ← get_state; mret (match found with [] => false | _ => true end)
  | _ => mret false
  end.

Definition failure_diagnostic (e : exn) : Diagnostic :=
  match e with
  | PatchValidationError code path message =>
    mkDiag SevError code path message "Fix this Patch field and retry against the current base digest."
  | _ =>
    let message := what e in
    mkDiag SevError (match str_find ":" 0 message with None => "PATCH_CANDIDATE_INVALID" | Some i => str_upto i message end)
      "/candidate" message "Fix the candidate Workflow produced by this Patch."
  end.

Definition dry_run_patch (w : Workflow) (patch_json : string) : exc PatchDryRunResult :=
  let base := w_digest (wf_compiled w) in
  revision ← revision_of (wf_root w);
  let refused d := mkDryRun false base "" (u64 (revision + 1)) d in
  let '(early, found) := check_document patch_json [] in
  Ok match early with
     | Ok true => refused found
     | _ =>
       match apply_patch w patch_json with
       | Ok candidate => mkDryRun true base (w_digest (wf_compiled candidate)) (u64 (revision + 1)) found
       | Err e => refused (found ++ [failure_diagnostic e])
       end
     end.

(** ** analyze_patch *)
Record PatchAnalysis := mkAnalysis {
  pa_valid : bool; pa_base_digest : string; pa_candidate_digest : string; pa_directly_changed_nodes : list string;
  pa_affected_nodes : list string; pa_effect_policy_changed : bool; pa_checkpoint_resume_compatible : bool;
  pa_inverse_patch_json : string; pa_diagnostics : list Diagnostic
}.

(** A [std::set<std::string>]. *)
Abbreviation names := (list (string * unit)).
Definition add_name (s : names) (id : string) : names := om_set id tt s.
Definition add_names (l : list string) (s : names) : names := foldl add_name s l.

(** The member names of both documents' nodes, and whether a node is the same in both. *)
Definition node_names (before after : json) : exc names :=
  old ← jget "nodes" before; old ← jmembers old;
  new ← jget "nodes" after; new ← jmembers new;
  Ok (add_names new (add_names old [])).
Definition node_in (root : json) (id : string) : exc (option json) :=
  known ← has_node id root;
  if known : bool then n ← jget_path ["nodes"; id] root; Ok (Some n) else Ok None.
Definition effects_of (n : json) : exc json := jget_or "effects" JNull n.

(** The change that takes node [id] back, unless it is the same, and whether the effect
    policy changed. *)
Definition inverse_change (before after : json) (id : string) : exc (option (json * bool)) :=
  old ← node_in before id;
  new ← node_in after id;
  match old, new with
  | Some o, Some n =>
    if json_eqb o n then Ok None else
    eo ← effects_of o; en ← effects_of n;
    Ok (Some (JObject [("action", JString "replace_node"); ("node", o); ("node_id", JString id)], negb (json_eqb eo en)))
  | Some o, None =>
    has ← jmember "effects" o;
    Ok (Some (JObject [("action", JString "add_node"); ("node", o); ("node_id", JString id)], has))
  | None, _ =>
    has ← match new with Some n => jmember "effects" n | None => Ok false end;
    Ok (Some (JObject [("action", JString "remove_node"); ("node_id", JString id)], has))
  end.
Fixpoint inverse_changes (before after : json) (ids : list string) : exc (list (string * json * bool)) :=
  match ids with
  | [] => Ok []
  | id :: rest =>
    c ← inverse_change before after id;
    cs ← inverse_changes before after rest;
    Ok match c with None => cs | Some (c, effects) => (id, c, effects) :: cs end
  end.
Definition inverse_entry (before after : json) : exc (list json) :=
  old ← jget "entry" before;
  new ← jget "entry" after;
  Ok (if json_eqb old new then [] else [JObject [("action", JString "set_entry"); ("value", old)]]).
Definition inverse_patch (before after : json) (candidate_digest : string) (changes : list json) : exc json :=
  revision ← revision_of after;
  Ok (JObject [("base_digest", JString candidate_digest); ("base_revision", JUInt revision); ("changes", JArray changes)]).

(** ** The nodes a change affects

    One node in a pass over the compiled workflow: an affected node passes it on to its
    targets, and a node that mentions an affected one is affected. *)
Definition passes_to (n : NodeIR) : list string :=
  (e_target <$> n_next n) ++ (e_target <$> n_error n) ++ n_branches n
  ++ (if str_empty (n_parallel_join n) then [] else [n_parallel_join n]).
Definition mentions (text id : string) : bool := str_contains ("${nodes." +:+ id +:+ ".") text.
Definition grow_node (root : json) (n : NodeIR) (affected : names) : exc names :=
  let touched := om_mem (n_id n) affected in
  let affected := if touched then add_names (passes_to n) affected else affected in
  source ← jget_path ["nodes"; n_id n] root;
  let text := write_json source false in
  let depends := touched || existsb (mentions text) affected.*1 in
  Ok (if depends then add_name affected (n_id n) else affected).
Fixpoint grow_nodes (root : json) (nodes : list NodeIR) (affected : names) : exc names :=
  match nodes with
  | [] => Ok affected
  | n :: rest => affected ← grow_node root n affected; grow_nodes root rest affected
  end.
(** [while(expanded)]: a pass that inserts nothing is the last. *)
Fixpoint grow (fuel : nat) (root : json) (nodes : list NodeIR) (affected : names) : exc names :=
  match fuel with
  | O => Ok affected
  | S fuel =>
    larger ← grow_nodes root nodes affected;
    if (length larger =? length affected)%nat then Ok larger else grow fuel root nodes larger
  end.
Definition grow_fuel (nodes : list NodeIR) : nat := S (sum_list ((fun n => S (length (passes_to n))) <$> nodes)).
Definition affected_by (root : json) (ir : WorkflowIR) (direct : names) : exc names :=
  grow (grow_fuel (w_nodes ir)) root (w_nodes ir) direct.

Definition analyze_patch (w : Workflow) (patch_json : string) : exc PatchAnalysis :=
  let base := w_digest (wf_compiled w) in
  dry ← dry_run_patch w patch_json;
  if negb (dr_valid dry) then Ok (mkAnalysis false base "" [] [] false false "" (dr_diagnostics dry)) else
  candidate ← apply_patch w patch_json;
  let digest := w_digest (wf_compiled candidate) in
  let before := wf_root w in
  let after := wf_root candidate in
  entry ← inverse_entry before after;
  ids ← node_names before after;
  changed ← inverse_changes before after ids.*1;
  inverse ← inverse_patch before after digest (entry ++ ((fun c => c.1.2) <$> changed));
  let direct := add_names ((fun c => c.1.1) <$> changed) [] in
  affected ← affected_by after (wf_compiled candidate) direct;
  Ok (mkAnalysis true base digest direct.*1 affected.*1 (existsb snd changed) (String.eqb base digest)
        (write_json inverse true) []).

(** ** diff_workflows *)
Inductive WorkflowNodeChangeKind := Added | Removed | Modified.
Record WorkflowNodeDiff := mkNodeDiff {
  nd_node_id : string; nd_kind : WorkflowNodeChangeKind; nd_changed_fields : list string; nd_effect_policy_changed : bool
}.
Record WorkflowDiff := mkDiff {
  wd_before_digest : string; wd_after_digest : string; wd_changed_workflow_fields : list string;
  wd_node_changes : list WorkflowNodeDiff; wd_affected_nodes : list string; wd_effect_policy_changed : bool;
  wd_checkpoint_resume_compatible : bool
}.

(** The names under which two objects differ, in order. *)
Fixpoint differing (old new : json) (fields : list string) : exc (list string) :=
  match fields with
  | [] => Ok []
  | field :: rest =>
    x ← jget field old; y ← jget field new;
    rest ← differing old new rest;
    Ok (if json_eqb x y then rest else field :: rest)
  end.
Definition root_fields (old new : json) : exc (list string) :=
  o ← jmembers old; n ← jmembers new;
  let own l := List.filter (fun f => negb (String.eqb f "nodes") && negb (String.eqb f "x_revision")) l in
  differing old new (add_names (own n) (add_names (own o) [])).*1.

Definition diff_node (old_root new_root : json) (id : string) : exc (option WorkflowNodeDiff) :=
  old ← node_in old_root id;
  new ← node_in new_root id;
  match old, new with
  | Some o, Some n =>
    if json_eqb o n then Ok None else
    fo ← jmembers o; fn ← jmembers n;
    fields ← differing o n (add_names fn (add_names fo [])).*1;
    eo ← effects_of o; en ← effects_of n;
    Ok (Some (mkNodeDiff id Modified fields (negb (json_eqb eo en))))
  | Some o, None =>
    fields ← jmembers o; eo ← effects_of o;
    Ok (Some (mkNodeDiff id Removed (add_names fields []).*1 (negb (json_eqb eo JNull))))
  | None, Some n =>
    fields ← jmembers n; en ← effects_of n;
    Ok (Some (mkNodeDiff id Added (add_names fields []).*1 (negb (json_eqb JNull en))))
  | None, None => Ok (Some (mkNodeDiff id Added [] false))
  end.
Fixpoint diff_nodes (old_root new_root : json) (ids : list string) : exc (list WorkflowNodeDiff) :=
  match ids with
  | [] => Ok []
  | id :: rest =>
    c ← diff_node old_root new_root id; cs ← diff_nodes old_root new_root rest;
    Ok match c with None => cs | Some c => c :: cs end
  end.

Definition diff_workflows (before after : Workflow) : exc WorkflowDiff :=
  let old_root := wf_root before in
  let new_root := wf_root after in
  let old_digest := w_digest (wf_compiled before) in
  let new_digest := w_digest (wf_compiled after) in
  fields ← root_fields old_root new_root;
  ids ← node_names old_root new_root;
  changes ← diff_nodes old_root new_root ids.*1;
  affected ← affected_by old_root (wf_compiled before) (add_names (nd_node_id <$> changes) []);
  affected ← affected_by new_root (wf_compiled after) affected;
  Ok (mkDiff old_digest new_digest fields changes affected.*1 (existsb nd_effect_policy_changed changes)
        (String.eqb old_digest new_digest)).
End Patch.

(** ** What a patch may touch *)
Section Guards.
Context {J : JsonLib} (L : JsonLaws J).

(** [k] is a member of the root a change leaves alone. *)
Definition elsewhere (k : string) : Prop := k <> "nodes" /\ k <> "entry".
Definition same_elsewhere (root root' : json) : Prop :=
  exists r r', root = JObject r /\ root' = JObject r' /\ (om_sorted r -> om_sorted r')
    /\ forall k, elsewhere k -> om_get k r' = om_get k r.
Lemma same_elsewhere_obj root root' : same_elsewhere root root' -> is_object root' = true.
Proof. by intros (r & r' & _ & -> & _). Qed.
Lemma jset_elsewhere k x root root' :
  is_object root = true -> jset k x root = Ok root' -> k = "nodes" \/ k = "entry" -> same_elsewhere root root'.
Proof.
  intros Ho E Hk. destruct root as [| | | | | | |r]; try done. injection E as <-.
  exists r, (om_set k x r). split_and!; [done..|by apply om_set_sorted|]. intros k' [Hn He]. apply om_get_set_ne.
  intros ->. by destruct Hk.
Qed.
Lemma jset_path_elsewhere ks x root root' :
  is_object root = true -> jset_path ("nodes" :: ks) x root = Ok root' -> same_elsewhere root root'.
Proof. cbn [jset_path]. intros Ho E. simplify_res. eapply jset_elsewhere; [done|eassumption|by left]. Qed.
Lemma same_elsewhere_trans a b c : same_elsewhere a b -> same_elsewhere b c -> same_elsewhere a c.
Proof.
  intros (r1 & r2 & -> & -> & S1 & H1) (r2' & r3 & [= <-] & -> & S2 & H2).
  exists r1, r3. split_and!; [done..|by auto|]. intros k Hk. by rewrite H2, H1.
Qed.
Lemma same_elsewhere_refl root : is_object root = true -> same_elsewhere root root.
Proof. destruct root as [| | | | | | |r]; try done. by exists r, r. Qed.

Lemma rename_in_nodes_elsewhere from to ids root root' :
  is_object root = true -> rename_in_nodes from to ids root = Ok root' -> same_elsewhere root root'.
Proof.
  revert root. induction ids as [|id ids IH]; cbn [rename_in_nodes]; intros root Ho E; simplify_res.
  - by apply same_elsewhere_refl.
  - match goal with H : jset_path _ _ root = Ok _ |- _ => apply jset_path_elsewhere in H as Hs; [|done] end.
    eapply same_elsewhere_trans; [exact Hs|]. eapply IH; [by eapply same_elsewhere_obj|eassumption].
Qed.
Lemma rename_node_elsewhere from to root root' :
  is_object root = true -> rename_node from to root = Ok root' -> same_elsewhere root root'.
Proof.
  unfold rename_node. intros Ho E. simplify_res.
  match goal with H : jset_path _ _ root = Ok _ |- _ => apply jset_path_elsewhere in H as Sa; [|done] end.
  match goal with H : jset "nodes" _ _ = Ok _ |- _ => apply jset_elsewhere in H as Sb; [|by eapply same_elsewhere_obj|by left] end.
  eapply same_elsewhere_trans; [exact Sa|]. eapply same_elsewhere_trans; [exact Sb|].
  match goal with H : (if _ then jset "entry" _ ?x else _) = Ok ?r |- _ => assert (same_elsewhere x r) as Sc end.
  { destruct (String.eqb _ _); [eapply jset_elsewhere; [by eapply same_elsewhere_obj|eassumption|by right]|].
    simplify_res. by eapply same_elsewhere_refl, same_elsewhere_obj. }
  eapply same_elsewhere_trans; [exact Sc|]. eapply rename_in_nodes_elsewhere; [by eapply same_elsewhere_obj|eassumption].
Qed.

Lemma need_node_Ok {A} path id root (k : exc A) r :
  need_node path id root k = Ok r -> has_node id root = Ok true /\ k = Ok r.
Proof. unfold need_node. intros E. simplify_res. by destruct a. Qed.
Lemma need_object_Ok {A} path change (k : json -> exc A) r :
  need_object path change k = Ok r -> exists node, jget "node" change = Ok node /\ is_object node = true /\ k node = Ok r.
Proof. unfold need_object. intros E. simplify_res. destruct (is_object a) eqn:Eo; [|done]. eauto. Qed.
Lemma need_field_Ok {A} path change (k : string -> exc A) r :
  need_field path change k = Ok r -> exists field, k field = Ok r.
Proof.
  unfold need_field. intros E. simplify_res. destruct (negb _); [done|]. simplify_res. destruct (str_empty _); [done|]. eauto.
Qed.

Ltac open_change :=
  repeat match goal with
  | _ => progress simplify_res
  | H : fail _ _ _ _ = Ok _ |- _ => discriminate H
  | H : need_node _ _ _ _ = Ok _ |- _ => apply need_node_Ok in H as [_ H]
  | H : need_object _ _ _ = Ok _ |- _ => apply need_object_Ok in H as (? & _ & _ & H)
  | H : need_field _ _ _ = Ok _ |- _ => apply need_field_Ok in H as [? H]
  | H : (if ?b then _ else _) = Ok _ |- _ => destruct b
  | H : match ?v with JNull => _ | _ => _ end = Ok _ |- _ => destruct v
  end.

Lemma apply_change_elsewhere path change root root' :
  apply_change path change root = Ok root' -> is_object root = true -> same_elsewhere root root'.
Proof.
  unfold apply_change, run_action, change_set_entry, change_add_node, change_remove_node, change_replace_node, change_rename_node,
    change_set_field, change_remove_field, change_set_edges, change_enable, change_insert_next, change_remove_next.
  intros E Ho. open_change.
  all: first [ eapply jset_path_elsewhere; eassumption | eapply rename_node_elsewhere; eassumption
             | eapply jset_elsewhere; [exact Ho|eassumption|by auto] ].
Qed.

Lemma apply_changes_elsewhere i changes root root' :
  apply_changes i changes root = Ok root' -> is_object root = true -> same_elsewhere root root'.
Proof.
  revert i root. induction changes as [|c cs IH]; cbn [apply_changes]; intros i root E Ho; simplify_res.
  - by apply same_elsewhere_refl.
  - match goal with H : apply_change _ _ _ = Ok _ |- _ => apply apply_change_elsewhere in H as Hs; [|done] end.
    eapply same_elsewhere_trans; [exact Hs|]. eapply IH; [eassumption|by eapply same_elsewhere_obj].
Qed.
(** An absent revision and a null one are both zero. *)
Lemma revision_read m : revision_of (JObject m) = jl_as_uint64 (default JNull (om_get "x_revision" m)).
Proof.
  unfold revision_of, get_uint64. simpl. destruct (om_get "x_revision" m); simpl; [done|].
  rewrite jl_as_uint64_null. by apply jl_as_uint64_int.
Qed.
Lemma revision_same root root' : same_elsewhere root root' -> revision_of root' = revision_of root.
Proof. intros (r & r' & -> & -> & _ & Hs). rewrite !revision_read, Hs; done. Qed.
Lemma revision_set n root root' : jset "x_revision" (JUInt (u64 n)) root = Ok root' -> revision_of root' = Ok (u64 n).
Proof.
  intros E. apply jget_jset_eq in E as Hg. assert (exists m, root' = JObject m) as [m ->].
  { destruct root; simpl in E; try done; injection E as <-; eauto. }
  rewrite revision_read. simpl in Hg. injection Hg as ->. apply jl_as_uint64_uint.
  unfold u64, u64_max. pose proof (Z.mod_pos_bound n (2 ^ 64)). lia.
Qed.

Lemma check_patch_Ok digest root doc changes :
  check_patch digest root doc = Ok changes ->
  jget "base_digest" doc = Ok (JString digest)
  /\ (exists revision, revision_of root = Ok revision
       /\ (jmember "base_revision" doc = Ok true ->
           exists v, jget "base_revision" doc = Ok v /\ jl_as_uint64 v = Ok revision))
  /\ exists c cs, changes = c :: cs /\ jget "changes" doc = Ok (JArray (c :: cs)).
Proof.
  unfold check_patch. destruct (is_object doc); [|done]. cbn [negb]. intros E. simplify_res.
  destruct a as [| | | |base| | |]; try discriminate. cbn [is_string negb] in *. simplify_res.
  rewrite jl_as_string_string in *. simplify_res. destruct (str_empty _); [discriminate|].
  destruct (String.eqb_spec a digest) as [->|]; [|discriminate]. cbn [negb] in *. simplify_res. split; [done|].
  destruct (_ && _); [discriminate|]. simplify_res.
  match goal with H : context [negb (?x =? a)] |- _ => destruct (Z.eqb_spec x a) as [->|]; [|discriminate] end.
  cbn [negb] in *. simplify_res. split.
  - exists a. split; [done|]. intros Hm. exists a1. split; [done|]. destruct a0; [done|congruence].
  - match goal with H : match ?x with JNull => _ | _ => _ end = Ok _ |- _ => destruct x as [| | | | | |[|c cs]|] end;
      try discriminate. simplify_res. eauto.
Qed.

(** the optimistic concurrency of patches.  A patch is only applied to the workflow
    whose digest it names and, if it names a revision, at that revision; the document
    loaded then differs from the workflow's in its nodes and its entry alone, and its
    revision is the next one. *)
Theorem patch_guarded limits w p w' :
  is_object (wf_root w) = true -> apply_patch limits w p = Ok w' ->
  exists doc revision c cs root,
    parse_json p = Ok doc /\ jget "base_digest" doc = Ok (JString (w_digest (wf_compiled w)))
    /\ revision_of (wf_root w) = Ok revision
    /\ (jmember "base_revision" doc = Ok true ->
        exists v, jget "base_revision" doc = Ok v /\ jl_as_uint64 v = Ok revision)
    /\ jget "changes" doc = Ok (JArray (c :: cs))
    /\ load limits (write_json root false) = Ok w' /\ revision_of root = Ok (u64 (revision + 1))
    /\ forall k, k <> "nodes" -> k <> "entry" -> k <> "x_revision" -> jget k root = jget k (wf_root w).
Proof.
  unfold apply_patch, patched_root. intros Ho E. simplify_res.
  match goal with H : check_patch _ _ ?d = Ok ?cs |- _ => rename H into Hc, d into doc, cs into changes end.
  match goal with H : apply_changes _ _ _ = Ok ?r |- _ => apply apply_changes_elsewhere in H as Hs; [|done] end.
  match goal with H : revision_of _ = Ok _ |- _ => rewrite (revision_same _ _ Hs) in H; rename H into Hr end.
  match goal with H : jset _ _ _ = Ok _ |- _ => rename H into Hx end.
  apply check_patch_Ok in Hc as (Hb & (revision & Hrev & Hgiven) & c & cs & -> & Hch).
  rewrite Hrev in Hr. injection Hr as <-. exists doc, revision, c, cs, a. split_and!; try done.
  - by eapply revision_set.
  - intros k Hn He Hk. erewrite jget_jset_ne; [|by apply not_eq_sym|exact Hx].
    destruct Hs as (r & r' & Er & -> & _ & Hs). rewrite Er. simpl. by rewrite Hs.
Qed.

(** ** Dry runs *)

(** Checking the shape of changes never throws and only adds errors. *)
Definition reports (m : act exn (list Diagnostic) unit) : Prop :=
  forall d, exists ds, m d = (Ok tt, d ++ ds) /\ Forall (fun x => is_error x = true) ds.
Lemma reports_ret : reports (mret tt).
Proof. intros d. exists []. by rewrite app_nil_r. Qed.
Lemma reports_blame base code suffix message : reports (blame base code suffix message).
Proof. intros d. eexists [_]. split; [reflexivity|by repeat constructor]. Qed.
Lemma reports_when b m : reports m -> reports (when b m).
Proof. intros H. destruct b; [exact H|apply reports_ret]. Qed.
Lemma reports_seq m m' : reports m -> reports m' -> reports (m;; m').
Proof.
  intros H H' d. destruct (H d) as (ds & E & F). destruct (H' (d ++ ds)) as (ds' & E' & F').
  exists (ds ++ ds'). unfold mbind, act_bind. rewrite E, E', app_assoc. split; [done|by apply Forall_app].
Qed.
Lemma reports_lift {A} (m : exc A) a f : m = Ok a -> reports (f a) -> reports (lift m ≫= f).
Proof. intros -> H. exact H. Qed.
Lemma blank_Ok v : exists b, blank v = Ok b.
Proof. unfold blank. destruct v; simpl; eauto. rewrite jl_as_string_string. simpl. eauto. Qed.
Lemma check_shape_reports base change : reports (check_shape base change).
Proof.
  unfold check_shape. destruct change as [| | | | | | |m]; try apply reports_blame. cbn [is_object negb].
  eapply reports_lift; [reflexivity|]. destruct (blank_Ok (default JNull (om_get "action" m))) as [none Hn].
  eapply reports_lift; [exact Hn|]. destruct none; [apply reports_blame|].
  unfold blank in Hn. destruct (default JNull (om_get "action" m)); try discriminate Hn.
  eapply reports_lift; [apply jl_as_string_string|]. destruct (negb (mem_str _ _)); [apply reports_blame|]. cbv zeta.
  repeat first [ apply reports_seq | apply reports_when | apply reports_blame | apply reports_ret
               | match goal with |- reports (lift (blank ?v) ≫= _) =>
                   let b := fresh in let E := fresh in destruct (blank_Ok v) as [b E]; eapply reports_lift; [exact E|]; clear E
                 end
               | eapply reports_lift; [reflexivity|] ].
Qed.
Lemma check_shapes_reports i changes : reports (check_shapes i changes).
Proof.
  revert i. induction changes as [|c cs IH]; intros i; [apply reports_ret|]. apply reports_seq; [|apply IH].
  apply check_shape_reports.
Qed.
Lemma check_document_found p r found :
  check_document p [] = (r, found) ->
  Forall (fun x => is_error x = true) found /\ (r = Ok true <-> found <> []).
Proof.
  unfold check_document, mbind, act_bind, lift. destruct (parse_json p) as [doc|]; [|by intros [= <- <-]].
  destruct (jget "changes" doc) as [changes|]; [|by intros [= <- <-]].
  destruct changes as [| | | | | |l|]; try by intros [= <- <-].
  destruct (check_shapes_reports 0 l []) as (ds & -> & Hd). simpl. intros [= <- <-]. split; [done|]. by destruct ds.
Qed.

(** what a dry run says.  It calls a patch valid exactly when the shapes of its changes
    are in order and applying it succeeds; it then names the digest of the workflow that
    results, and otherwise it has at least one diagnostic, all of them errors. *)
Theorem dry_run_faithful limits w p d :
  dry_run_patch limits w p = Ok d ->
  (dr_valid d = true <->
     (check_document p []).2 = [] /\ exists c, apply_patch limits w p = Ok c)
  /\ (forall c, apply_patch limits w p = Ok c -> dr_valid d = true ->
       dr_candidate_digest d = w_digest (wf_compiled c) /\ dr_diagnostics d = [])
  /\ (dr_valid d = false -> dr_diagnostics d <> [] /\ Forall (fun x => is_error x = true) (dr_diagnostics d)).
Proof.
  unfold dry_run_patch. intros E. simplify_res.
  destruct (check_document p []) as [r found] eqn:Ec. apply check_document_found in Ec as [Hf Hr].
  assert (forall e, is_error (failure_diagnostic e) = true) as He by by intros [].
  destruct r as [[]|e]; simplify_res; simpl.
  - assert (found <> []) by by apply Hr. split; [split; [done|]|by split]. by intros [-> _].
  - assert (found = []) as -> by (destruct found; [done|]; by destruct Hr as [_ Hr]; specialize (Hr ltac:(done))).
    destruct (apply_patch limits w p) as [c|e] eqn:Ea; simpl.
    + split; [split; eauto|]. split; [|done]. by intros c' [= ->].
    + split; [split; [done|]; by intros [_ [? ?]]|]. split; [done|]. intros _. split; [done|]. by repeat constructor.
  - assert (found = []) as -> by (destruct found; [done|]; by destruct Hr as [_ Hr]; specialize (Hr ltac:(done))).
    destruct (apply_patch limits w p) as [c|e'] eqn:Ea; simpl.
    + split; [split; eauto|]. split; [|done]. by intros c' [= ->].
    + split; [split; [done|]; by intros [_ [? ?]]|]. split; [done|]. intros _. split; [done|]. by repeat constructor.
Qed.
End Guards.

(** ** Renaming *)
Section Rename.
Context {J : JsonLib} (L : JsonLaws J) (from to : string) (Hfrom : from <> "") (Hto : to <> "").
Definition renamed (x : string) : string := if String.eqb x from then to else x.

(** What a node refers to: the targets of its edges, its branches and its join. *)
Definition edge_list (v : json) : list json :=
  match v with JArray l => as_edge <$> l | JString _ => [as_edge v] | JObject _ => [v] | _ => [] end.
Definition edge_targets (field : string) (m : list (string * json)) : exc (list string) :=
  match om_get field m with None => Ok [] | Some v => map_exc (get_string "to" "") (edge_list v) end.
Definition branch_targets (m : list (string * json)) : exc (list string) :=
  match om_get "branches" m with Some (JArray l) => map_exc jl_as_string l | _ => Ok [] end.
Definition references (m : list (string * json)) : exc (list string) :=
  next ← edge_targets "next" m;
  error ← edge_targets "on_error" m;
  branches ← branch_targets m;
  join ← get_string "join" "" (JObject m);
  Ok (next ++ error ++ branches ++ (if str_empty join then [] else [join])).

Lemma map_exc_Ok {A B} (f : A -> exc B) l l' : map_exc f l = Ok l' <-> Forall2 (fun x y => f x = Ok y) l l'.
Proof.
  split.
  - revert l'. induction l as [|x l IH]; cbn [map_exc]; intros l' E; simplify_res; constructor; eauto.
  - induction 1 as [|x y l l' Hx _ IH]; cbn [map_exc]; [done|]. by rewrite Hx, IH.
Qed.
Lemma map_exc_fmap {A B C} (f : B -> exc C) (g : A -> B) l : map_exc f (g <$> l) = map_exc (fun x => f (g x)) l.
Proof. induction l as [|x l IH]; [done|]. rewrite fmap_cons. cbn [map_exc]. by rewrite IH. Qed.
Lemma rename_map {A} (get : A -> exc string) (ren : A -> exc A) l l' xs :
  (forall e e' x, ren e = Ok e' -> get e = Ok x -> get e' = Ok (renamed x)) ->
  map_exc ren l = Ok l' -> map_exc get l = Ok xs -> map_exc get l' = Ok (renamed <$> xs).
Proof.
  intros Hr Hl%map_exc_Ok Hx%map_exc_Ok. apply map_exc_Ok. revert xs Hx.
  induction Hl as [|e e' l l' He Hl IH]; intros xs Hx; inversion Hx; subst; simpl; constructor; eauto.
Qed.

Lemma renamed_empty : renamed "" = "".
Proof. unfold renamed. by destruct (String.eqb_spec "" from); [subst|]. Qed.
Lemma renamed_blank x : str_empty (renamed x) = str_empty x.
Proof. unfold renamed. destruct (String.eqb_spec x from) as [->|]; [|done]. by destruct from, to. Qed.
Lemma rename_target_to e e' x :
  rename_target from to e = Ok e' -> get_string "to" "" (as_edge e) = Ok x ->
  get_string "to" "" (as_edge e') = Ok (renamed x).
Proof.
  destruct e as [| | | |s| | |m]; cbn [rename_target]; intros E Hx; simplify_res; try discriminate; try by destruct (as_edge _).
  - unfold get_string in *. simpl in *. rewrite jl_as_string_string in *. simplify_res. by rewrite renamed_empty.
  - rewrite jl_as_string_string in *. simplify_res. unfold get_string in *. simpl in *. rewrite jl_as_string_string in *. simplify_res.
    unfold renamed. destruct (String.eqb _ _); simpl; by rewrite jl_as_string_string.
  - change (as_edge (JObject m)) with (JObject m) in Hx. assert (a = x) as -> by congruence.
    unfold renamed. destruct (String.eqb _ _); simplify_res; [|exact Hx].
    match goal with H : jset _ _ _ = Ok _ |- _ => simpl in H; injection H as <- end.
    unfold get_string. simpl. rewrite om_get_set_eq. simpl. apply jl_as_string_string.
Qed.

Lemma edge_list_renamed v v' xs :
  match v with
  | JArray l => l ← map_exc (rename_target from to) l; Ok (JArray l)
  | _ => rename_target from to v
  end = Ok v' ->
  map_exc (get_string "to" "") (edge_list v) = Ok xs -> map_exc (get_string "to" "") (edge_list v') = Ok (renamed <$> xs).
Proof.
  intros E Hx.
  assert (forall e e' xs, rename_target from to e = Ok e' -> is_string e || is_object e = true ->
            map_exc (get_string "to" "") (edge_list e) = Ok xs ->
            map_exc (get_string "to" "") (edge_list e') = Ok (renamed <$> xs)) as Hone.
  { clear v v' xs E Hx. intros e e' xs E Hk Hx.
    assert (edge_list e = [as_edge e] /\ edge_list e' = [as_edge e']) as [He He'].
    { destruct e as [| | | |s| | |m]; try done; simpl in E; simplify_res.
      - by destruct (String.eqb _ _).
      - by destruct (String.eqb _ _); simplify_res. }
    rewrite He in Hx. rewrite He'. simpl in *. simplify_res. by erewrite rename_target_to. }
  destruct v as [| | | |s| |l|m]; try (simpl in *; by simplify_res); try (by eapply Hone).
  simplify_res. simpl in *. rewrite map_exc_fmap in *. eapply rename_map; eauto. apply rename_target_to.
Qed.

(** On a node that is an object each step rewrites one member. *)
Lemma rename_edges_node field m n' :
  rename_edge_targets field from to (JObject m) = Ok n' ->
  exists m', n' = JObject m' /\ (forall k, k <> field -> om_get k m' = om_get k m)
    /\ forall xs, edge_targets field m = Ok xs -> edge_targets field m' = Ok (renamed <$> xs).
Proof.
  unfold rename_edge_targets, edge_targets. simpl. unfold om_mem. destruct (om_get field m) as [v|] eqn:Ev; simpl; intros E; simplify_res.
  - match goal with H : _ = Ok ?w |- _ => pose proof (fun xs => edge_list_renamed v w xs H) as Hl; clear H end.
    eexists. split; [reflexivity|]. split; [intros k Hk; by apply om_get_set_ne|]. intros xs Hx. rewrite om_get_set_eq. by apply Hl.
  - exists m. split; [done|]. split; [done|]. rewrite Ev. by intros xs [= <-].
Qed.
Lemma rename_join_node m n' join :
  get_string "join" "" (JObject m) = Ok join ->
  (if String.eqb join from then jset "join" (JString to) (JObject m) else Ok (JObject m)) = Ok n' ->
  exists m', n' = JObject m' /\ (forall k, k <> "join" -> om_get k m' = om_get k m)
    /\ get_string "join" "" (JObject m') = Ok (renamed join).
Proof.
  intros Hj E. unfold renamed. destruct (String.eqb join from); simpl in E; simplify_res; eexists; (split; [reflexivity|]).
  - split; [intros k Hk; by apply om_get_set_ne|]. unfold get_string. simpl. rewrite om_get_set_eq. apply jl_as_string_string.
  - done.
Qed.
Lemma rename_branch_to b b' x : rename_branch from to b = Ok b' -> jl_as_string b = Ok x -> jl_as_string b' = Ok (renamed x).
Proof.
  unfold rename_branch, renamed. intros E Hx. rewrite Hx in E. simpl in E. simplify_res.
  destruct (String.eqb x from); [apply jl_as_string_string|done].
Qed.
Lemma rename_branches_node m n' :
  rename_branches from to (JObject m) = Ok n' ->
  exists m', n' = JObject m' /\ (forall k, k <> "branches" -> om_get k m' = om_get k m)
    /\ forall xs, branch_targets m = Ok xs -> branch_targets m' = Ok (renamed <$> xs).
Proof.
  unfold rename_branches, touch, branch_targets. simpl. unfold om_mem. intros E.
  destruct (om_get "branches" m) as [v|] eqn:Ev; simpl in E.
  - rewrite Ev in E. simpl in E.
    destruct v; simpl in E; simplify_res; try (exists m; rewrite Ev; split_and!; [done|done|by intros xs [= <-]]).
    eexists. split; [reflexivity|]. split; [intros k Hk; by apply om_get_set_ne|]. intros xs Hx. rewrite om_get_set_eq.
    eapply rename_map; eauto. apply rename_branch_to.
  - rewrite om_get_set_eq in E. simpl in E. simplify_res. eexists. split; [reflexivity|].
    split; [intros k Hk; by apply om_get_set_ne|]. rewrite om_get_set_eq. by intros xs [= <-].
Qed.

Lemma edge_targets_same field m m' : om_get field m' = om_get field m -> edge_targets field m' = edge_targets field m.
Proof. unfold edge_targets. by intros ->. Qed.
Lemma rename_in_node_obj m n' refs :
  rename_in_node from to (JObject m) = Ok n' -> references m = Ok refs ->
  exists m', n' = JObject m' /\ references m' = Ok (renamed <$> refs).
Proof.
  unfold rename_in_node, references. intros E Hr. simplify_res.
  match goal with H : rename_edge_targets "next" _ _ _ = Ok _ |- _ => apply rename_edges_node in H as (m1 & -> & K1 & T1) end.
  match goal with H : rename_edge_targets "on_error" _ _ _ = Ok _ |- _ => apply rename_edges_node in H as (m2 & -> & K2 & T2) end.
  match goal with H : (if String.eqb _ _ then _ else _) = Ok _ |- _ => apply rename_join_node in H as (m3 & -> & K3 & T3); [|done] end.
  match goal with H : rename_branches _ _ _ = Ok _ |- _ => apply rename_branches_node in H as (m4 & -> & K4 & T4) end.
  exists m4. split; [done|].
  rewrite (edge_targets_same "next" m1), (T1 a) by (try done; by rewrite K4, K3, K2).
  rewrite (edge_targets_same "on_error" m2), (T2 a0) by
    (done || (by rewrite K4, K3) || (by rewrite (edge_targets_same _ m) by by apply K1)).
  rewrite (T4 a1) by (unfold branch_targets in *; by rewrite K3, K2, K1).
  assert (a5 = a2) as -> by (unfold get_string in *; simpl in *; rewrite K2, K1 in * by done; congruence).
  assert (get_string "join" "" (JObject m4) = Ok (renamed a2)) as ->
    by (unfold get_string in *; simpl in *; by rewrite K4).
  simpl. f_equal. rewrite !fmap_app, renamed_blank. do 3 f_equal. by destruct (str_empty a2).
Qed.

(** Over the whole document. *)
Lemma rename_in_nodes_spec ids root m root' :
  jget "nodes" root = Ok (JObject m) -> NoDup ids -> rename_in_nodes from to ids root = Ok root' ->
  exists m', jget "nodes" root' = Ok (JObject m') /\ (forall k, k <> "nodes" -> jget k root' = jget k root)
    /\ (forall id, id ∈ ids -> exists n', rename_in_node from to (default JNull (om_get id m)) = Ok n' /\ om_get id m' = Some n')
    /\ (forall id, id ∉ ids -> om_get id m' = om_get id m).
Proof.
  revert root m. induction ids as [|id ids IH]; cbn [rename_in_nodes]; intros root m Hm Hd E; simplify_res.
  { exists m. split_and!; try done. intros id Hin. by apply elem_of_nil in Hin. }
  apply NoDup_cons in Hd as [Hid Hd]. cbn [jget_path jset_path] in *. rewrite Hm in *. simpl in *. simplify_res.
  match goal with H : jset "nodes" _ root = Ok ?r |- _ => rename H into Hs, r into root1 end.
  match goal with H : rename_in_node _ _ _ = Ok ?n |- _ => rename H into Hn, n into n1 end.
  apply jget_jset_eq in Hs as Hg. match goal with H : rename_in_nodes _ _ _ _ = _ |- _ => apply IH with (1 := Hg) in H as (m' & H1 & H2 & H3 & H4); [|done] end.
  exists m'. split; [done|]. split; [intros k Hk; rewrite H2 by done; by eapply jget_jset_ne; [apply not_eq_sym|]|]. split.
  - intros x [->|Hx]%elem_of_cons.
    + exists n1. split; [done|]. rewrite H4 by done. apply om_get_set_eq.
    + destruct (H3 x Hx) as (n' & En & Eg). exists n'. split; [|done]. rewrite om_get_set_ne in En; [done|]. by intros ->.
  - intros x [Hne Hx]%not_elem_of_cons. rewrite H4 by done. by apply om_get_set_ne.
Qed.

Lemma rename_node_spec root root' m n :
  from <> to -> jget "nodes" root = Ok (JObject m) -> om_sorted m -> om_get from m = Some n -> om_get to m = None ->
  rename_node from to root = Ok root' ->
  exists m', jget "nodes" root' = Ok (JObject m') /\ om_get from m' = None
    /\ (forall id n, om_get id m = Some n -> exists n', rename_in_node from to n = Ok n' /\ om_get (renamed id) m' = Some n')
    /\ (forall entry, jget "entry" root = Ok (JString entry) -> jget "entry" root' = Ok (JString (renamed entry))).
Proof.
  intros Hne Hm Hs Hf Ht E. unfold rename_node in E. cbn [jget_path jset_path] in E. rewrite Hm in E. simpl in E. rewrite Hf in E.
  simpl in E. simplify_res. set (m1 := om_set to n m) in *.
  match goal with H : jset "nodes" _ root = Ok ?r |- _ => pose proof (jget_jset_eq _ _ _ _ H) as G1;
    assert (forall k, k <> "nodes" -> jget k r = jget k root) as O1 by (intros; by eapply jget_jset_ne; [apply not_eq_sym|]) end.
  match goal with H : jget "nodes" _ = Ok _, H' : jget "nodes" _ = Ok (JObject m1) |- _ => rewrite H' in H; injection H as <- end.
  simplify_res.
  match goal with H : jremove from _ = Ok _ |- _ => simpl in H; injection H as <- end. set (m2 := om_del from m1) in *.
  pose proof (jget_jset_eq _ _ _ _ H2) as G2.
  assert (forall k, k <> "nodes" -> jget k a2 = jget k a) as O2 by (intros; by eapply jget_jset_ne; [apply not_eq_sym|]).
  assert (jget "nodes" a5 = Ok (JObject m2) /\
          (jget "entry" a2 = Ok (JString a4) -> jget "entry" a5 = Ok (JString (renamed a4)))) as [G5 Hent].
  { unfold renamed. destruct (String.eqb a4 from); simplify_res; [|done]. split; [|by intros _; eapply jget_jset_eq].
    erewrite jget_jset_ne; [exact G2| |eassumption]. done. }
  rewrite G5 in H6. injection H6 as <-. simpl in H7. injection H7 as <-.
  assert (om_sorted m2) as Hs2 by by apply om_del_sorted, om_set_sorted.
  apply (rename_in_nodes_spec _ _ m2) in H8 as (m' & Hm' & Ho & Hin & Hout); [|done|by apply om_sorted_NoDup].
  exists m'. split; [done|]. split_and!.
  - rewrite Hout; [apply om_get_del_eq|]. intros Hk%om_mem_keys. unfold om_mem, m2 in Hk. by rewrite om_get_del_eq in Hk.
  - intros id x Hx. assert (om_get (renamed id) m2 = Some x) as Hg.
    { unfold m2, m1, renamed. destruct (String.eqb_spec id from) as [->|Hi].
      - rewrite om_get_del_ne, om_get_set_eq by done. congruence.
      - rewrite om_get_del_ne, om_get_set_ne by (congruence || by apply not_eq_sym). done. }
    destruct (Hin (renamed id)) as (n' & Hn & Hg'); [apply om_mem_keys; unfold om_mem; by rewrite Hg|].
    rewrite Hg in Hn. eauto.
  - intros entry He. rewrite Ho by done. rewrite O2, O1 in H3 by done. rewrite He in H3. injection H3 as <-.
    rewrite jl_as_string_string in H4. injection H4 as <-. apply Hent. by rewrite O2, O1.
Qed.
End Rename.

(** renaming is complete.  When a change renames a node, the node is no longer found
    under its old name, every node of the document is found under its new name, the
    entry follows, and what each node refers to (targets of edges, branches, join) is
    what it referred to before with the old name replaced: no reference is left behind
    and none is invented. *)
Theorem rename_complete {J : JsonLib} (L : JsonLaws J) path change from root root' m :
  from <> "" -> jget "nodes" root = Ok (JObject m) -> om_sorted m ->
  change_rename_node path change from root = Ok root' ->
  exists to m', to <> from /\ (v ← jget "new_node_id" change; jl_as_string v) = Ok to
    /\ jget "nodes" root' = Ok (JObject m') /\ om_get from m' = None
    /\ (forall entry, jget "entry" root = Ok (JString entry) -> jget "entry" root' = Ok (JString (renamed from to entry)))
    /\ forall id node refs, om_get id m = Some (JObject node) -> references node = Ok refs ->
       exists node', om_get (renamed from to id) m' = Some (JObject node')
         /\ references node' = Ok (renamed from to <$> refs) /\ from ∉ renamed from to <$> refs.
Proof.
  unfold change_rename_node. intros Hf Hm Hs E. simplify_res. destruct (str_empty _) eqn:Et; [discriminate|].
  match goal with H : jl_as_string _ = Ok ?t |- _ => rename t into to, H into Hto end.
  apply need_node_Ok in H1 as [Hk E]. simplify_res. unfold has_node in *. rewrite Hm in *. simpl in *. simplify_res.
  destruct (om_mem to m) eqn:Emt; [discriminate|]. unfold om_mem in Hk, Emt.
  destruct (om_get from m) as [n|] eqn:Ef; [|done]. destruct (om_get to m) eqn:Eto; [done|].
  assert (to <> from) as Hne by congruence. assert (to <> "") as Ht by by intros ->.
  destruct (rename_node_spec L from to root root' m n) as (m' & Hm' & Hgone & Hall & Hent); [by apply not_eq_sym|done..|].
  exists to, m'. rewrite H. split_and!; try done. intros id node refs Hid Hr.
  destruct (Hall id _ Hid) as (n' & Hn & Hg). destruct (rename_in_node_obj L from to Hf Ht node n' refs Hn Hr) as (node' & -> & Hr').
  exists node'. split_and!; try done. intros (x & Hx & _)%list_elem_of_fmap. unfold renamed in Hx.
  destruct (String.eqb_spec x from); congruence.
Qed.

(** ** The affected nodes *)
Lemma add_names_keys l s x : x ∈ (add_names l s).*1 <-> x ∈ l \/ x ∈ s.*1.
Proof.
  unfold add_names. revert s. induction l as [|y l IH]; intros s; simpl; [set_solver|].
  rewrite IH. unfold add_name. rewrite om_set_keys. set_solver.
Qed.
Lemma add_names_sorted l s : om_sorted s -> om_sorted (add_names l s).
Proof. unfold add_names. revert s. induction l as [|y l IH]; intros s Hs; simpl; [done|]. by apply IH, om_set_sorted. Qed.
Lemma same_size (s s' : list (string * unit)) :
  om_sorted s -> om_sorted s' -> (forall x, x ∈ s.*1 -> x ∈ s'.*1) -> (length s' <= length s)%nat -> s' = s.
Proof.
  intros Hs Hs' Hsub Hl. assert (s.*1 ≡ₚ s'.*1) as Hp.
  { apply submseteq_length_Permutation; [|by rewrite !length_fmap].
    apply NoDup_submseteq; [by apply om_sorted_NoDup|done]. }
  apply om_ext; [done..|]. intros k. destruct (decide (k ∈ s.*1)) as [Hk|Hk].
  - apply om_mem_keys in Hk as Hk1. rewrite Hp in Hk. apply om_mem_keys in Hk. unfold om_mem in *.
    destruct (om_get k s') as [[]|], (om_get k s) as [[]|]; done.
  - rewrite (om_get_None k s) by done. rewrite Hp in Hk. by apply om_get_None.
Qed.

Section Affected.
Context {J : JsonLib} (root : json) (source : string -> json).
Context (Hroot : forall id, jget_path ["nodes"; id] root = Ok (source id)) (nodes : list NodeIR).
Definition node_text (n : NodeIR) : string := write_json (source (n_id n)) false.

(** [a] affects [b]: control passes from [a] to [b], or [b] mentions [a]. *)
Definition affects (a b : string) : Prop :=
  exists n, n ∈ nodes /\ ((n_id n = a /\ b ∈ passes_to n) \/ (n_id n = b /\ mentions (node_text n) a = true)).

Definition grown (n : NodeIR) (s : list (string * unit)) : list (string * unit) :=
  let touched := om_mem (n_id n) s in
  let s := if touched then add_names (passes_to n) s else s in
  if touched || existsb (mentions (node_text n)) s.*1 then add_name s (n_id n) else s.
Lemma grow_node_Ok n s : grow_node root n s = Ok (grown n s).
Proof. unfold grow_node. by rewrite Hroot. Qed.
Lemma grow_nodes_Ok l s : grow_nodes root l s = Ok (foldl (fun s n => grown n s) s l).
Proof. revert s. induction l as [|n l IH]; intros s; simpl; [done|]. by rewrite grow_node_Ok, <- IH. Qed.

Lemma grown_sorted n s : om_sorted s -> om_sorted (grown n s).
Proof.
  intros Hs. unfold grown. destruct (om_mem _ _); simpl; [by apply om_set_sorted, add_names_sorted|].
  destruct (existsb _ _); [by apply om_set_sorted|done].
Qed.
Lemma grown_keys n s x :
  x ∈ (grown n s).*1 <->
  x ∈ s.*1 \/ (n_id n ∈ s.*1 /\ x ∈ passes_to n)
  \/ (x = n_id n /\ exists y, y ∈ s.*1 /\ mentions (node_text n) y = true).
Proof.
  unfold grown. destruct (om_mem (n_id n) s) eqn:E; simpl.
  - unfold add_name. apply om_mem_keys in E. rewrite om_set_keys, add_names_keys. set_solver.
  - assert (n_id n ∉ s.*1) by (rewrite <- om_mem_keys; congruence).
    destruct (existsb _ _) eqn:Ex.
    + apply existsb_exists in Ex as (y & Hy%list_elem_of_In & Hm). unfold add_name. rewrite om_set_keys. set_solver.
    + split; [by left|]. intros [?|[[? ?]|[-> (y & Hy & Hm)]]]; [done..|]. exfalso.
      rewrite <- not_true_iff_false in Ex. apply Ex, existsb_exists. exists y. by rewrite <- list_elem_of_In.
Qed.

(** A pass. *)
Definition pass (l : list NodeIR) (s : list (string * unit)) := foldl (fun s n => grown n s) s l.
Lemma pass_sorted l s : om_sorted s -> om_sorted (pass l s).
Proof. unfold pass. revert s. induction l as [|n l IH]; intros s Hs; simpl; [done|]. by apply IH, grown_sorted. Qed.
Lemma pass_grows l s x : x ∈ s.*1 -> x ∈ (pass l s).*1.
Proof. unfold pass. revert s. induction l as [|n l IH]; intros s Hs; simpl; [done|]. apply IH, grown_keys. by left. Qed.
(** A pass that adds nothing has seen every node at that set. *)
Lemma pass_fix l s : om_sorted s -> pass l s = s -> Forall (fun n => grown n s = s) l.
Proof.
  unfold pass. revert s. induction l as [|n l IH]; intros s Hs E; simpl in E; [constructor|].
  assert (grown n s = s) as En.
  { apply same_size; [done|by apply grown_sorted|intros x Hx; apply grown_keys; by left|].
    rewrite <- E at 2. rewrite <- (length_fmap fst (grown n s)), <- (length_fmap fst (foldl _ _ _)).
    apply submseteq_length, NoDup_submseteq; [by apply om_sorted_NoDup, grown_sorted|]. intros x. apply (pass_grows l). }
  constructor; [done|]. rewrite En in E. by apply IH.
Qed.

Definition universe (s : list (string * unit)) : list string := s.*1 ++ concat ((fun n => n_id n :: passes_to n) <$> nodes).
Lemma pass_within l s u : (forall n, n ∈ l -> n ∈ nodes) -> (forall x, x ∈ s.*1 -> x ∈ universe u) ->
  forall x, x ∈ (pass l s).*1 -> x ∈ universe u.
Proof.
  unfold pass. revert s. induction l as [|n l IH]; intros s Hl Hs x; simpl; [apply Hs|]. apply IH; [set_solver|].
  assert (n ∈ nodes) as Hn by (apply Hl; set_solver).
  assert (forall y, y ∈ n_id n :: passes_to n -> y ∈ universe u) as Hu.
  { intros y Hy. unfold universe. apply elem_of_app. right. apply list_elem_of_In, in_concat. exists (n_id n :: passes_to n).
    split; [|by apply list_elem_of_In]. apply list_elem_of_In. by apply (list_elem_of_fmap_2 (fun n => n_id n :: passes_to n)). }
  intros y Hy. apply grown_keys in Hy as [Hy|[[_ Hy]|[-> _]]]; [by apply Hs| |]; apply Hu; set_solver.
Qed.

Lemma grow_fix fuel s u :
  om_sorted s -> (forall x, x ∈ s.*1 -> x ∈ universe u) -> (length (universe u) < fuel + length s)%nat ->
  exists s', grow fuel root nodes s = Ok s' /\ om_sorted s' /\ pass nodes s' = s' /\ exists k, s' = Nat.iter k (pass nodes) s.
Proof.
  revert s. induction fuel as [|fuel IH]; intros s Hs Hu Hf.
  - exfalso. enough (length s <= length (universe u))%nat by lia.
    rewrite <- (length_fmap fst s). apply submseteq_length, NoDup_submseteq; [by apply om_sorted_NoDup|done].
  - cbn [grow]. rewrite grow_nodes_Ok. simpl. fold (pass nodes s). pose proof (pass_sorted nodes s Hs) as Hs1.
    destruct (Nat.eqb_spec (length (pass nodes s)) (length s)) as [El|El].
    + assert (pass nodes s = s) as E by (apply same_size; [done|done|apply pass_grows|lia]).
      exists (pass nodes s). split; [done|]. split; [done|]. split; [by rewrite !E|]. by exists 1%nat.
    + assert (length s <= length (pass nodes s))%nat as Hle.
      { rewrite <- (length_fmap fst s), <- (length_fmap fst (pass nodes s)).
        apply submseteq_length, NoDup_submseteq; [by apply om_sorted_NoDup|apply pass_grows]. }
      destruct (IH (pass nodes s)) as (s' & E & H1 & H2 & k & ->); [done|by apply pass_within|lia|].
      exists (Nat.iter k (pass nodes) (pass nodes s)). split; [done|]. split; [done|]. split; [done|].
      exists (S k). by rewrite <- Nat.iter_succ_r.
Qed.

Lemma iter_sound k s x : x ∈ (Nat.iter k (pass nodes) s).*1 -> exists d, d ∈ s.*1 /\ rtc affects d x.
Proof.
  revert x. induction k as [|k IH]; intros x; simpl; [intros Hx; by exists x|].
  assert (forall l s', (forall n, n ∈ l -> n ∈ nodes) -> (forall x, x ∈ s'.*1 -> exists d, d ∈ s.*1 /\ rtc affects d x) ->
            forall x, x ∈ (pass l s').*1 -> exists d, d ∈ s.*1 /\ rtc affects d x) as Hp.
  { clear x IH. unfold pass. induction l as [|n l IH]; intros s' Hl Hs x; simpl; [apply Hs|]. apply IH; [set_solver|].
    assert (n ∈ nodes) as Hn by (apply Hl; set_solver).
    intros y Hy. apply grown_keys in Hy as [Hy|[[Hi Hy]|[-> (z & Hz & Hm)]]]; [by apply Hs| |].
    - destruct (Hs _ Hi) as (d & Hd & Hr). exists d. split; [done|]. eapply rtc_r; [exact Hr|]. exists n. split; [done|by left].
    - destruct (Hs _ Hz) as (d & Hd & Hr). exists d. split; [done|]. eapply rtc_r; [exact Hr|]. exists n. split; [done|by right]. }
  apply Hp; [done|exact IH].
Qed.
Lemma fix_closed s x y : pass nodes s = s -> om_sorted s -> x ∈ s.*1 -> rtc affects x y -> y ∈ s.*1.
Proof.
  intros E Hs Hx Hr. apply pass_fix in E; [|done]. rewrite Forall_forall in E.
  induction Hr as [|x y z (n & Hn & Hxy) _ IH]; [done|]. apply IH. rewrite <- (E n Hn). apply grown_keys.
  destruct Hxy as [[<- Hs']|[<- Hm]]; [right; left; done|right; right; eauto].
Qed.
Lemma affected_by_exact ir direct :
  w_nodes ir = nodes -> om_sorted direct ->
  exists s, affected_by root ir direct = Ok s /\ forall id, id ∈ s.*1 <-> exists d, d ∈ direct.*1 /\ rtc affects d id.
Proof.
  intros Hn Hd. unfold affected_by. rewrite Hn.
  destruct (grow_fix (grow_fuel nodes) direct direct) as (s & E & Hs & Hf & k & ->).
  - done.
  - intros x Hx. unfold universe. set_solver.
  - unfold universe, grow_fuel. rewrite length_app, length_fmap.
    assert (length (concat ((fun n => n_id n :: passes_to n) <$> nodes)) = sum_list ((fun n => S (length (passes_to n))) <$> nodes)) as ->; [|lia].
    clear. induction nodes as [|n l IH]; [done|]. rewrite !fmap_cons. cbn [concat]. rewrite length_app, IH. simpl. lia.
  - exists (Nat.iter k (pass nodes) direct). split; [done|]. intros id. split; [apply iter_sound|].
    intros (d & Hd' & Hr). eapply fix_closed; [done|done| |exact Hr].
    clear E Hs Hf Hr.
    induction k as [|k IH]; simpl; [done|]. by apply pass_grows.
Qed.
End Affected.

(** ** The analysis of a patch *)
Section Analysis.
Context {J : JsonLib}.
Definition source_of (root : json) (id : string) : json := or_else (jget_path ["nodes"; id] root) JNull.

(** The node under [id] is not the same in both documents. *)
Definition differs (before after : json) (id : string) : Prop :=
  exists old new, node_in before id = Ok old /\ node_in after id = Ok new
    /\ match old, new with Some o, Some n => json_eqb o n = false | None, None => False | _, _ => True end.

Lemma nodes_readable root l : (v ← jget "nodes" root; jmembers v) = Ok l ->
  (forall id, jget_path ["nodes"; id] root = Ok (source_of root id))
  /\ (forall id, node_in root id = Ok (if decide (id ∈ l) then Some (source_of root id) else None)).
Proof.
  intros H. simplify_res. unfold source_of, node_in, has_node. cbn [jget_path].
  match goal with H : jget "nodes" root = Ok ?v |- _ => rewrite H; rename v into nodes end. simpl.
  destruct nodes as [| | | | | | |m]; simpl in *; simplify_res; try discriminate.
  - split; [done|]. intros id. rewrite decide_False by set_solver. done.
  - split; [done|]. intros id. destruct (om_mem id m) eqn:E; simpl.
    + rewrite decide_True by by apply om_mem_keys. done.
    + rewrite decide_False; [done|]. intros Hin%om_mem_keys. congruence.
Qed.
Lemma node_names_Ok before after ids :
  node_names before after = Ok ids ->
  om_sorted ids /\ exists old new, (v ← jget "nodes" before; jmembers v) = Ok old /\ (v ← jget "nodes" after; jmembers v) = Ok new
    /\ forall id, id ∈ ids.*1 <-> id ∈ old \/ id ∈ new.
Proof.
  unfold node_names. intros E. simplify_res. split; [by repeat apply add_names_sorted; constructor|].
  exists a0, a2. rewrite H, H1. simpl. split; [done|]. split; [done|].
  intros id. rewrite !add_names_keys. set_solver.
Qed.
Lemma inverse_changes_ids before after ids cs :
  inverse_changes before after ids = Ok cs ->
  (forall id, id ∈ ids -> exists old new, node_in before id = Ok old /\ node_in after id = Ok new /\ (is_Some old \/ is_Some new)) ->
  forall id, id ∈ ((fun c => c.1.1) <$> cs) <-> id ∈ ids /\ differs before after id.
Proof.
  revert cs. induction ids as [|x ids IH]; cbn [inverse_changes]; intros cs E Hk id; simplify_res; [set_solver|].
  match goal with H : inverse_changes _ _ _ = Ok _ |- _ => apply IH with (id := id) in H as IHx; [|set_solver] end.
  destruct (Hk x) as (old & new & Ho & Hn & Hsome); [set_solver|].
  assert ((exists c, a = Some c) <-> differs before after x) as Hx.
  { unfold inverse_change, differs in *. rewrite Ho, Hn in *. simpl in *. destruct old as [o|], new as [n|].
    - destruct (json_eqb o n) eqn:Ej; simplify_res; [|by split; [|eauto]; intros _; exists (Some o), (Some n)].
      split; [by intros [? ?]|]. by intros (? & ? & [= <-] & [= <-] & ?); congruence.
    - simplify_res. split; [|eauto]. intros _. by exists (Some o), None.
    - simplify_res. split; [|eauto]. intros _. by exists None, (Some n).
    - by destruct Hsome as [[? ?]|[? ?]]. }
  destruct a as [[c effects]|]; simpl.
  - rewrite elem_of_cons, IHx. split; [|set_solver]. intros [->|?]; [|set_solver]. split; [set_solver|]. apply Hx. eauto.
  - rewrite IHx. split; [set_solver|]. intros [[->|?]%elem_of_cons Hd]; [|done]. apply Hx in Hd as [? ?]. done.
Qed.

(** the analysis of a patch is exact.  The nodes it calls directly changed are those
    that are not the same in the candidate, and the nodes it calls affected are exactly
    the ones to which control flow, error flow, branches and joins, or the mention of a
    node in another, leads from a directly changed node; the search for them returns. *)
Theorem analysis_exact limits w p a :
  analyze_patch limits w p = Ok a -> pa_valid a = true ->
  exists c, apply_patch limits w p = Ok c
    /\ (forall id, id ∈ pa_directly_changed_nodes a <-> differs (wf_root w) (wf_root c) id)
    /\ forall id, id ∈ pa_affected_nodes a <-> exists d, d ∈ pa_directly_changed_nodes a
         /\ rtc (affects (source_of (wf_root c)) (w_nodes (wf_compiled c))) d id.
Proof.
  unfold analyze_patch. intros E Hv. simplify_res. destruct (dr_valid _); cbn [negb] in *; simplify_res; [|discriminate].
  match goal with H : apply_patch _ _ _ = Ok ?c |- _ => exists c; rename c into cand end.
  match goal with H : node_names _ _ = Ok ?i |- _ => apply node_names_Ok in H as (Hs & old & new & Ho & Hn & Hids); rename i into ids end.
  destruct (nodes_readable _ _ Ho) as [_ Hin1]. destruct (nodes_readable _ _ Hn) as [Hsrc Hin2].
  match goal with H : inverse_changes _ _ _ = Ok ?c |- _ => rename c into changed, H into Hc end.
  assert (forall id, id ∈ ((fun c => c.1.1) <$> changed) <-> differs (wf_root w) (wf_root cand) id) as Hd.
  { intros id. rewrite (inverse_changes_ids _ _ _ _ Hc).
    - split; [by intros [_ ?]|]. intros Hdiff. split; [|done]. apply Hids. destruct Hdiff as (o & n & E1 & E2 & Hon).
      rewrite Hin1 in E1. rewrite Hin2 in E2. simplify_res. do 2 case_decide; tauto.
    - clear id. intros id Hid. do 2 eexists. split; [apply Hin1|]. split; [apply Hin2|]. apply Hids in Hid.
      destruct Hid; [left|right]; rewrite decide_True by done; eauto. }
  split; [done|]. simpl.
  destruct (affected_by_exact (wf_root cand) (source_of (wf_root cand)) Hsrc (w_nodes (wf_compiled cand)) (wf_compiled cand)
              (add_names ((fun c => c.1.1) <$> changed) [])) as (s & Es & Hex); [done|apply add_names_sorted; constructor|].
  match goal with H : affected_by _ _ _ = Ok _ |- _ => rewrite Es in H; injection H as <- end.
  split.
  - intros id. rewrite add_names_keys, Hd. set_solver.
  - exact Hex.
Qed.
End Analysis.
