(* ===== verification/PatchInverse.v ===== *)
(** * Taking a patch back (src/dage.cpp: analyze_patch, apply_patch)

    The inverse patch [analyze_patch] proposes, applied to the candidate, gives back the
    semantic digest of the workflow the patch was made for.  The documents are assumed
    to be ones jsoncpp reads back as they were written. *)

From Stdlib Require Import SpecFloat.
From S2P Require Import Prelude Json Sha256 Ir Workflow Patch.
Open Scope string_scope.
Open Scope list_scope.
Open Scope Z_scope.

(** ** Equality of values

    [operator==] identifies the two zeros; elsewhere it is equality. *)
Fixpoint signless (v : json) : bool :=
  match v with
  | JReal (S754_zero _) => false
  | JArray l => forallb signless l
  | JObject m => forallb (fun p => signless p.2) m
  | _ => true
  end.
Lemma d_eqb_eq x y : d_eqb x y = true -> match x with S754_zero _ => False | _ => True end -> x = y.
Proof.
  unfold d_eqb, SFeqb, SFcompare. destruct x as [s|s| |s m e], y as [s'|s'| |s' m' e'];
    repeat match goal with s : bool |- _ => destruct s end; try done.
  all: destruct (Z.compare_spec e e') as [->| |]; try done.
  all: change (PosDef.Pos.compare_cont Eq m m') with (Pos.compare m m'); destruct (Pos.compare_spec m m'); by subst.
Qed.
Lemma json_eqb_eq v v' : signless v = true -> json_eqb v v' = true -> v = v'.
Proof.
  revert v'. induction v as [|z|z|x|s|b|l IH|m IH] using json_rect'; intros [|z'|z'|x'|s'|b'|l'|m'] Hs E; simpl in *; try done.
  - by apply Z.eqb_eq in E as ->.
  - by apply Z.eqb_eq in E as ->.
  - f_equal. apply d_eqb_eq; [done|]. by destruct x.
  - by apply String.eqb_eq in E as ->.
  - by apply eqb_prop in E as ->.
  - f_equal. revert l' E Hs. induction IH as [|x l Hx _ IHl]; intros [|y l'] E Hs; simpl in *; try done.
    apply andb_true_iff in E as [E1 E2]. apply andb_true_iff in Hs as [Hs1 Hs2]. f_equal; [by apply Hx|by apply IHl].
  - f_equal. revert m' E Hs. induction IH as [|[k x] m Hx _ IHm]; intros [|[k' y] m'] E Hs; simpl in *; try done.
    apply andb_true_iff in E as [[E0%String.eqb_eq E1]%andb_true_iff E2]. apply andb_true_iff in Hs as [Hs1 Hs2].
    subst. f_equal; [f_equal; by apply Hx|by apply IHm].
Qed.

(** ** Reading back *)
Lemma canon_get m k : om_get k (prod_map id canon <$> m) = canon <$> om_get k m.
Proof. induction m as [|[k' v] m IH]; simpl; [done|]. by destruct (String.eqb k k'). Qed.
Lemma canon_member m k v : canon (JObject m) = JObject m -> om_get k m = Some v -> canon v = v.
Proof. intros [= E] Hg. pose proof (canon_get m k) as H. rewrite E, Hg in H. simpl in H. congruence. Qed.
Lemma signless_member m k v : signless (JObject m) = true -> om_get k m = Some v -> signless v = true.
Proof.
  simpl. induction m as [|[k' x] m IH]; simpl; [done|]. intros [Hx Hm]%andb_true_iff.
  destruct (String.eqb k k'); [by intros [= <-]|by apply IH].
Qed.
Lemma canon_sorted m : om_sorted m -> om_sorted (prod_map id canon <$> m).
Proof.
  unfold om_sorted. assert ((prod_map id canon <$> m).*1 = m.*1) as ->; [|done].
  induction m as [|[k v] m IH]; [done|]. rewrite !fmap_cons. by rewrite IH.
Qed.
Lemma om_set_comm {A} k k' (v v' : A) m :
  k <> k' -> om_sorted m -> om_set k v (om_set k' v' m) = om_set k' v' (om_set k v m).
Proof.
  intros Hne Hs. apply om_ext; [by repeat apply om_set_sorted..|]. intros x. rewrite !om_get_set.
  do 2 case_decide; subst; congruence.
Qed.
Lemma om_del_set {A} k (v : A) m : om_sorted m -> om_del k (om_set k v m) = om_del k m.
Proof.
  intros Hs. apply om_ext; [by repeat first [apply om_del_sorted|apply om_set_sorted]..|]. intros x.
  destruct (decide (k = x)) as [->|Hne]; [by rewrite !om_get_del_eq|]. by rewrite !om_get_del_ne, om_get_set_ne.
Qed.

(** ** Normalisation

    It rewrites the nodes, may add a null "defaults", and does not look at the
    revision. *)
Section Normalise.
Context {J : JsonLib}.

Definition frames (root root' : json) : Prop :=
  exists r r', root = JObject r /\ root' = JObject r' /\ (om_sorted r -> om_sorted r')
    /\ (forall k, k <> "nodes" -> k <> "defaults" -> om_get k r' = om_get k r)
    /\ (om_get "defaults" r' = om_get "defaults" r \/ om_get "defaults" r = None).
Lemma frames_refl r : frames (JObject r) (JObject r).
Proof. exists r, r. split_and!; auto. Qed.
Lemma frames_trans a b c : frames a b -> frames b c -> frames a c.
Proof.
  intros (r1 & r2 & -> & -> & S1 & H1 & D1) (r2' & r3 & [= <-] & -> & S2 & H2 & D2).
  exists r1, r3. split_and!; [done..|by auto|by intros k Hk Hk'; rewrite H2, H1|]. destruct D1 as [D1|D1]; [|by right].
  destruct D2 as [D2|D2]; [left|right]; congruence.
Qed.
Lemma touch_frames k r root' : k = "nodes" \/ k = "defaults" -> touch k (JObject r) = Ok root' -> frames (JObject r) root'.
Proof.
  unfold touch. simpl. unfold om_mem. intros Hk E. destruct (om_get k r) eqn:Eg; simplify_res; [apply frames_refl|].
  exists r, (om_set k JNull r). split_and!; [done..|by apply om_set_sorted|intros k' ? ?; apply om_get_set_ne; by destruct Hk; subst|].
  destruct Hk as [->| ->]; [left; by apply om_get_set_ne|by right].
Qed.
Lemma jset_nodes_frames x r root' : jset "nodes" x (JObject r) = Ok root' -> frames (JObject r) root'.
Proof.
  simpl. intros E. simplify_res. exists r, (om_set "nodes" x r).
  split_and!; [done..|by apply om_set_sorted|intros k' ? ?; by apply om_get_set_ne, not_eq_sym|left; by apply om_get_set_ne].
Qed.
Lemma inherit_default_frames k r n root' n' :
  inherit_default k (JObject r) n = Ok (root', n') -> frames (JObject r) root'.
Proof.
  unfold inherit_default. intros E. simplify_res. destruct a; simplify_res; [apply frames_refl|].
  match goal with H : touch _ _ = Ok _ |- _ => apply touch_frames in H as Hf; [|by right] end.
  match goal with H : (if ?b then _ else _) = Ok _ |- _ => destruct b; simplify_res; exact Hf end.
Qed.
Lemma frames_obj root root' : frames root root' -> exists r', root' = JObject r'.
Proof. intros (r & r' & _ & -> & _). eauto. Qed.
Lemma normalize_node_frames r id root' : normalize_node (JObject r) id = Ok root' -> frames (JObject r) root'.
Proof.
  unfold normalize_node. intros E. simplify_res.
  repeat match goal with H : inherit_default _ (JObject ?x) _ = Ok (?y, _) |- _ =>
    apply inherit_default_frames in H; destruct (frames_obj _ _ H) as [? ->] end.
  cbn [jset_path] in *. simplify_res.
  match goal with H : jset "nodes" _ _ = Ok _ |- _ => apply jset_nodes_frames in H end. eauto using frames_trans.
Qed.
Lemma normalize_nodes_frames r ids root' : normalize_nodes (JObject r) ids = Ok root' -> frames (JObject r) root'.
Proof.
  revert r. induction ids as [|id ids IH]; cbn [normalize_nodes]; intros r E; simplify_res; [apply frames_refl|].
  match goal with H : normalize_node _ _ = Ok _ |- _ => apply normalize_node_frames in H; destruct (frames_obj _ _ H) as [? ->] end.
  eauto using frames_trans.
Qed.

Definition with_revision (v root : json) : json :=
  match root with JObject r => JObject (om_set "x_revision" v r) | _ => root end.
Lemma get_revised v k r : k <> "x_revision" -> jget k (JObject (om_set "x_revision" v r)) = jget k (JObject r).
Proof. intros Hk. simpl. by rewrite om_get_set_ne by by apply not_eq_sym. Qed.
Lemma touch_revised v k r : k <> "x_revision" -> om_sorted r ->
  touch k (JObject (om_set "x_revision" v r)) = with_revision v <$> touch k (JObject r).
Proof.
  intros Hk Hs. unfold touch. simpl. unfold om_mem. rewrite om_get_set_ne by by apply not_eq_sym.
  destruct (om_get k r); simpl; [done|]. do 2 f_equal. by apply om_set_comm.
Qed.
Lemma inherit_revised v k r n : om_sorted r ->
  inherit_default k (JObject (om_set "x_revision" v r)) n = prod_map (with_revision v) id <$> inherit_default k (JObject r) n.
Proof.
  intros Hs. unfold inherit_default. destruct (jmember k n) as [[]|]; simpl; [done| |done].
  rewrite touch_revised by done. destruct (touch "defaults" (JObject r)) as [root|] eqn:Et; simpl; [|done].
  apply touch_frames in Et as Hf; [|by right]. destruct (frames_obj _ _ Hf) as [r' ->]. cbn [with_revision].
  rewrite get_revised by done. destruct (jget "defaults" (JObject r')) as [d|]; simpl; [|done].
  destruct (jmember k d) as [[]|]; simpl; [|done..]. destruct (jget k d); simpl; [|done]. by destruct (jset k _ n).
Qed.

Lemma inherit_sorted k r n root' n' : om_sorted r -> inherit_default k (JObject r) n = Ok (root', n') ->
  exists r', root' = JObject r' /\ om_sorted r'.
Proof.
  intros Hs H%inherit_default_frames. destruct H as (r1 & r' & [= <-] & -> & Hs' & _). eauto.
Qed.
Lemma set_node_revised v id n r : om_sorted r ->
  jset_path ["nodes"; id] n (JObject (om_set "x_revision" v r)) = with_revision v <$> jset_path ["nodes"; id] n (JObject r).
Proof.
  intros Hs. cbn [jset_path]. rewrite get_revised by done. destruct (jget "nodes" (JObject r)) as [nodes|]; simpl; [|done].
  destruct (jget id nodes); simpl; [|done]. destruct (jset id n nodes); simpl; [|done]. do 2 f_equal. by apply om_set_comm.
Qed.
Lemma normalize_node_revised v r id : om_sorted r ->
  normalize_node (JObject (om_set "x_revision" v r)) id = with_revision v <$> normalize_node (JObject r) id.
Proof.
  intros Hs. unfold normalize_node. cbn [jget_path]. rewrite get_revised by done.
  repeat match goal with
  | |- context [(?m ≫= _) = with_revision v <$> _] =>
    lazymatch m with
    | inherit_default _ _ _ => fail
    | _ => destruct m as [|] eqn:?; cbn [mbind res_bind fmap res_fmap]; [|done]
    end
  end.
  rewrite inherit_revised by done. destruct (inherit_default "timeout_ms" (JObject r) _) as [[root n]|] eqn:E1; [|done].
  destruct (inherit_sorted _ _ _ _ _ Hs E1) as (r1 & -> & Hs1). cbn.
  rewrite inherit_revised by done. destruct (inherit_default "retry" (JObject r1) _) as [[root n']|] eqn:E2; [|done].
  destruct (inherit_sorted _ _ _ _ _ Hs1 E2) as (r2 & -> & Hs2).
  change (jset_path ["nodes"; id] n' (JObject (om_set "x_revision" v r2)) = with_revision v <$> jset_path ["nodes"; id] n' (JObject r2)).
  by apply set_node_revised.
Qed.
Lemma normalize_nodes_revised v r ids : om_sorted r ->
  normalize_nodes (JObject (om_set "x_revision" v r)) ids = with_revision v <$> normalize_nodes (JObject r) ids.
Proof.
  revert r. induction ids as [|id ids IH]; cbn [normalize_nodes]; intros r Hs; [done|]. rewrite normalize_node_revised by done.
  destruct (normalize_node (JObject r) id) as [root|] eqn:E; [|done]. apply normalize_node_frames in E as (r1 & r' & [= <-] & -> & Hs' & _).
  change (normalize_nodes (JObject (om_set "x_revision" v r')) ids = with_revision v <$> normalize_nodes (JObject r') ids). by auto.
Qed.
End Normalise.

(** ** Loading a document again *)
Section Reload.
Context {J : JsonLib} (L : JsonLaws J) (limits : WorkflowResourceLimits).
Definition readable (v : json) : Prop := text_ok jl_str_ok jl_real_ok 1000 v.

Lemma load_Ok text w : load limits text = Ok w ->
  exists root root' nodes names, jl_parse text = Ok root /\ touch "nodes" root = Ok root' /\ jget "nodes" root' = Ok nodes
    /\ jmembers nodes = Ok names /\ normalize_nodes root' names = Ok (wf_root w)
    /\ compile_workflow_ir (write_json (wf_root w) false) (max_compiled_ir_bytes limits) = Ok (wf_compiled w).
Proof.
  unfold load. intros E. simplify_res. destruct (List.find _ _); [discriminate|]. simplify_res.
  match goal with H : parse_workflow_json _ _ = Ok _ |- _ => rename H into Hp end.
  unfold parse_workflow_json in Hp. destruct (_ <? _); [discriminate|]. destruct (_ <? _); [discriminate|].
  destruct (jl_parse_limited _ _) eqn:El; [|discriminate]. simplify_res. apply jl_parse_limited_parse in El.
  match goal with H : make_workflow _ _ = Ok _ |- _ => unfold make_workflow in H; simplify_res end. eauto 10.
Qed.
Lemma digest_is text max ir root :
  compile_workflow_ir text max = Ok ir -> jl_parse text = Ok root ->
  exists semantic, jremove "x_revision" root = Ok semantic /\ w_digest ir = sha256_digest (jl_write_ascii semantic).
Proof.
  unfold compile_workflow_ir, compile_accounted, parse. destruct (max =? 0); [done|]. intros E Hp. rewrite Hp in E.
  simplify_res. eauto.
Qed.

(** A workflow whose document is read back as written and loads to itself. *)
Record settled (w : Workflow) (r m : list (string * json)) (entry : string) : Prop := {
  st_root : wf_root w = JObject r;
  st_nodes : om_get "nodes" r = Some (JObject m);
  st_entry : om_get "entry" r = Some (JString entry);
  st_canon : canon (JObject r) = JObject r;
  st_signless : signless (JObject r) = true;
  st_readable : readable (JObject r);
  st_reloads : load limits (write_json (JObject r) false) = Ok w
}.
#[local] Transparent text_ok.
Lemma text_ok_object d r :
  text_ok jl_str_ok jl_real_ok (S d) (JObject r)
  <-> om_sorted r /\ Forall (fun p => jl_str_ok p.1 /\ text_ok jl_str_ok jl_real_ok d p.2) r.
Proof. done. Qed.
Lemma text_ok_int d z : - 2 ^ 63 <= z < 2 ^ 63 -> text_ok jl_str_ok jl_real_ok (S d) (JInt z).
Proof. done. Qed.
Lemma text_ok_uint d z : 0 <= z < 2 ^ 64 -> text_ok jl_str_ok jl_real_ok (S d) (JUInt z).
Proof. done. Qed.
#[local] Opaque text_ok.
Lemma readable_object r :
  readable (JObject r) <-> om_sorted r /\ Forall (fun p => jl_str_ok p.1 /\ text_ok jl_str_ok jl_real_ok 999 p.2) r.
Proof. apply (text_ok_object 999). Qed.
Lemma readable_revised r r1 v :
  readable (JObject r) -> readable (JObject r1) -> om_mem "x_revision" r1 = true ->
  text_ok jl_str_ok jl_real_ok 999 v -> readable (JObject (om_set "x_revision" v r)).
Proof.
  intros [Hs Hf]%(proj1 (readable_object r)) [_ Hf1]%(proj1 (readable_object r1)) Hm Hv.
  apply (proj2 (readable_object _)). split; [by apply om_set_sorted|].
  assert (jl_str_ok "x_revision") as Hk.
  { apply om_mem_keys, list_elem_of_fmap in Hm as ([k x] & -> & Hin). by apply (proj1 (Forall_forall _ _) Hf1) in Hin as [? _]. }
  clear -Hk Hv Hf. induction Hf as [|[k x] m Hp Hm IH]; cbn [om_set]; [apply Forall_cons; split; [by split|by apply Forall_nil]|].
  destruct Hp. destruct (String.compare _ _); rewrite !Forall_cons; by split_and!.
Qed.
Lemma revision_readable z :
  text_ok jl_str_ok jl_real_ok 999 (JUInt (u64 z)) /\ text_ok jl_str_ok jl_real_ok 999 (canon (JUInt (u64 z))).
Proof.
  assert (0 <= u64 z < 2 ^ 64) as Hz by (unfold u64; apply Z.mod_pos_bound; lia).
  pose proof (text_ok_uint 998 (u64 z) Hz) as Hu. split; [exact Hu|]. unfold canon.
  destruct (Z.ltb_spec (u64 z) (2 ^ 63)); [|exact Hu]. exact (text_ok_int 998 (u64 z) ltac:(lia)).
Qed.
Lemma canon_revised r v : om_sorted r -> canon (JObject r) = JObject r ->
  canon (JObject (om_set "x_revision" v r)) = JObject (om_set "x_revision" (canon v) r).
Proof.
  intros Hs Hc. cbn [canon]. f_equal. apply om_ext; [by apply canon_sorted, om_set_sorted|by apply om_set_sorted|].
  intros k. rewrite canon_get, !om_get_set. case_decide; [done|]. destruct (om_get k r) eqn:Ek; simpl; [|done].
  f_equal. by eapply canon_member.
Qed.

Lemma parse_written v : readable v -> jl_parse (write_json v false) = Ok (canon v).
Proof. exact (jl_parse_write false v). Qed.

(** Loading the document with another revision gives the same digest. *)
Lemma reload_revised w r m entry z w2 r1 :
  settled w r m entry -> readable (JObject r1) -> om_mem "x_revision" r1 = true ->
  load limits (write_json (JObject (om_set "x_revision" (JUInt (u64 z)) r)) false) = Ok w2 ->
  w_digest (wf_compiled w2) = w_digest (wf_compiled w).
Proof.
  intros [Hw Hn He Hc _ Hr Hl] Hr1 Hx H2. destruct (proj1 (readable_object r) Hr) as [Hs _].
  apply load_Ok in Hl as (root & root' & nodes & names & P1 & T1 & G1 & M1 & N1 & C1).
  rewrite (parse_written _ Hr), Hc in P1. injection P1 as <-.
  unfold touch in T1. simpl in T1. unfold om_mem in T1. rewrite Hn in T1. simpl in T1. injection T1 as <-.
  simpl in G1. rewrite Hn in G1. injection G1 as <-. simpl in M1. injection M1 as <-. rewrite Hw in N1, C1.
  destruct (revision_readable z) as [Hz Hcz]. set (v := canon (JUInt (u64 z))) in *.
  assert (canon v = v) as Hvv by (unfold v; simpl; destruct (_ <? _) eqn:Ez; simpl; [|rewrite Ez]; done).
  apply load_Ok in H2 as (root & root' & nodes & names & P2 & T2 & G2 & M2 & N2 & C2).
  rewrite (parse_written _ (readable_revised r r1 _ Hr Hr1 Hx Hz)), (canon_revised r _ Hs Hc) in P2.
  fold v in P2. injection P2 as <-.
  rewrite touch_revised in T2 by done. unfold touch in T2. simpl in T2. unfold om_mem in T2. rewrite Hn in T2. simpl in T2. injection T2 as <-.
  rewrite get_revised in G2 by done. simpl in G2. rewrite Hn in G2. injection G2 as <-. simpl in M2. injection M2 as <-.
  rewrite normalize_nodes_revised, N1 in N2 by done. simpl in N2. injection N2 as N2. rewrite <- N2 in C2.
  apply digest_is with (root := JObject r) in C1 as (s1 & R1 & ->); [|by rewrite (parse_written _ Hr), Hc].
  apply digest_is with (root := JObject (om_set "x_revision" v r)) in C2 as (s2 & R2 & ->);
    [|by rewrite (parse_written _ (readable_revised r r1 _ Hr Hr1 Hx Hcz)), (canon_revised r _ Hs Hc), Hvv].
  simpl in R1, R2. rewrite om_del_set in R2 by done. congruence.
Qed.
End Reload.

(** ** Applying the inverse *)
Section Undo.
Context {J : JsonLib} (L : JsonLaws J).

Definition put_node (x m : list (string * json)) : json := JObject (om_set "nodes" (JObject m) x).
Lemma apply_change_runs path m action name root root' :
  om_get "action" m = Some (JString action) -> jl_as_string (default JNull (om_get "node_id" m)) = Ok name ->
  apply_change path (JObject m) root = Ok root' -> run_action path (JObject m) action name root = Ok root'.
Proof.
  intros Ha Hi E. unfold apply_change in E. simpl in E. rewrite Ha in E. simpl in E. rewrite jl_as_string_string, Hi in E. simpl in E.
  destruct (str_empty action); [discriminate|]. by destruct (_ && _).
Qed.
Definition undo_change (action : string) (node : option json) (name : string) : json :=
  JObject (("action", JString action) :: match node with Some o => [("node", o)] | None => [] end ++ [("node_id", JString name)]).
Lemma apply_put path action name o x m root' :
  action = "add_node" \/ action = "replace_node" -> om_get "nodes" x = Some (JObject m) ->
  apply_change path (undo_change action (Some o) name) (JObject x) = Ok root' -> root' = put_node x (om_set name o m).
Proof.
  intros Ha Hn E. apply (apply_change_runs path _ action name) in E; [|done|apply jl_as_string_string].
  assert (exists b : bool, (if b then jset_path ["nodes"; name] o (JObject x) else Err (LogicError "")) = Ok root') as [[] Hp]; [| |done].
  { destruct Ha as [->| ->]; [change (run_action _ _ _ _ _) with (change_add_node path (undo_change "add_node" (Some o) name) name (JObject x)) in E
      |change (run_action _ _ _ _ _) with (change_replace_node path (undo_change "replace_node" (Some o) name) name (JObject x)) in E];
    exists true; unfold change_add_node, change_replace_node in E; apply need_object_Ok in E as (node & [= <-] & _ & E).
    - simplify_res. by destruct a.
    - by apply need_node_Ok in E as [_ E]. }
  cbn [jset_path] in Hp. simpl in Hp. rewrite Hn in Hp. simpl in Hp. by injection Hp as <-.
Qed.
Lemma apply_remove path name x m root' :
  om_get "nodes" x = Some (JObject m) ->
  apply_change path (undo_change "remove_node" None name) (JObject x) = Ok root' -> root' = put_node x (om_del name m).
Proof.
  intros Hn E. apply (apply_change_runs path _ "remove_node" name) in E; [|done|apply jl_as_string_string].
  change (change_remove_node path name (JObject x) = Ok root') in E. unfold change_remove_node in E.
  apply need_node_Ok in E as [_ E]. simpl in E. rewrite Hn in E. simpl in E. by injection E as <-.
Qed.
Lemma apply_entry path v x root' :
  apply_change path (JObject [("action", JString "set_entry"); ("value", v)]) (JObject x) = Ok root' ->
  root' = JObject (om_set "entry" v x).
Proof.
  intros E. apply (apply_change_runs path _ "set_entry" "") in E; [|done|apply jl_as_string_null].
  change (change_set_entry path (JObject [("action", JString "set_entry"); ("value", v)]) (JObject x) = Ok root') in E.
  unfold change_set_entry in E. simpl in E. simplify_res. destruct a; [|discriminate]. by simplify_res.
Qed.

(** [x1] is the document after the change that takes node [id] back, if there is one. *)
Definition undone (old : list (string * json)) (id : string) (x m x1 m1 : list (string * json)) : Prop :=
  om_get "nodes" x1 = Some (JObject m1) /\ om_sorted m1 /\ om_sorted x1
  /\ (forall k, k <> "nodes" -> om_get k x1 = om_get k x) /\ om_get id m1 = om_get id old
  /\ (forall y, y <> id -> om_get y m1 = om_get y m).
Lemma undone_put old id x m m1 :
  om_sorted m1 -> om_sorted x -> om_get id m1 = om_get id old -> (forall y, y <> id -> om_get y m1 = om_get y m) ->
  undone old id x m (om_set "nodes" (JObject m1) x) m1.
Proof.
  intros Hs Hx Hid Hy. split_and!; try done; [apply om_get_set_eq|by apply om_set_sorted|].
  intros k Hk. by apply om_get_set_ne, not_eq_sym.
Qed.
Lemma undo_node before after old new id c rest i x m root' :
  inverse_change before after id = Ok c -> node_in before id = Ok (om_get id old) -> node_in after id = Ok (om_get id new) ->
  (forall o, om_get id old = Some o -> canon o = o /\ signless o = true) ->
  om_get "nodes" x = Some (JObject m) -> om_get id m = om_get id new -> om_sorted m -> om_sorted x ->
  apply_changes i ((fun c => canon c.1.2) <$> match c with None => rest | Some (c, effects) => (id, c, effects) :: rest end)
    (JObject x) = Ok root' ->
  exists x1 m1 i1, undone old id x m x1 m1 /\ apply_changes i1 ((fun c => canon c.1.2) <$> rest) (JObject x1) = Ok root'.
Proof.
  intros Hc Ho Hnw Hold Hn Hm Hs Hx Ha. unfold inverse_change in Hc. rewrite Ho, Hnw in Hc. simpl in Hc.
  assert (forall o, om_get id old = Some o -> forall action, action = "add_node" \/ action = "replace_node" -> forall e,
    apply_changes i ((fun c => canon c.1.2) <$> (id, undo_change action (Some o) id, e : bool) :: rest) (JObject x) = Ok root' ->
    exists x1 m1 i1, undone old id x m x1 m1 /\ apply_changes i1 ((fun c => canon c.1.2) <$> rest) (JObject x1) = Ok root') as Hput.
  { intros o Eo action Hact e Ha'. destruct (Hold o Eo) as [Hco _]. rewrite fmap_cons in Ha'. cbn [apply_changes] in Ha'. simplify_res.
    match goal with H : apply_change ?pa _ _ = Ok _ |- _ =>
      change (apply_change pa (undo_change action (Some (canon o)) id) (JObject x) = Ok a) in H;
      rewrite Hco in H; apply (apply_put pa action id o x m) in H; [subst a|done..] end.
    do 3 eexists. split; [|eassumption]. apply undone_put; [by apply om_set_sorted|done|by rewrite om_get_set_eq|].
    intros y Hy. by apply om_get_set_ne, not_eq_sym. }
  destruct (om_get id old) as [o|] eqn:Eo.
  - destruct (om_get id new) as [n|].
    + destruct (json_eqb o n) eqn:Ej; simplify_res.
      * apply json_eqb_eq in Ej as ->; [|by apply Hold]. exists x, m, i. split; [|done]. split_and!; try done. congruence.
      * eapply Hput; [done|by right|exact Ha].
    + simplify_res. eapply Hput; [done|by left|exact Ha].
  - simplify_res. rewrite fmap_cons in Ha. cbn [apply_changes] in Ha. simplify_res.
    match goal with H : apply_change ?pa _ _ = Ok ?z |- _ =>
      change (apply_change pa (undo_change "remove_node" None id) (JObject x) = Ok z) in H;
      apply (apply_remove pa id x m) in H; [subst z|done] end.
    do 3 eexists. split; [|eassumption]. apply undone_put; [by apply om_del_sorted|done|by rewrite om_get_del_eq|].
    intros y Hy. by apply om_get_del_ne, not_eq_sym.
Qed.

(** Over the list: every node it names is as it was before, the others are kept. *)
Lemma undo_nodes before after old new ids cs :
  inverse_changes before after ids = Ok cs -> NoDup ids ->
  (forall id, node_in before id = Ok (om_get id old) /\ node_in after id = Ok (om_get id new)) ->
  (forall id o, om_get id old = Some o -> canon o = o /\ signless o = true) ->
  forall i x m root', om_get "nodes" x = Some (JObject m) -> (forall id, id ∈ ids -> om_get id m = om_get id new) ->
    apply_changes i ((fun c => canon c.1.2) <$> cs) (JObject x) = Ok root' -> om_sorted m -> om_sorted x ->
    exists x' m', root' = JObject x' /\ om_get "nodes" x' = Some (JObject m') /\ om_sorted m' /\ om_sorted x'
      /\ (forall k, k <> "nodes" -> om_get k x' = om_get k x)
      /\ (forall id, id ∈ ids -> om_get id m' = om_get id old) /\ (forall id, id ∉ ids -> om_get id m' = om_get id m).
Proof.
  intros E Hd Hin Hold. revert cs E. induction ids as [|id ids IH]; cbn [inverse_changes]; intros cs E i x m root' Hn Hm Ha Hs Hx; simplify_res.
  { simpl in Ha. simplify_res. exists x, m. split_and!; try done. intros id Hid. by apply elem_of_nil in Hid. }
  apply NoDup_cons in Hd as [Hid Hd]. destruct (Hin id) as [Ho Hnw].
  match goal with H : inverse_change _ _ _ = Ok ?z |- _ => rename H into Hc, z into c end.
  match goal with H : inverse_changes _ _ _ = Ok ?z |- _ => rename H into Hcs, z into rest end.
  destruct (undo_node before after old new id c rest i x m root')
    as (x1 & m1 & i1 & (Hn1 & Hs1 & Hx1 & Hk1 & Hid1 & Hot1) & Ha1); try done; [by apply Hold|apply Hm; set_solver|].
  destruct (IH Hd rest Hcs i1 x1 m1 root') as (x' & m' & -> & Hn' & Hs' & Hx' & Hk' & Hi' & Hot'); try done.
  { intros y Hy. rewrite Hot1 by by intros ->. apply Hm. set_solver. }
  exists x', m'. split_and!; try done.
  - intros k Hk. by rewrite Hk', Hk1.
  - intros y [->|Hy]%elem_of_cons; [by rewrite Hot', Hid1|by apply Hi'].
  - intros y [Hne Hy]%not_elem_of_cons. by rewrite Hot', Hot1.
Qed.

Lemma apply_changes_app i l1 l2 root root' :
  apply_changes i (l1 ++ l2) root = Ok root' ->
  exists mid, apply_changes i l1 root = Ok mid /\ apply_changes (i + length l1) l2 mid = Ok root'.
Proof.
  revert i root. induction l1 as [|c l1 IH]; intros i root E; cbn [app apply_changes] in E; [exists root; by rewrite Nat.add_0_r|].
  simplify_res. match goal with H : apply_changes _ (_ ++ _) _ = Ok _ |- _ => apply IH in H as (mid & H1 & H2) end.
  exists mid. split; [|cbn [length]; by rewrite Nat.add_succ_r]. cbn [apply_changes]. by rewrite H.
Qed.
Lemma node_in_object r m : om_get "nodes" r = Some (JObject m) -> forall id, node_in (JObject r) id = Ok (om_get id m).
Proof.
  intros Hn id. unfold node_in, has_node. cbn [jget_path]. simpl. rewrite Hn. simpl. unfold om_mem. by destruct (om_get id m).
Qed.

Lemma inverse_entry_Ok r r' entry ech :
  om_get "entry" r = Some (JString entry) -> inverse_entry (JObject r) (JObject r') = Ok ech ->
  (ech = [] /\ om_get "entry" r' = Some (JString entry))
  \/ ech = [JObject [("action", JString "set_entry"); ("value", JString entry)]].
Proof.
  intros He E. unfold inverse_entry in E. simpl in E. rewrite He in E. simpl in E.
  destruct (om_get "entry" r') as [[]|]; simpl in E; try (injection E as <-; by right).
  match goal with H : context [String.eqb ?a ?b] |- _ => destruct (String.eqb_spec a b) as [->|] end; injection E as <-; [by left|by right].
Qed.

(** The inverse changes, applied to the candidate's document, give the nodes and the
    entry of the original and touch nothing else. *)
Lemma undo_document r m entry r' m' ech ids cs root2 :
  om_get "nodes" r = Some (JObject m) -> om_get "entry" r = Some (JString entry) -> om_sorted m ->
  canon (JObject r) = JObject r -> signless (JObject r) = true ->
  om_get "nodes" r' = Some (JObject m') -> om_sorted r' -> om_sorted m' ->
  inverse_entry (JObject r) (JObject r') = Ok ech -> node_names (JObject r) (JObject r') = Ok ids ->
  inverse_changes (JObject r) (JObject r') ids.*1 = Ok cs ->
  apply_changes 0 (canon <$> (ech ++ ((fun c => c.1.2) <$> cs))) (JObject r') = Ok root2 ->
  exists x, root2 = JObject x /\ om_sorted x /\ om_get "nodes" x = Some (JObject m) /\ om_get "entry" x = Some (JString entry)
    /\ forall k, k <> "nodes" -> k <> "entry" -> om_get k x = om_get k r'.
Proof.
  intros Hn He Hsm Hc Hsg Hn' Hs' Hsm' Ech Hids Hcs E. rewrite fmap_app in E. apply apply_changes_app in E as (mid & E1 & E2).
  assert (exists x, mid = JObject x /\ om_sorted x /\ om_get "entry" x = Some (JString entry)
            /\ forall k, k <> "entry" -> om_get k x = om_get k r') as (x & -> & Hsx & Hex & Hox).
  { destruct (inverse_entry_Ok r r' entry ech He Ech) as [[-> He']| ->]; cbn [fmap list_fmap apply_changes] in E1; simplify_res.
    - by exists r'.
    - match goal with H : apply_change _ _ _ = Ok _ |- _ => apply apply_entry in H as -> end.
      eexists. split_and!; [done|by apply om_set_sorted|apply om_get_set_eq|]. intros k Hk. by apply om_get_set_ne, not_eq_sym. }
  rewrite <- list_fmap_compose in E2. apply node_names_Ok in Hids as (Hsi & on & nn & Hon & Hnn & Hids).
  simpl in Hon, Hnn. rewrite Hn in Hon. rewrite Hn' in Hnn. simpl in Hon, Hnn. injection Hon as <-. injection Hnn as <-.
  assert (forall id o, om_get id m = Some o -> canon o = o /\ signless o = true) as Hold.
  { intros id o Ho. split; [eapply canon_member, Ho; by eapply canon_member|]. eapply signless_member, Ho. by eapply signless_member. }
  destruct (undo_nodes (JObject r) (JObject r') m m' ids.*1 cs Hcs (om_sorted_NoDup _ Hsi)
              (fun id => conj (node_in_object r m Hn id) (node_in_object r' m' Hn' id)) Hold _ x m' root2
              ltac:(by rewrite Hox) (fun _ _ => eq_refl) E2 Hsm' Hsx) as (x2 & m2 & -> & Hn2 & Hs2 & Hx2 & Hk2 & Hi2 & Ho2).
  exists x2. assert (m2 = m) as ->.
  { apply om_ext; [done..|]. intros id. destruct (decide (id ∈ ids.*1)) as [Hi|Hi]; [by apply Hi2|].
    rewrite Ho2 by done. rewrite !om_get_None; [done|..]; intros H; apply Hi, Hids; auto. }
  split_and!; try done; [by rewrite Hk2|]. intros k Hk Hke. by rewrite Hk2, Hox.
Qed.
End Undo.

(** ** The round trip *)
Section RoundTrip.
Context {J : JsonLib} (L : JsonLaws J) (limits : WorkflowResourceLimits).

(** The document [analyze_patch] writes into [inverse_patch_json]. *)
Definition proposed (before after : json) (digest : string) : exc json :=
  entry ← inverse_entry before after;
  ids ← node_names before after;
  changed ← inverse_changes before after ids.*1;
  inverse_patch before after digest (entry ++ ((fun c => c.1.2) <$> changed)).
Lemma analysis_proposes w p w' a :
  apply_patch limits w p = Ok w' -> analyze_patch limits w p = Ok a -> pa_valid a = true ->
  exists inv, proposed (wf_root w) (wf_root w') (w_digest (wf_compiled w')) = Ok inv
    /\ pa_inverse_patch_json a = write_json inv true.
Proof.
  unfold analyze_patch, proposed. intros Ha E Hv. simplify_res. destruct (dr_valid _); cbn [negb] in *; simplify_res; [|discriminate].
  match goal with H : apply_patch limits w p = Ok ?c |- _ => assert (c = w') as -> by congruence end.
  repeat match goal with H : ?m = Ok _ |- context [?m ≫= _] => rewrite H; cbn [mbind res_bind] end. eauto.
Qed.

(** The candidate's document agrees with the original outside nodes, entry and revision. *)
Lemma candidate_elsewhere w r m entry p root1 w' r' :
  settled L limits w r m entry -> patched_root w p = Ok root1 -> readable L root1 -> apply_patch limits w p = Ok w' ->
  wf_root w' = JObject r' -> om_mem "defaults" r' = om_mem "defaults" r ->
  (exists r1, root1 = JObject r1 /\ om_mem "x_revision" r1 = true)
  /\ forall k, k <> "nodes" -> k <> "entry" -> k <> "x_revision" -> om_get k r' = om_get k r.
Proof.
  intros [Hw Hn He Hc _ Hr _] Hp1 Hr1 Ha Hw' Hd. unfold apply_patch in Ha. rewrite Hp1 in Ha. simpl in Ha.
  unfold patched_root in Hp1. rewrite Hw in Hp1. simplify_res.
  match goal with H : apply_changes _ _ _ = Ok _ |- _ => apply apply_changes_elsewhere in H as (r0 & rc & [= <-] & -> & _ & Hs); [|done] end.
  match goal with H : jset "x_revision" _ _ = Ok _ |- _ => simpl in H; injection H as <- end.
  split; [eexists; split; [done|]; unfold om_mem; by rewrite om_get_set_eq|].
  apply load_Ok in Ha as (root & root' & nodes & names & P & T & G & M & N & _); [|done].
  rewrite (parse_written L _ Hr1) in P. injection P as <-. cbn [canon] in T.
  apply touch_frames in T; [|by left]. destruct (frames_obj _ _ T) as [rt ->]. apply normalize_nodes_frames in N.
  rewrite Hw' in N. destruct (frames_trans _ _ _ T N) as (r2 & r3 & E2 & E3 & _ & Hf & Hdef).
  injection E2 as <-. injection E3 as <-.
  assert (forall k, k <> "nodes" -> k <> "entry" -> k <> "x_revision" ->
            om_get k (prod_map id canon <$> om_set "x_revision" (JUInt (u64 (a2 + 1))) rc) = om_get k r) as Hsame.
  { intros k Kn Ke Kx. rewrite canon_get, om_get_set_ne, Hs by (done || by apply not_eq_sym).
    destruct (om_get k r) eqn:Ek; simpl; [|done]. f_equal. by eapply canon_member. }
  intros k Kn Ke Kx. destruct (decide (k = "defaults")) as [->|Kd].
  - destruct Hdef as [Hdef|Hdef]; [rewrite <- Hsame by done; exact Hdef|]. rewrite Hsame in Hdef by done.
    unfold om_mem in Hd. rewrite Hdef in *. by destruct (om_get "defaults" r').
  - rewrite <- Hsame by done. by apply Hf.
Qed.

Lemma readable_nodes r m : readable L (JObject r) -> om_get "nodes" r = Some (JObject m) -> om_sorted r /\ om_sorted m.
Proof.
  intros [Hs Hf]%(proj1 (readable_object L r)) Hn. split; [done|].
  assert (("nodes", JObject m) ∈ r) as Hin.
  { clear -Hn. induction r as [|[k v] r IH]; [done|]. cbn [om_get] in Hn. destruct (String.eqb_spec "nodes" k) as [<-|].
    - injection Hn as <-. by left.
    - right. by apply IH. }
  apply (proj1 (Forall_forall _ _) Hf) in Hin as [_ Hm]. exact (proj1 (proj1 (text_ok_object L 998 m) Hm)).
Qed.
Lemma parse_json_written v x : readable L v -> parse_json (write_json v true) = Ok x -> x = canon v.
Proof.
  intros Hr. unfold parse_json, write_json. destruct (_ <? _); [done|]. rewrite (jl_parse_write true v Hr). by intros [= <-].
Qed.

(** C37: a patch can be taken back.  If a patch was applied to a workflow and its analysis
    found it valid, then the inverse patch of that analysis, where it is accepted by the
    candidate, leads back to the semantic digest of the workflow.  The documents are ones
    the JSON library reads back, the original one loads to itself, and normalising the
    candidate did not have to add "defaults". *)
Theorem inverse_restores w r m entry p root1 w' r' m' a inv w'' :
  settled L limits w r m entry -> patched_root w p = Ok root1 -> readable L root1 ->
  apply_patch limits w p = Ok w' -> wf_root w' = JObject r' -> om_get "nodes" r' = Some (JObject m') ->
  readable L (JObject r') -> om_mem "defaults" r' = om_mem "defaults" r ->
  analyze_patch limits w p = Ok a -> pa_valid a = true ->
  proposed (wf_root w) (wf_root w') (w_digest (wf_compiled w')) = Ok inv -> readable L inv ->
  apply_patch limits w' (pa_inverse_patch_json a) = Ok w'' ->
  w_digest (wf_compiled w'') = w_digest (wf_compiled w).
Proof.
  intros Hset Hp1 Hr1 Ha Hw' Hn' Hr' Hd Han Hv Hinv Hri Hb.
  destruct (candidate_elsewhere _ _ _ _ _ _ _ _ Hset Hp1 Hr1 Ha Hw' Hd) as [(r1 & -> & Hx1) Hother].
  destruct (analysis_proposes _ _ _ _ Ha Han Hv) as (inv' & Hinv' & Hj). rewrite Hj in Hb.
  assert (inv' = inv) as -> by congruence.
  pose proof Hset as [Hw Hn He Hc Hsg Hr _]. destruct (readable_nodes _ _ Hr Hn) as [Hs Hm].
  destruct (readable_nodes _ _ Hr' Hn') as [Hs' Hm'].
  unfold apply_patch in Hb. simplify_res. match goal with H : patched_root _ _ = Ok _ |- _ => unfold patched_root in H; rewrite Hw' in H end.
  simplify_res. match goal with H : parse_json _ = Ok _ |- _ => apply parse_json_written in H as ->; [|done] end.
  unfold proposed, inverse_patch in Hinv. rewrite Hw, Hw' in Hinv. simplify_res.
  match goal with H : check_patch _ _ _ = Ok _ |- _ => apply check_patch_Ok in H as (_ & _ & c & cs & -> & Hch); [|done] end.
  injection Hch as Hch. rewrite <- Hch in *.
  match goal with H : apply_changes _ _ _ = Ok ?x |- _ => rename H into Hundo, x into root2 end.
  eapply (undo_document L r m entry r' m') in Hundo as (x2 & -> & Hsx & Hnx & Hex & Hox); try done.
  match goal with H : jset "x_revision" ?v _ = Ok _ |- _ => injection H as <-;
    assert (om_set "x_revision" v x2 = om_set "x_revision" v r) as Heq end.
  { apply om_ext; [by apply om_set_sorted..|]. intros k. rewrite !om_get_set. case_decide as Kx; [done|].
    destruct (decide (k = "nodes")) as [->|Kn]; [congruence|]. destruct (decide (k = "entry")) as [->|Ke]; [congruence|].
    rewrite Hox, Hother by (done || by apply not_eq_sym). done. }
  match goal with H : load _ _ = Ok w'' |- _ => rewrite Heq in H; exact (reload_revised L limits w r m entry _ w'' r1 Hset Hr1 Hx1 H) end.
Qed.
End RoundTrip.
