(* ===== verification/Resource.v ===== *)
(** * Resources (src/resource_provider.cpp)

    The files a bundle is made of, behind the interface [ResourceProvider]: the
    check every resource path goes through and the provider that keeps its
    resources in memory.  The theorems say which paths are accepted (the relative
    ones no segment of which leaves the tree) and that a memory provider answers
    with what was last added. *)

From S2P Require Import Prelude.
Open Scope string_scope.
Open Scope list_scope.

(** [ResourceBytes]; a byte is a character of the text form, as [text_of] has it. *)
Abbreviation ResourceBytes := string (only parsing).

Record ResourceProvider := mkResourceProvider {
  list_resources : Result (list string);
  read_resource : string -> Result ResourceBytes
}.

Definition resource_error (code message : string) : Error := mkError "resource" code message false.

(** The loop of [normalize_resource_path]; [begin] grows with every turn, so as many
    turns as the path has characters and one more are enough. *)
Definition bad_segment (segment : string) : bool :=
  str_empty segment || String.eqb segment "." || String.eqb segment "..".
Fixpoint normalize_from (turns begin : nat) (normalized path : string) : Result string :=
  match turns with
  | O => Ok normalized
  | S turns =>
    if Nat.ltb (String.length path) begin then Ok normalized else
    let end_ := str_find "/" begin path in
    let segment := String.substring begin
      (match end_ with None => String.length path - begin | Some e => e - begin end)%nat path in
    if bad_segment segment then
      Err (resource_error "INVALID_PATH_SEGMENT" "resource path contains an empty, '.' or '..' segment")
    else
    let normalized := (if str_empty normalized then normalized else normalized +:+ "/") +:+ segment in
    match end_ with
    | None => Ok normalized
    | Some e => normalize_from turns (S e) normalized path
    end
  end.
Definition backslash : ascii := "\".
Definition nul : ascii := "000".
Definition has_char (c : ascii) (s : string) : bool := negb (str_forallb (fun x => negb (Ascii.eqb x c)) s).
Definition normalize_resource_path (path : string) : Result string :=
  match path with
  | EmptyString => Err (resource_error "EMPTY_PATH" "resource path is empty")
  | String c _ =>
    if Ascii.eqb c "/" || Ascii.eqb c backslash then
      Err (resource_error "ABSOLUTE_PATH" "resource path must be relative")
    else if has_char backslash path then
      Err (resource_error "BACKSLASH_PATH" "resource path must use '/' separators")
    else if has_char nul path then Err (resource_error "NUL_PATH" "resource path contains NUL")
    else normalize_from (S (String.length path)) 0 EmptyString path
  end.

(** ** The provider in memory *)
Record MemoryResourceProvider := mkMemoryResources { mr_resources : list (string * ResourceBytes) }.

Definition add_resource (path : string) (content : ResourceBytes) (m : MemoryResourceProvider)
    : exc MemoryResourceProvider :=
  match normalize_resource_path path with
  | Err e => Err (InvalidArgument (err_message e))
  | Ok normalized => Ok (mkMemoryResources (om_set normalized content (mr_resources m)))
  end.
Fixpoint add_resources (resources : list (string * ResourceBytes)) (m : MemoryResourceProvider)
    : exc MemoryResourceProvider :=
  match resources with
  | [] => Ok m
  | (path, content) :: rest => m ← add_resource path content m; add_resources rest m
  end.
Definition memory_resources (resources : list (string * ResourceBytes)) : exc MemoryResourceProvider :=
  add_resources resources (mkMemoryResources []).

Definition memory_list_resources (m : MemoryResourceProvider) : Result (list string) := Ok (mr_resources m).*1.
Definition memory_read_resource (m : MemoryResourceProvider) (path : string) : Result ResourceBytes :=
  match normalize_resource_path path with
  | Err e => Err e
  | Ok normalized =>
    match om_get normalized (mr_resources m) with
    | None => Err (resource_error "RESOURCE_NOT_FOUND" ("resource not found: " +:+ normalized))
    | Some content => Ok content
    end
  end.
Definition memory_provider (m : MemoryResourceProvider) : ResourceProvider :=
  mkResourceProvider (memory_list_resources m) (memory_read_resource m).

(** ** Which paths are accepted

    [segments] cuts a path at its slashes. *)
Fixpoint segments (s : string) : list string :=
  match s with
  | EmptyString => [EmptyString]
  | String c s' =>
    if Ascii.eqb c "/" then EmptyString :: segments s'
    else match segments s' with
         | [] => [String c EmptyString]
         | x :: l => String c x :: l
         end
  end.
Definition safe_path (path : string) : Prop :=
  has_char backslash path = false /\ has_char nul path = false
  /\ Forall (fun s => s <> "" /\ s <> "." /\ s <> "..") (segments path).

Lemma segments_cut s :
  match str_find "/" 0 s with
  | None => segments s = [s]
  | Some e => exists a b, s = a +:+ String "/" b /\ String.length a = e /\ segments s = a :: segments b
  end.
Proof.
  unfold str_find. induction s as [|c s IH]; [done|]. cbn [String.index String.prefix segments].
  destruct (Ascii.ascii_dec "/" c) as [<-|Hc].
  - replace (String.prefix "" s) with true by by destruct s. by exists "", s.
  - destruct (Ascii.eqb_spec c "/") as [E|_]; [congruence|].
    destruct (String.index 0 "/" s) as [e|].
    + destruct IH as (a & b & -> & <- & ->). by exists (String c a), b.
    + by rewrite IH.
Qed.

Lemma str_find_after pat pre s :
  pat <> "" -> str_find pat (String.length pre) (pre +:+ s) = (fun e => String.length pre + e)%nat <$> str_find pat 0 s.
Proof.
  intros Hp. unfold str_find. induction pre as [|c pre IH]; cbn [String.length String.append].
  - by destruct (String.index 0 pat s).
  - destruct pat as [|x pat]; [done|]. cbn [String.index]. rewrite IH. by destruct (String.index 0 _ s).
Qed.
Lemma bad_segment_spec s : bad_segment s = false <-> s <> "" /\ s <> "." /\ s <> "..".
Proof.
  unfold bad_segment. rewrite !orb_false_iff, !String.eqb_neq. destruct s; cbn; naive_solver.
Qed.

(** The loop has read [pre] and copied it. *)
Lemma normalize_from_spec turns pre s :
  (String.length s < turns)%nat ->
  let from := match pre with EmptyString => EmptyString | _ => pre +:+ "/" end in
  let r := normalize_from turns (String.length from) pre (from +:+ s) in
  if forallb (fun x => negb (bad_segment x)) (segments s) then r = Ok (from +:+ s)
  else r = Err (resource_error "INVALID_PATH_SEGMENT" "resource path contains an empty, '.' or '..' segment").
Proof.
  revert pre s. induction turns as [|turns IH]; intros pre s Hs; [lia|]. intros from. cbn zeta. cbn [normalize_from].
  rewrite (proj2 (Nat.ltb_ge _ _)) by (rewrite str_length_app; lia).
  rewrite str_find_after by done. pose proof (segments_cut s) as Hc.
  set (joined := (if str_empty pre then pre else pre +:+ "/")).
  assert (joined = from) as -> by by unfold joined, from; destruct pre.
  destruct (str_find "/" 0 s) as [e|]; cbn [fmap option_fmap option_map].
  - destruct Hc as (a & b & -> & <- & ->). rewrite substring_app_r. cbn [forallb].
    replace (_ + _ - _)%nat with (String.length a) by lia. rewrite substring_0_app.
    destruct (bad_segment a) eqn:Ha; cbn [negb andb]; [done|].
    assert (a <> "") as Hne by (intros ->; done).
    specialize (IH (from +:+ a) b). cbn zeta in IH.
    assert (forall x, match from +:+ a with EmptyString => EmptyString | _ => x end = x) as E.
    { intros x. destruct from; [|done]. by destruct a. }
    rewrite !E, !str_length_app in IH. rewrite !str_app_assoc in IH. cbn [String.append String.length] in IH.
    replace (S (String.length from + String.length a))%nat
      with (String.length from + String.length a + 1)%nat by lia. apply IH.
    rewrite str_length_app in Hs. cbn [String.length] in Hs. lia.
  - rewrite Hc, substring_app_r, str_length_app. cbn [forallb].
    replace (_ + _ - _)%nat with (String.length s) by lia. rewrite substring_all.
    by destruct (bad_segment s).
Qed.

Lemma normalize_Ok path path' : normalize_resource_path path = Ok path' <-> path' = path /\ safe_path path.
Proof.
  unfold safe_path. destruct path as [|c path].
  { split; [done|]. intros (_ & _ & _ & H). by apply Forall_cons_1 in H as [[? _] _]. }
  unfold normalize_resource_path. set (p := String c path).
  assert (Ascii.eqb c "/" = true -> ~ Forall (fun s => s <> "" /\ s <> "." /\ s <> "..") (segments p)) as Hsl.
  { intros E H. unfold p in H. cbn [segments] in H. rewrite E in H. by apply Forall_cons_1 in H as [[? _] _]. }
  assert (Ascii.eqb c backslash = true -> has_char backslash p = true) as Hb.
  { intros E. unfold has_char, p. cbn [str_forallb]. by rewrite E. }
  destruct (Ascii.eqb c "/"); cbn [orb].
  { split; [done|]. intros (_ & _ & _ & H). by destruct (Hsl eq_refl). }
  destruct (Ascii.eqb c backslash).
  { split; [done|]. intros (_ & H & _). by rewrite Hb in H. }
  destruct (has_char backslash p); [naive_solver|]. destruct (has_char nul p); [naive_solver|].
  pose proof (normalize_from_spec (S (String.length p)) "" p) as H. cbn zeta in H. cbn [String.append] in H.
  specialize (H ltac:(lia)). change (String.length "") with 0%nat in H. rewrite <- (Forall_iff _ _ _ bad_segment_spec).
  destruct (forallb _ _) eqn:E; rewrite H.
  - split; [|naive_solver]. intros [= <-]. do 3 (split; [done|]). apply Forall_forall. intros x Hx.
    rewrite forallb_forall in E. apply list_elem_of_In in Hx. specialize (E x Hx). by destruct (bad_segment x).
  - split; [done|]. intros (_ & _ & _ & HF). exfalso. apply not_true_iff_false in E. apply E, forallb_forall.
    intros x Hx. rewrite Forall_forall in HF. apply list_elem_of_In in Hx. by rewrite (HF x Hx).
Qed.

(** ** What a memory provider answers *)
Definition resources_ok (m : MemoryResourceProvider) : Prop :=
  om_sorted (mr_resources m) /\ Forall safe_path (mr_resources m).*1.

Lemma add_resource_Ok path content m m' :
  add_resource path content m = Ok m' <->
  safe_path path /\ m' = mkMemoryResources (om_set path content (mr_resources m)).
Proof.
  unfold add_resource. destruct (normalize_resource_path path) as [p|e] eqn:E.
  - apply normalize_Ok in E as [-> Hs]. naive_solver.
  - split; [done|]. intros [Hs _]. assert (normalize_resource_path path = Ok path) as H by by apply normalize_Ok.
    congruence.
Qed.
Lemma add_resource_ok path content m m' :
  add_resource path content m = Ok m' -> resources_ok m -> resources_ok m'.
Proof.
  intros [Hs ->]%add_resource_Ok [Hm HF]. split; cbn [mr_resources]; [by apply om_set_sorted|].
  apply Forall_forall. rewrite Forall_forall in HF. intros x [->|Hx]%om_set_keys; auto.
Qed.

(** The last content added under a path. *)
Definition last_added (path : string) (resources : list (string * ResourceBytes)) : option ResourceBytes :=
  om_get path (reverse resources).
Lemma add_resources_spec resources m m' :
  add_resources resources m = Ok m' -> resources_ok m ->
  resources_ok m' /\ Forall safe_path resources.*1
  /\ forall path, om_get path (mr_resources m') =
       match last_added path resources with Some c => Some c | None => om_get path (mr_resources m) end.
Proof.
  revert m. induction resources as [|[p c] rest IH]; cbn [add_resources]; intros m E Hm; [by simplify_res|].
  apply bind_Ok in E as (m1 & E1 & E). pose proof E1 as [Hp ->]%add_resource_Ok.
  apply IH in E as (Hm' & HF & Hg); [|by eapply add_resource_ok]. split; [done|]. split; [by constructor|].
  intros path. rewrite Hg. unfold last_added. rewrite reverse_cons, om_get_app. destruct (om_get path (reverse rest)); [done|].
  cbn [mr_resources om_get]. rewrite om_get_set. destruct (String.eqb_spec path p) as [->|]; [by rewrite decide_True|].
  by rewrite decide_False.
Qed.

Lemma memory_read_Ok m path c :
  resources_ok m -> memory_read_resource m path = Ok c <-> om_get path (mr_resources m) = Some c.
Proof.
  intros [_ HF]. unfold memory_read_resource. destruct (normalize_resource_path path) as [p|e] eqn:E.
  - apply normalize_Ok in E as [-> _]. destruct (om_get path _); naive_solver.
  - split; [done|]. intros Hg. assert (normalize_resource_path path = Ok path) as H; [|congruence].
    apply normalize_Ok. split; [done|]. rewrite Forall_forall in HF. apply HF, om_mem_keys.
    unfold om_mem. by rewrite Hg.
Qed.

(** A provider filled with resources holds them under safe relative paths only, lists
    each path once and in byte order, and a path reads as the content last added
    under it: what is listed can be read and nothing else can. *)
Theorem memory_provider_faithful resources m :
  memory_resources resources = Ok m ->
  Forall safe_path resources.*1
  /\ (exists paths, list_resources (memory_provider m) = Ok paths
        /\ StronglySorted (fun a b => String.compare a b = Lt) paths
        /\ forall path, path ∈ paths <-> is_ok (read_resource (memory_provider m) path))
  /\ forall path c, read_resource (memory_provider m) path = Ok c <-> last_added path resources = Some c.
Proof.
  intros E. apply add_resources_spec in E as (Hm & HF & Hg); [|by repeat constructor].
  cbn [mr_resources om_get] in Hg. split; [done|].
  assert (forall path c, memory_read_resource m path = Ok c <-> last_added path resources = Some c) as Hr.
  { intros path c. rewrite memory_read_Ok by done. rewrite Hg. by destruct (last_added path resources). }
  split; [|exact Hr]. exists (mr_resources m).*1. split; [done|]. split; [apply Hm|]. intros path.
  rewrite <- om_mem_keys. unfold om_mem. cbn [memory_provider read_resource]. rewrite Hg.
  destruct (last_added path resources) as [c|] eqn:Ec.
  - apply Hr in Ec as ->. done.
  - destruct (memory_read_resource m path) as [c|] eqn:Ec'; [|done]. apply Hr in Ec'. congruence.
Qed.
