(* ===== verification/CanonText.v ===== *)
(** * Reading canonical texts

    A reader for the JSON texts [append_canonical] of Bundle.v writes.  It gives
    back the value written, numbers as their texts, so that two values with the
    same canonical text are the same value: what hashing and signing canonical
    texts relies on.  [JsonText] is an instance of the JSON library built from
    the two, for running bundles on the texts the sources use. *)

From Stdlib Require Import SpecFloat.
From S2P Require Import Prelude Json Sha256 Reliability Resource Bundle.
Open Scope string_scope.
Open Scope list_scope.
Open Scope Z_scope.

(** ** The reader *)
Inductive skeleton :=
| SNull
| SBool (b : bool)
| SNumber (text : string)
| SString (s : string)
| SArray (l : list skeleton)
| SObject (m : list (string * skeleton)).

Definition number_char (c : ascii) : bool :=
  is_digit c || Ascii.eqb c "-" || Ascii.eqb c "+" || Ascii.eqb c "." || Ascii.eqb c "e".
Fixpoint take_number (s : string) : string * string :=
  match s with
  | String c s' => if number_char c then let '(t, r) := take_number s' in (String c t, r) else (EmptyString, s)
  | EmptyString => (EmptyString, EmptyString)
  end.

Definition hex_digit_value (c : ascii) : Z := if is_digit c then code c - 48 else code c - 87.
Definition unescape (c : ascii) : ascii :=
  if Ascii.eqb c "b" then chr 8
  else if Ascii.eqb c "f" then chr 12
  else if Ascii.eqb c "n" then chr 10
  else if Ascii.eqb c "r" then chr 13
  else if Ascii.eqb c "t" then chr 9
  else c.
(** The characters of a string literal after its opening quote. *)
Fixpoint take_chars (s : string) : option (string * string) :=
  match s with
  | EmptyString => None
  | String c s1 =>
    if Ascii.eqb c dquote then Some (EmptyString, s1)
    else if Ascii.eqb c "\" then
      match s1 with
      | String e s2 =>
        if Ascii.eqb e "u" then
          match s2 with
          | String _ (String _ (String x (String y r))) =>
            '(t, k) ← take_chars r; Some (String (chr (hex_digit_value x * 16 + hex_digit_value y)) t, k)
          | _ => None
          end
        else '(t, k) ← take_chars s2; Some (String (unescape e) t, k)
      | EmptyString => None
      end
    else '(t, k) ← take_chars s1; Some (String c t, k)
  end.
Definition take_string (s : string) : option (string * string) :=
  match s with
  | String c s' => if Ascii.eqb c dquote then take_chars s' else None
  | EmptyString => None
  end.

Definition expect (word : string) (v : skeleton) (s : string) : option (skeleton * string) :=
  if String.prefix word s then Some (v, str_from (String.length word) s) else None.
Definition starts (c : ascii) (s : string) : bool :=
  match s with String x _ => Ascii.eqb x c | EmptyString => false end.
Definition rest_of (s : string) : string := match s with String _ r => r | EmptyString => EmptyString end.

Fixpoint decode (n : nat) (s : string) : option (skeleton * string) :=
  match n with
  | O => None
  | S n =>
    if starts dquote s then '(t, k) ← take_string s; Some (SString t, k)
    else if starts "[" s then
      if starts "]" (rest_of s) then Some (SArray [], rest_of (rest_of s))
      else '(l, k) ← decode_items n (rest_of s); Some (SArray l, k)
    else if starts "{" s then
      if starts "}" (rest_of s) then Some (SObject [], rest_of (rest_of s))
      else '(m, k) ← decode_members n (rest_of s); Some (SObject m, k)
    else if starts "n" s then expect "null" SNull s
    else if starts "t" s then expect "true" (SBool true) s
    else if starts "f" s then expect "false" (SBool false) s
    else let '(t, k) := take_number s in Some (SNumber t, k)
  end
with decode_items (n : nat) (s : string) : option (list skeleton * string) :=
  match n with
  | O => None
  | S n =>
    '(x, k) ← decode n s;
    if starts "," k then '(l, k) ← decode_items n (rest_of k); Some (x :: l, k)
    else if starts "]" k then Some ([x], rest_of k)
    else None
  end
with decode_members (n : nat) (s : string) : option (list (string * skeleton) * string) :=
  match n with
  | O => None
  | S n =>
    '(key, k) ← take_string s;
    if negb (starts ":" k) then None else
    '(x, k) ← decode n (rest_of k);
    if starts "," k then '(m, k) ← decode_members n (rest_of k); Some ((key, x) :: m, k)
    else if starts "}" k then Some ([(key, x)], rest_of k)
    else None
  end.
Definition decode_text (text : string) : option skeleton :=
  match decode (S (2 * String.length text)) text with
  | Some (v, EmptyString) => Some v
  | _ => None
  end.

(** ** Strings read back *)
Lemma escape_char_read c s k t :
  take_chars s = Some (t, k) -> take_chars (escape_char c +:+ s) = Some (String c t, k).
Proof.
  intros H. destruct c as [[] [] [] [] [] [] [] []]; cbn [escape_char];
    match goal with |- take_chars (?e +:+ s) = _ => let e' := eval vm_compute in e in change e with e' end;
    cbn [String.append take_chars]; cbn -[take_chars]; rewrite H; reflexivity.
Qed.
Lemma escape_chars_read value k :
  take_chars (escape_chars value +:+ String dquote k) = Some (value, k).
Proof.
  induction value as [|c value IH]; [done|]. cbn [escape_chars]. rewrite str_app_assoc. by apply escape_char_read.
Qed.
Lemma take_string_append value k : take_string (append_string value +:+ k) = Some (value, k).
Proof.
  unfold append_string, take_string. cbn [String.append]. rewrite Ascii.eqb_refl, str_app_assoc. apply escape_chars_read.
Qed.

Lemma append_string_length value : (0 < String.length (append_string value))%nat.
Proof. cbn. lia. Qed.
Lemma starts_append_string c key r : Ascii.eqb dquote c = false -> starts c (append_string key +:+ r) = false.
Proof. done. Qed.
Lemma starts_quote key r : starts dquote (append_string key +:+ r) = true.
Proof. done. Qed.
#[local] Opaque append_string.

(** ** Numbers read back *)
Definition is_number (t : string) : Prop :=
  str_forallb number_char t = true /\ match t with String c _ => is_digit c || Ascii.eqb c "-" = true | _ => False end.
Definition stops (k : string) : Prop := match k with String c _ => number_char c = false | _ => True end.

Lemma take_number_read t k : str_forallb number_char t = true -> stops k -> take_number (t +:+ k) = (t, k).
Proof.
  intros Ht Hk. induction t as [|c t IH]; cbn [String.append].
  - destruct k as [|c k]; [done|]. cbn. cbn in Hk. by rewrite Hk.
  - cbn [str_forallb] in Ht. apply andb_prop in Ht as [Hc Ht]. cbn [take_number]. by rewrite Hc, IH.
Qed.

Lemma str_forallb_app p a b : str_forallb p (a +:+ b) = str_forallb p a && str_forallb p b.
Proof. induction a as [|c a IH]; cbn; [done|]. by rewrite IH, andb_assoc. Qed.
Lemma str_forallb_impl (p q : ascii -> bool) s :
  (forall c, p c = true -> q c = true) -> str_forallb p s = true -> str_forallb q s = true.
Proof.
  intros Hpq. induction s as [|c s IH]; cbn; [done|]. intros [Hc Hs]%andb_prop. by rewrite Hpq, IH.
Qed.
Lemma pretty_digits x s : str_forallb is_digit s = true -> str_forallb is_digit (pretty_N_go x s) = true.
Proof.
  revert s. induction x as [x IH] using (well_founded_induction N.lt_wf_0). intros s Hs.
  destruct (decide (0 < x)%N) as [Hx|Hx].
  - rewrite pretty_N_go_step by done. apply IH; [apply N.div_lt; lia|]. cbn.
    rewrite Hs, andb_true_r. apply pretty_digit, N.mod_lt. lia.
  - assert (x = 0%N) as -> by lia. by rewrite pretty_N_go_0.
Qed.
Lemma digits_to_string z : 0 <= z -> str_forallb is_digit (to_string z) = true.
Proof. intros Hz. destruct z as [|p|p]; [done| |lia]. by apply (pretty_digits (N.pos p)). Qed.
Lemma number_digit c : is_digit c = true -> number_char c = true.
Proof. unfold number_char. intros ->. done. Qed.

Lemma number_to_string z : is_number (to_string z).
Proof.
  destruct (decide (0 <= z)) as [Hz|Hz].
  - split; [by eapply str_forallb_impl, digits_to_string; [apply number_digit|]|].
    pose proof (starts_digit_to_string z Hz) as Hs. destruct (to_string z); [done|]. cbn in Hs. by rewrite Hs.
  - destruct z as [|p|p]; [lia..|].
    change (to_string (Z.neg p)) with ("-" +:+ to_string (Z.pos p)). split; [|done]. cbn [String.append str_forallb].
    eapply str_forallb_impl, digits_to_string; [apply number_digit|lia].
Qed.
Lemma str_forallb_substring p n m s : str_forallb p s = true -> str_forallb p (String.substring n m s) = true.
Proof.
  revert n m. induction s as [|c s IH]; intros [|n] [|m]; cbn [String.substring str_forallb]; try done;
    intros [Hc Hs]%andb_prop; rewrite ?Hc; by apply IH.
Qed.
Lemma round_half_even_pos n d : 0 <= n -> 0 < d -> 0 <= round_half_even n d.
Proof.
  intros Hn Hd. unfold round_half_even. pose proof (Z.div_pos n d Hn Hd).
  destruct (Z.compare _ _); [destruct (Z.even _)|..]; lia.
Qed.
Lemma scientific_digits_pos n d : 0 <= n -> 0 < d -> 0 <= (scientific_digits n d).1.
Proof.
  intros Hn Hd. unfold scientific_digits. set (x := decimal_exponent n d).
  destruct (Z.leb_spec x 17); cbn zeta.
  - pose proof (Z.pow_pos_nonneg 10 (17 - x)). pose proof (round_half_even_pos (n * 10 ^ (17 - x)) d ltac:(nia) Hd).
    destruct (_ <=? _); cbn [fst]; lia.
  - pose proof (round_half_even_pos n (d * 10 ^ (x - 17)) Hn ltac:(pose proof (Z.pow_pos_nonneg 10 (x - 17)); lia)).
    destruct (_ <=? _); cbn [fst]; lia.
Qed.
Lemma ratio_of_pos m e : 0 <= (ratio_of m e).1 /\ 0 < (ratio_of m e).2.
Proof.
  unfold ratio_of. destruct (Z.leb_spec 0 e); cbn [fst snd].
  - split; [|lia]. pose proof (Z.pow_pos_nonneg 2 e). lia.
  - split; [lia|]. apply Z.pow_pos_nonneg; lia.
Qed.
Lemma number_exponent x : str_forallb number_char (exponent_text x) = true.
Proof.
  unfold exponent_text. rewrite !str_forallb_app. rewrite !andb_true_iff. split; [by destruct (_ <? _)|].
  split; [by destruct (_ <? _)|]. eapply str_forallb_impl, digits_to_string; [apply number_digit|lia].
Qed.
Lemma number_scientific s m e : is_number (to_chars_scientific s m e).
Proof.
  unfold to_chars_scientific. pose proof (ratio_of_pos m e) as [Hn Hd]. destruct (ratio_of m e) as [n d].
  pose proof (scientific_digits_pos n d Hn Hd) as Hq. destruct (scientific_digits n d) as [q x]. cbn [fst snd] in *.
  pose proof (digits_to_string q Hq) as Ht. pose proof (starts_digit_to_string q Hq) as Hs.
  destruct (to_string q) as [|c t]; [done|]. cbn [starts_with_digit] in Hs.
  assert (forall n m, str_forallb number_char (String.substring n m (String c t)) = true) as Hsub.
  { intros n' m'. eapply str_forallb_impl, str_forallb_substring, Ht. apply number_digit. }
  split.
  - rewrite !str_forallb_app. unfold str_upto, str_from. rewrite !Hsub, number_exponent. by destruct s.
  - unfold str_upto. cbn [String.substring]. destruct s; [done|]. cbn [String.append]. by rewrite Hs.
Qed.

(** ** Values read back *)
Section Read.
Context {J : JsonLib} `{!JsonLaws J}.

(** What the reader gives back: the value with the texts of its numbers. *)
Definition shape_items (f : json -> exc skeleton) : list json -> exc (list skeleton) :=
  fix go l := match l with
              | [] => Ok []
              | x :: rest => y ← f x; ys ← go rest; Ok (y :: ys)
              end.
Definition shape_members (f : json -> exc skeleton) : list (string * json) -> exc (list (string * skeleton)) :=
  fix go m := match m with
              | [] => Ok []
              | (key, x) :: rest => y ← f x; ys ← go rest; Ok ((key, y) :: ys)
              end.
Fixpoint shape (value : json) : exc skeleton :=
  match value with
  | JNull => Ok SNull
  | JBool b => Ok (SBool b)
  | JInt _ | JUInt _ | JReal _ => t ← number_text value; Ok (SNumber t)
  | JString s => Ok (SString s)
  | JArray l => l ← shape_items shape l; Ok (SArray l)
  | JObject m => m ← shape_members shape m; Ok (SObject m)
  end.

Lemma number_text_number v t : number_text v = Ok t -> is_number t.
Proof.
  unfold number_text. destruct (jl_is_int64 v); [intros E; simplify_res; apply number_to_string|].
  destruct (jl_is_uint64 v); [intros E; simplify_res; apply number_to_string|].
  intros E. apply bind_Ok in E as (d & _ & E). destruct d as [s|s| |s m e]; cbn [real_text] in E; simplify_res.
  - by split.
  - apply number_scientific.
Qed.

(** A text is read back whatever follows it; a character takes two calls at most. *)
Definition reads_back (v : json) : Prop :=
  forall t, append_canonical v = Ok t ->
  exists sk, shape v = Ok sk /\ t <> ""
    /\ starts "]" t = false
    /\ forall n k, (2 * String.length (t +:+ k) < n)%nat -> stops k -> decode n (t +:+ k) = Some (sk, k).

Lemma decode_number n t k : is_number t -> stops k -> decode (S n) (t +:+ k) = Some (SNumber t, k).
Proof.
  intros [Ht Hc] Hk. destruct t as [|c t]; [done|].
  assert (starts dquote (String c t +:+ k) = false /\ starts "[" (String c t +:+ k) = false
    /\ starts "{" (String c t +:+ k) = false /\ starts "n" (String c t +:+ k) = false
    /\ starts "t" (String c t +:+ k) = false /\ starts "f" (String c t +:+ k) = false) as (E1 & E2 & E3 & E4 & E5 & E6).
  { cbn [String.append starts]. revert Hc. clear. destruct c as [[] [] [] [] [] [] [] []]; by vm_compute. }
  cbn [decode]. rewrite E1, E2, E3, E4, E5, E6, take_number_read by done. done.
Qed.

Lemma stops_cons c k : number_char c = false -> stops (String c k).
Proof. done. Qed.

Lemma append_items_tail l t :
  l <> [] -> append_items append_canonical false l = Ok t ->
  exists t', append_items append_canonical true l = Ok t' /\ t = String "," t'.
Proof.
  destruct l as [|x l]; [done|]. intros _ E. cbn [append_items] in *. apply bind_Ok in E as (tx & -> & E).
  apply bind_Ok in E as (ts & Es & E). cbn. rewrite Es. injection E as <-. cbn. eauto.
Qed.
Lemma decode_items_read l t k n :
  Forall reads_back l -> l <> [] -> append_items append_canonical true l = Ok t ->
  (2 * String.length (t +:+ String "]" k) + 1 < n)%nat ->
  exists sks, shape_items shape l = Ok sks /\ starts "]" (t +:+ String "]" k) = false
    /\ decode_items n (t +:+ String "]" k) = Some (sks, k).
Proof.
  intros HF. revert t n. induction HF as [|x l Hx HF IH]; intros t n Hne E Hn; [done|].
  cbn [append_items] in E. apply bind_Ok in E as (tx & Ex & E). apply bind_Ok in E as (ts & Es & E).
  injection E as <-. cbn [comma] in *. destruct (Hx tx Ex) as (sk & Esk & Htx & Hb & Hd).
  destruct n as [|n]; [lia|]. rewrite str_app_assoc in *. cbn [decode_items shape_items]. rewrite Esk. cbn [mbind res_bind].
  assert (forall r, starts "]" (tx +:+ r) = false) as Hb' by (intros r; by destruct tx).
  destruct (decide (l = [])) as [->|Hl].
  - injection Es as <-. exists [sk]. cbn [String.append] in *. split; [done|]. split; [done|]. rewrite Hd; [done|lia|done].
  - apply append_items_tail in Es as (ts' & Es' & ->); [|done]. cbn [String.append] in *.
    pose proof Hn as Hn'. rewrite !str_length_app in Hn'. cbn [String.length] in Hn'.
    destruct (IH ts' n Hl Es') as (sks & Hsh & _ & Hdi); [rewrite str_length_app; cbn [String.length]; rewrite str_length_app in Hn'; cbn [String.length] in Hn'; lia|].
    exists (sk :: sks). fold (shape_items shape). rewrite Hsh. split; [done|]. split; [done|].
    rewrite Hd; [|lia|done].
    cbn. by rewrite Hdi.
Qed.
Lemma append_members_tail m t :
  m <> [] -> append_members append_canonical false m = Ok t ->
  exists t', append_members append_canonical true m = Ok t' /\ t = String "," t'.
Proof.
  destruct m as [|[key x] m]; [done|]. intros _ E. cbn [append_members] in *. apply bind_Ok in E as (tx & -> & E).
  apply bind_Ok in E as (ts & Es & E). cbn [mbind res_bind]. rewrite Es. injection E as <-. cbn [mbind res_bind comma].
  eexists. split; [done|]. done.
Qed.
Lemma decode_members_read m t k n :
  Forall (fun p => reads_back p.2) m -> m <> [] -> append_members append_canonical true m = Ok t ->
  (2 * String.length (t +:+ String "}" k) + 1 < n)%nat ->
  exists sks, shape_members shape m = Ok sks /\ starts "}" (t +:+ String "}" k) = false
    /\ decode_members n (t +:+ String "}" k) = Some (sks, k).
Proof.
  intros HF. revert t n. induction HF as [|[key x] m Hx HF IH]; intros t n Hne E Hn; [done|].
  cbn [append_members] in E. apply bind_Ok in E as (tx & Ex & E). apply bind_Ok in E as (ts & Es & E).
  injection E as <-. cbn [comma] in *. cbn [snd] in Hx. destruct (Hx tx Ex) as (sk & Esk & Htx & Hb & Hd).
  destruct n as [|n]; [lia|]. rewrite !str_app_assoc in *. cbn [decode_members shape_members]. rewrite Esk.
  rewrite take_string_append. cbn [mbind res_bind option_bind String.append starts rest_of negb] in *. rewrite Ascii.eqb_refl. cbn [negb].
  rewrite str_length_app in Hn. cbn [String.length] in Hn.
  pose proof (append_string_length key) as Hk.
  destruct (decide (m = [])) as [->|Hm].
  - injection Es as <-. exists [(key, sk)]. cbn [String.append] in *. split; [done|]. split; [done|]. rewrite Hd; [done|lia|done].
  - apply append_members_tail in Es as (ts' & Es' & ->); [|done]. cbn [String.append] in *.
    pose proof Hn as Hn'. rewrite !str_length_app in Hn'. cbn [String.length] in Hn'. rewrite str_length_app in Hn'. cbn [String.length] in Hn'.
    destruct (IH ts' n Hm Es') as (sks & Hsh & _ & Hdi); [rewrite str_length_app; cbn [String.length]; lia|].
    exists ((key, sk) :: sks). fold (shape_members shape). rewrite Hsh. split; [done|]. split; [done|].
    rewrite Hd; [|lia|done]. cbn. by rewrite Hdi.
Qed.

Lemma expect_read word v k : expect word v (word +:+ k) = Some (v, k).
Proof. unfold expect. by rewrite str_prefix_app, str_from_app. Qed.
Lemma number_reads v t : number_text v = Ok t -> shape v = (t ← number_text v; Ok (SNumber t)) ->
  exists sk, shape v = Ok sk /\ t <> "" /\ starts "]" t = false
    /\ forall n k, (2 * String.length (t +:+ k) < n)%nat -> stops k -> decode n (t +:+ k) = Some (sk, k).
Proof.
  intros E Hs. pose proof (number_text_number v t E) as Hn. rewrite E in Hs. exists (SNumber t). split; [done|].
  destruct Hn as [Hf Hc]. split; [by destruct t|]. split.
  - destruct t as [|c t]; [done|]. cbn [starts]. revert Hc. clear. destruct c as [[] [] [] [] [] [] [] []]; by vm_compute.
  - intros [|n] k Hl Hk; [lia|]. by apply decode_number.
Qed.
Lemma decode_string n s k : decode (S n) (append_string s +:+ k) = Some (SString s, k).
Proof. cbn [decode]. by rewrite starts_quote, take_string_append. Qed.
Lemma decode_array n l t k :
  Forall reads_back l -> append_items append_canonical true l = Ok t ->
  (2 * String.length (("[" +:+ t +:+ "]") +:+ k) < S n)%nat ->
  exists sks, shape_items shape l = Ok sks /\ decode (S n) (("[" +:+ t +:+ "]") +:+ k) = Some (SArray sks, k).
Proof.
  intros HF E Hn. rewrite !str_app_assoc in *. cbn [String.append String.length] in *. cbn [decode starts rest_of].
  destruct (decide (l = [])) as [->|Hl].
  - injection E as <-. by exists [].
  - destruct (decode_items_read l t k n HF Hl E) as (sks & Hs & Hb & Hd); [lia|]. exists sks. split; [done|].
    cbn [String.append] in *. by rewrite Hb, Hd.
Qed.
Lemma decode_object n m t k :
  Forall (fun p => reads_back p.2) m -> append_members append_canonical true m = Ok t ->
  (2 * String.length (("{" +:+ t +:+ "}") +:+ k) < S n)%nat ->
  exists sks, shape_members shape m = Ok sks /\ decode (S n) (("{" +:+ t +:+ "}") +:+ k) = Some (SObject sks, k).
Proof.
  intros HF E Hn. rewrite !str_app_assoc in *. cbn [String.append String.length] in *. cbn [decode starts rest_of].
  destruct (decide (m = [])) as [->|Hl].
  - injection E as <-. by exists [].
  - destruct (decode_members_read m t k n HF Hl E) as (sks & Hs & Hb & Hd); [lia|]. exists sks. split; [done|].
    cbn [String.append] in *. by rewrite Hb, Hd.
Qed.
(** What a composite reads as does not depend on what follows it. *)
Lemma enough_fuel t : exists n, (2 * String.length (t +:+ "") < S n)%nat.
Proof. eauto. Qed.

Lemma append_canonical_read v : reads_back v.
Proof.
  induction v as [|z|z|d|s|b|l IH|m IH] using json_rect'; intros t E; cbn [append_canonical] in E;
    try by apply number_reads.
  - injection E as <-. exists SNull. do 3 (split; [done|]). intros [|n] k Hn Hk; [lia|].
    change (decode (S n) ("null" +:+ k)) with (expect "null" SNull ("null" +:+ k)). apply expect_read.
  - rewrite jl_as_string_string in E. injection E as <-. exists (SString s). split; [done|]. split; [done|].
    split; [done|]. intros [|n] k Hn Hk; [lia|]. apply decode_string.
  - rewrite jl_as_bool_bool in E. injection E as <-. exists (SBool b). destruct b; do 3 (split; [done|]); intros [|n] k Hn Hk; try lia.
    + change (decode (S n) ("true" +:+ k)) with (expect "true" (SBool true) ("true" +:+ k)). apply expect_read.
    + change (decode (S n) ("false" +:+ k)) with (expect "false" (SBool false) ("false" +:+ k)). apply expect_read.
  - apply bind_Ok in E as (ts & Es & E). injection E as <-. destruct (enough_fuel ("[" +:+ ts +:+ "]")) as [n0 H0].
    destruct (decode_array n0 l ts "" IH Es H0) as (sks & Hs & _). exists (SArray sks). cbn [shape]. rewrite Hs.
    do 3 (split; [done|]). intros [|n] k Hn Hk; [lia|].
    destruct (decode_array n l ts k IH Es Hn) as (sks' & Hs' & Hd). etrans; [exact Hd|]. congruence.
  - apply bind_Ok in E as (ts & Es & E). injection E as <-. destruct (enough_fuel ("{" +:+ ts +:+ "}")) as [n0 H0].
    destruct (decode_object n0 m ts "" IH Es H0) as (sks & Hs & _). exists (SObject sks). cbn [shape]. rewrite Hs.
    do 3 (split; [done|]). intros [|n] k Hn Hk; [lia|].
    destruct (decode_object n m ts k IH Es Hn) as (sks' & Hs' & Hd). etrans; [exact Hd|]. congruence.
Qed.

Lemma decode_canonical v t : canonical_json v = Ok t -> exists sk, shape v = Ok sk /\ decode_text t = Some sk.
Proof.
  intros E. destruct (append_canonical_read v t E) as (sk & Hs & _ & _ & Hd). exists sk. split; [done|].
  unfold decode_text. specialize (Hd (S (2 * String.length t)) ""). rewrite app_nil_str in Hd. by rewrite Hd by (done || lia).
Qed.

(** C29: The canonical text determines the value: two values written alike are alike, part
    for part, but for how their numbers are kept, and numbers have the same text. *)
Theorem canonical_injective v w t :
  canonical_json v = Ok t -> canonical_json w = Ok t -> exists sk, shape v = Ok sk /\ shape w = Ok sk.
Proof.
  intros (sv & Hv & Ev)%decode_canonical (sw & Hw & Ew)%decode_canonical. exists sv. split; congruence.
Qed.
End Read.

(** ** An instance of the library on these texts

    It prints canonically and reads with [decode_text]; its conversions are those of
    [JsonRef].  Numbers with a point are read as the nearest double. *)
Module JsonText.
Fixpoint upto_char (c : ascii) (s : string) : string * string :=
  match s with
  | String x s' => if Ascii.eqb x c then (EmptyString, s') else let '(a, b) := upto_char c s' in (String x a, b)
  | EmptyString => (EmptyString, EmptyString)
  end.
Definition signed (s : string) : bool * string :=
  if starts "-" s then (true, rest_of s) else (false, if starts "+" s then rest_of s else s).
Definition signed_value (s : string) : Z :=
  let '(negative, digits) := signed s in if negative then - digits_value 0 digits else digits_value 0 digits.
Definition read_real (negative : bool) (body : string) : double :=
  let '(mantissa, exponent) := upto_char "e" body in
  let '(whole, fraction) := upto_char "." mantissa in
  let m := digits_value 0 (whole +:+ fraction) in
  let x := signed_value exponent - str_len fraction in
  let v := if 0 <=? x then d_of_Z (m * 10 ^ x)
           else match m, 10 ^ (- x) with
                | Zpos m, Zpos d => SFdiv 53 1024 (S754_finite false m 0) (S754_finite false d 0)
                | _, _ => dzero
                end in
  if negative then SFopp v else v.
Definition read_number (text : string) : json :=
  let '(negative, body) := signed text in
  if str_forallb is_digit body then
    let z := signed_value text in
    if (- 2 ^ 63 <=? z) && (z <? 2 ^ 63) then JInt z
    else if (0 <=? z) && (z <? 2 ^ 64) then JUInt z
    else JReal (read_real negative body)
  else JReal (read_real negative body).
Fixpoint of_skeleton (sk : skeleton) : json :=
  match sk with
  | SNull => JNull
  | SBool b => JBool b
  | SNumber text => read_number text
  | SString s => JString s
  | SArray l => JArray (of_skeleton <$> l)
  | SObject m => JObject (foldl (fun m p => om_set p.1 p.2 m) [] (prod_map id of_skeleton <$> m))
  end.
Definition parse (text : string) : res string json :=
  match decode_text text with Some sk => Ok (of_skeleton sk) | None => Err "syntax error" end.
Definition print (v : json) : string := or_else (canonical_json (J:=JsonRef.lib) v) "".

Lemma read_number_to_string z : - 2 ^ 63 <= z < 2 ^ 64 ->
  read_number (to_string z) = if z <? 2 ^ 63 then JInt z else JUInt z.
Proof.
  intros Hz. assert (signed_value (to_string z) = z /\ str_forallb is_digit (signed (to_string z)).2 = true) as [Hv Hd].
  { unfold signed_value, signed. destruct (decide (0 <= z)) as [Hp|Hp].
    - pose proof (digits_to_string z Hp) as Hd. pose proof (digits_value_to_string z Hp) as Hv.
      pose proof (starts_digit_to_string z Hp) as Hs. destruct (to_string z) as [|c t]; [done|].
      cbn [starts_with_digit] in Hs. destruct (digit_cases c Hs) as (_ & E1 & E2). cbn [starts]. by rewrite E1, E2.
    - destruct z as [|p|p]; [lia..|]. change (to_string (Z.neg p)) with (String "-" (to_string (Z.pos p))).
      cbn [starts rest_of]. rewrite Ascii.eqb_refl, digits_value_to_string by lia. split; [done|]. apply digits_to_string. lia. }
  unfold read_number. destruct (signed (to_string z)) as [neg body]. cbn [snd] in Hd. rewrite Hd, Hv.
  destruct (Z.ltb_spec z (2 ^ 63)).
  - by rewrite (proj2 (Z.leb_le _ _)) by lia.
  - rewrite andb_false_r. by rewrite (proj2 (Z.leb_le 0 z)), (proj2 (Z.ltb_lt z (2 ^ 64))) by lia.
Qed.

#[global] Instance lib : JsonLib := {|
  jl_parse := parse;
  jl_parse_limited := fun _ => parse;
  jl_write := fun _ => print;
  jl_write_ascii := print;
  jl_what := fun op => op;
  jl_as_string := JsonRef.as_string;
  jl_as_bool := JsonRef.as_bool;
  jl_as_int := JsonRef.as_range (- 2 ^ 31) (2 ^ 31 - 1);
  jl_as_uint := JsonRef.as_range 0 u32_max;
  jl_as_int64 := JsonRef.as_range (- 2 ^ 63) (2 ^ 63 - 1);
  jl_as_uint64 := JsonRef.as_range 0 u64_max;
  jl_as_double := JsonRef.as_double;
  jl_is_uint := JsonRef.in_bounds 0 u32_max;
  jl_is_uint64 := JsonRef.in_bounds 0 u64_max;
  jl_is_int64 := JsonRef.in_bounds (- 2 ^ 63) (2 ^ 63 - 1)
|}.

(** What prints: any text, no number with a point. *)
Abbreviation printable := (text_ok (fun _ => True) (fun _ => False)).
Definition printed (v : json) : Prop :=
  exists t sk, canonical_json (J:=JsonRef.lib) v = Ok t /\ shape (J:=JsonRef.lib) v = Ok sk /\ of_skeleton sk = canon v.

Lemma printed_int z (k : Z -> json) : k = JInt \/ k = JUInt -> - 2 ^ 63 <= z < 2 ^ 64 ->
  canon (k z) = (if z <? 2 ^ 63 then JInt z else JUInt z) -> printed (k z).
Proof.
  intros Hk Hz Hc. exists (to_string z), (SNumber (to_string z)).
  assert (number_text (J:=JsonRef.lib) (k z) = Ok (to_string z)) as Hn.
  { unfold number_text. destruct Hk as [->| ->]; cbn [jl_is_int64 jl_is_uint64 jl_as_int64 jl_as_uint64 JsonRef.lib JsonRef.in_bounds JsonRef.as_range];
      (destruct (Z.ltb_spec z (2 ^ 63)) as [Hl|Hl];
       [rewrite (proj2 (Z.leb_le (- 2 ^ 63) z)), (proj2 (Z.leb_le z (2 ^ 63 - 1))) by lia; done|]);
      rewrite (proj2 (Z.leb_gt z (2 ^ 63 - 1))), andb_false_r by lia;
      unfold u64_max; rewrite (proj2 (Z.leb_le 0 z)), (proj2 (Z.leb_le z 18446744073709551615)) by lia; done. }
  split; [|split].
  - destruct Hk as [->| ->]; exact Hn.
  - destruct Hk as [->| ->]; cbn [shape]; by rewrite Hn.
  - cbn [of_skeleton]. by rewrite read_number_to_string, Hc.
Qed.

Lemma printed_items l : Forall printed l -> forall first,
  exists t sks, append_items (append_canonical (J:=JsonRef.lib)) first l = Ok t
    /\ shape_items (shape (J:=JsonRef.lib)) l = Ok sks /\ of_skeleton <$> sks = canon <$> l.
Proof.
  induction 1 as [|x l (tx & sx & Hx & Hs & Ho) _ IH]; intros first; [by exists "", []|].
  destruct (IH false) as (t & sks & Ht & Hss & Hos). eexists _, (sx :: sks).
  cbn [append_items shape_items]. unfold canonical_json in Hx. rewrite Hx, Hs. cbn [mbind res_bind].
  fold (append_items (append_canonical (J:=JsonRef.lib))). fold (shape_items (shape (J:=JsonRef.lib))). rewrite Ht, Hss.
  split; [done|]. split; [done|]. cbn. by rewrite Ho, Hos.
Qed.
Lemma printed_members m : Forall (fun p => printed p.2) m -> forall first,
  exists t sks, append_members (append_canonical (J:=JsonRef.lib)) first m = Ok t
    /\ shape_members (shape (J:=JsonRef.lib)) m = Ok sks /\ prod_map id of_skeleton <$> sks = prod_map id canon <$> m.
Proof.
  induction 1 as [|[key x] m (tx & sx & Hx & Hs & Ho) _ IH]; intros first; [by exists "", []|].
  destruct (IH false) as (t & sks & Ht & Hss & Hos). eexists _, ((key, sx) :: sks). cbn [snd] in *.
  cbn [append_members shape_members]. unfold canonical_json in Hx. rewrite Hx, Hs. cbn [mbind res_bind].
  fold (append_members (append_canonical (J:=JsonRef.lib))). fold (shape_members (shape (J:=JsonRef.lib))). rewrite Ht, Hss.
  split; [done|]. split; [done|]. cbn. rewrite Ho. by f_equal.
Qed.
#[local] Transparent text_ok.
#[local] Arguments text_ok _ _ !_ _.
Lemma printable_printed v d : printable d v -> printed v.
Proof.
  revert d. induction v as [|z|z|x|s|b|l IH|m IH] using json_rect'; intros [|d] Hv; try done; cbn [text_ok] in Hv.
  - by exists "null", SNull.
  - apply (printed_int z JInt); [by left|lia|]. cbn. by rewrite (proj2 (Z.ltb_lt _ _)) by lia.
  - apply (printed_int z JUInt); [by right|lia|done].
  - by exists (append_string s), (SString s).
  - exists (if b then "true" else "false"), (SBool b). by destruct b.
  - destruct (printed_items l) with (first := true) as (t & sks & Ht & Hs & Ho).
    { rewrite Forall_forall in *. intros x Hx. by eapply (IH x Hx), Hv. }
    eexists _, (SArray sks). unfold canonical_json. cbn [append_canonical shape]. rewrite Ht, Hs. cbn. by rewrite Ho.
  - destruct Hv as [Hm Hv]. destruct (printed_members m) with (first := true) as (t & sks & Ht & Hs & Ho).
    { rewrite Forall_forall in *. intros x Hx. by eapply (IH x Hx), Hv. }
    eexists _, (SObject sks). unfold canonical_json. cbn [append_canonical shape]. rewrite Ht, Hs. cbn. rewrite Ho.
    split; [done|]. split; [done|]. f_equal. apply om_sets_self. unfold om_sorted. by rewrite <- list_fmap_compose.
Qed.

(** [printable] decided. *)
Fixpoint keys_sorted (l : list string) : bool :=
  match l with
  | a :: l' => match l' with
               | [] => true
               | b :: _ => match String.compare a b with Lt => keys_sorted l' | _ => false end
               end
  | [] => true
  end.
Lemma keys_sorted_sound l : keys_sorted l = true -> StronglySorted (fun a b => String.compare a b = Lt) l.
Proof.
  intros H. apply Sorted_StronglySorted; [exact str_compare_trans|].
  induction l as [|a l IH]; [constructor|]. cbn [keys_sorted] in H. destruct l as [|b l]; [by repeat constructor|].
  destruct (String.compare a b) eqn:E; try done. constructor; [by apply IH|by constructor].
Qed.
Fixpoint printableb (d : nat) (v : json) : bool :=
  match d with
  | O => false
  | S d' =>
    match v with
    | JNull | JBool _ | JString _ => true
    | JInt z => (- 2 ^ 63 <=? z) && (z <? 2 ^ 63)
    | JUInt z => (0 <=? z) && (z <? 2 ^ 64)
    | JReal _ => false
    | JArray l => forallb (printableb d') l
    | JObject m => keys_sorted m.*1 && forallb (fun p => printableb d' p.2) m
    end
  end.
Lemma printableb_sound d v : printableb d v = true -> printable d v.
Proof.
  revert v. induction d as [|d IH]; intros v H; [done|]. destruct v; cbn [printableb text_ok] in *; try done.
  - apply andb_prop in H as [H1 H2]. lia.
  - apply andb_prop in H as [H1 H2]. lia.
  - rewrite forallb_forall in H. apply Forall_forall. intros x Hx. apply IH, H. by apply list_elem_of_In.
  - apply andb_prop in H as [H1 H2]. split; [by apply keys_sorted_sound|]. rewrite forallb_forall in H2.
    apply Forall_forall. intros x Hx. split; [done|]. apply IH, H2. by apply list_elem_of_In.
Qed.
#[local] Opaque text_ok.
Lemma text_parse_print v : printable 1000 v -> parse (print v) = Ok (canon v).
Proof.
  intros (t & sk & Ht & Hs & Ho)%printable_printed. unfold parse, print. rewrite Ht. cbn [or_else].
  destruct (decode_canonical v t Ht) as (sk' & Hs' & ->). congruence.
Qed.

#[global] Instance laws : JsonLaws lib.
Proof.
  refine {| jl_str_ok := fun _ => True; jl_real_ok := fun _ => False |}.
  1: { intros styled v. apply text_parse_print. }
  1: { apply text_parse_print. }
  1: { intros depth text v H. exact H. }
  all: try (intros; reflexivity).
  1: { intros []; done. }
  all: intros z Hz; (apply JsonRef.as_range_ok || apply JsonRef.as_range_ok'); lia.
Defined.
End JsonText.
