(* ===== verification/BundleLaws.v ===== *)
(** * What a bundle's identity stands for

    The laws of Bundle.v: loading does not see the order of the listing, the signed
    text leaves out the signatures only and determines names and digests of the
    resources, and merging configurations follows the overlay member by member. *)

From S2P Require Import Prelude Json Sha256 Reliability Resource Bundle CanonText.
Open Scope string_scope.
Open Scope list_scope.
Open Scope Z_scope.
#[local] Opaque sha256_digest.

(** ** Lines *)
Lemma line_inj a a' r r' : no_newline a = true -> no_newline a' = true ->
  a +:+ nl +:+ r = a' +:+ nl +:+ r' -> a = a' /\ r = r'.
Proof. intros Ha Ha' E. apply (f_equal split_line) in E. rewrite !split_line_app in E by done. by injection E. Qed.

Lemma cons_pair_inj {A B} (a a' : A) (b b' : B) l l' : (a, b) :: l = (a', b') :: l' -> b = b' /\ l = l'.
Proof. intros E. by injection E. Qed.
Lemma graph_inj {A B} (f g : A -> B) (l l' : list A) :
  (fun x => (x, f x)) <$> l = (fun x => (x, g x)) <$> l' -> l = l' /\ forall x, x ∈ l -> f x = g x.
Proof.
  revert l'. induction l as [|x l IH]; intros [|x' l'] E; try discriminate; [split; [done|set_solver]|].
  rewrite !fmap_cons in E. injection E as <- Hx E. destruct (IH l' E) as [<- Hl]. split; [done|].
  intros y [->|Hy]%elem_of_cons; auto.
Qed.

(** ** The order of the listing *)
Lemma byte_le_spec a b : byte_le a b <-> String.compare a b <> Gt.
Proof.
  unfold byte_le, utf8_byte_less. rewrite (String.compare_antisym a b).
  destruct (String.compare b a); cbn; naive_solver.
Qed.
#[export] Instance byte_le_trans : Transitive byte_le.
Proof.
  intros a b c. rewrite !byte_le_spec. intros Hab Hbc.
  destruct (String.compare a b) eqn:Eab; [|clear Hab|done].
  - by apply String.compare_eq_iff in Eab as ->.
  - destruct (String.compare b c) eqn:Ebc; [|clear Hbc|done].
    + apply String.compare_eq_iff in Ebc as ->. by rewrite Eab.
    + by rewrite (str_compare_trans a b c).
Qed.
#[export] Instance byte_le_antisymm : AntiSymm (=) byte_le.
Proof.
  intros a b. rewrite !byte_le_spec, (String.compare_antisym b a). intros H1 H2.
  apply String.compare_eq_iff. by destruct (String.compare a b).
Qed.
#[export] Instance byte_le_total : Total byte_le.
Proof.
  intros a b. rewrite !byte_le_spec, (String.compare_antisym b a).
  destruct (String.compare a b); naive_solver.
Qed.

Lemma sort_bytes_perm l l' : l ≡ₚ l' -> sort_bytes l = sort_bytes l'.
Proof.
  intros Hl. apply (StronglySorted_unique byte_le).
  - apply (StronglySorted_merge_sort byte_le).
  - apply (StronglySorted_merge_sort byte_le).
  - unfold sort_bytes. by rewrite !merge_sort_Permutation.
Qed.

(** The paths come back in byte order, each as often as it was listed. *)
Lemma sort_bytes_Permutation l : sort_bytes l ≡ₚ l.
Proof. apply merge_sort_Permutation. Qed.

Section Laws.
Context {J : JsonLib}.

Lemma load_same p p' l l' :
  list_resources p = Ok l -> list_resources p' = Ok l' -> l ≡ₚ l' ->
  (forall path, path = "manifest.json" \/ path ∈ l -> read_resource p path = read_resource p' path) ->
  load_bundle_from_provider p = load_bundle_from_provider p'.
Proof.
  intros Hl Hl' HP Hr. unfold load_bundle_from_provider. rewrite Hl, Hl'. cbn [rethrow mbind res_bind].
  rewrite (sort_bytes_perm l l' HP), (Hr "manifest.json") by by left.
  assert (forall paths c, (forall path, path ∈ paths -> path ∈ l) -> read_contents p paths c = read_contents p' paths c) as Hc.
  { induction paths as [|path paths IH]; intros c Hin; [done|]. cbn [read_contents].
    rewrite (Hr path) by (right; apply Hin; left). rewrite !IH by (intros; apply Hin; by right).
    destruct (String.eqb _ _); [done|]. destruct (rethrow (read_resource p' path)); [|done]. cbn.
    by rewrite IH by (intros; apply Hin; by right). }
  rewrite Hc; [done|]. intros path Hin. by rewrite sort_bytes_Permutation, <- HP in Hin.
Qed.

Lemma load_reads_manifest p b :
  load_bundle_from_provider p = Ok b -> exists text, read_resource p "manifest.json" = Ok text.
Proof.
  unfold load_bundle_from_provider. intros E. apply bind_Ok in E as (listed & _ & E). cbv zeta in E.
  apply bind_Ok in E as ([] & _ & E). apply bind_Ok in E as (text & Et & _). exists text.
  destruct (read_resource p "manifest.json"); [|done]. by injection Et as ->.
Qed.

(** The order a provider lists its resources in has no effect on loading, errors included. *)
Theorem load_order_irrelevant p p' l l' :
  list_resources p = Ok l -> list_resources p' = Ok l' -> l ≡ₚ l' ->
  (forall path, path = "manifest.json" \/ path ∈ l -> read_resource p path = read_resource p' path) ->
  load_bundle_from_provider p = load_bundle_from_provider p'.
Proof. apply load_same. Qed.

(** ** The signed text *)
Definition resource_paths (paths : list string) : list string :=
  List.filter (fun path => negb (String.eqb path "manifest.json")) (sort_bytes paths).
Fixpoint payload_text (entries : list (string * string)) : string :=
  match entries with
  | [] => EmptyString
  | (path, digest) :: rest => payload_entry path digest +:+ payload_text rest
  end.
(** The names and digests of what a provider holds besides the manifest. *)
Definition entries_of (p : ResourceProvider) (paths : list string) : list (string * string) :=
  (fun path => (path, sha256_digest (or_else (read_resource p path) EmptyString))) <$> resource_paths paths.

Lemma rethrow_Ok {A} (m : Result A) a : rethrow m = Ok a <-> m = Ok a.
Proof. destruct m; cbn; naive_solver. Qed.

Lemma read_contents_payload p paths c r :
  read_contents p paths c = Ok r ->
  r.2 = payload_text ((fun path => (path, sha256_digest (or_else (read_resource p path) EmptyString)))
    <$> List.filter (fun path => negb (String.eqb path "manifest.json")) paths).
Proof.
  revert c r. induction paths as [|path paths IH]; intros c r E; [by injection E as <-|].
  cbn [read_contents List.filter] in *. destruct (String.eqb path _); cbn [negb]; [by apply IH in E|].
  apply bind_Ok in E as (content & Hc & E). apply bind_Ok in E as (more & Hm & E). injection E as <-.
  apply rethrow_Ok in Hc. apply IH in Hm. cbn. by rewrite Hc, Hm.
Qed.

(** The steps of a load that succeeded. *)
Lemma load_inv p b : load_bundle_from_provider p = Ok b ->
  exists paths text manifest manifest' unsigned r,
    list_resources p = Ok paths /\ check_paths [] (sort_bytes paths) = Ok tt
    /\ read_resource p "manifest.json" = Ok text /\ read_json text = Ok manifest
    /\ check_manifest manifest = Ok (bd_id b, bd_version b)
    /\ load_dependencies manifest = Ok (bd_dependencies b)
    /\ jref "dependencies" manifest = Ok manifest' /\ load_signatures manifest' = Ok (bd_signatures b)
    /\ jremove "signatures" manifest' = Ok unsigned /\ canonical_json unsigned = Ok (bd_unsigned_manifest b)
    /\ read_contents p (sort_bytes paths) [] = Ok r
    /\ (exists workflows ids, jget "workflows" manifest' = Ok workflows /\ jmembers workflows = Ok ids
          /\ read_workflows workflows r.1 ids [] = Ok (bd_workflows b))
    /\ bd_signing_payload b = payload_entry "manifest.json" (sha256_digest (bd_unsigned_manifest b)) +:+ r.2
    /\ bd_digest b = sha256_digest (bd_signing_payload b).
Proof.
  unfold load_bundle_from_provider. intros E. simplify_res.
  repeat match goal with H : rethrow _ = Ok _ |- _ => apply rethrow_Ok in H end.
  repeat match goal with u : unit |- _ => destruct u end.
  match goal with H : check_manifest _ = Ok ?i |- _ => destruct i as [id version] end.
  repeat eexists; try done; eauto.
Qed.

Lemma load_payload p b paths : load_bundle_from_provider p = Ok b -> list_resources p = Ok paths ->
  bd_signing_payload b =
    payload_text (("manifest.json", sha256_digest (bd_unsigned_manifest b)) :: entries_of p paths)
  /\ bd_digest b = sha256_digest (bd_signing_payload b).
Proof.
  intros E Hl. apply load_inv in E as (l & tx & m & m' & u & r & Hl' & _ & _ & _ & _ & _ & _ & _ & _ & _ & Hr & _ & Hp & Hd).
  rewrite Hl in Hl'. injection Hl' as <-. split; [|done]. rewrite Hp. cbn [payload_text]. by rewrite (read_contents_payload _ _ _ _ Hr).
Qed.

Lemma payload_text_inj l l' :
  Forall (fun e => no_newline e.1 = true /\ no_newline e.2 = true) l ->
  Forall (fun e => no_newline e.1 = true /\ no_newline e.2 = true) l' ->
  payload_text l = payload_text l' -> l = l'.
Proof.
  intros Hl. revert l'. induction Hl as [|[path digest] l [Hp Hd] _ IH]; intros l' Hl' E; cbn [payload_text fst snd] in *.
  - destruct Hl' as [|[path' digest'] l' _ _]; [done|]. cbn in E. unfold payload_entry in E. by destruct path'.
  - destruct Hl' as [|[path' digest'] l' [Hp' Hd'] Hl']; [by destruct path|]. cbn [payload_text fst snd] in *. unfold payload_entry in E.
    rewrite !str_app_assoc in E. apply line_inj in E as [-> E]; [|done..].
    apply line_inj in E as [-> E]; [|done..]. f_equal. by apply IH.
Qed.
Lemma entries_no_newline p paths : Forall (fun path => no_newline path = true) paths ->
  Forall (fun e => no_newline e.1 = true /\ no_newline e.2 = true) (entries_of p paths).
Proof.
  rewrite !Forall_forall. intros H e (path & -> & Hin)%list_elem_of_fmap. cbn. split; [|apply no_newline_digest].
  apply H. apply list_elem_of_In, filter_In in Hin as [Hin _]. apply list_elem_of_In in Hin. by rewrite <- sort_bytes_Permutation.
Qed.

(** Two bundles with the same signed text hold resources of the same names with the
    same digests and manifests of the same digest, as long as no name holds a line
    break. *)
Theorem payload_determines p p' b b' l l' :
  load_bundle_from_provider p = Ok b -> load_bundle_from_provider p' = Ok b' ->
  list_resources p = Ok l -> list_resources p' = Ok l' ->
  Forall (fun path => no_newline path = true) l -> Forall (fun path => no_newline path = true) l' ->
  bd_signing_payload b = bd_signing_payload b' ->
  sha256_digest (bd_unsigned_manifest b) = sha256_digest (bd_unsigned_manifest b')
  /\ resource_paths l = resource_paths l'
  /\ forall path, path ∈ resource_paths l ->
       sha256_digest (or_else (read_resource p path) "") = sha256_digest (or_else (read_resource p' path) "").
Proof.
  intros E E' Hl Hl' Hn Hn' Hp. apply load_payload with (1 := E) in Hl as [Hl _]. apply load_payload with (1 := E') in Hl' as [Hl' _].
  rewrite Hl, Hl' in Hp. apply payload_text_inj in Hp.
  - apply cons_pair_inj in Hp as [Hm He]. exact (conj Hm (graph_inj _ _ _ _ He)).
  - apply Forall_cons_2; [split; [reflexivity|apply no_newline_digest]|by apply entries_no_newline].
  - apply Forall_cons_2; [split; [reflexivity|apply no_newline_digest]|by apply entries_no_newline].
Qed.

(** ** Signatures are outside the signed text *)
(** The manifest without signatures, its dependencies null where it names none. *)
Lemma unsigned_lookup m m' u : om_sorted m -> jref "dependencies" (JObject m) = Ok m' -> jremove "signatures" m' = Ok u ->
  exists o, u = JObject o /\ om_sorted o
    /\ forall k, om_get k o = if decide (k = "signatures") then None else
         match om_get k m with None => if decide (k = "dependencies") then Some JNull else None | x => x end.
Proof.
  intros Hm E1 E2. unfold jref in E1. cbn [jmember mbind res_bind jset] in E1.
  assert (exists o, m' = JObject o /\ om_sorted o /\ forall k, om_get k o =
    match om_get k m with None => if decide (k = "dependencies") then Some JNull else None | x => x end) as (o & -> & Ho & Hg).
  { unfold om_mem in E1. destruct (om_get "dependencies" m) eqn:Ed; injection E1 as <-.
    - exists m. split; [done|]. split; [done|]. intros k. case_decide as Hk; [subst; by rewrite Ed|by destruct (om_get k m)].
    - eexists. split; [done|]. split; [by apply om_set_sorted|]. intros k. rewrite om_get_set.
      destruct (decide (k = "dependencies")) as [->|Hk]; [by rewrite Ed, decide_True|rewrite decide_False by done]. by destruct (om_get k m). }
  injection E2 as <-. eexists. split; [done|]. split; [by apply om_del_sorted|]. intros k.
  case_decide as Hk; [subst; apply om_get_del_eq|]. by rewrite om_get_del_ne.
Qed.

(** Manifests that differ in their signatures alone give the same signed text and the
    same identity. *)
Theorem identity_ignores_signatures p p' b b' l text text' m m' :
  load_bundle_from_provider p = Ok b -> load_bundle_from_provider p' = Ok b' ->
  list_resources p = Ok l -> list_resources p' = Ok l ->
  (forall path, path <> "manifest.json" -> read_resource p path = read_resource p' path) ->
  read_resource p "manifest.json" = Ok text -> read_json text = Ok (JObject m) -> om_sorted m ->
  read_resource p' "manifest.json" = Ok text' -> read_json text' = Ok (JObject m') -> om_sorted m' ->
  (forall k, k <> "signatures" -> om_get k m = om_get k m') ->
  bd_signing_payload b = bd_signing_payload b' /\ bd_digest b = bd_digest b'.
Proof.
  intros E E' Hl Hl' Hr Ht Hm Hs Ht' Hm' Hs' Hk.
  destruct (load_payload p b l E Hl) as [Hp Hd]. destruct (load_payload p' b' l E' Hl') as [Hp' Hd'].
  apply load_inv in E as (l1 & t1 & m1 & n1 & u1 & r1 & _ & _ & Ht1 & Hm1 & _ & _ & Hn1 & _ & Hu1 & Hc1 & _).
  apply load_inv in E' as (l2 & t2 & m2 & n2 & u2 & r2 & _ & _ & Ht2 & Hm2 & _ & _ & Hn2 & _ & Hu2 & Hc2 & _).
  rewrite Ht in Ht1; injection Ht1 as <-. rewrite Hm in Hm1; injection Hm1 as <-.
  rewrite Ht' in Ht2; injection Ht2 as <-. rewrite Hm' in Hm2; injection Hm2 as <-.
  destruct (unsigned_lookup m n1 u1 Hs Hn1 Hu1) as (o1 & -> & Ho1 & Hg1).
  destruct (unsigned_lookup m' n2 u2 Hs' Hn2 Hu2) as (o2 & -> & Ho2 & Hg2).
  assert (o1 = o2) as <-.
  { apply om_ext; [done..|]. intros k. rewrite Hg1, Hg2. case_decide; [done|]. by rewrite Hk. }
  assert (bd_unsigned_manifest b = bd_unsigned_manifest b') as Hu by congruence.
  assert (entries_of p l = entries_of p' l) as He.
  { apply list_fmap_ext. intros i path Hi. rewrite Hr; [done|]. apply list_elem_of_lookup_2, list_elem_of_In, filter_In in Hi as [_ Hi].
    intros ->. done. }
  assert (bd_signing_payload b = bd_signing_payload b') as Hpp by (rewrite Hp, Hp'; congruence). split; congruence.
Qed.

(** ** Merging configurations *)
Lemma merge_members_get options f o m r :
  NoDup o.*1 -> merge_members options f o m = Ok r -> forall key,
  match om_get key o with
  | None => om_get key r = om_get key m
  | Some v => if deletes options v then om_get key r = None else
    match om_get key m with
    | None => om_get key r = Some v
    | Some old => exists x, f v old = Ok x /\ om_get key r = Some x
    end
  end.
Proof.
  revert m. induction o as [|[k v] o IH]; intros m Hd E key; [by injection E as <-|].
  rewrite fmap_cons in Hd. apply NoDup_cons in Hd as [Hk Hd]. cbn [merge_members fst] in *.
  assert (om_get k o = None) as Ho by by apply om_get_None.
  cbn [om_get]. destruct (deletes options v) eqn:Ev.
  - specialize (IH _ Hd E key). destruct (String.eqb_spec key k) as [->|Hne].
    + rewrite Ho in IH. by rewrite Ev, IH, om_get_del_eq.
    + by rewrite om_get_del_ne in IH by congruence.
  - apply bind_Ok in E as (x & Ex & E). specialize (IH _ Hd E key). destruct (String.eqb_spec key k) as [->|Hne].
    + rewrite Ho, om_get_set_eq in IH. rewrite Ev. destruct (om_get k m) as [old|]; [by exists x|]. by injection Ex as <-.
    + by rewrite om_get_set_ne in IH by congruence.
Qed.

(** A configuration that passed the check for depth merges into anything. *)
Lemma merge_total options overlay depth : validate_config_tree (cm_max_depth options) overlay depth = Ok tt ->
  forall base, exists r, merge_config_json options overlay base depth = Ok r.
Proof.
  revert depth. induction overlay as [|z|z|d|s|b|l IH|o IH] using json_rect'; intros depth Hv base;
    cbn [validate_config_tree merge_config_json] in *; (destruct (_ <? depth); [done|]); try by (destruct base; eauto).
  - destruct base; eauto. destruct (cm_arrays options); eauto.
  - destruct base as [| | | | | | |m]; eauto.
    assert (Forall (fun p => forall old, exists r, merge_config_json options p.2 old (depth + 1) = Ok r) o) as HF.
    { apply bind_Ok in Hv as (format & _ & Hv). destruct (String.eqb format _); [done|].
      induction IH as [|[k v] o Hx _ IHo]; [done|]. cbn [validate_members snd] in *.
      apply bind_Ok in Hv as ([] & Hx' & Hv). constructor; [by apply Hx|by apply IHo]. }
    clear -HF. assert (exists r, merge_members options (fun value old => merge_config_json options value old (depth + 1)) o m = Ok r) as [r ->];
      [|by eexists]. revert m. induction HF as [|[k v] o Hx _ IHo]; intros m; [by eexists|]. cbn [merge_members snd] in *.
    destruct (deletes options v); [apply IHo|]. destruct (om_get k m) as [old|]; [|apply IHo].
    destruct (Hx old) as [x ->]. apply IHo.
Qed.

(** Merging an overlay whose depth was checked always succeeds, and the overlay
    decides member by member: a null of it removes the member (unless nulls are
    kept), a member the base lacks is taken over as it is, one both have is merged
    in turn, and every other member of the base stays. *)
Theorem merge_follows_overlay options o m depth :
  validate_config_tree (cm_max_depth options) (JObject o) depth = Ok tt -> NoDup o.*1 ->
  exists merged, merge_config_json options (JObject o) (JObject m) depth = Ok (JObject merged) /\ forall key,
  match om_get key o with
  | None => om_get key merged = om_get key m
  | Some v => if deletes options v then om_get key merged = None else
    match om_get key m with
    | None => om_get key merged = Some v
    | Some old => exists x, merge_config_json options v old (depth + 1) = Ok x /\ om_get key merged = Some x
    end
  end.
Proof.
  intros Hv Hd. destruct (merge_total options _ depth Hv (JObject m)) as [r Hr]. rewrite Hr. cbn [merge_config_json] in Hr.
  destruct (_ <? depth); [done|]. apply bind_Ok in Hr as (merged & Hm & Hr). injection Hr as <-. exists merged. split; [done|].
  by apply merge_members_get.
Qed.
End Laws.
