(* ===== verification/Resolver.v ===== *)
(** * Resolving bundles (src/bundle_resolver.cpp)

    Versions and constraints, the keyring and the check of signatures, the
    repository in memory, the resolution of a bundle's dependencies with its lock
    file, and rollback plans.  OpenSSL is the class [Crypto]; key providers, trust
    policies and repositories are the host's and are records of functions. *)

From S2P Require Import Prelude Json Sha256 Reliability Resource Bundle.
Open Scope string_scope.
Open Scope list_scope.
Open Scope Z_scope.

Definition make_error (category code message : string) : Error := mkError category code message false.

(** [write_json] of this file: two spaces of indentation. *)
Definition write_lock {J : JsonLib} (v : json) : string := jl_write true v.

(** ** Namespaces and keys as text *)
Definition namespace_match (bundle_id scope : string) : bool :=
  String.eqb bundle_id scope
  || (Nat.ltb (String.length scope) (String.length bundle_id)
      && String.eqb (str_upto (String.length scope) bundle_id) scope
      && match String.get (String.length scope) bundle_id with Some c => Ascii.eqb c "." | None => false end).

Fixpoint hex_key (bytes : string) : string :=
  match bytes with
  | EmptyString => EmptyString
  | String c rest =>
    String (hex_digit (Z.shiftr (code c) 4)) (String (hex_digit (Z.land (code c) 15)) (hex_key rest))
  end.
Definition nibble (c : ascii) : option Z :=
  if in_range "0" "9" c then Some (code c - 48)
  else if in_range "a" "f" c then Some (code c - 97 + 10)
  else None.
Fixpoint parse_hex_pairs (text : string) : option string :=
  match text with
  | EmptyString => Some EmptyString
  | String a (String b rest) =>
    high ← nibble a; low ← nibble b;
    bytes ← parse_hex_pairs rest;
    Some (String (chr (Z.lor (Z.shiftl high 4) low)) bytes)
  | String _ EmptyString => None
  end.
Definition parse_key_hex (text : string) : option string :=
  if negb (str_len text =? 64) then None else parse_hex_pairs text.

(** ** Versions

    [std::istringstream >> int] and [>> char] skip white space; an integer is an
    optional sign and digits and must fit an [int]. *)
Fixpoint skip_digits (s : string) : string :=
  match s with
  | String c s' => if is_digit c then skip_digits s' else s
  | EmptyString => EmptyString
  end.
Definition extract_int (s : string) : option (Z * string) :=
  let s := skip_space s in
  let '(negative, s) :=
    match s with
    | String c s' => if Ascii.eqb c "-" then (true, s') else if Ascii.eqb c "+" then (false, s') else (false, s)
    | EmptyString => (false, s)
    end in
  if negb (starts_with_digit s) then None
  else let v := digits_value 0 s in
       let v := if negative : bool then - v else v in
       if (- 2 ^ 31 <=? v) && (v <? 2 ^ 31) then Some (v, skip_digits s) else None.
Definition extract_char (s : string) : option (ascii * string) :=
  match skip_space s with String c s' => Some (c, s') | EmptyString => None end.

Record Version := mkVersion { v_major : Z; v_minor : Z; v_patch : Z; v_text : string }.
Definition parse_version (text : string) : option Version :=
  if str_empty text then None else
  '(major, s) ← extract_int text;
  '(a, s) ← extract_char s;
  '(minor, s) ← extract_int s;
  '(b, s) ← extract_char s;
  '(patch, s) ← extract_int s;
  if negb (Ascii.eqb a ".") || negb (Ascii.eqb b ".") || (major <? 0) || (minor <? 0) || (patch <? 0) then None
  else if negb (str_empty (skip_space s)) then None
  else Some (mkVersion major minor patch text).

Definition compare (a b : Version) : Z :=
  if negb (v_major a =? v_major b) then (if v_major a <? v_major b then -1 else 1)
  else if negb (v_minor a =? v_minor b) then (if v_minor a <? v_minor b then -1 else 1)
  else if v_patch a =? v_patch b then 0 else if v_patch a <? v_patch b then -1 else 1.

(** The first version a caret excludes; an [int] at its maximum would overflow. *)
Definition caret_upper (base : Version) : Version :=
  if 0 <? v_major base then mkVersion (i32 (v_major base + 1)) 0 0 (v_text base)
  else if 0 <? v_minor base then mkVersion (v_major base) (i32 (v_minor base + 1)) 0 (v_text base)
  else mkVersion (v_major base) (v_minor base) (i32 (v_patch base + 1)) (v_text base).
Definition holds (op : string) (c : Z) : bool :=
  if String.eqb op ">=" then 0 <=? c
  else if String.eqb op "<=" then c <=? 0
  else if String.eqb op ">" then 0 <? c
  else if String.eqb op "<" then c <? 0
  else c =? 0.
Definition operators : list string := [">="; "<="; ">"; "<"; "="].
Definition satisfies_atom (version : Version) (atom : string) : bool :=
  if str_empty atom || String.eqb atom "*" then true
  else if str_prefix "^" atom then
    match parse_version (str_from 1 atom) with
    | None => false
    | Some base => (0 <=? compare version base) && (compare version (caret_upper base) <? 0)
    end
  else match List.find (fun op => str_prefix op atom) operators with
  | Some op =>
    match parse_version (str_from (String.length op) atom) with
    | None => false
    | Some target => holds op (compare version target)
    end
  | None =>
    match parse_version atom with
    | None => false
    | Some exact => compare version exact =? 0
    end
  end.

(** [while(input >> atom)]: the words between white space. *)
Fixpoint words_of (s : string) : list string :=
  match s with
  | EmptyString => []
  | String c s' =>
    if is_space c then words_of s'
    else match s' with
         | EmptyString => [String c EmptyString]
         | String d _ => if is_space d then String c EmptyString :: words_of s'
                         else match words_of s' with
                              | [] => [String c EmptyString]
                              | w :: ws => String c w :: ws
                              end
         end
  end.
Definition satisfies (version_text constraint : string) : bool :=
  match parse_version version_text with
  | None => false
  | Some version =>
    match words_of constraint with
    | [] => false
    | atoms => forallb (satisfies_atom version) atoms
    end
  end.

(** ** Signatures *)
Class Crypto := {
  evp_decode_block : string -> option string;           (** [EVP_DecodeBlock]; [None] where it fails *)
  evp_verify_ed25519 : string -> string -> string -> bool  (** key, signature, message *)
}.
Definition ends_with_equals (back : nat) (text : string) : bool :=
  match String.get (String.length text - back) text with Some c => Ascii.eqb c "=" | None => false end.
Definition decode_base64 {C : Crypto} (text : string) : string :=
  if str_empty text || negb (str_len text mod 4 =? 0) then EmptyString
  else match evp_decode_block text with
       | None => EmptyString
       | Some out =>
         let actual := (String.length out - (if ends_with_equals 1 text then 1 else 0)
                        - (if ends_with_equals 2 text then 1 else 0))%nat in
         str_upto actual out
       end.
Definition verify_ed25519 {C : Crypto} (key message signature_base64 : string) : bool :=
  let signature := decode_base64 signature_base64 in
  if negb (str_len key =? 32) || negb (str_len signature =? 64) then false
  else evp_verify_ed25519 key signature message.

Record SignatureContext := mkContext {
  sc_bundle_id : string; sc_bundle_version : string; sc_bundle_digest : string;
  sc_key_id : string; sc_algorithm : string; sc_signed_at : string
}.
(** [KeyProvider::find_key] and [TrustPolicy::trust]. *)
Abbreviation KeyProvider := (string -> SignatureContext -> Result string).
Abbreviation TrustPolicy := (SignatureContext -> Result bool).
Definition allow_known_keys : TrustPolicy := fun _ => Ok true.

Inductive SignaturePolicyKind := Disabled | AtLeastOne | Threshold | AllSignatures.
Record SignaturePolicy := mkSignaturePolicy { sp_kind : SignaturePolicyKind; sp_threshold : Z }.
#[export] Instance SignaturePolicyKind_eq_dec : EqDecision SignaturePolicyKind.
Proof. solve_decision. Defined.
Inductive BundleLoadMode := Development | Frozen | Verified | Offline.
#[export] Instance BundleLoadMode_eq_dec : EqDecision BundleLoadMode.
Proof. solve_decision. Defined.

Record BundleRepository := mkRepository {
  available_versions : string -> bool -> Result (list string);
  get_bundle : string -> string -> bool -> Result ResourceProvider;
  repo_source : exc string
}.
Record BundleResolverOptions := mkResolverOptions {
  ro_mode : BundleLoadMode; ro_repository : option BundleRepository; ro_keys : option KeyProvider;
  ro_trust : option TrustPolicy; ro_lock_json : string; ro_signature_policy : SignaturePolicy
}.

Definition signature_context (bundle : Bundle) (signature : BundleSignature) : SignatureContext :=
  mkContext (bd_id bundle) (bd_version bundle) (bd_digest bundle)
    (sg_key_id signature) (sg_algorithm signature) (sg_signed_at signature).
(** The key under which a signature counts. *)
Definition signing_key {C : Crypto} (keys : KeyProvider) (trust : TrustPolicy) (bundle : Bundle)
    (signature : BundleSignature) : option string :=
  if negb (String.eqb (sg_algorithm signature) "ed25519") then None else
  let context := signature_context bundle signature in
  match keys (sg_key_id signature) context with
  | Err _ => None
  | Ok key =>
    match trust context with
    | Ok true => if verify_ed25519 key (bd_signing_payload bundle) (sg_signature_base64 signature) then Some key else None
    | _ => None
    end
  end.
Fixpoint count_keys {C : Crypto} (keys : KeyProvider) (trust : TrustPolicy) (bundle : Bundle)
    (signatures : list BundleSignature) (seen valid : gset string) : gset string :=
  match signatures with
  | [] => valid
  | signature :: rest =>
    if str_empty (sg_key_id signature) || bool_decide (sg_key_id signature ∈ seen) then
      count_keys keys trust bundle rest seen valid
    else
      let seen := {[sg_key_id signature]} ∪ seen in
      match signing_key keys trust bundle signature with
      | None => count_keys keys trust bundle rest seen valid
      | Some key => count_keys keys trust bundle rest seen ({[hex_key key]} ∪ valid)
      end
  end.
Definition required_keys (policy : SignaturePolicy) (bundle : Bundle) : Z :=
  match sp_kind policy with
  | Threshold => sp_threshold policy
  | AllSignatures => Z.of_nat (length (bd_signatures bundle))
  | _ => 1
  end.
Definition verify_signatures {C : Crypto} (bundle : Bundle) (options : BundleResolverOptions) : exc unit :=
  let policy := ro_signature_policy options in
  if bool_decide (sp_kind policy = Disabled) then Ok tt else
  match ro_keys options, ro_trust options with
  | None, _ => Err (RuntimeError "KEY_PROVIDER_REQUIRED")
  | _, None => Err (RuntimeError "TRUST_POLICY_REQUIRED")
  | Some keys, Some trust =>
    if bool_decide (sp_kind policy = Threshold) && (sp_threshold policy =? 0) then
      Err (RuntimeError "SIGNATURE_POLICY_INVALID") else
    let valid := count_keys keys trust bundle (bd_signatures bundle) ∅ ∅ in
    let required := required_keys policy bundle in
    if (required =? 0) || (Z.of_nat (size valid) <? required) then
      Err (RuntimeError ("SIGNATURE_THRESHOLD_NOT_MET: " +:+ bd_id bundle))
    else Ok tt
  end.

(** ** The keyring *)
Record KeyRecord := mkKeyRecord {
  kr_key_id : string; kr_key : string; kr_namespace_scopes : list string; kr_revoked : bool
}.
#[export] Instance eta_KeyRecord : Settable KeyRecord :=
  fun r => mkKeyRecord (kr_key_id r) (kr_key r) (kr_namespace_scopes r) (kr_revoked r).
Record Keyring := mkKeyring { kg_records : list (string * KeyRecord) }.
Definition empty_keyring : Keyring := mkKeyring [].

Definition bad_scope (scope : string) : bool :=
  str_empty scope || str_prefix "." scope
  || match str_last scope with Some c => Ascii.eqb c "." | None => false end.
Definition keyring_add (record : KeyRecord) (k : Keyring) : exc Keyring :=
  if str_empty (kr_key_id record) || negb (str_len (kr_key record) =? 32) then
    Err (InvalidArgument "invalid Ed25519 key")
  else if existsb bad_scope (kr_namespace_scopes record) then Err (InvalidArgument "invalid key namespace scope")
  else if om_mem (kr_key_id record) (kg_records k) then Err (InvalidArgument "duplicate key id")
  else Ok (mkKeyring (om_set (kr_key_id record) record (kg_records k))).
Definition keyring_add_key (id key : string) (k : Keyring) : exc Keyring :=
  keyring_add (mkKeyRecord id key [] false) k.
Definition keyring_revoke (id : string) (k : Keyring) : exc Keyring :=
  match om_get id (kg_records k) with
  | None => Err (InvalidArgument "cannot revoke unknown key")
  | Some record => Ok (mkKeyring (om_set id (record <| kr_revoked := true |>) (kg_records k)))
  end.
Definition find_key (k : Keyring) : KeyProvider := fun id context =>
  match om_get id (kg_records k) with
  | None => Err (make_error "trust" "UNKNOWN_KEY" ("unknown key: " +:+ id))
  | Some record =>
    if kr_revoked record then Err (make_error "trust" "KEY_REVOKED" ("key is revoked: " +:+ id))
    else match kr_namespace_scopes record with
    | [] => Ok (kr_key record)
    | scopes =>
      if existsb (namespace_match (sc_bundle_id context)) scopes then Ok (kr_key record)
      else Err (make_error "trust" "KEY_SCOPE_DENIED" ("key is outside Bundle namespace: " +:+ id))
    end
  end.

Section Documents.
Context {J : JsonLib}.

Definition key_json (record : KeyRecord) : json :=
  JObject [("algorithm", JString "ed25519"); ("key_id", JString (kr_key_id record));
           ("namespaces", JArray (JString <$> kr_namespace_scopes record));
           ("public_key_hex", JString (hex_key (kr_key record))); ("revoked", JBool (kr_revoked record))].
Definition keyring_json (k : Keyring) : json :=
  JObject [("format", JString "dage-keyring"); ("format_version", JInt 1);
           ("keys", JArray (key_json <$> (kg_records k).*2))].
Definition snapshot_json (k : Keyring) : Result string := Ok (write_lock (keyring_json k)).

(** A failure the code returns, or the value it goes on with. *)
Abbreviation fallible A := (exc (Result A)).
Definition refuse_key {A} (code message : string) : fallible A := Ok (Err (make_error "trust" code message)).
Fixpoint read_scopes (scopes : list json) : fallible (list string) :=
  match scopes with
  | [] => Ok (Ok [])
  | scope :: rest =>
    if negb (is_string scope) then refuse_key "KEY_RECORD_INVALID" "namespace scope must be a string" else
    s ← jl_as_string scope;
    more ← read_scopes rest;
    Ok (match more with Ok l => Ok (s :: l) | Err e => Err e end)
  end.
(** One key of the snapshot: its record, or the failure returned. *)
Definition read_key (ids : gset string) (value : json) : fallible KeyRecord :=
  if negb (is_object value) then refuse_key "KEY_RECORD_INVALID" "invalid key record" else
  algorithm ← get_string "algorithm" "" value;
  if negb (String.eqb algorithm "ed25519") then refuse_key "KEY_RECORD_INVALID" "invalid key record" else
  namespaces ← jget "namespaces" value;
  if negb (is_array namespaces) then refuse_key "KEY_RECORD_INVALID" "invalid key record" else
  key_id ← get_string "key_id" "" value;
  if bool_decide (key_id ∈ ids) then refuse_key "KEY_RECORD_INVALID" "duplicate or invalid key" else
  hex ← get_string "public_key_hex" "" value;
  match parse_key_hex hex with
  | None => refuse_key "KEY_RECORD_INVALID" "duplicate or invalid key"
  | Some bytes =>
    scopes ← read_scopes (jitems namespaces);
    match scopes with
    | Err e => Ok (Err e)
    | Ok scopes =>
      revoked ← get_bool "revoked" false value;
      Ok (Ok (mkKeyRecord key_id bytes scopes revoked))
    end
  end.
Fixpoint read_keys (values : list json) (ids : gset string) (k : Keyring) : fallible Keyring :=
  match values with
  | [] => Ok (Ok k)
  | value :: rest =>
    record ← read_key ids value;
    match record with
    | Err e => Ok (Err e)
    | Ok record =>
      k ← keyring_add record k;
      read_keys rest ({[kr_key_id record]} ∪ ids) k
    end
  end.
Definition from_snapshot_json (text : string) : Result Keyring :=
  match
    (root ← read_json text;
     format ← get_string "format" "" root;
     if negb (String.eqb format "dage-keyring") then refuse_key "KEYRING_INVALID" "invalid keyring header" else
     version ← get_int "format_version" 0 root;
     if negb (version =? 1) then refuse_key "KEYRING_INVALID" "invalid keyring header" else
     keys ← jget "keys" root;
     if negb (is_array keys) then refuse_key "KEYRING_INVALID" "invalid keyring header" else
     read_keys (jitems keys) ∅ empty_keyring) with
  | Ok result => result
  | Err e => Err (make_error "trust" "KEYRING_INVALID" (what e))
  end.

(** ** Lock files *)
Record Locked := mkLocked { lk_version : string; lk_digest : string; lk_source : string }.
Fixpoint read_locks (bundles : json) (ids : list string) (locks : list (string * Locked))
    : exc (list (string * Locked)) :=
  match ids with
  | [] => Ok locks
  | id :: rest =>
    value ← jget id bundles;
    version ← get_string "version" "" value;
    digest ← get_string "digest" "" value;
    source ← get_string "source" "" value;
    if str_empty version || str_empty digest then Err (RuntimeError ("INVALID_LOCK_ENTRY: " +:+ id)) else
    read_locks bundles rest (om_set id (mkLocked version digest source) locks)
  end.
Definition parse_lock (text : string) : exc (list (string * Locked)) :=
  if str_empty text then Ok [] else
  root ← read_json text;
  format ← get_string "format" "" root;
  if negb (String.eqb format "dage-lock") then Err (RuntimeError "INVALID_LOCKFILE") else
  version ← get_int "lock_version" 0 root;
  if negb (version =? 1) then Err (RuntimeError "INVALID_LOCKFILE") else
  bundles ← jget "bundles" root;
  if negb (is_object bundles) then Err (RuntimeError "INVALID_LOCKFILE") else
  ids ← jmembers bundles;
  read_locks bundles ids [].
End Documents.

(** ** The repository in memory *)
Record MemoryBundleRepository := mkMemoryRepository {
  mb_source : string; mb_bundles : list (string * list (string * ResourceProvider))
}.
Definition repository_add (id version : string) (provider : option ResourceProvider) (r : MemoryBundleRepository)
    : exc MemoryBundleRepository :=
  match provider with
  | None => Err (InvalidArgument "bundle provider must not be null")
  | Some provider =>
    Ok (mkMemoryRepository (mb_source r)
          (om_set id (om_set version provider (default [] (om_get id (mb_bundles r)))) (mb_bundles r)))
  end.
Definition memory_available_versions (r : MemoryBundleRepository) (id : string) (_ : bool) : Result (list string) :=
  match om_get id (mb_bundles r) with
  | None => Err (make_error "resolver" "BUNDLE_NOT_FOUND" ("bundle not found: " +:+ id))
  | Some versions => Ok versions.*1
  end.
Definition memory_get_bundle (r : MemoryBundleRepository) (id version : string) (_ : bool) : Result ResourceProvider :=
  match om_get id (mb_bundles r) with
  | None => Err (make_error "resolver" "BUNDLE_NOT_FOUND" ("bundle not found: " +:+ id))
  | Some versions =>
    match om_get version versions with
    | None => Err (make_error "resolver" "VERSION_NOT_FOUND" ("bundle version not found: " +:+ id +:+ "@" +:+ version))
    | Some provider => Ok provider
    end
  end.
Definition memory_repository (r : MemoryBundleRepository) : BundleRepository :=
  mkRepository (memory_available_versions r) (memory_get_bundle r) (Ok (mb_source r)).

(** ** Resolution *)
Record ResolvedBundleGraph := mkGraph {
  gr_root_id : string; gr_lock : string; gr_mode : BundleLoadMode;
  gr_bundles : list (string * Bundle); gr_order : list string
}.
(** What [visit] shares: [selected], [active] and the graph under construction. *)
Record Visiting := mkVisiting {
  vs_selected : list (string * string); vs_active : gset string;
  vs_bundles : list (string * Bundle); vs_order : list string
}.
#[export] Instance eta_Visiting : Settable Visiting :=
  fun s => mkVisiting (vs_selected s) (vs_active s) (vs_bundles s) (vs_order s).

(** The recursion follows dependencies a repository may hold without end, so it is cut
    off after [fuel] of them. *)
Section Resolve.
Context {J : JsonLib} {C : Crypto} (options : BundleResolverOptions).

Definition locked_mode : bool := negb (bool_decide (ro_mode options = Development)).
Definition verified_mode : bool := bool_decide (ro_mode options = Verified) || bool_decide (ro_mode options = Offline).
Definition offline_mode : bool := bool_decide (ro_mode options = Offline).

(** The highest of the versions that satisfy a constraint; of equal ones the first. *)
Definition better (constraint : string) (best : option Version) (candidate : string) : option Version :=
  match parse_version candidate with
  | None => best
  | Some parsed =>
    if satisfies candidate constraint
       && match best with None => true | Some best => 0 <? compare parsed best end
    then Some parsed else best
  end.
Definition best_version (constraint : string) (versions : list string) : option Version :=
  fold_left (better constraint) versions None.

Section Visit.
Context (locks : list (string * Locked)).

Definition choose_version (repository : BundleRepository) (dependency : BundleDependency) : exc string :=
  if locked_mode then
    match om_get (dep_id dependency) locks with
    | None => Err (RuntimeError ("LOCK_ENTRY_REQUIRED: " +:+ dep_id dependency))
    | Some lock =>
      if satisfies (lk_version lock) (dep_constraint dependency) then Ok (lk_version lock)
      else Err (RuntimeError ("LOCK_CONSTRAINT_MISMATCH: " +:+ dep_id dependency))
    end
  else
    versions ← rethrow (available_versions repository (dep_id dependency) false);
    match best_version (dep_constraint dependency) versions with
    | None => Err (RuntimeError ("NO_COMPATIBLE_VERSION: " +:+ dep_id dependency))
    | Some best => Ok (v_text best)
    end.
Definition fetch (repository : BundleRepository) (dependency : BundleDependency) : exc Bundle :=
  version ← choose_version repository dependency;
  provider ← rethrow (get_bundle repository (dep_id dependency) version offline_mode);
  resolved ← load_bundle_from_provider provider;
  if negb (String.eqb (bd_id resolved) (dep_id dependency)) || negb (String.eqb (bd_version resolved) version) then
    Err (RuntimeError ("REPOSITORY_IDENTITY_MISMATCH: " +:+ dep_id dependency +:+ "@" +:+ version))
  else Ok resolved.

Definition check_lock (bundle : Bundle) (source : string) : exc unit :=
  let id := bd_id bundle in
  match om_get id locks with
  | None => Err (RuntimeError ("LOCK_ENTRY_REQUIRED: " +:+ id))
  | Some lock =>
    if negb (String.eqb (lk_version lock) (bd_version bundle)) || negb (String.eqb (lk_digest lock) (bd_digest bundle)) then
      Err (RuntimeError ("LOCK_MISMATCH: " +:+ id))
    else if negb (str_empty (lk_source lock)) && negb (String.eqb (lk_source lock) source) then
      Err (RuntimeError ("LOCK_SOURCE_MISMATCH: " +:+ id))
    else Ok tt
  end.
Definition check_bundle (bundle : Bundle) (source : string) : exc unit :=
  (if locked_mode then check_lock bundle source else Ok tt);;
  (if verified_mode then verify_signatures bundle options else Ok tt).

Definition visit_dependencies (visit : Bundle -> string -> Visiting -> partial Visiting)
    : list BundleDependency -> Visiting -> partial Visiting :=
  fix go dependencies s :=
    match dependencies with
    | [] => Some (Ok s)
    | dependency :: rest =>
      if bool_decide (dep_id dependency ∈ vs_active s) then throws ("DEPENDENCY_CYCLE: " +:+ dep_id dependency) else
      match om_get (dep_id dependency) (vs_selected s) with
      | Some version =>
        if satisfies version (dep_constraint dependency) then go rest s
        else throws ("DEPENDENCY_CONFLICT: " +:+ dep_id dependency)
      | None =>
        match ro_repository options with
        | None => throws "BUNDLE_REPOSITORY_REQUIRED"
        | Some repository =>
          and_then (Some (fetch repository dependency)) (fun resolved =>
          and_then (Some (repo_source repository)) (fun source =>
          and_then (visit resolved source s) (go rest)))
        end
      end
    end.
Fixpoint visit (fuel : nat) (bundle : Bundle) (source : string) (s : Visiting) : partial Visiting :=
  match fuel with
  | O => None
  | S fuel =>
    let id := bd_id bundle in
    if bool_decide (id ∈ vs_active s) then throws ("DEPENDENCY_CYCLE: " +:+ id) else
    match om_get id (vs_selected s) with
    | Some version =>
      if negb (String.eqb version (bd_version bundle)) then throws ("DEPENDENCY_CONFLICT: " +:+ id) else Some (Ok s)
    | None =>
      and_then (Some (check_bundle bundle source)) (fun _ =>
      let s := s <| vs_active := {[id]} ∪ vs_active s |> <| vs_selected := om_set id (bd_version bundle) (vs_selected s) |>
                 <| vs_bundles := om_set id bundle (vs_bundles s) |> in
      and_then (visit_dependencies (visit fuel) (bd_dependencies bundle) s) (fun s =>
      Some (Ok (s <| vs_active := vs_active s ∖ {[id]} |> <| vs_order := vs_order s ++ [id] |>))))
    end
  end.
End Visit.

Definition signature_json (signature : BundleSignature) : json :=
  JObject [("algorithm", JString (sg_algorithm signature)); ("key_id", JString (sg_key_id signature))].
Definition lock_source (root_id id : string) : exc string :=
  if String.eqb id root_id then Ok "root"
  else match ro_repository options with Some repository => repo_source repository | None => Ok EmptyString end.
Definition lock_entry (root_id : string) (item : string * Bundle) : exc (string * json) :=
  source ← lock_source root_id item.1;
  Ok (item.1, JObject [("digest", JString (bd_digest item.2));
                       ("signatures", JArray (signature_json <$> bd_signatures item.2));
                       ("source", JString source); ("version", JString (bd_version item.2))]).
Definition lock_json (root_id : string) (bundles : list (string * Bundle)) : exc json :=
  entries ← mapM (lock_entry root_id) bundles;
  Ok (JObject [("bundles", JObject entries); ("format", JString "dage-lock"); ("lock_version", JInt 1)]).

Definition resolve_unchecked (fuel : nat) (root_provider : ResourceProvider) : partial ResolvedBundleGraph :=
  and_then (Some (parse_lock (ro_lock_json options))) (fun locks =>
  if locked_mode && str_empty (ro_lock_json options) then throws "LOCKFILE_REQUIRED" else
  and_then (Some (load_bundle_from_provider root_provider)) (fun root =>
  let root_id := bd_id root in
  and_then (visit locks fuel root "root" (mkVisiting [] ∅ [] [])) (fun s =>
  and_then (Some (lock_json root_id (vs_bundles s))) (fun lock =>
  Some (Ok (mkGraph root_id (write_lock lock) (ro_mode options) (vs_bundles s) (vs_order s))))))).

(** The code of the failure is the text before the first colon. *)
Definition failure_code (message : string) : string :=
  match str_find ":" 0 message with
  | Some colon => str_upto colon message
  | None => if str_empty message then "RESOLUTION_FAILED" else message
  end.
Definition resolve (fuel : nat) (root_provider : ResourceProvider) : option (Result ResolvedBundleGraph) :=
  match resolve_unchecked fuel root_provider with
  | None => None
  | Some (Ok graph) => Some (Ok graph)
  | Some (Err e) => Some (Err (make_error "resolver" (failure_code (what e)) (what e)))
  end.
End Resolve.

(** ** The resolved graph *)
Definition find_bundle (g : ResolvedBundleGraph) (id : string) : option Bundle := om_get id (gr_bundles g).
Definition root_bundle (g : ResolvedBundleGraph) : option Bundle := find_bundle g (gr_root_id g).

Fixpoint merge_configs {J : JsonLib} (options : ConfigMergeOptions) (g : ResolvedBundleGraph) (ids : list string)
    (merged : json) : Result json :=
  match ids with
  | [] => Ok merged
  | id :: rest =>
    match find_bundle g id with
    | None => merge_configs options g rest merged
    | Some bundle =>
      match deep_merge_config merged (bd_config bundle) options with
      | Err e => Err e
      | Ok next => merge_configs options g rest next
      end
    end
  end.
Definition merged_config {J : JsonLib} (g : ResolvedBundleGraph) (options : ConfigMergeOptions) : Result json :=
  merge_configs options g (gr_order g) (JObject []).

(** ** Rollback *)
Inductive BundleVersionChangeKind := Added | Removed | Changed.
Record BundleVersionChange := mkChange {
  ch_bundle_id : string; ch_kind : BundleVersionChangeKind;
  ch_from_version : string; ch_to_version : string; ch_from_digest : string; ch_to_digest : string
}.
Record BundleRollbackPlan := mkPlan {
  pl_root_bundle_id : string; pl_from_version : string; pl_to_version : string; pl_from_digest : string;
  pl_to_digest : string; pl_target_lock_json : string; pl_target_load_mode : BundleLoadMode;
  pl_target_verified : bool; pl_changes : list BundleVersionChange
}.
Definition change_of (old new : option Bundle) (id : string) : list BundleVersionChange :=
  match old, new with
  | Some o, Some n =>
    if String.eqb (bd_version o) (bd_version n) && String.eqb (bd_digest o) (bd_digest n) then []
    else [mkChange id Changed (bd_version o) (bd_version n) (bd_digest o) (bd_digest n)]
  | None, Some n => [mkChange id Added "" (bd_version n) "" (bd_digest n)]
  | Some o, None => [mkChange id Removed (bd_version o) "" (bd_digest o) ""]
  | None, None => [mkChange id Added "" "" "" ""]
  end.
(** [std::set] of the identifiers of both graphs. *)
Definition all_ids (from to : ResolvedBundleGraph) : list string :=
  (foldl (fun m id => om_set id tt m) [] ((gr_bundles from).*1 ++ (gr_bundles to).*1)).*1.
Definition rollback_error {A} (code message : string) : Result A := Err (make_error "rollback" code message).
(** A graph always holds its root; [None] would be the dereference of a missing one. *)
Definition plan_rollback_to (from_graph target : ResolvedBundleGraph) : option (Result BundleRollbackPlan) :=
  from ← root_bundle from_graph;
  to ← root_bundle target;
  Some
    (if negb (String.eqb (bd_id from) (bd_id to)) then
       rollback_error "ROLLBACK_ROOT_MISMATCH" "rollback target has a different root Bundle id" else
     match parse_version (bd_version from), parse_version (bd_version to) with
     | Some from_version, Some to_version =>
       if 0 <=? compare to_version from_version then
         rollback_error "ROLLBACK_TARGET_NOT_OLDER" "rollback target root version must be older than the current version"
       else if str_empty (gr_lock target) then
         rollback_error "ROLLBACK_TARGET_UNLOCKED" "rollback target must contain an exact lockfile"
       else Ok (mkPlan (bd_id from) (bd_version from) (bd_version to) (bd_digest from) (bd_digest to) (gr_lock target)
                  (gr_mode target) (bool_decide (gr_mode target = Verified) || bool_decide (gr_mode target = Offline))
                  (all_ids from_graph target ≫= fun id => change_of (find_bundle from_graph id) (find_bundle target id) id))
     | _, _ => rollback_error "ROLLBACK_VERSION_INVALID" "root Bundle versions must be valid SemVer core versions"
     end).
