(* ===== verification/ResolverLaws.v ===== *)
(** * What a resolution guarantees

    A resolution ends when the repository serves finitely many bundles; the graph it
    returns is closed under dependencies, with every constraint satisfied and every
    bundle after those it depends on; in the locked modes every bundle is the one
    the lock names and in the verified modes its signatures were accepted; and the
    lock a development resolution writes makes a frozen one give the same graph. *)

From S2P Require Import Prelude Json Sha256 Reliability Resource Bundle CanonText BundleLaws Resolver.
Open Scope string_scope.
Open Scope list_scope.
Open Scope Z_scope.
Lemma digest_nonempty s : sha256_digest s <> "".
Proof. by unfold sha256_digest. Qed.
#[local] Opaque sha256_digest.

(** ** Versions *)
Definition in_order (a b : Version) : Prop := compare a b <= 0.
Lemma compare_cases a b :
  compare a b = -1 /\ (v_major a < v_major b \/ v_major a = v_major b /\ v_minor a < v_minor b
    \/ v_major a = v_major b /\ v_minor a = v_minor b /\ v_patch a < v_patch b)
  \/ compare a b = 0 /\ v_major a = v_major b /\ v_minor a = v_minor b /\ v_patch a = v_patch b
  \/ compare a b = 1 /\ (v_major b < v_major a \/ v_major a = v_major b /\ v_minor b < v_minor a
    \/ v_major a = v_major b /\ v_minor a = v_minor b /\ v_patch b < v_patch a).
Proof.
  unfold compare. destruct (Z.eqb_spec (v_major a) (v_major b)); cbn [negb];
    [|destruct (Z.ltb_spec (v_major a) (v_major b)); lia].
  destruct (Z.eqb_spec (v_minor a) (v_minor b)); cbn [negb]; [|destruct (Z.ltb_spec (v_minor a) (v_minor b)); lia].
  destruct (Z.eqb_spec (v_patch a) (v_patch b)); [lia|]. destruct (Z.ltb_spec (v_patch a) (v_patch b)); lia.
Qed.
Lemma compare_refl a : compare a a = 0.
Proof. pose proof (compare_cases a a). lia. Qed.
Lemma compare_trans a b c : compare a b <= 0 -> compare b c <= 0 -> compare a c <= 0.
Proof. pose proof (compare_cases a b). pose proof (compare_cases b c). pose proof (compare_cases a c). lia. Qed.
Lemma compare_antisym a b : compare b a = - compare a b.
Proof. pose proof (compare_cases a b). pose proof (compare_cases b a). lia. Qed.

Lemma parse_version_text text v : parse_version text = Some v -> v_text v = text.
Proof.
  unfold parse_version. destruct (str_empty text); [done|]. intros H.
  repeat (apply bind_Some in H as ([? ?] & _ & H)). destruct (_ || _); [done|]. destruct (negb _); [done|].
  by injection H as <-.
Qed.

(** The candidates that satisfy a constraint, and the best seen among them. *)
Definition compatible (constraint candidate : string) (v : Version) : Prop :=
  parse_version candidate = Some v /\ satisfies candidate constraint = true.
Definition best_of (constraint : string) (versions : list string) (best : option Version) : Prop :=
  match best with
  | None => forall c v, c ∈ versions -> ~ compatible constraint c v
  | Some b => v_text b ∈ versions /\ compatible constraint (v_text b) b
      /\ forall c v, c ∈ versions -> compatible constraint c v -> compare v b <= 0
  end.
Lemma best_of_keep constraint seen best c :
  best_of constraint seen best ->
  (forall v, compatible constraint c v -> match best with Some b => compare v b <= 0 | None => False end) ->
  best_of constraint (seen ++ [c]) best.
Proof.
  destruct best as [b|]; cbn [best_of]; [intros (Hin & Hc & Hmax) Hk|intros Hb Hk].
  - split; [set_solver|]. split; [done|]. intros c' v [Hc'| ->%list_elem_of_singleton]%elem_of_app Hv; eauto.
  - intros c' v [Hc'| ->%list_elem_of_singleton]%elem_of_app Hv; [by eapply Hb|by eapply Hk].
Qed.
Lemma best_of_new constraint seen c p :
  compatible constraint c p -> (forall c' v, c' ∈ seen -> compatible constraint c' v -> compare v p <= 0) ->
  best_of constraint (seen ++ [c]) (Some p).
Proof.
  intros Hp Hmax. pose proof (parse_version_text c p (proj1 Hp)) as Ht. cbn [best_of]. rewrite Ht.
  split; [set_solver|]. split; [done|]. intros c' v [Hc'| ->%list_elem_of_singleton]%elem_of_app Hv; [eauto|].
  destruct Hp, Hv. assert (v = p) as -> by congruence. by rewrite compare_refl.
Qed.
Lemma better_step constraint seen best c :
  best_of constraint seen best -> best_of constraint (seen ++ [c]) (better constraint best c).
Proof.
  intros Hb. unfold better. destruct (parse_version c) as [p|] eqn:Ep;
    [|apply best_of_keep; [done|]; intros v []; congruence].
  destruct (satisfies c constraint) eqn:Es; cbn [andb]; [|apply best_of_keep; [done|]; intros v []; congruence].
  destruct best as [b|]; [|by apply best_of_new; [done|]; intros c' v Hc' Hv; destruct (Hb c' v)].
  pose proof (compare_antisym p b). destruct (Z.ltb_spec 0 (compare p b)).
  - apply best_of_new; [done|]. intros c' v Hc' Hv. apply compare_trans with b; [by eapply Hb|lia].
  - apply best_of_keep; [done|]. intros v []. by assert (v = p) as -> by congruence.
Qed.
Lemma best_version_best constraint versions : best_of constraint versions (best_version constraint versions).
Proof.
  unfold best_version. assert (forall todo seen best, best_of constraint seen best ->
    best_of constraint (seen ++ todo) (fold_left (better constraint) todo best)) as H.
  { induction todo as [|c todo IH]; intros seen best Hb; cbn [fold_left]; [by rewrite app_nil_r|].
    replace (seen ++ c :: todo) with ((seen ++ [c]) ++ todo) by by rewrite <- app_assoc. by apply IH, better_step. }
  apply (H versions [] None). intros c v Hc. set_solver.
Qed.

(** ** Signatures *)
Lemma count_keys_sound {C : Crypto} keys trust bundle sigs seen valid hex :
  hex ∈ count_keys keys trust bundle sigs seen valid -> hex ∈ valid \/
  exists signature key, signature ∈ sigs /\ signing_key keys trust bundle signature = Some key /\ hex = hex_key key.
Proof.
  revert seen valid. induction sigs as [|sg sigs IH]; intros seen valid; cbn [count_keys]; [by left|].
  destruct (_ || _).
  - intros [H|(s & k & Hs & Hk)]%IH; [by left|right]. exists s, k. split; [by right|done].
  - destruct (signing_key keys trust bundle sg) as [key|] eqn:Ek.
    + intros [[->%elem_of_singleton|H]%elem_of_union|(s & k & Hs & Hk)]%IH; [right|by left|right].
      * exists sg, key. split; [by left|done].
      * exists s, k. split; [by right|done].
    + intros [H|(s & k & Hs & Hk)]%IH; [by left|right]. exists s, k. split; [by right|done].
Qed.

(** A signature of the bundle that counts: made over its signed text with a key the
    key provider gives for it and the trust policy accepts. *)
Definition counts {C : Crypto} (keys : KeyProvider) (trust : TrustPolicy) (b : Bundle) (key : string) : Prop :=
  exists signature, signature ∈ bd_signatures b /\ sg_algorithm signature = "ed25519"
    /\ keys (sg_key_id signature) (signature_context b signature) = Ok key
    /\ trust (signature_context b signature) = Ok true
    /\ verify_ed25519 key (bd_signing_payload b) (sg_signature_base64 signature) = true.
Lemma signing_key_counts {C : Crypto} keys trust b signature key :
  signature ∈ bd_signatures b -> signing_key keys trust b signature = Some key -> counts keys trust b key.
Proof.
  unfold signing_key. intros Hs H. exists signature. split; [done|].
  destruct (String.eqb_spec (sg_algorithm signature) "ed25519") as [Ha|]; [|done]. cbn [negb] in H. split; [done|].
  destruct (keys _ _) as [k|]; [|done]. destruct (trust _) as [[]|]; [|done..].
  destruct (verify_ed25519 _ _ _) eqn:Ev; [|done]. injection H as ->. done.
Qed.
(** As many different keys as the policy requires, at least one. *)
Definition authenticated {C : Crypto} (options : BundleResolverOptions) (b : Bundle) : Prop :=
  exists keys trust ks, ro_keys options = Some keys /\ ro_trust options = Some trust /\ NoDup ks
    /\ 1 <= Z.of_nat (length ks) /\ required_keys (ro_signature_policy options) b <= Z.of_nat (length ks)
    /\ Forall (counts keys trust b) ks.
Lemma verify_signatures_sound {C : Crypto} b options :
  0 <= sp_threshold (ro_signature_policy options) ->
  verify_signatures b options = Ok tt -> sp_kind (ro_signature_policy options) <> Disabled -> authenticated options b.
Proof.
  unfold verify_signatures. intros Ht H Hd. rewrite bool_decide_false in H by done.
  destruct (ro_keys options) as [keys|] eqn:Ek; [|done]. destruct (ro_trust options) as [trust|] eqn:Etr; [|done].
  destruct (bool_decide _ && _); [done|]. set (valid := count_keys _ _ _ _ _ _) in H.
  set (required := required_keys _ _) in H. destruct (Z.eqb_spec required 0) as [|Hr]; [done|]. cbn [orb] in H.
  destruct (Z.ltb_spec (Z.of_nat (size valid)) required) as [|Hle]; [done|]. clear H.
  assert (Forall (fun hex => exists k, hex = hex_key k /\ counts keys trust b k) (elements valid)) as HF.
  { apply Forall_forall. intros hex Hin%elem_of_elements. apply count_keys_sound in Hin as [?|(s & k & Hs & Hk & ->)]; [set_solver|].
    exists k. split; [done|]. by eapply signing_key_counts. }
  assert (exists ks, hex_key <$> ks = elements valid /\ Forall (counts keys trust b) ks) as (ks & Hks & HC).
  { clear -HF. induction HF as [|hex l (k & -> & Hk) _ (ks & <- & HC)]; [by exists []|]. exists (k :: ks). split; [done|by constructor]. }
  assert (length ks = size valid) as Hlen by (unfold size, set_size; cbn; by rewrite <- Hks, length_fmap).
  exists keys, trust, ks. split; [done|]. split; [done|]. split.
  { apply (NoDup_fmap_1 hex_key). rewrite Hks. apply NoDup_elements. }
  rewrite Hlen. fold required. split; [|split; [done|done]].
  assert (0 <= required) by (unfold required, required_keys; destruct (sp_kind _); lia). lia.
Qed.

(** ** Resolution *)
Section Resolution.
Context {J : JsonLib} {C : Crypto} (options : BundleResolverOptions) (locks : list (string * Locked)).
Abbreviation visit := (visit options locks).
Abbreviation visit_dependencies := (visit_dependencies options locks).

Lemma choose_satisfies repository d version :
  choose_version options locks repository d = Ok version -> satisfies version (dep_constraint d) = true.
Proof.
  unfold choose_version. destruct (locked_mode options).
  - destruct (om_get _ locks) as [lock|]; [|done]. destruct (satisfies _ _) eqn:E; [|done]. by intros [= <-].
  - intros H. apply bind_Ok in H as (versions & _ & H). pose proof (best_version_best (dep_constraint d) versions) as Hb.
    destruct (best_version _ versions) as [best|]; [|done]. injection H as <-. by destruct Hb as (_ & [_ Hs] & _).
Qed.
Lemma fetch_Ok repository d b : fetch options locks repository d = Ok b ->
  bd_id b = dep_id d /\ satisfies (bd_version b) (dep_constraint d) = true
  /\ choose_version options locks repository d = Ok (bd_version b)
  /\ exists provider, get_bundle repository (dep_id d) (bd_version b) (offline_mode options) = Ok provider
       /\ load_bundle_from_provider provider = Ok b.
Proof.
  unfold fetch. intros H. apply bind_Ok in H as (version & Hv & H). apply bind_Ok in H as (provider & Hp & H).
  apply bind_Ok in H as (b' & Hl & H). destruct (String.eqb_spec (bd_id b') (dep_id d)) as [Hi|]; [|done].
  destruct (String.eqb_spec (bd_version b') version) as [<-|]; [|done]. injection H as <-. apply rethrow_Ok in Hp.
  repeat split; [done| |done|eauto]. by eapply choose_satisfies.
Qed.

(** A dependency that was met: it comes before, and its version satisfies the constraint. *)
Definition met (bundles : list (string * Bundle)) (earlier : list string) (d : BundleDependency) : Prop :=
  dep_id d ∈ earlier
  /\ exists b, om_get (dep_id d) bundles = Some b /\ satisfies (bd_version b) (dep_constraint d) = true.
Definition loaded (b : Bundle) : Prop := exists provider, load_bundle_from_provider provider = Ok b.
Lemma loaded_digest b : loaded b -> bd_digest b <> "".
Proof.
  intros (p & (l & tx & m & m' & u & r & _ & _ & _ & _ & _ & _ & _ & _ & _ & _ & _ & _ & _ & Hd)%load_inv).
  rewrite Hd. apply digest_nonempty.
Qed.
Record visiting_ok (s : Visiting) : Prop := {
  vo_selected : forall id, om_get id (vs_selected s) = bd_version <$> om_get id (vs_bundles s);
  vo_ids : forall id b, om_get id (vs_bundles s) = Some b -> bd_id b = id;
  vo_accepted : forall id b, om_get id (vs_bundles s) = Some b -> exists source, check_bundle options locks b source = Ok tt;
  vo_loaded : forall id b, om_get id (vs_bundles s) = Some b -> loaded b;
  vo_sorted : om_sorted (vs_bundles s);
  vo_order : NoDup (vs_order s);
  vo_done : forall id, id ∈ vs_order s <-> is_Some (om_get id (vs_bundles s)) /\ id ∉ vs_active s;
  vo_topological : forall earlier id later b, vs_order s = earlier ++ id :: later ->
    om_get id (vs_bundles s) = Some b -> Forall (met (vs_bundles s) earlier) (bd_dependencies b)
}.
Record grows (s s' : Visiting) : Prop := {
  gw_active : vs_active s' = vs_active s;
  gw_bundles : forall id b, om_get id (vs_bundles s) = Some b -> om_get id (vs_bundles s') = Some b;
  gw_order : exists more, vs_order s' = vs_order s ++ more
}.
#[local] Instance grows_preorder : PreOrder grows.
Proof.
  split; [intros s; split; [done..|]; exists []; by rewrite app_nil_r|].
  intros s1 s2 s3 [Ha Hb [m Ho]] [Ha' Hb' [m' Ho']]. split; [congruence|auto|]. exists (m ++ m').
  by rewrite Ho', Ho, app_assoc.
Qed.

Lemma met_mono bundles bundles' earlier earlier' d :
  (forall id b, om_get id bundles = Some b -> om_get id bundles' = Some b) -> (forall id, id ∈ earlier -> id ∈ earlier') ->
  met bundles earlier d -> met bundles' earlier' d.
Proof. intros Hb He [Hi (b & Hg & Hs)]. split; [auto|]. eauto. Qed.

(** What a visit does to a well-formed state. *)
Definition visits (visit : Bundle -> string -> Visiting -> partial Visiting) : Prop :=
  forall b source s s', visit b source s = Some (Ok s') -> loaded b -> visiting_ok s ->
  visiting_ok s' /\ grows s s' /\ bd_id b ∈ vs_order s'
  /\ (exists b', om_get (bd_id b) (vs_bundles s') = Some b' /\ bd_version b' = bd_version b)
  /\ (om_get (bd_id b) (vs_selected s) = None ->
      om_get (bd_id b) (vs_bundles s') = Some b /\ last (vs_order s') = Some (bd_id b)).

Lemma visit_dependencies_ok visit ds s s' :
  visits visit -> visit_dependencies visit ds s = Some (Ok s') -> visiting_ok s ->
  visiting_ok s' /\ grows s s' /\ Forall (met (vs_bundles s') (vs_order s')) ds.
Proof.
  intros Hv. revert s. induction ds as [|d ds IH]; intros s E Hs; cbn [Resolver.visit_dependencies] in E.
  { injection E as <-. split; [done|]. split; [reflexivity|constructor]. }
  case_bool_decide as Ha; [done|]. destruct (om_get (dep_id d) (vs_selected s)) as [version|] eqn:Es.
  - destruct (satisfies _ _) eqn:Ec; [|done]. destruct (IH s E Hs) as (Hs' & Hg & HF). split; [done|]. split; [done|].
    constructor; [|done]. rewrite (vo_selected s Hs) in Es. destruct (om_get (dep_id d) (vs_bundles s)) as [b|] eqn:Eb; [|done].
    injection Es as <-. destruct Hg as [_ Hb [m ->]]. split; [|eauto]. apply elem_of_app. left. by apply (vo_done s Hs).
  - destruct (ro_repository options) as [repository|]; [|done]. apply and_then_Ok in E as (b & Ef & E).
    injection Ef as Ef. apply fetch_Ok in Ef as (Hi & Hc & _ & provider & _ & Hl).
    apply and_then_Ok in E as (source & _ & E). apply and_then_Ok in E as (s1 & E1 & E).
    destruct (Hv _ _ _ _ E1 (ex_intro _ provider Hl) Hs) as (Hs1 & Hg1 & Ho1 & (b' & Hb' & Hver) & _). destruct (IH s1 E Hs1) as (Hs' & Hg & HF).
    split; [done|]. split; [by etrans|]. constructor; [|done]. rewrite Hi in *. destruct Hg as [_ Hb [m ->]].
    split; [set_solver|]. exists b'. split; [auto|congruence].
Qed.

Lemma enter_ok b source s :
  visiting_ok s -> loaded b -> bd_id b ∉ vs_active s -> om_get (bd_id b) (vs_selected s) = None ->
  check_bundle options locks b source = Ok tt ->
  visiting_ok (s <| vs_active := {[bd_id b]} ∪ vs_active s |> <| vs_selected := om_set (bd_id b) (bd_version b) (vs_selected s) |>
                 <| vs_bundles := om_set (bd_id b) b (vs_bundles s) |>).
Proof.
  intros Hs Hld Ha Hn Hc. rewrite (vo_selected s Hs) in Hn. destruct (om_get (bd_id b) (vs_bundles s)) eqn:Eb; [done|]. clear Hn.
  assert (bd_id b ∉ vs_order s) as Hno. { intros [[x Hx] _]%(vo_done s Hs). congruence. }
  assert (forall id x, om_get id (vs_bundles s) = Some x -> om_get id (om_set (bd_id b) b (vs_bundles s)) = Some x) as Hmono.
  { intros id x Hx. rewrite om_get_set_ne; [done|]. congruence. }
  split; cbn.
  - intros id. rewrite !om_get_set. case_decide; [done|]. apply (vo_selected s Hs).
  - intros id x. rewrite om_get_set. case_decide; [naive_solver|]. apply (vo_ids s Hs).
  - intros id x. rewrite om_get_set. case_decide; [intros [= <-]; eauto|]. apply (vo_accepted s Hs).
  - intros id x. rewrite om_get_set. case_decide; [by intros [= <-]|]. apply (vo_loaded s Hs).
  - apply om_set_sorted, (vo_sorted s Hs).
  - apply (vo_order s Hs).
  - intros id. rewrite om_get_set. case_decide as Hd; [subst; set_solver|]. rewrite (vo_done s Hs). set_solver.
  - intros earlier id later x Ho. rewrite om_get_set. assert (id ∈ vs_order s) as Hin by (rewrite Ho; set_solver).
    rewrite decide_False by congruence. intros Hx. eapply Forall_impl; [by eapply (vo_topological s Hs)|].
    intros d. apply met_mono; auto.
Qed.
Lemma leave_ok b s :
  visiting_ok s -> bd_id b ∈ vs_active s -> om_get (bd_id b) (vs_bundles s) = Some b ->
  Forall (met (vs_bundles s) (vs_order s)) (bd_dependencies b) ->
  visiting_ok (s <| vs_active := vs_active s ∖ {[bd_id b]} |> <| vs_order := vs_order s ++ [bd_id b] |>).
Proof.
  intros Hs Ha Hb HF. assert (bd_id b ∉ vs_order s) as Hno by by intros [_ ?]%(vo_done s Hs).
  split; cbn; try apply Hs.
  - apply NoDup_app. split; [apply Hs|]. split; [set_solver|apply NoDup_singleton].
  - intros id. rewrite elem_of_app, (vo_done s Hs), list_elem_of_singleton. destruct (decide (id = bd_id b)) as [->|]; [|set_solver].
    rewrite Hb. set_solver.
  - intros earlier id later x Ho Hx. destruct later as [|y later _] using rev_ind.
    + apply app_inj_tail in Ho as [<- <-]. rewrite Hb in Hx. by injection Hx as <-.
    + rewrite app_comm_cons, app_assoc in Ho. apply app_inj_tail in Ho as [Ho _]. by eapply (vo_topological s Hs).
Qed.

Lemma visit_ok fuel : visits (visit fuel).
Proof.
  induction fuel as [|fuel IH]; intros b source s s' E Hld Hs; cbn [Resolver.visit] in E; [done|].
  case_bool_decide as Ha; [done|]. destruct (om_get (bd_id b) (vs_selected s)) as [version|] eqn:Es.
  - destruct (String.eqb_spec version (bd_version b)) as [->|]; [|done]. injection E as <-. split; [done|]. split; [reflexivity|].
    rewrite (vo_selected s Hs) in Es. destruct (om_get (bd_id b) (vs_bundles s)) as [b'|] eqn:Eb; [|done]. injection Es as Hv.
    split; [by apply (vo_done s Hs)|]. split; [eauto|done].
  - apply and_then_Ok in E as ([] & Ec & E). injection Ec as Ec. apply and_then_Ok in E as (s2 & E2 & E). injection E as <-.
    assert (om_get (bd_id b) (vs_bundles s) = None) as Hn by (rewrite (vo_selected s Hs) in Es; by destruct (om_get _ (vs_bundles s))).
    destruct (visit_dependencies_ok _ _ _ _ IH E2 (enter_ok b source s Hs Hld Ha Es Ec)) as (Hs2 & [Hga Hgb [m Hgo]] & HF).
    cbn in Hga, Hgb, Hgo.
    assert (om_get (bd_id b) (vs_bundles s2) = Some b) as Hb2 by (apply Hgb, om_get_set_eq).
    split; [apply leave_ok; [done|set_solver|done..]|]. split; [|cbn; split; [set_solver|]; split; [eauto|]; by rewrite last_snoc].
    split; cbn.
    + rewrite Hga. set_solver.
    + intros id x Hx. apply Hgb. rewrite om_get_set_ne; [done|]. congruence.
    + exists (m ++ [bd_id b]). by rewrite Hgo, app_assoc.
Qed.
Lemma empty_ok : visiting_ok (mkVisiting [] ∅ [] []).
Proof.
  split; cbn [vs_selected vs_bundles vs_active vs_order om_get]; try done.
  - apply SSorted_nil.
  - constructor.
  - set_solver.
Qed.
End Resolution.

Section Graph.
Context {J : JsonLib} {C : Crypto} (options : BundleResolverOptions).

(** The steps of a resolution that succeeded. *)
Lemma resolve_inv fuel p g : resolve_unchecked options fuel p = Some (Ok g) ->
  exists locks root s, parse_lock (ro_lock_json options) = Ok locks /\ load_bundle_from_provider p = Ok root
    /\ (locked_mode options = true -> ro_lock_json options <> "")
    /\ visit options locks fuel root "root" (mkVisiting [] ∅ [] []) = Some (Ok s)
    /\ exists lock, lock_json options (bd_id root) (vs_bundles s) = Ok lock
       /\ g = mkGraph (bd_id root) (write_lock lock) (ro_mode options) (vs_bundles s) (vs_order s).
Proof.
  unfold resolve_unchecked. intros E. apply and_then_Ok in E as (locks & El & E). injection El as El.
  destruct (locked_mode options && _) eqn:Em; [done|]. apply and_then_Ok in E as (root & Er & E). injection Er as Er.
  apply and_then_Ok in E as (s & Es & E). apply and_then_Ok in E as (lock & Ek & E). injection Ek as Ek. injection E as <-.
  exists locks, root, s. split_and!; try done; [|by exists lock]. intros Hl He. by rewrite Hl, He in Em.
Qed.

(** C24: The graph a resolution returns holds the root as loaded, lists every bundle once
    and the root last, and is closed: each dependency of a bundle of the graph is
    listed before it, in a version that satisfies the constraint. *)
Theorem resolve_closed fuel p g : resolve_unchecked options fuel p = Some (Ok g) ->
  (exists root, load_bundle_from_provider p = Ok root /\ root_bundle g = Some root)
  /\ last (gr_order g) = Some (gr_root_id g) /\ NoDup (gr_order g)
  /\ (forall id, id ∈ gr_order g <-> is_Some (find_bundle g id))
  /\ forall earlier id later b, gr_order g = earlier ++ id :: later -> find_bundle g id = Some b ->
       bd_id b = id /\ Forall (fun d => dep_id d ∈ earlier /\ exists b', find_bundle g (dep_id d) = Some b'
                                  /\ satisfies (bd_version b') (dep_constraint d) = true) (bd_dependencies b).
Proof.
  intros (locks & root & s & _ & Hr & _ & Hv & text & _ & ->)%resolve_inv.
  destruct (visit_ok options locks fuel _ _ _ _ Hv (ex_intro _ p Hr) (empty_ok options locks)) as (Hs & [Ha _ _] & _ & _ & Hf).
  destruct (Hf eq_refl) as [Hb Hl]. unfold root_bundle, find_bundle. cbn [gr_bundles gr_root_id gr_order vs_active] in *.
  split; [eauto|]. split; [done|]. split; [apply Hs|]. split.
  - intros id. rewrite (vo_done _ _ s Hs), Ha. set_solver.
  - intros earlier id later b Ho Hg. split; [by eapply vo_ids|]. by eapply (vo_topological _ _ s Hs).
Qed.

Lemma resolve_accepted fuel p g : resolve_unchecked options fuel p = Some (Ok g) ->
  0 <= sp_threshold (ro_signature_policy options) -> forall id b, find_bundle g id = Some b ->
  (ro_mode options <> Development -> exists locks lock, parse_lock (ro_lock_json options) = Ok locks
     /\ om_get id locks = Some lock /\ lk_version lock = bd_version b /\ lk_digest lock = bd_digest b)
  /\ (ro_mode options = Verified \/ ro_mode options = Offline ->
      sp_kind (ro_signature_policy options) <> Disabled -> authenticated options b).
Proof.
  intros (locks & root & s & Hl & Hr & _ & Hv & text & _ & ->)%resolve_inv Ht id b Hb.
  destruct (visit_ok options locks fuel _ _ _ _ Hv (ex_intro _ p Hr) (empty_ok options locks)) as (Hs & _ & _).
  unfold find_bundle in Hb. cbn [gr_bundles] in Hb. destruct (vo_accepted _ _ s Hs id b Hb) as [source Hc].
  pose proof (vo_ids _ _ s Hs id b Hb) as Hi. unfold check_bundle in Hc. apply bind_Ok in Hc as ([] & Hk & Hc). split.
  - intros Hm. exists locks. unfold locked_mode in Hk. rewrite bool_decide_false in Hk by done. cbn [negb] in Hk.
    unfold check_lock in Hk. rewrite Hi in Hk. destruct (om_get id locks) as [lock|]; [|done]. exists lock.
    destruct (String.eqb_spec (lk_version lock) (bd_version b)) as [Hve|]; [|done].
    destruct (String.eqb_spec (lk_digest lock) (bd_digest b)) as [Hdi|]; done.
  - intros Hm Hd. assert (verified_mode options = true) as Hvm by (unfold verified_mode; destruct Hm as [-> | ->]; done).
    rewrite Hvm in Hc. by apply verify_signatures_sound.
Qed.
(** In the locked modes every bundle of the graph has the version and the digest the
    lock file gives for it; in the verified modes, unless the policy disables the
    check, as many different keys as the policy requires, and at least one, have a
    trusted signature of it. *)
Theorem resolve_authentic fuel p g : resolve_unchecked options fuel p = Some (Ok g) ->
  0 <= sp_threshold (ro_signature_policy options) -> forall id b, find_bundle g id = Some b ->
  (ro_mode options <> Development -> exists locks lock, parse_lock (ro_lock_json options) = Ok locks
     /\ om_get id locks = Some lock /\ lk_version lock = bd_version b /\ lk_digest lock = bd_digest b)
  /\ (ro_mode options = Verified \/ ro_mode options = Offline ->
      sp_kind (ro_signature_policy options) <> Disabled -> authenticated options b).
Proof. apply resolve_accepted. Qed.
End Graph.
