(* ===== verification/LockLaws.v ===== *)
(** * Termination and reproducibility of resolutions

    A resolution over a repository that serves finitely many bundles returns, and the
    lock file it writes reproduces it: resolving the same root in the frozen mode
    with that lock gives the same graph.  Also here: a rollback plan turns the
    versions of one graph into those of the other, and a keyring survives its
    snapshot. *)

From S2P Require Import Prelude Json Sha256 Reliability Resource Bundle CanonText BundleLaws Resolver ResolverLaws.
Open Scope string_scope.
Open Scope list_scope.
Open Scope Z_scope.
#[local] Opaque sha256_digest.

(** ** Termination *)
Section Returns.
Context {J : JsonLib} {C : Crypto} (options : BundleResolverOptions) (locks : list (string * Locked)).
Abbreviation visit := (visit options locks).
Abbreviation visit_dependencies := (visit_dependencies options locks).

Lemma visit_dependencies_active (v : Bundle -> string -> Visiting -> partial Visiting) ds s s' :
  (forall b source s s', v b source s = Some (Ok s') -> vs_active s' = vs_active s) ->
  visit_dependencies v ds s = Some (Ok s') -> vs_active s' = vs_active s.
Proof.
  intros Hv. revert s. induction ds as [|d ds IH]; intros s E; cbn [Resolver.visit_dependencies] in E; [by injection E as <-|].
  case_bool_decide; [done|]. destruct (om_get _ _); [destruct (satisfies _ _); [by apply IH|done]|].
  destruct (ro_repository options) as [repository|]; [|done]. apply and_then_Ok in E as (b & _ & E).
  apply and_then_Ok in E as (source & _ & E). apply and_then_Ok in E as (s1 & E1 & E). rewrite (IH s1 E). by eapply Hv.
Qed.
Lemma visit_active fuel b source s s' : visit fuel b source s = Some (Ok s') -> vs_active s' = vs_active s.
Proof.
  revert b source s s'. induction fuel as [|fuel IH]; intros b source s s' E; cbn [Resolver.visit] in E; [done|].
  case_bool_decide as Ha; [done|]. destruct (om_get _ _); [destruct (negb _); [done|by injection E as <-]|].
  apply and_then_Ok in E as ([] & _ & E). apply and_then_Ok in E as (s1 & E1 & E). injection E as <-. cbn.
  apply visit_dependencies_active in E1 as ->; [|exact IH]. cbn. set_solver.
Qed.

Context (known : gset string).
Hypothesis Hknown : forall repository id version offline,
  ro_repository options = Some repository -> id ∉ known -> is_ok (get_bundle repository id version offline) = false.

Lemma visit_dependencies_returns (v : Bundle -> string -> Visiting -> partial Visiting) (active : gset string) ds s :
  (forall b source s, bd_id b ∈ known -> vs_active s = active -> is_Some (v b source s)) ->
  (forall b source s s', v b source s = Some (Ok s') -> vs_active s' = vs_active s) ->
  vs_active s = active -> is_Some (visit_dependencies v ds s).
Proof.
  intros Hv Hp. revert s. induction ds as [|d ds IH]; intros s Ha; cbn [Resolver.visit_dependencies]; [by eexists|].
  case_bool_decide; [by eexists|]. destruct (om_get _ _); [destruct (satisfies _ _); [by apply IH|by eexists]|].
  destruct (ro_repository options) as [repository|] eqn:Er; [|by eexists]. apply and_then_Some; [by eexists|].
  intros b [= Hb]. apply fetch_Ok in Hb as (Hi & _ & _ & provider & Hg & _).
  apply and_then_Some; [by eexists|]. intros source _. apply and_then_Some.
  - apply Hv; [|done]. rewrite Hi. destruct (decide (dep_id d ∈ known)) as [|Hn]; [done|].
    pose proof (Hknown repository (dep_id d) (bd_version b) (offline_mode options) eq_refl Hn) as Hk. by rewrite Hg in Hk.
  - intros s1 E1. apply IH. by rewrite (Hp _ _ _ _ E1).
Qed.
Lemma visit_returns fuel b source s (within : gset string) :
  bd_id b ∈ within -> known ⊆ within -> (size (within ∖ vs_active s) < fuel)%nat -> is_Some (visit fuel b source s).
Proof.
  intros Hb Hw. revert b source s Hb. induction fuel as [|fuel IH]; intros b source s Hb Hn; [lia|]. cbn [Resolver.visit].
  case_bool_decide as Ha; [by eexists|]. destruct (om_get _ _); [destruct (negb _); by eexists|].
  apply and_then_Some; [by eexists|]. intros [] _. apply and_then_Some; [|by eexists].
  apply (visit_dependencies_returns _ ({[bd_id b]} ∪ vs_active s)); [|apply visit_active|done].
  intros b' source' s' Hb' Hs'. apply IH; [set_solver|]. rewrite Hs'.
  assert (within ∖ vs_active s = {[bd_id b]} ∪ within ∖ ({[bd_id b]} ∪ vs_active s)) as Hsz.
  { apply set_eq. intros x. destruct (decide (x = bd_id b)); set_solver. }
  rewrite Hsz, size_union, size_singleton in Hn by set_solver. lia.
Qed.
End Returns.

(** C25: Where the repository serves only the bundles of a finite set, a resolution returns:
    the dependencies followed at once are at most one more than the set has elements. *)
Theorem resolve_terminates {J : JsonLib} {C : Crypto} options (known : gset string) p fuel :
  (forall repository id version offline, ro_repository options = Some repository -> id ∉ known ->
     is_ok (get_bundle repository id version offline) = false) ->
  (size known + 1 < fuel)%nat -> is_Some (resolve options fuel p).
Proof.
  intros Hk Hf. assert (is_Some (resolve_unchecked options fuel p)) as [[g|e] Hr]; [|by (unfold resolve; rewrite Hr; eexists)..].
  unfold resolve_unchecked. apply and_then_Some; [by eexists|]. intros locks _. destruct (_ && _); [by eexists|].
  apply and_then_Some; [by eexists|]. intros root _.
  apply and_then_Some; [|intros s _; apply and_then_Some; by eexists].
  apply (visit_returns options locks known Hk fuel root "root" _ ({[bd_id root]} ∪ known)); [set_solver..|].
  cbn. assert (size (({[bd_id root]} ∪ known) ∖ ∅) <= size ({[bd_id root]} : gset string) + size known)%nat as Hs; [|rewrite size_singleton in Hs; lia].
  rewrite difference_empty_L, size_union_alt. pose proof (subseteq_size (known ∖ {[bd_id root]}) known ltac:(set_solver)). lia.
Qed.

(** ** A lock reproduces the resolution that wrote it *)
Section Reproduce.
Context {J : JsonLib} {C : Crypto} (options : BundleResolverOptions).
Hypothesis Hmode : ro_mode options = Development.

(** The same resolution held to a lock file. *)
Definition frozen (lock : string) : BundleResolverOptions :=
  mkResolverOptions Frozen (ro_repository options) (ro_keys options) (ro_trust options) lock (ro_signature_policy options).

(** The sources, entries and document of a lock that could be written. *)
Definition source_of (root_id id : string) : string := match lock_source options root_id id with Ok x => x | Err _ => EmptyString end.
Definition entry_of (root_id : string) (item : string * Bundle) : string * json :=
  (item.1, JObject [("digest", JString (bd_digest item.2));
                    ("signatures", JArray (signature_json <$> bd_signatures item.2));
                    ("source", JString (source_of root_id item.1)); ("version", JString (bd_version item.2))]).
Definition lock_document (root_id : string) (bundles : list (string * Bundle)) : json :=
  JObject [("bundles", JObject (entry_of root_id <$> bundles)); ("format", JString "dage-lock"); ("lock_version", JInt 1)].
Lemma lock_json_Ok root_id bundles document :
  lock_json options root_id bundles = Ok document -> document = lock_document root_id bundles.
Proof.
  unfold lock_json, lock_document. intros E. apply bind_Ok in E as (entries & E & [= <-]). do 4 f_equal.
  revert entries E. induction bundles as [|item bundles IH]; intros entries E; cbn in E; [by injection E as <-|].
  apply bind_Ok in E as (x & Ex & E). apply bind_Ok in E as (l & El & [= <-]). rewrite fmap_cons, (IH l El). f_equal.
  unfold lock_entry in Ex. apply bind_Ok in Ex as (source & Es & [= <-]). unfold entry_of, source_of. by rewrite Es.
Qed.

Section Lockstep.
Context (lock root_id : string) (old_locks : list (string * Locked)) (final : list (string * Bundle)).
Definition lock_of (item : string * Bundle) : string * Locked :=
  (item.1, mkLocked (bd_version item.2) (bd_digest item.2) (source_of root_id item.1)).
Definition locks_of : list (string * Locked) := lock_of <$> final.

Lemma locks_of_get id b : om_get id final = Some b ->
  om_get id locks_of = Some (mkLocked (bd_version b) (bd_digest b) (source_of root_id id)).
Proof.
  unfold locks_of. induction final as [|[k x] l IH]; cbn; [done|]. destruct (String.eqb_spec id k) as [->|]; [|done].
  by intros [= ->].
Qed.

Lemma check_bundle_frozen b : om_get (bd_id b) final = Some b ->
  check_bundle (frozen lock) locks_of b (source_of root_id (bd_id b)) = Ok tt.
Proof.
  intros Hb. unfold check_bundle, check_lock, locked_mode, verified_mode. cbn [frozen ro_mode]. cbn.
  rewrite (locks_of_get _ _ Hb). cbn [lk_version lk_digest lk_source]. rewrite !str_eqb_refl. cbn.
  by destruct (str_empty _).
Qed.
Lemma fetch_frozen repository d b : om_get (dep_id d) final = Some b ->
  fetch options old_locks repository d = Ok b -> fetch (frozen lock) locks_of repository d = Ok b.
Proof.
  intros Hb Hf. pose proof Hf as (Hi & Hs & _ & provider & Hg & Hl)%fetch_Ok. unfold fetch, choose_version, locked_mode.
  cbn [frozen ro_mode]. rewrite bool_decide_false by done. cbn [negb]. rewrite (locks_of_get _ _ Hb). cbn [lk_version].
  rewrite Hs. cbn [mbind res_bind]. assert (offline_mode (frozen lock) = offline_mode options) as ->.
  { unfold offline_mode. rewrite Hmode. done. }
  rewrite Hg. cbn [rethrow mbind res_bind]. rewrite Hl. cbn [mbind res_bind]. by rewrite Hi, !str_eqb_refl.
Qed.

(** A visit of the first resolution whose bundles are all in the final graph. *)
Definition follows (v v' : Bundle -> string -> Visiting -> partial Visiting) : Prop :=
  forall b s s', let source := source_of root_id (bd_id b) in
  v b source s = Some (Ok s') -> loaded b -> visiting_ok options old_locks s ->
  bd_id b = root_id \/ root_id ∈ vs_active s ->
  (forall id x, om_get id (vs_bundles s') = Some x -> om_get id final = Some x) -> v' b source s = Some (Ok s').
Lemma visit_dependencies_follows v v' ds s s' :
  visits options old_locks v -> follows v v' -> visit_dependencies options old_locks v ds s = Some (Ok s') ->
  visiting_ok options old_locks s -> root_id ∈ vs_active s ->
  (forall id x, om_get id (vs_bundles s') = Some x -> om_get id final = Some x) ->
  visit_dependencies (frozen lock) locks_of v' ds s = Some (Ok s').
Proof.
  intros Hv Hf. revert s. induction ds as [|d ds IH]; intros s E Hs Hr Hfin; cbn [Resolver.visit_dependencies] in *; [done|].
  case_bool_decide as Ha; [done|]. destruct (om_get (dep_id d) (vs_selected s)) as [version|] eqn:Es.
  { destruct (satisfies _ _); [by apply IH|done]. }
  cbn [frozen ro_repository]. destruct (ro_repository options) as [repository|] eqn:Er; [|done].
  apply and_then_Ok in E as (b & Ef & E). injection Ef as Ef. pose proof Ef as (Hi & _ & _ & provider & _ & Hl)%fetch_Ok.
  apply and_then_Ok in E as (source & Esrc & E). injection Esrc as Esrc.
  apply and_then_Ok in E as (s1 & E1 & E). destruct (Hv _ _ _ _ E1 (ex_intro _ provider Hl) Hs) as (Hs1 & [Ha1 _ _] & _ & _ & Hfresh).
  rewrite Hi in Hfresh. destruct (Hfresh Es) as [Hb1 _].
  destruct (visit_dependencies_ok options old_locks v ds s1 s' Hv E Hs1) as (_ & [_ Hgb _] & _).
  rewrite (fetch_frozen repository d b) by auto. cbn [and_then].
  rewrite Esrc. cbn [and_then]. assert (source_of root_id (bd_id b) = source) as Hsrc.
  { unfold source_of, lock_source. rewrite Hi, Er, Esrc. destruct (String.eqb_spec (dep_id d) root_id) as [Heq|]; [by rewrite Heq in Ha|done]. }
  rewrite <- Hsrc in *. rewrite (Hf b s s1 E1 (ex_intro _ provider Hl) Hs (or_intror Hr)) by auto. cbn [and_then]. apply IH; [done..|by rewrite Ha1|done].
Qed.
Lemma visit_follows fuel : follows (visit options old_locks fuel) (visit (frozen lock) locks_of fuel).
Proof.
  induction fuel as [|fuel IH]; intros b s s' source E Hld Hs Hr Hfin; cbn [Resolver.visit] in *; [done|].
  pose proof (visit_ok options old_locks (S fuel) b source s s') as Hok. cbn [Resolver.visit] in Hok.
  case_bool_decide as Ha; [done|]. destruct (om_get (bd_id b) (vs_selected s)) as [version|] eqn:Es; [done|].
  destruct (Hok E Hld Hs) as (_ & _ & _ & _ & Hfresh). destruct (Hfresh eq_refl) as [Hb _]. clear Hok Hfresh.
  apply and_then_Ok in E as ([] & Ec & E). injection Ec as Ec. apply and_then_Ok in E as (s2 & E2 & E). injection E as <-.
  unfold source. rewrite check_bundle_frozen by auto. cbn [and_then].
  erewrite visit_dependencies_follows; [done|apply visit_ok|exact IH|exact E2|by eapply enter_ok| |done]. cbn. set_solver.
Qed.
End Lockstep.

(** Reading the lock back. *)
Context `{!JsonLaws J}.
Lemma canon_signatures (l : list BundleSignature) : canon <$> (signature_json <$> l) = signature_json <$> l.
Proof. induction l as [|x l IH]; [done|]. rewrite !fmap_cons, IH. done. Qed.
Lemma canon_entries root_id (bundles : list (string * Bundle)) :
  prod_map id canon <$> (entry_of root_id <$> bundles) = entry_of root_id <$> bundles.
Proof.
  induction bundles as [|[id b] l IH]; [done|]. rewrite !fmap_cons, IH. f_equal. unfold entry_of, prod_map. cbn [fst snd].
  f_equal. pose proof (canon_signatures (bd_signatures b)) as Hs. cbn [canon fmap list_fmap prod_map]. cbn. do 4 f_equal.
  by rewrite <- Hs at 2.
Qed.
Lemma canon_lock root_id bundles : canon (lock_document root_id bundles) = lock_document root_id bundles.
Proof.
  unfold lock_document. pose proof (canon_entries root_id bundles) as He. cbn. do 4 f_equal. exact He.
Qed.
Lemma entry_of_get root_id bundles id b : om_get id bundles = Some b ->
  om_get id (entry_of root_id <$> bundles) = Some (entry_of root_id (id, b)).2.
Proof.
  induction bundles as [|[k x] l IH]; cbn; [done|]. destruct (String.eqb_spec id k) as [->|]; [|done]. by intros [= ->].
Qed.
Lemma read_locks_written root_id bundles items acc :
  (forall id b, (id, b) ∈ items -> om_get id bundles = Some b /\ bd_version b <> "" /\ bd_digest b <> "") ->
  read_locks (JObject (entry_of root_id <$> bundles)) items.*1 acc =
    Ok (foldl (fun m p => om_set p.1 p.2 m) acc (lock_of root_id <$> items)).
Proof.
  revert acc. induction items as [|[id b] items IH]; intros acc Hi; [done|].
  destruct (Hi id b) as (Hg & Hv & Hd); [by left|]. rewrite !fmap_cons. cbn [read_locks fst foldl].
  cbn [jget mbind res_bind]. rewrite (entry_of_get _ _ _ _ Hg). cbn [default mbind res_bind entry_of snd fst].
  unfold get_string. cbn [jget_or om_get String.eqb]. cbn -[jl_as_string read_locks].
  rewrite !jl_as_string_string. cbn [mbind res_bind]. destruct (bd_version b) as [|cv v] eqn:Ev; [done|].
  destruct (bd_digest b) as [|cd dg] eqn:Ed; [done|]. cbn [str_empty orb]. rewrite IH by (intros; apply Hi; by right).
  done.
Qed.

(** The lock of a graph, held as text the JSON library can read. *)
Lemma parse_lock_written root_id bundles :
  text_ok jl_str_ok jl_real_ok 1000 (lock_document root_id bundles) -> om_sorted bundles ->
  (forall id b, om_get id bundles = Some b -> bd_version b <> "" /\ bd_digest b <> "") ->
  write_lock (lock_document root_id bundles) <> "" ->
  parse_lock (write_lock (lock_document root_id bundles)) = Ok (locks_of root_id bundles).
Proof.
  intros Ht Hs Hv Hne. unfold parse_lock, write_lock in *. destruct (jl_write true _) as [|c t] eqn:Ew; [done|].
  cbn [str_empty]. rewrite <- Ew. unfold read_json. rewrite (jl_parse_write true _ Ht), canon_lock. cbn [mbind res_bind].
  unfold get_string, get_int, lock_document. cbn -[jl_as_string jl_as_int read_locks].
  rewrite jl_as_string_string. cbn -[jl_as_int read_locks]. rewrite jl_as_int_int by lia. cbn -[read_locks].
  rewrite <- list_fmap_compose. change ((fst ∘ entry_of root_id) <$> bundles) with (bundles.*1).
  rewrite read_locks_written.
  - rewrite om_sets_self; [done|]. unfold om_sorted. by rewrite <- list_fmap_compose.
  - intros id b Hin. assert (om_get id bundles = Some b) as Hg; [|by destruct (Hv id b Hg)].
    by apply om_get_elem.
Qed.

(** C26: Resolving again in the frozen mode, with the lock a development resolution wrote,
    gives the same bundles in the same order and the same lock, where no bundle has an
    empty version (its entry would be refused as incomplete) and the lock document is one
    the JSON library writes as a text it reads back. *)
Theorem lock_reproduces fuel p g document : resolve_unchecked options fuel p = Some (Ok g) ->
  lock_json options (gr_root_id g) (gr_bundles g) = Ok document -> text_ok jl_str_ok jl_real_ok 1000 document -> gr_lock g <> "" ->
  (forall id b, find_bundle g id = Some b -> bd_version b <> "") ->
  resolve_unchecked (frozen (gr_lock g)) fuel p
    = Some (Ok (mkGraph (gr_root_id g) (gr_lock g) Frozen (gr_bundles g) (gr_order g))).
Proof.
  intros (locks & root & s & _ & Hr & _ & Hv & lock & Hlock & ->)%resolve_inv Hdoc Ht Hne Hver. unfold find_bundle in Hver.
  cbn [gr_root_id gr_bundles gr_lock gr_order] in *. assert (document = lock) as -> by congruence.
  assert (lock_json (frozen (write_lock lock)) (bd_id root) (vs_bundles s) = Ok lock) as Hagain by exact Hlock.
  apply lock_json_Ok in Hlock as ->.
  destruct (visit_ok options locks fuel _ _ _ _ Hv (ex_intro _ p Hr) (empty_ok options locks)) as (Hs & _).
  assert (forall id b, om_get id (vs_bundles s) = Some b -> bd_digest b <> "") as Hd.
  { intros id b Hb. apply loaded_digest. by eapply vo_loaded. }
  unfold resolve_unchecked. cbn [frozen ro_lock_json]. rewrite parse_lock_written; [|done|apply Hs|eauto|done].
  cbn [and_then]. unfold locked_mode at 1. cbn [ro_mode]. rewrite bool_decide_false by done. cbn [negb andb].
  destruct (write_lock _) as [|c t] eqn:Ew; [done|]. cbn [str_empty]. rewrite Hr. cbn [and_then].
  pose proof (visit_follows (String c t) (bd_id root) locks (vs_bundles s) fuel root (mkVisiting [] ∅ [] []) s) as Hfol.
  cbn zeta in Hfol. assert (source_of (bd_id root) (bd_id root) = "root") as Hsrc by (unfold source_of, lock_source; by rewrite str_eqb_refl).
  rewrite Hsrc in Hfol. rewrite Hfol; [|done|by exists p|apply empty_ok|by left|done]. cbn [and_then]. rewrite Hagain. by rewrite Ew.
Qed.
End Reproduce.

(** ** Rollback plans *)
Definition summary (g : ResolvedBundleGraph) : list (string * (string * string)) :=
  (fun item => (item.1, (bd_version item.2, bd_digest item.2))) <$> gr_bundles g.
(** Carrying out a change on the versions and digests in use. *)
Definition apply_version_change (m : list (string * (string * string))) (c : BundleVersionChange)
    : list (string * (string * string)) :=
  match ch_kind c with
  | Removed => om_del (ch_bundle_id c) m
  | _ => om_set (ch_bundle_id c) (ch_to_version c, ch_to_digest c) m
  end.

Lemma summary_get g id : om_get id (summary g) = (fun b => (bd_version b, bd_digest b)) <$> find_bundle g id.
Proof.
  unfold summary, find_bundle. induction (gr_bundles g) as [|[k b] l IH]; cbn; [done|]. by destruct (String.eqb id k).
Qed.
Lemma summary_sorted g : om_sorted (gr_bundles g) -> om_sorted (summary g).
Proof. unfold om_sorted, summary. by rewrite <- list_fmap_compose. Qed.

Lemma units_keys l (m : list (string * unit)) x :
  x ∈ (foldl (fun m id => om_set id tt m) m l).*1 <-> x ∈ l \/ x ∈ m.*1.
Proof.
  revert m. induction l as [|y l IH]; intros m; cbn [foldl]; [set_solver|]. rewrite IH, om_set_keys. set_solver.
Qed.
Lemma units_sorted l (m : list (string * unit)) : om_sorted m -> om_sorted (foldl (fun m id => om_set id tt m) m l).
Proof. revert m. induction l as [|y l IH]; intros m Hm; cbn [foldl]; [done|]. by apply IH, om_set_sorted. Qed.
Lemma all_ids_elem g t id : id ∈ all_ids g t <-> is_Some (find_bundle g id) \/ is_Some (find_bundle t id).
Proof.
  unfold all_ids, find_bundle. rewrite units_keys, elem_of_app, <- !om_mem_keys. unfold om_mem.
  destruct (om_get id (gr_bundles g)), (om_get id (gr_bundles t)); cbn; rewrite ?is_Some_alt; set_solver.
Qed.
Lemma all_ids_NoDup g t : NoDup (all_ids g t).
Proof. unfold all_ids. apply om_sorted_NoDup, units_sorted. apply SSorted_nil. Qed.

(** The change for one identifier settles it and leaves the others. *)
Lemma change_of_get (g t : ResolvedBundleGraph) id k m :
  is_Some (find_bundle g id) \/ is_Some (find_bundle t id) -> om_get id m = om_get id (summary g) ->
  om_get k (foldl apply_version_change m (change_of (find_bundle g id) (find_bundle t id) id)) =
    if decide (id = k) then om_get k (summary t) else om_get k m.
Proof.
  rewrite !summary_get. intros Hid Hm. unfold change_of.
  destruct (find_bundle g id) as [o|] eqn:Eo, (find_bundle t id) as [n|] eqn:En; cbn [fmap option_fmap option_map] in *.
  - destruct (String.eqb_spec (bd_version o) (bd_version n)) as [Hv|]; [destruct (String.eqb_spec (bd_digest o) (bd_digest n)) as [Hd|]|];
      cbn [andb foldl apply_version_change ch_kind ch_bundle_id ch_to_version ch_to_digest].
    + case_decide; [subst k; rewrite En; cbn; congruence|done].
    + rewrite om_get_set. case_decide; [subst k; by rewrite En|done].
    + rewrite om_get_set. case_decide; [subst k; by rewrite En|done].
  - cbn. case_decide; [subst k; by rewrite En, om_get_del_eq|by apply om_get_del_ne].
  - cbn. rewrite om_get_set. case_decide; [subst k; by rewrite En|done].
  - destruct Hid as [[? ?]|[? ?]]; done.
Qed.
Lemma changes_get g t ids k m :
  NoDup ids -> (forall id, id ∈ ids -> is_Some (find_bundle g id) \/ is_Some (find_bundle t id)) ->
  (forall id, id ∈ ids -> om_get id m = om_get id (summary g)) ->
  om_get k (foldl apply_version_change m (ids ≫= fun id => change_of (find_bundle g id) (find_bundle t id) id)) =
    if decide (k ∈ ids) then om_get k (summary t) else om_get k m.
Proof.
  revert m. induction ids as [|id ids IH]; intros m Hd Hi Hm; [done|]. apply NoDup_cons in Hd as [Hn Hd].
  rewrite bind_cons, foldl_app. rewrite IH; [|done|intros; apply Hi; by right|].
  - rewrite change_of_get by (first [apply Hi|apply Hm]; left). repeat case_decide; subst; set_solver.
  - intros id' Hin. rewrite change_of_get by (first [apply Hi|apply Hm]; left). rewrite decide_False by set_solver.
    apply Hm. by right.
Qed.
Lemma change_of_real g t id c : c ∈ change_of (find_bundle g id) (find_bundle t id) id ->
  is_Some (find_bundle g id) \/ is_Some (find_bundle t id) ->
  ch_bundle_id c = id /\ om_get id (summary g) <> om_get id (summary t).
Proof.
  rewrite !summary_get. unfold change_of. destruct (find_bundle g id) as [o|], (find_bundle t id) as [n|]; cbn.
  - destruct (String.eqb_spec (bd_version o) (bd_version n)); [destruct (String.eqb_spec (bd_digest o) (bd_digest n))|];
      intros Hc _; [set_solver| |]; apply list_elem_of_singleton in Hc as ->; split; [done|congruence|done|congruence].
  - intros ->%list_elem_of_singleton _. done.
  - intros ->%list_elem_of_singleton _. done.
  - intros _ [[? ?]|[? ?]]; done.
Qed.

(** A rollback plan leads from the one graph to the other: its target has the same
    root in an older version, carrying out its changes on the versions and digests in
    use gives those of the target, and it names no bundle that does not change. *)
Theorem rollback_plan_exact g t plan from to :
  plan_rollback_to g t = Some (Ok plan) -> om_sorted (gr_bundles g) -> om_sorted (gr_bundles t) ->
  root_bundle g = Some from -> root_bundle t = Some to ->
  bd_id from = bd_id to
  /\ (exists v w, parse_version (bd_version from) = Some v /\ parse_version (bd_version to) = Some w /\ compare w v < 0)
  /\ foldl apply_version_change (summary g) (pl_changes plan) = summary t
  /\ (forall c, c ∈ pl_changes plan -> om_get (ch_bundle_id c) (summary g) <> om_get (ch_bundle_id c) (summary t))
  /\ pl_target_lock_json plan = gr_lock t.
Proof.
  unfold plan_rollback_to. intros E Hg Ht Hf Hto. rewrite Hf, Hto in E. cbn [mbind option_bind] in E. injection E as E.
  destruct (String.eqb_spec (bd_id from) (bd_id to)) as [Hi|]; [|done]. cbn [negb] in E.
  destruct (parse_version (bd_version from)) as [v|] eqn:Ev; [|done]. destruct (parse_version (bd_version to)) as [w|] eqn:Ew; [|done].
  destruct (Z.leb_spec 0 (compare w v)) as [|Hlt]; [done|]. destruct (str_empty (gr_lock t)); [done|]. injection E as <-.
  cbn [pl_changes pl_target_lock_json]. split; [done|]. split; [eauto|]. split; [|split; [|done]].
  - assert (forall l m, om_sorted m -> om_sorted (foldl apply_version_change m l)) as Hso.
    { induction l as [|c l IH]; intros m Hm; cbn [foldl]; [done|]. apply IH. unfold apply_version_change.
      destruct (ch_kind c); [by apply om_set_sorted|by apply om_del_sorted|by apply om_set_sorted]. }
    apply om_ext; [by apply Hso, summary_sorted|by apply summary_sorted|]. intros k.
    rewrite changes_get; [|apply all_ids_NoDup|by intros id ?%all_ids_elem|done].
    case_decide as Hk; [done|]. rewrite all_ids_elem in Hk. rewrite !summary_get.
    destruct (find_bundle g k); [naive_solver eauto|]. destruct (find_bundle t k); [naive_solver eauto|done].
  - intros c (id & Hc & Hin)%list_elem_of_bind. apply change_of_real in Hc as [-> Hc]; [done|by apply all_ids_elem].
Qed.
