(* ===== verification/Keys.v ===== *)
(** * Keyrings

    A key of a keyring is found only while it is not revoked and only for the
    namespaces it is scoped to, and a keyring survives its snapshot. *)

From S2P Require Import Prelude Json Sha256 Reliability Resource Bundle CanonText Resolver.
Open Scope string_scope.
Open Scope list_scope.
Open Scope Z_scope.

(** ** Well-formed keyrings *)
Definition record_ok (id : string) (r : KeyRecord) : Prop :=
  kr_key_id r = id /\ id <> "" /\ str_len (kr_key r) = 32 /\ existsb bad_scope (kr_namespace_scopes r) = false.
Record keyring_ok (k : Keyring) : Prop := {
  ko_sorted : om_sorted (kg_records k);
  ko_records : forall id r, om_get id (kg_records k) = Some r -> record_ok id r
}.
Lemma empty_keyring_ok : keyring_ok empty_keyring.
Proof. split; [apply SSorted_nil|done]. Qed.
Lemma keyring_add_Ok r k k' : keyring_add r k = Ok k' <->
  record_ok (kr_key_id r) r /\ om_get (kr_key_id r) (kg_records k) = None
  /\ k' = mkKeyring (om_set (kr_key_id r) r (kg_records k)).
Proof.
  unfold keyring_add, record_ok, om_mem. destruct (kr_key_id r) as [|c id] eqn:Ei; cbn [str_empty orb]; [naive_solver|].
  destruct (Z.eqb_spec (str_len (kr_key r)) 32); cbn [negb]; [|naive_solver].
  destruct (existsb _ _); [naive_solver|]. destruct (om_get _ _); naive_solver.
Qed.
Lemma keyring_add_ok r k k' : keyring_add r k = Ok k' -> keyring_ok k -> keyring_ok k'.
Proof.
  intros (Hr & _ & ->)%keyring_add_Ok [Hs Hk]. split; cbn [kg_records]; [by apply om_set_sorted|].
  intros id x. rewrite om_get_set. case_decide; [|apply Hk]. subst. by intros [= <-].
Qed.
Lemma keyring_revoke_ok id k k' : keyring_revoke id k = Ok k' -> keyring_ok k -> keyring_ok k'.
Proof.
  unfold keyring_revoke. intros E [Hs Hk]. destruct (om_get id _) as [r|] eqn:Er; [|done]. injection E as <-.
  split; cbn [kg_records]; [by apply om_set_sorted|]. intros id' x. rewrite om_get_set. case_decide; [|apply Hk].
  subst. intros [= <-]. by apply Hk in Er.
Qed.

(** ** What a keyring lets through *)
Definition covers (scope bundle_id : string) : Prop :=
  bundle_id = scope \/ exists rest, bundle_id = scope +:+ String "." rest.
Lemma namespace_match_covers bundle_id scope : namespace_match bundle_id scope = true <-> covers scope bundle_id.
Proof.
  unfold namespace_match, covers. rewrite orb_true_iff, !andb_true_iff, !String.eqb_eq. split.
  - intros [->|[[_ Hp] Hc]]; [by left|right]. unfold str_upto in Hp. revert scope Hp Hc.
    induction bundle_id as [|c s IH]; intros scope Hp Hc; [by destruct scope|]. destruct scope as [|d scope]; cbn in Hp, Hc.
    + destruct (Ascii.eqb_spec c ".") as [->|]; [|done]. by exists s.
    + injection Hp as <- Hp. destruct (IH scope Hp Hc) as [rest ->]. by exists rest.
  - intros [->|[rest ->]]; [by left|right]. unfold str_upto. rewrite substring_0_app, str_length_app. cbn [String.length].
    split; [split; [apply Nat.ltb_lt; lia|done]|]. induction scope as [|c s IH]; [done|]. exact IH.
Qed.

(** The key found is that of a record which is not revoked and, where the record has
    scopes, one of them is the bundle's identifier or a dot-delimited prefix of it;
    a revoked key is found for no bundle again. *)
Theorem keyring_gate k :
  (forall id context key, find_key k id context = Ok key ->
     exists r, om_get id (kg_records k) = Some r /\ kr_key r = key /\ kr_revoked r = false
       /\ (kr_namespace_scopes r = [] \/ Exists (fun scope => covers scope (sc_bundle_id context)) (kr_namespace_scopes r)))
  /\ (forall id k' context, keyring_revoke id k = Ok k' -> is_ok (find_key k' id context) = false)
  /\ (forall id k' id' context, keyring_revoke id k = Ok k' -> id <> id' -> find_key k' id' context = find_key k id' context).
Proof.
  split; [|split].
  - intros id context key. unfold find_key. destruct (om_get id _) as [r|]; [|done]. destruct (kr_revoked r) eqn:Er; [done|].
    intros E. exists r. split; [done|]. destruct (kr_namespace_scopes r) as [|s ss] eqn:Es.
    + injection E as <-. split; [done|]. split; [done|by left].
    + destruct (existsb _ _) eqn:Ex; [|done]. injection E as <-. split; [done|]. split; [done|]. right.
      apply existsb_exists in Ex as (x & Hin & Hx). apply Exists_exists. exists x. split; [by apply list_elem_of_In|].
      by apply namespace_match_covers.
  - intros id k' context. unfold keyring_revoke. destruct (om_get id _) as [r|]; [|done]. intros [= <-].
    unfold find_key. cbn [kg_records]. by rewrite om_get_set_eq.
  - intros id k' id' context. unfold keyring_revoke. destruct (om_get id _) as [r|]; [|done]. intros [= <-] Hne.
    unfold find_key. cbn [kg_records]. by rewrite om_get_set_ne.
Qed.

(** ** Snapshots *)
Lemma hex_pair c : nibble (hex_digit (Z.shiftr (code c) 4)) = Some (Z.shiftr (code c) 4)
  /\ nibble (hex_digit (Z.land (code c) 15)) = Some (Z.land (code c) 15)
  /\ chr (Z.lor (Z.shiftl (Z.shiftr (code c) 4) 4) (Z.land (code c) 15)) = c.
Proof. destruct c as [[] [] [] [] [] [] [] []]; vm_compute; done. Qed.
Lemma parse_hex_key s : parse_hex_pairs (hex_key s) = Some s.
Proof.
  induction s as [|c s IH]; [done|]. destruct (hex_pair c) as (H1 & H2 & H3). cbn [hex_key parse_hex_pairs].
  rewrite H1, H2. cbn [mbind option_bind]. rewrite IH. cbn [mbind option_bind]. by rewrite H3.
Qed.
Lemma length_hex_key s : String.length (hex_key s) = (2 * String.length s)%nat.
Proof. induction s as [|c s IH]; [done|]. cbn [hex_key String.length]. lia. Qed.

Section Snapshot.
Context {J : JsonLib} `{!JsonLaws J}.
Lemma read_scopes_written l : read_scopes (JString <$> l) = Ok (Ok l).
Proof.
  induction l as [|s l IH]; [done|]. rewrite fmap_cons. cbn [read_scopes is_string negb]. rewrite jl_as_string_string.
  cbn [mbind res_bind]. by rewrite IH.
Qed.
Lemma read_key_written ids r : record_ok (kr_key_id r) r -> kr_key_id r ∉ ids -> read_key ids (key_json r) = Ok (Ok r).
Proof.
  intros (_ & _ & Hl & _) Hi. unfold read_key, key_json, get_string, get_bool. cbn -[jl_as_string jl_as_bool read_scopes parse_key_hex].
  rewrite jl_as_string_string. cbn -[jl_as_string jl_as_bool read_scopes parse_key_hex]. rewrite jl_as_string_string.
  cbn -[jl_as_string jl_as_bool read_scopes parse_key_hex]. rewrite bool_decide_false by done. rewrite jl_as_string_string.
  cbn -[jl_as_bool read_scopes parse_key_hex]. unfold parse_key_hex.
  replace (str_len (hex_key (kr_key r))) with 64 by (unfold str_len in *; rewrite length_hex_key; lia). cbn [Z.eqb negb Pos.eqb].
  rewrite parse_hex_key. rewrite (read_scopes_written (kr_namespace_scopes r)). cbn -[jl_as_bool]. rewrite jl_as_bool_bool.
  by destruct r.
Qed.
Lemma read_keys_written l ids k :
  NoDup l.*1 -> (forall id r, (id, r) ∈ l -> record_ok id r /\ (id ∉ ids) /\ om_get id (kg_records k) = None) ->
  read_keys (key_json <$> (l.*2)) ids k = Ok (Ok (mkKeyring (foldl (fun m p => om_set p.1 p.2 m) (kg_records k) l))).
Proof.
  revert ids k. induction l as [|[id r] l IH]; intros ids k Hd Hl; [by destruct k|].
  rewrite !fmap_cons in *. apply NoDup_cons in Hd as [Hn Hd]. cbn [fst snd read_keys foldl] in *.
  destruct (Hl id r) as (Hr & Hi & Hg); [by left|]. destruct Hr as (<- & Hr).
  rewrite read_key_written by done. cbn [mbind res_bind].
  rewrite (proj2 (keyring_add_Ok r k _)) by done. cbn [mbind res_bind]. rewrite IH; [done|done|].
  intros id' r' Hin. destruct (Hl id' r') as (Hr' & Hi' & Hg'); [by right|].
  assert (id' <> kr_key_id r) as Hne by (intros ->; destruct Hn; by apply (list_elem_of_fmap_2 fst l (kr_key_id r, r'))).
  split; [done|]. split; [set_solver|]. cbn [kg_records]. by rewrite om_get_set_ne.
Qed.
Lemma canon_keys (l : list KeyRecord) : canon <$> (key_json <$> l) = key_json <$> l.
Proof.
  induction l as [|r l IH]; [done|]. rewrite !fmap_cons, IH. f_equal. unfold key_json. cbn. do 4 f_equal.
  induction (kr_namespace_scopes r) as [|s ss IHs]; [done|]. cbn. congruence.
Qed.
(** Reading the snapshot of a keyring gives the keyring back: every key with its
    scopes, and what was revoked stays revoked. *)
Theorem keyring_roundtrip k text :
  keyring_ok k -> text_ok jl_str_ok jl_real_ok 1000 (keyring_json k) -> snapshot_json k = Ok text ->
  from_snapshot_json text = Ok k.
Proof.
  intros [Hs Hk] Ht [= <-]. unfold from_snapshot_json, read_json, write_lock. rewrite (jl_parse_write true _ Ht). cbn [mbind res_bind].
  assert (canon (keyring_json k) = keyring_json k) as ->.
  { unfold keyring_json. pose proof (canon_keys ((kg_records k).*2)) as Hc. cbn. do 5 f_equal. by f_equal. }
  unfold get_string, get_int, keyring_json. cbn -[jl_as_string jl_as_int read_keys]. rewrite jl_as_string_string.
  cbn -[jl_as_int read_keys]. rewrite jl_as_int_int by lia. cbn -[read_keys].
  pose proof (read_keys_written (kg_records k) ∅ empty_keyring (om_sorted_NoDup _ Hs)) as H. cbn [empty_keyring kg_records] in H.
  rewrite om_sets_self in H by done. change (mkKeyring []) with empty_keyring in H. rewrite H; [by destruct k|]. intros id r Hin.
  split; [by apply Hk, om_get_elem|]. set_solver.
Qed.
End Snapshot.
