(* ===== verification/Zip.v ===== *)
(** * Resources in a ZIP archive (src/tool_resource_providers.cpp)

    Parsing the central directory of an archive and reading an entry, byte for byte;
    zlib is the class [Zlib].  A position outside the archive is a missing outcome
    ([None]), so that the first theorem, that there is always an outcome, says no
    byte outside the archive is read.  The others say what a parsed archive holds:
    safe UTF-8 names within the limits, and contents with the size and checksum
    recorded for them. *)

From S2P Require Import Prelude Reliability Resource.
Open Scope string_scope.
Open Scope list_scope.
Open Scope Z_scope.

(** ** Limits *)
Record ResourceLimits := mkLimits {
  max_resources : Z; max_resource_bytes : Z; max_total_bytes : Z; max_path_bytes : Z; max_depth : Z
}.
Record ZipLimits := mkZipLimits { zl_limits : ResourceLimits; max_archive_bytes : Z; max_compression_ratio : Z }.
Definition default_resource_limits : ResourceLimits := mkLimits 10000 (64 * 1024 * 1024) (512 * 1024 * 1024) 1024 64.
Definition default_zip_limits : ZipLimits := mkZipLimits default_resource_limits (512 * 1024 * 1024) 200.
Definition validate_limits (limits : ResourceLimits) : exc unit :=
  if (max_resources limits =? 0) || (max_resource_bytes limits =? 0) || (max_total_bytes limits =? 0)
     || (max_path_bytes limits =? 0) || (max_depth limits =? 0)
  then Err (InvalidArgument "resource limits must be positive") else Ok tt.

(** ** Names *)
Definition continuation (c : ascii) : bool := Z.land (code c) 0xc0 =? 0x80.
(** The loop of [valid_utf8], a sequence of one to four bytes at a time. *)
Fixpoint valid_utf8 (text : string) : bool :=
  match text with
  | EmptyString => true
  | String a rest =>
    let c := code a in
    if c <? 0x80 then valid_utf8 rest
    else if Z.land c 0xe0 =? 0xc0 then
      match rest with
      | String b rest => negb (c <? 0xc2) && continuation b && valid_utf8 rest
      | _ => false
      end
    else if Z.land c 0xf0 =? 0xe0 then
      match rest with
      | String b (String d rest) =>
        continuation b && continuation d
        && negb (((c =? 0xe0) && (code b <? 0xa0)) || ((c =? 0xed) && (0xa0 <=? code b)))
        && valid_utf8 rest
      | _ => false
      end
    else if Z.land c 0xf8 =? 0xf0 then
      match rest with
      | String b (String d (String e rest)) =>
        negb (0xf4 <? c) && continuation b && continuation d && continuation e
        && negb (((c =? 0xf0) && (code b <? 0x90)) || ((c =? 0xf4) && (0x90 <=? code b)))
        && valid_utf8 rest
      | _ => false
      end
    else false
  end.
Fixpoint count_char (c : ascii) (s : string) : Z :=
  match s with
  | EmptyString => 0
  | String x s' => (if Ascii.eqb x c then 1 else 0) + count_char c s'
  end.
Definition depth (path : string) : Z := 1 + count_char "/" path.

(** ** Reading the archive

    Positions are [std::size_t]; [byte_at] and [chars_at] have no outcome outside the
    archive, [u16] and [u32] check before they read. *)
Definition byte_at (b : string) (p : Z) : partial Z :=
  if p <? 0 then None else match String.get (Z.to_nat p) b with Some c => Some (Ok (code c)) | None => None end.
Definition chars_at (b : string) (p len : Z) : partial string :=
  if (0 <=? p) && (0 <=? len) && (p + len <=? str_len b)
  then Some (Ok (String.substring (Z.to_nat p) (Z.to_nat len) b)) else None.
Definition read_u16 (b : string) (p : Z) : partial Z :=
  if str_len b <? u64 (p + 2) then throws "ZIP_TRUNCATED" else
  and_then (byte_at b p) (fun b0 =>
  and_then (byte_at b (p + 1)) (fun b1 =>
  Some (Ok (Z.lor b0 (Z.shiftl b1 8))))).
Definition read_u32 (b : string) (p : Z) : partial Z :=
  if str_len b <? u64 (p + 4) then throws "ZIP_TRUNCATED" else
  and_then (byte_at b p) (fun b0 =>
  and_then (byte_at b (p + 1)) (fun b1 =>
  and_then (byte_at b (p + 2)) (fun b2 =>
  and_then (byte_at b (p + 3)) (fun b3 =>
  Some (Ok (Z.lor (Z.lor (Z.lor b0 (Z.shiftl b1 8)) (Z.shiftl b2 16)) (Z.shiftl b3 24))))))).

Record Entry := mkEntry {
  en_flags : Z; en_method : Z; en_crc : Z; en_compressed : Z; en_size : Z; en_offset : Z
}.
Record ZipResourceProvider := mkZip {
  zp_archive : string; zp_limits : ZipLimits; zp_entries : list (string * Entry)
}.

(** The search for the end of the central directory, from the last place it can be
    at down to [lower]; [places] more remain below. *)
Fixpoint find_eocd (places : nat) (archive : string) (lower : Z) : partial Z :=
  let eocd := lower + Z.of_nat places in
  and_then (read_u32 archive eocd) (fun signature =>
  if signature =? 0x06054b50 then Some (Ok eocd)
  else match places with
       | O => throws "ZIP_EOCD_NOT_FOUND"
       | S places => find_eocd places archive lower
       end).

(** One header of the central directory: the name, the fields used and the position
    after it. *)
Record Central := mkCentral {
  ce_made : Z; ce_external : Z; ce_entry : Entry; ce_name : string; ce_next : Z
}.
Definition read_central (archive : string) (p : Z) : partial Central :=
  and_then (read_u32 archive p) (fun signature =>
  if negb (signature =? 0x02014b50) then throws "ZIP_CENTRAL_ENTRY_INVALID" else
  and_then (read_u16 archive (p + 4)) (fun made =>
  and_then (read_u16 archive (p + 8)) (fun flags =>
  and_then (read_u16 archive (p + 10)) (fun method =>
  and_then (read_u32 archive (p + 16)) (fun crc =>
  and_then (read_u32 archive (p + 20)) (fun compressed =>
  and_then (read_u32 archive (p + 24)) (fun size =>
  and_then (read_u16 archive (p + 28)) (fun name_len =>
  and_then (read_u16 archive (p + 30)) (fun extra_len =>
  and_then (read_u16 archive (p + 32)) (fun comment_len =>
  and_then (read_u32 archive (p + 38)) (fun external =>
  and_then (read_u32 archive (p + 42)) (fun offset =>
  let next := u64 (p + 46 + name_len + extra_len + comment_len) in
  if str_len archive <? next then throws "ZIP_TRUNCATED" else
  and_then (chars_at archive (p + 46) name_len) (fun name =>
  Some (Ok (mkCentral made external (mkEntry flags method crc compressed size offset) name next))))))))))))))).

(** The checks of an entry, in the order of the source; a name that ends in a slash is
    a directory and is skipped before them. *)
Definition check_entry (limits : ZipLimits) (entries : list (string * Entry)) (total : Z) (c : Central) : exc unit :=
  let l := zl_limits limits in let e := ce_entry c in let name := ce_name c in
  if negb (Z.land (en_flags e) (Z.lnot 0x0808) =? 0) then Err (RuntimeError "ZIP_FLAGS_UNSUPPORTED")
  else if negb (valid_utf8 name) then Err (RuntimeError "ZIP_FILENAME_ENCODING_INVALID")
  else if (Z.shiftr (ce_made c) 8 =? 3) && (Z.land (Z.shiftr (ce_external c) 16) 0xf000 =? 0xa000) then
    Err (RuntimeError "ZIP_SYMLINK_REJECTED")
  else if negb (is_ok (normalize_resource_path name)) then Err (RuntimeError "ZIP_INVALID_PATH")
  else if (max_path_bytes l <? str_len name) || (max_depth l <? depth name) then Err (RuntimeError "ZIP_PATH_LIMIT")
  else if negb (Z.land (en_flags e) 1 =? 0) then Err (RuntimeError "ZIP_ENCRYPTED_UNSUPPORTED")
  else if negb (en_method e =? 0) && negb (en_method e =? 8) then Err (RuntimeError "ZIP_COMPRESSION_UNSUPPORTED")
  else if (en_method e =? 8) && negb (en_size e =? 0) && (en_compressed e =? 0) then
    Err (RuntimeError "ZIP_COMPRESSED_SIZE_INVALID")
  else if (max_resource_bytes l <? en_size e) || (max_total_bytes l <? en_size e)
          || (u64 (max_total_bytes l - en_size e) <? total) then Err (RuntimeError "ZIP_SIZE_LIMIT")
  else if negb (en_size e =? 0) && negb (en_compressed e =? 0)
          && (u64 (en_compressed e * max_compression_ratio limits) <? en_size e) then
    Err (RuntimeError "ZIP_COMPRESSION_RATIO_LIMIT")
  else if om_mem name entries then Err (RuntimeError "ZIP_DUPLICATE_ENTRY")
  else Ok tt.
Definition is_directory_name (name : string) : bool :=
  str_empty name || match str_last name with Some c => Ascii.eqb c "/" | None => false end.

Fixpoint read_entries (count : nat) (limits : ZipLimits) (archive : string) (p total : Z)
    (entries : list (string * Entry)) : partial (Z * list (string * Entry)) :=
  match count with
  | O => Some (Ok (p, entries))
  | S count =>
    and_then (read_central archive p) (fun c =>
    if is_directory_name (ce_name c) then read_entries count limits archive (ce_next c) total entries else
    and_then (Some (check_entry limits entries total c)) (fun _ =>
    read_entries count limits archive (ce_next c) (u64 (total + en_size (ce_entry c)))
      (om_set (ce_name c) (ce_entry c) entries)))
  end.

Definition parse_zip (archive : string) (limits : ZipLimits) : partial ZipResourceProvider :=
  and_then (Some (validate_limits (zl_limits limits))) (fun _ =>
  if (max_archive_bytes limits =? 0) || (max_compression_ratio limits =? 0) then
    Some (Err (InvalidArgument "ZIP limits must be positive"))
  else if max_archive_bytes limits <? str_len archive then throws "ZIP_ARCHIVE_LIMIT"
  else if str_len archive <? 22 then throws "ZIP_EOCD_NOT_FOUND" else
  let lower := if 65557 <? str_len archive then str_len archive - 65557 else 0 in
  and_then (find_eocd (Z.to_nat (str_len archive - 22 - lower)) archive lower) (fun eocd =>
  and_then (read_u16 archive (eocd + 20)) (fun comment =>
  if negb (u64 (eocd + 22 + comment) =? str_len archive) then throws "ZIP_EOCD_INVALID" else
  and_then (read_u16 archive (eocd + 4)) (fun disk =>
  and_then (if negb (disk =? 0) then Some (Ok disk) else read_u16 archive (eocd + 6)) (fun disk =>
  if negb (disk =? 0) then throws "ZIP_MULTIDISK_UNSUPPORTED" else
  and_then (read_u16 archive (eocd + 10)) (fun count =>
  and_then (read_u32 archive (eocd + 12)) (fun central_size =>
  and_then (read_u32 archive (eocd + 16)) (fun central_offset =>
  if (count =? 0xffff) || (central_size =? 0xffffffff) || (central_offset =? 0xffffffff) then throws "ZIP64_UNSUPPORTED"
  else if (max_resources (zl_limits limits) <? count) || (eocd <? u64 (central_offset + central_size)) then
    throws "ZIP_CENTRAL_DIRECTORY_INVALID" else
  and_then (read_entries (Z.to_nat count) limits archive central_offset 0 []) (fun read =>
  if negb (read.1 =? u64 (central_offset + central_size)) then throws "ZIP_CENTRAL_SIZE_MISMATCH"
  else Some (Ok (mkZip archive limits read.2))))))))))).

(** ** The provider *)
Class Zlib := {
  zlib_init : bool;                                   (** [inflateInit2] succeeds *)
  zlib_inflate : string -> Z -> bool * string * Z;    (** [Z_STREAM_END], what was written, what was consumed *)
  zlib_crc32 : string -> Z
}.
Section Provider.
Context {ZL : Zlib}.

Definition zip_list_resources (z : ZipResourceProvider) : Result (list string) := Ok (zp_entries z).*1.

Definition inflate_entry (e : Entry) (input : string) : exc string :=
  if negb zlib_init then Err (RuntimeError "ZIP_INFLATE_INIT_FAILED") else
  let '(ended, output, consumed) := zlib_inflate input (en_size e) in
  if negb ended || negb (str_len output =? en_size e) || negb (consumed =? en_compressed e)
  then Err (RuntimeError "ZIP_INFLATE_FAILED") else Ok output.
Definition read_entry (archive path : string) (e : Entry) : partial string :=
  let p := en_offset e in
  and_then (read_u32 archive p) (fun signature =>
  if negb (signature =? 0x04034b50) then throws "ZIP_LOCAL_HEADER_INVALID" else
  and_then (read_u16 archive (p + 6)) (fun flags =>
  and_then (read_u16 archive (p + 8)) (fun method =>
  and_then (read_u16 archive (p + 26)) (fun name_len =>
  and_then (read_u16 archive (p + 28)) (fun extra_len =>
  let data := u64 (p + 30 + name_len + extra_len) in
  if negb (flags =? en_flags e) || negb (method =? en_method e) || (str_len archive <? u64 (data + en_compressed e)) then
    throws "ZIP_LOCAL_HEADER_MISMATCH" else
  and_then (chars_at archive (p + 30) name_len) (fun local_name =>
  if negb (String.eqb local_name path) then throws "ZIP_LOCAL_NAME_MISMATCH" else
  and_then (if en_method e =? 0 then
              if negb (en_compressed e =? en_size e) then throws "ZIP_STORED_SIZE_MISMATCH"
              else chars_at archive data (en_size e)
            else and_then (chars_at archive data (en_compressed e)) (fun input => Some (inflate_entry e input))) (fun output =>
  if negb (zlib_crc32 output =? en_crc e) then throws "ZIP_CRC_MISMATCH" else Some (Ok output)))))))).
Definition zip_read_resource (z : ZipResourceProvider) (path : string) : option (Result string) :=
  match normalize_resource_path path with
  | Err e => Some (Err e)
  | Ok _ =>
    match om_get path (zp_entries z) with
    | None => Some (Err (resource_error "RESOURCE_NOT_FOUND" "ZIP resource not found"))
    | Some e =>
      match read_entry (zp_archive z) path e with
      | None => None
      | Some (Ok output) => Some (Ok output)
      | Some (Err ex) => Some (Err (resource_error (what ex) (what ex)))
      end
    end
  end.
End Provider.

(** ** No byte outside the archive is read *)
Lemma code_range c : 0 <= code c < 256.
Proof. unfold code. pose proof (N_ascii_bounded c). lia. Qed.
Lemma get_inside b i : (i < String.length b)%nat -> is_Some (String.get i b).
Proof. revert i. induction b as [|c b IH]; intros [|i] Hi; cbn in *; [lia..|eauto|apply IH; lia]. Qed.
Lemma byte_at_inside b p : 0 <= p -> p < str_len b -> exists v, byte_at b p = Some (Ok v) /\ 0 <= v < 256.
Proof.
  unfold byte_at, str_len. intros H0 Hp. rewrite (proj2 (Z.ltb_ge p 0)) by lia.
  destruct (get_inside b (Z.to_nat p)) as [c ->]; [lia|]. exists (code c). split; [done|apply code_range].
Qed.
Lemma lor_bound n a b : 0 <= n -> 0 <= a < 2 ^ n -> 0 <= b < 2 ^ n -> 0 <= Z.lor a b < 2 ^ n.
Proof.
  intros Hn Ha Hb. assert (0 <= Z.lor a b) as H0 by (apply Z.lor_nonneg; lia). split; [done|].
  assert (Z.shiftr (Z.lor a b) n = 0) as H.
  { rewrite Z.shiftr_lor, !Z.shiftr_div_pow2, !Z.div_small by lia. done. }
  rewrite Z.shiftr_div_pow2 in H by done. apply Z.div_small_iff in H; [lia|].
  pose proof (Z.pow_pos_nonneg 2 n). lia.
Qed.
Lemma shiftl_byte v k n : 0 <= v < 256 -> 0 <= k -> k + 8 <= n -> 0 <= Z.shiftl v k < 2 ^ n.
Proof.
  intros Hv Hk Hn. rewrite Z.shiftl_mul_pow2 by done. pose proof (Z.pow_pos_nonneg 2 k ltac:(lia) Hk).
  split; [lia|]. apply Z.lt_le_trans with (2 ^ 8 * 2 ^ k); [nia|]. rewrite <- Z.pow_add_r by lia. apply Z.pow_le_mono_r; lia.
Qed.

(** What a read gives where its position is below [2 ^ 63]. *)
Definition reads_below {A} (m : partial A) (Q : A -> Prop) : Prop :=
  is_Some m /\ forall a, m = Some (Ok a) -> Q a.
Lemma reads_bind {A B} (m : partial A) (f : A -> partial B) (Q : A -> Prop) (R : B -> Prop) :
  reads_below m Q -> (forall a, Q a -> reads_below (f a) R) -> reads_below (and_then m f) R.
Proof.
  intros [[[a|e] ->] HQ] Hf; cbn [and_then]; [|by split].
  by apply Hf, HQ.
Qed.
Lemma reads_ret {A} (a : A) (Q : A -> Prop) : Q a -> reads_below (Some (Ok a)) Q.
Proof. intros H. split; [by eexists|]. by intros b [= <-]. Qed.
Lemma reads_throw {A} e (Q : A -> Prop) : reads_below (Some (Err e)) Q.
Proof. split; [by eexists|done]. Qed.
Lemma reads_weaken {A} (m : partial A) (Q R : A -> Prop) : reads_below m Q -> (forall a, Q a -> R a) -> reads_below m R.
Proof. intros [Hs HQ] HR. split; [done|]. intros a Ha. by apply HR, HQ. Qed.

Lemma read_u16_reads b p : 0 <= p < 2 ^ 63 ->
  reads_below (read_u16 b p) (fun v => 0 <= v < 2 ^ 16 /\ p + 2 <= str_len b).
Proof.
  intros Hp. unfold read_u16. rewrite (u64_small (p + 2)) by (unfold is_u64; lia).
  destruct (Z.ltb_spec (str_len b) (p + 2)) as [|Hl]; [apply reads_throw|].
  destruct (byte_at_inside b p) as (v0 & -> & H0); [lia..|]. destruct (byte_at_inside b (p + 1)) as (v1 & -> & H1); [lia..|].
  cbn [and_then]. apply reads_ret. split; [|done]. apply (lor_bound 16); [lia|lia|apply shiftl_byte; lia].
Qed.
Lemma read_u32_reads b p : 0 <= p < 2 ^ 63 ->
  reads_below (read_u32 b p) (fun v => 0 <= v < 2 ^ 32 /\ p + 4 <= str_len b).
Proof.
  intros Hp. unfold read_u32. rewrite (u64_small (p + 4)) by (unfold is_u64; lia).
  destruct (Z.ltb_spec (str_len b) (p + 4)) as [|Hl]; [apply reads_throw|].
  destruct (byte_at_inside b p) as (v0 & -> & H0); [lia..|]. destruct (byte_at_inside b (p + 1)) as (v1 & -> & H1); [lia..|].
  destruct (byte_at_inside b (p + 2)) as (v2 & -> & H2); [lia..|]. destruct (byte_at_inside b (p + 3)) as (v3 & -> & H3); [lia..|].
  cbn [and_then]. apply reads_ret. split; [|done].
  repeat (apply (lor_bound 32); [lia| |apply shiftl_byte; lia]). lia.
Qed.
Lemma chars_at_reads b p len : 0 <= p -> 0 <= len -> p + len <= str_len b ->
  reads_below (chars_at b p len) (fun s => str_len s = len).
Proof.
  intros Hp Hl Hb. unfold chars_at. rewrite (proj2 (Z.leb_le 0 p)), (proj2 (Z.leb_le 0 len)), (proj2 (Z.leb_le _ _) Hb) by lia.
  cbn [andb]. apply reads_ret. unfold str_len in *. rewrite length_substring. lia.
Qed.

Ltac reads_u :=
  match goal with
  | |- reads_below (and_then (read_u16 _ _) _) _ => eapply reads_bind; [apply read_u16_reads; lia|cbn beta; intros ? [? ?]]
  | |- reads_below (and_then (read_u32 _ _) _) _ => eapply reads_bind; [apply read_u32_reads; lia|cbn beta; intros ? [? ?]]
  | |- reads_below (if ?c then throws _ else _) _ => let E := fresh "E" in destruct c eqn:E; [apply reads_throw|]
  end.

Section Inside.
Context (archive : string).
Hypothesis Hsize : str_len archive < 2 ^ 62.

Definition entry_ok (e : Entry) : Prop :=
  0 <= en_compressed e < 2 ^ 32 /\ 0 <= en_size e < 2 ^ 32 /\ 0 <= en_offset e < 2 ^ 32.
Lemma read_central_reads p : 0 <= p < 2 ^ 62 ->
  reads_below (read_central archive p) (fun c => 0 <= ce_next c <= str_len archive /\ entry_ok (ce_entry c)).
Proof.
  intros Hp. unfold read_central. repeat reads_u.
  rewrite u64_small in E0 |- * by (unfold is_u64; lia). apply Z.ltb_ge in E0.
  eapply reads_bind; [apply chars_at_reads; lia|]. intros name _. apply reads_ret. cbn. unfold entry_ok. cbn. lia.
Qed.
Lemma read_entries_reads count limits p total entries :
  0 <= p < 2 ^ 62 -> Forall (fun x => entry_ok x.2) entries ->
  reads_below (read_entries count limits archive p total entries) (fun r => Forall (fun x => entry_ok x.2) r.2).
Proof.
  revert p total entries. induction count as [|count IH]; intros p total entries Hp He; cbn [read_entries]; [by apply reads_ret|].
  eapply reads_bind; [by apply read_central_reads|]. intros c [Hn Hc]. destruct (is_directory_name _); [apply IH; [lia|done]|].
  destruct (check_entry _ _ _ _); cbn [and_then]; [|apply reads_throw]. apply IH; [lia|].
  apply Forall_forall. intros [k x] Hin. rewrite Forall_forall in He. cbn.
  clear -He Hc Hin. induction entries as [|[k' y] l IH]; cbn [om_set] in Hin.
  - apply list_elem_of_singleton in Hin as [= -> ->]. done.
  - destruct (String.compare (ce_name c) k'); set_solver.
Qed.
Lemma find_eocd_reads places lower : 0 <= lower -> lower + Z.of_nat places < 2 ^ 62 ->
  reads_below (find_eocd places archive lower) (fun eocd => 0 <= eocd < 2 ^ 62).
Proof.
  intros Hl. induction places as [|places IH]; intros Hp; cbn [find_eocd]; reads_u;
    (destruct (_ =? _); [apply reads_ret; lia|]); [apply reads_throw|apply IH; lia].
Qed.
Lemma parse_zip_reads limits :
  reads_below (parse_zip archive limits) (fun z => zp_archive z = archive /\ Forall (fun x => entry_ok x.2) (zp_entries z)).
Proof.
  unfold parse_zip. destruct (validate_limits _); cbn [and_then]; [|apply reads_throw].
  destruct (_ || _); [apply reads_throw|]. reads_u. reads_u. apply Z.ltb_ge in E0.
  set (lower := if 65557 <? str_len archive then str_len archive - 65557 else 0). assert (0 <= lower <= str_len archive - 22) as Hlow.
  { unfold lower. destruct (Z.ltb_spec 65557 (str_len archive)); lia. }
  eapply reads_bind; [apply find_eocd_reads; lia|]. cbn beta. intros eocd He. repeat reads_u.
  eapply (reads_bind _ _ (fun _ => True)).
  { destruct (negb (_ =? 0)); [by apply reads_ret|]. eapply reads_weaken; [apply read_u16_reads; lia|done]. }
  intros disk _. repeat reads_u. eapply reads_bind; [apply read_entries_reads; [lia|constructor]|].
  intros r Hr. reads_u. by apply reads_ret.
Qed.
Lemma read_entry_reads {ZL : Zlib} path e : entry_ok e -> is_Some (read_entry archive path e).
Proof.
  intros (Hc & Hs & Ho). cut (reads_below (read_entry archive path e) (fun _ => True)); [by intros []|]. unfold read_entry. repeat reads_u.
  rewrite (u64_small (_ + 30 + _ + _)) in E0 |- * by (unfold is_u64; lia).
  rewrite (u64_small (_ + en_compressed e)) in E0 by (unfold is_u64; lia). apply orb_false_iff in E0 as [_ Hle%Z.ltb_ge]. eapply reads_bind; [apply chars_at_reads; lia|]. intros name _. reads_u.
  eapply (reads_bind _ _ (fun _ => True)).
  - destruct (en_method e =? 0).
    + destruct (Z.eqb_spec (en_compressed e) (en_size e)) as [Heq|]; [|apply reads_throw]. cbn [negb].
      eapply reads_weaken; [apply chars_at_reads; lia|done].
    + eapply reads_bind; [apply chars_at_reads; lia|]. intros input _. destruct (inflate_entry e input); [by apply reads_ret|apply reads_throw].
  - intros output _. destruct (negb (zlib_crc32 output =? en_crc e)); [apply reads_throw|by apply reads_ret].
Qed.
End Inside.

(** C28: No byte outside the archive is read: whatever the bytes of an archive (of a size
    an object can have), parsing it has an outcome, and so has reading any path of
    the provider that results. *)
Theorem zip_reads_inside {ZL : Zlib} archive limits : str_len archive < 2 ^ 62 ->
  exists r, parse_zip archive limits = Some r
    /\ forall z path, r = Ok z -> is_Some (zip_read_resource z path).
Proof.
  intros Hs. destruct (parse_zip_reads archive Hs limits) as [[r Hr] HQ]. exists r. split; [done|]. intros z path ->.
  destruct (HQ z Hr) as [Ha HF]. unfold zip_read_resource. destruct (normalize_resource_path path); [|by eexists].
  destruct (om_get path (zp_entries z)) as [e|] eqn:Eg; [|by eexists]. rewrite Ha.
  assert (entry_ok e) as He.
  { clear -HF Eg. induction HF as [|[k x] l Hx _ IH]; [done|]. cbn in *. destruct (String.eqb path k); [|by apply IH]. by injection Eg as <-. }
  destruct (read_entry_reads archive path e He) as [[output|ex] ->]; by eexists.
Qed.

(** ** What an archive holds *)
Definition limits_ok (limits : ZipLimits) : Prop :=
  is_u64 (max_total_bytes (zl_limits limits)) /\ 0 <= max_compression_ratio limits < 2 ^ 32.
Definition within_limits (limits : ZipLimits) (name : string) (e : Entry) : Prop :=
  let l := zl_limits limits in
  safe_path name /\ valid_utf8 name = true /\ str_len name <= max_path_bytes l /\ depth name <= max_depth l
  /\ en_size e <= max_resource_bytes l /\ (en_compressed e = 0 \/ en_size e <= en_compressed e * max_compression_ratio limits).
Definition sizes (entries : list (string * Entry)) : Z := foldr (fun x s => en_size x.2 + s) 0 entries.

Lemma om_set_fresh_sizes k e entries : om_get k entries = None ->
  sizes (om_set k e entries) = sizes entries + en_size e /\ length (om_set k e entries) = S (length entries).
Proof.
  intros Hk. induction entries as [|[k' x] l IH]; cbn [om_set sizes foldr length snd]; [lia|].
  cbn [om_get] in Hk. destruct (String.eqb_spec k k') as [->|Hne]; [done|]. specialize (IH Hk) as [IHs IHl].
  destruct (String.compare k k') eqn:E.
  - by apply String.compare_eq_iff in E.
  - cbn [sizes foldr length snd]. fold (sizes l). lia.
  - cbn [sizes foldr length snd]. fold (sizes l) (sizes (om_set k e l)). lia.
Qed.
Record entries_ok (limits : ZipLimits) (entries : list (string * Entry)) (total : Z) : Prop := {
  eo_sorted : om_sorted entries;
  eo_total : sizes entries = total;
  eo_bound : 0 <= total <= max_total_bytes (zl_limits limits);
  eo_each : forall name e, om_get name entries = Some e -> within_limits limits name e
}.
Lemma check_entry_ok limits entries total c :
  limits_ok limits -> entry_ok (ce_entry c) -> check_entry limits entries total c = Ok tt -> entries_ok limits entries total ->
  om_get (ce_name c) entries = None
  /\ entries_ok limits (om_set (ce_name c) (ce_entry c) entries) (u64 (total + en_size (ce_entry c))).
Proof.
  intros [Hmt Hr] (Hc & Hs & _) E [So To Bo Eo]. unfold check_entry in E. cbn zeta in E.
  destruct (negb _); [done|]. destruct (valid_utf8 (ce_name c)) eqn:Eu; [|done]. cbn [negb] in E. destruct (_ && _); [done|].
  destruct (normalize_resource_path (ce_name c)) as [n|] eqn:En; [|done]. cbn [is_ok negb] in E. apply normalize_Ok in En as [_ Hsafe].
  destruct (Z.ltb_spec (max_path_bytes (zl_limits limits)) (str_len (ce_name c))) as [|Hpb]; [done|].
  destruct (Z.ltb_spec (max_depth (zl_limits limits)) (depth (ce_name c))) as [|Hd]; [done|]. cbn [orb] in E.
  destruct (negb _); [done|]. destruct (_ && _); [done|]. destruct (_ && _); [done|].
  destruct (Z.ltb_spec (max_resource_bytes (zl_limits limits)) (en_size (ce_entry c))) as [|Hrb]; [done|].
  destruct (Z.ltb_spec (max_total_bytes (zl_limits limits)) (en_size (ce_entry c))) as [|Htb]; [done|]. cbn [orb] in E.
  rewrite u64_small in E by (unfold is_u64 in *; lia).
  destruct (Z.ltb_spec (max_total_bytes (zl_limits limits) - en_size (ce_entry c)) total) as [|Htt]; [done|].
  assert (en_compressed (ce_entry c) = 0 \/ en_size (ce_entry c) <= en_compressed (ce_entry c) * max_compression_ratio limits) as Hratio.
  { destruct (Z.eqb_spec (en_compressed (ce_entry c)) 0) as [|Hc0]; [by left|right].
    destruct (Z.eqb_spec (en_size (ce_entry c)) 0) as [->|Hs0]; [nia|]. cbn [negb andb] in E.
    rewrite u64_small in E by (unfold is_u64; nia).
    destruct (Z.ltb_spec (en_compressed (ce_entry c) * max_compression_ratio limits) (en_size (ce_entry c))); [done|lia]. }
  destruct (_ && _); [done|]. unfold om_mem in E. destruct (om_get (ce_name c) entries) eqn:Eg; [done|]. split; [done|].
  rewrite u64_small by (unfold is_u64 in *; lia). split.
  - by apply om_set_sorted.
  - destruct (om_set_fresh_sizes (ce_name c) (ce_entry c) entries Eg). lia.
  - lia.
  - intros name e. rewrite om_get_set. case_decide as Hn; [|apply Eo]. subst name. intros [= <-].
    exact (conj Hsafe (conj Eu (conj Hpb (conj Hd (conj Hrb Hratio))))).
Qed.
Lemma read_entries_ok archive count limits p total entries r :
  str_len archive < 2 ^ 62 -> 0 <= p < 2 ^ 62 -> limits_ok limits ->
  read_entries count limits archive p total entries = Some (Ok r) -> entries_ok limits entries total ->
  exists total', entries_ok limits r.2 total' /\ (length r.2 <= length entries + count)%nat.
Proof.
  intros Hs Hp Hl. revert p total entries Hp. induction count as [|count IH]; intros p total entries Hp E He; cbn [read_entries] in E.
  { injection E as <-. exists total. split; [done|]. cbn. lia. }
  apply and_then_Ok in E as (c & Ec & E). destruct (proj2 (read_central_reads archive Hs p Hp) c Ec) as [Hn Hc].
  destruct (is_directory_name _).
  - destruct (IH (ce_next c) _ _ ltac:(lia) E He) as (t & Ht & Hlen). exists t. split; [done|lia].
  - apply and_then_Ok in E as ([] & Ek & E). injection Ek as Ek.
    destruct (check_entry_ok limits entries total c Hl Hc Ek He) as [Hg He'].
    destruct (IH (ce_next c) _ _ ltac:(lia) E He') as (t & Ht & Hlen). exists t. split; [done|].
    destruct (om_set_fresh_sizes (ce_name c) (ce_entry c) entries Hg). lia.
Qed.

Lemma chars_at_Ok b p len s : chars_at b p len = Some (Ok s) -> str_len s = len.
Proof.
  unfold chars_at. destruct (Z.leb_spec 0 p); [|done]. destruct (Z.leb_spec 0 len); [|done].
  destruct (Z.leb_spec (p + len) (str_len b)); [|done]. intros [= <-]. unfold str_len in *. rewrite length_substring. lia.
Qed.
Lemma inflate_entry_Ok {ZL : Zlib} e input output : inflate_entry e input = Ok output -> str_len output = en_size e.
Proof.
  unfold inflate_entry. destruct (negb _); [done|]. destruct (zlib_inflate _ _) as [[ended out] consumed].
  destruct (Z.eqb_spec (str_len out) (en_size e)); [|by destruct ended]. destruct (_ || _); [done|]. by intros [= <-].
Qed.
Lemma read_entry_checked {ZL : Zlib} archive path e output :
  read_entry archive path e = Some (Ok output) -> str_len output = en_size e /\ zlib_crc32 output = en_crc e.
Proof.
  intros E. unfold read_entry in E. cbn zeta in E. apply and_then_Ok in E as (sg & _ & E). destruct (negb _); [done|].
  do 4 apply and_then_Ok in E as (? & _ & E). destruct (_ || _); [done|]. apply and_then_Ok in E as (nm & _ & E).
  destruct (negb _); [done|]. apply and_then_Ok in E as (out & Eo & E).
  destruct (Z.eqb_spec (zlib_crc32 out) (en_crc e)); [|done]. injection E as <-. split; [|done].
  destruct (en_method e =? 0).
  - destruct (negb _); [done|]. by apply chars_at_Ok in Eo.
  - apply and_then_Ok in Eo as (input & _ & Eo). injection Eo as Eo. by apply inflate_entry_Ok in Eo.
Qed.

Lemma byte_at_Ok b p v : byte_at b p = Some (Ok v) -> 0 <= v < 256.
Proof. unfold byte_at. destruct (_ <? _); [done|]. destruct (String.get _ _); [|done]. intros [= <-]. apply code_range. Qed.
Lemma read_u16_Ok b p v : read_u16 b p = Some (Ok v) -> 0 <= v < 2 ^ 16.
Proof.
  unfold read_u16. destruct (_ <? _); [done|]. intros E. apply and_then_Ok in E as (b0 & H0%byte_at_Ok & E).
  apply and_then_Ok in E as (b1 & H1%byte_at_Ok & E). injection E as <-. apply (lor_bound 16); [lia|lia|apply shiftl_byte; lia].
Qed.
Lemma read_u32_Ok b p v : read_u32 b p = Some (Ok v) -> 0 <= v < 2 ^ 32.
Proof.
  unfold read_u32. destruct (_ <? _); [done|]. intros E. apply and_then_Ok in E as (b0 & H0%byte_at_Ok & E).
  apply and_then_Ok in E as (b1 & H1%byte_at_Ok & E). apply and_then_Ok in E as (b2 & H2%byte_at_Ok & E).
  apply and_then_Ok in E as (b3 & H3%byte_at_Ok & E). injection E as <-.
  repeat (apply (lor_bound 32); [lia| |apply shiftl_byte; lia]). lia.
Qed.
Lemma parse_zip_inv archive limits z : parse_zip archive limits = Some (Ok z) ->
  exists count central_offset p, 0 <= count <= max_resources (zl_limits limits) /\ 0 <= central_offset < 2 ^ 32
    /\ read_entries (Z.to_nat count) limits archive central_offset 0 [] = Some (Ok (p, zp_entries z))
    /\ zp_archive z = archive.
Proof.
  intros E. unfold parse_zip in E. cbn zeta in E. apply and_then_Ok in E as ([] & _ & E). destruct (_ || _); [done|].
  do 2 (destruct (_ <? _); [done|]). apply and_then_Ok in E as (eocd & _ & E). apply and_then_Ok in E as (comment & _ & E).
  destruct (negb _); [done|]. do 2 apply and_then_Ok in E as (? & _ & E). destruct (negb _); [done|].
  apply and_then_Ok in E as (count & Ec%read_u16_Ok & E). apply and_then_Ok in E as (size & _ & E).
  apply and_then_Ok in E as (offset & Eo%read_u32_Ok & E). destruct (_ || _); [done|].
  destruct (Z.ltb_spec (max_resources (zl_limits limits)) count); [done|]. destruct (_ || _); [done|].
  apply and_then_Ok in E as ([p entries] & Er & E). destruct (negb _); [done|]. injection E as <-.
  exists count, offset, p. repeat split; [lia..|done].
Qed.

(** An archive that was accepted lists no more resources than allowed, in order and
    under safe UTF-8 names within the limits of length and depth; together they are
    no larger than the total allowed, each is no larger than allowed and no more
    than the ratio allowed times its compressed size; and a content that is returned
    has the size and the checksum recorded in the archive. *)
Theorem zip_within_limits {ZL : Zlib} archive limits z :
  str_len archive < 2 ^ 62 -> limits_ok limits -> parse_zip archive limits = Some (Ok z) ->
  om_sorted (zp_entries z) /\ Z.of_nat (length (zp_entries z)) <= max_resources (zl_limits limits)
  /\ sizes (zp_entries z) <= max_total_bytes (zl_limits limits)
  /\ (forall name e, om_get name (zp_entries z) = Some e -> within_limits limits name e)
  /\ forall path output, zip_read_resource z path = Some (Ok output) ->
       exists e, om_get path (zp_entries z) = Some e /\ str_len output = en_size e /\ zlib_crc32 output = en_crc e.
Proof.
  intros Hs Hl (count & offset & p & Hc & Ho & Er & Ha)%parse_zip_inv.
  destruct (read_entries_ok archive (Z.to_nat count) limits offset 0 [] (p, zp_entries z) Hs ltac:(lia) Hl Er) as (total & [So To Bo Eo] & Hlen).
  { split; [apply SSorted_nil|done| |done]. unfold limits_ok, is_u64 in Hl. lia. }
  cbn [snd length] in *. split; [done|]. split; [lia|]. split; [lia|]. split; [done|]. intros path output E.
  unfold zip_read_resource in E. destruct (normalize_resource_path path); [|done].
  destruct (om_get path (zp_entries z)) as [e|]; [|done]. exists e. split; [done|].
  destruct (read_entry (zp_archive z) path e) as [[out|ex]|] eqn:Ed; [|done..]. injection E as <-. by apply read_entry_checked in Ed.
Qed.
