(* ===== verification/Utf8.v ===== *)
(** * UTF-8 (valid_utf8 of src/tool_resource_providers.cpp)

    The check the ZIP provider makes of names accepts exactly the encodings of
    sequences of Unicode scalar values: no overlong forms, no surrogates, nothing
    above U+10FFFF, no truncated sequence. *)

From S2P Require Import Prelude Resource Zip.
Open Scope string_scope.
Open Scope list_scope.
Open Scope Z_scope.

(** [lia] with quotients and remainders. *)
Ltac Zify.zify_post_hook ::= Z.div_mod_to_equations.

Definition scalar (x : Z) : Prop := 0 <= x < 0xd800 \/ 0xe000 <= x < 0x110000.
Definition bytes (l : list Z) : string := foldr (fun z s => String (chr z) s) EmptyString l.
Definition encode (x : Z) : string :=
  if x <? 0x80 then bytes [x]
  else if x <? 0x800 then bytes [0xc0 + x / 64; 0x80 + x mod 64]
  else if x <? 0x10000 then bytes [0xe0 + x / 4096; 0x80 + (x / 64) mod 64; 0x80 + x mod 64]
  else bytes [0xf0 + x / 262144; 0x80 + (x / 4096) mod 64; 0x80 + (x / 64) mod 64; 0x80 + x mod 64].
Definition encode_all (xs : list Z) : string := foldr (fun x s => encode x +:+ s) EmptyString xs.

Lemma code_chr z : 0 <= z < 256 -> code (chr z) = z.
Proof. intros Hz. unfold code, chr. rewrite N_ascii_embedding by lia. lia. Qed.
Lemma chr_code c : chr (code c) = c.
Proof. unfold code, chr. rewrite N2Z.id. apply ascii_N_embedding. Qed.

(** The masks of the source as ranges. *)
Lemma mask_lead2 c : (Z.land (code c) 0xe0 =? 0xc0) = (0xc0 <=? code c) && (code c <? 0xe0).
Proof. destruct c as [[] [] [] [] [] [] [] []]; reflexivity. Qed.
Lemma mask_lead3 c : (Z.land (code c) 0xf0 =? 0xe0) = (0xe0 <=? code c) && (code c <? 0xf0).
Proof. destruct c as [[] [] [] [] [] [] [] []]; reflexivity. Qed.
Lemma mask_lead4 c : (Z.land (code c) 0xf8 =? 0xf0) = (0xf0 <=? code c) && (code c <? 0xf8).
Proof. destruct c as [[] [] [] [] [] [] [] []]; reflexivity. Qed.
Lemma continuation_range c : continuation c = (0x80 <=? code c) && (code c <? 0xc0).
Proof. destruct c as [[] [] [] [] [] [] [] []]; reflexivity. Qed.

(** One turn of the loop, by the length of the sequence. *)
Lemma valid_utf8_1 a r : code a < 0x80 -> valid_utf8 (String a r) = valid_utf8 r.
Proof. intros H. cbn [valid_utf8]. by replace (code a <? 0x80) with true by lia. Qed.
Lemma valid_utf8_2 a b r : 0xc0 <= code a < 0xe0 ->
  valid_utf8 (String a (String b r)) = (0xc2 <=? code a) && ((0x80 <=? code b) && (code b <? 0xc0)) && valid_utf8 r.
Proof.
  intros H. cbn [valid_utf8]. rewrite (mask_lead2 a), continuation_range. replace (code a <? 0x80) with false by lia.
  replace ((0xc0 <=? code a) && (code a <? 0xe0)) with true by lia. by rewrite (Z.leb_antisym (code a) 0xc2).
Qed.
Lemma valid_utf8_3 a b d r : 0xe0 <= code a < 0xf0 ->
  valid_utf8 (String a (String b (String d r))) =
    ((0x80 <=? code b) && (code b <? 0xc0)) && ((0x80 <=? code d) && (code d <? 0xc0))
    && negb (((code a =? 0xe0) && (code b <? 0xa0)) || ((code a =? 0xed) && (0xa0 <=? code b))) && valid_utf8 r.
Proof.
  intros H. cbn [valid_utf8]. rewrite (mask_lead2 a), (mask_lead3 a), !continuation_range. replace (code a <? 0x80) with false by lia.
  replace ((0xc0 <=? code a) && (code a <? 0xe0)) with false by lia. by replace ((0xe0 <=? code a) && (code a <? 0xf0)) with true by lia.
Qed.
Lemma valid_utf8_4 a b d e r : 0xf0 <= code a < 0xf8 ->
  valid_utf8 (String a (String b (String d (String e r)))) =
    negb (0xf4 <? code a) && ((0x80 <=? code b) && (code b <? 0xc0)) && ((0x80 <=? code d) && (code d <? 0xc0))
    && ((0x80 <=? code e) && (code e <? 0xc0))
    && negb (((code a =? 0xf0) && (code b <? 0x90)) || ((code a =? 0xf4) && (0x90 <=? code b))) && valid_utf8 r.
Proof.
  intros H. cbn [valid_utf8]. rewrite (mask_lead2 a), (mask_lead3 a), (mask_lead4 a), !continuation_range. replace (code a <? 0x80) with false by lia.
  replace ((0xc0 <=? code a) && (code a <? 0xe0)) with false by lia. replace ((0xe0 <=? code a) && (code a <? 0xf0)) with false by lia.
  by replace ((0xf0 <=? code a) && (code a <? 0xf8)) with true by lia.
Qed.
Lemma valid_utf8_lead a r : valid_utf8 (String a r) = true -> 0x80 <= code a ->
  (0xc0 <= code a < 0xe0 /\ exists b r', r = String b r')
  \/ (0xe0 <= code a < 0xf0 /\ exists b d r', r = String b (String d r'))
  \/ (0xf0 <= code a < 0xf8 /\ exists b d e r', r = String b (String d (String e r'))).
Proof.
  intros H Ha. cbn [valid_utf8] in H. rewrite (mask_lead2 a), (mask_lead3 a), (mask_lead4 a) in H.
  replace (code a <? 0x80) with false in H by lia.
  destruct ((0xc0 <=? code a) && (code a <? 0xe0)) eqn:E2; [left; split; [lia|]; destruct r; [done|eauto]|].
  destruct ((0xe0 <=? code a) && (code a <? 0xf0)) eqn:E3; [right; left; split; [lia|]; destruct r as [|b [|d r]]; [done..|eauto]|].
  destruct ((0xf0 <=? code a) && (code a <? 0xf8)) eqn:E4; [right; right; split; [lia|]; destruct r as [|b [|d [|e r]]]; [done..|eauto]|done].
Qed.

Ltac accepted := match goal with |- ?checks && valid_utf8 _ = _ => assert (checks = true) as -> by lia end.
(** An encoded scalar value is consumed. *)
Lemma valid_utf8_encode x rest : scalar x -> valid_utf8 (encode x +:+ rest) = valid_utf8 rest.
Proof.
  intros Hx. unfold scalar in Hx. unfold encode. destruct (Z.ltb_spec x 0x80); cbn [bytes foldr String.append].
  { by rewrite valid_utf8_1 by (rewrite code_chr; lia). }
  destruct (Z.ltb_spec x 0x800); cbn [bytes foldr String.append].
  { rewrite valid_utf8_2; rewrite !code_chr by lia; [|lia]. by accepted. }
  destruct (Z.ltb_spec x 0x10000); cbn [bytes foldr String.append].
  { rewrite valid_utf8_3; rewrite !code_chr by lia; [|lia]. by accepted. }
  rewrite valid_utf8_4; rewrite !code_chr by lia; [|lia]. by accepted.
Qed.
(** A sequence that is accepted is the encoding of a scalar value. *)
Lemma same_bytes a z r r' : code a = z -> r = r' -> String a r = String (chr z) r'.
Proof. intros <- <-. by rewrite chr_code. Qed.
Lemma checks_split (checks : bool) r : checks && valid_utf8 r = true -> checks = true /\ valid_utf8 r = true.
Proof. apply andb_prop. Qed.
Lemma valid_utf8_step a r : valid_utf8 (String a r) = true ->
  exists x r', scalar x /\ String a r = encode x +:+ r' /\ (String.length r' <= String.length r)%nat /\ valid_utf8 r' = true.
Proof.
  intros H. pose proof (code_range a) as Ha. destruct (Z.ltb_spec (code a) 0x80) as [Hs|Hs].
  { exists (code a), r. split; [unfold scalar; lia|]. unfold encode. replace (code a <? 0x80) with true by lia. cbn.
    rewrite chr_code. split; [done|]. split; [done|]. by rewrite valid_utf8_1 in H. }
  destruct (valid_utf8_lead a r H Hs) as [(Hl & b & r' & ->)|[(Hl & b & d & r' & ->)|(Hl & b & d & e & r' & ->)]].
  - rewrite valid_utf8_2 in H by done. apply checks_split in H as [Hc Hr]. exists ((code a - 0xc0) * 64 + (code b - 0x80)), r'.
    split; [unfold scalar; lia|]. split; [|split; [cbn; lia|done]]. unfold encode.
    replace (_ <? 0x80) with false by lia. replace (_ <? 0x800) with true by lia. cbn [bytes foldr String.append].
    repeat (apply same_bytes; [lia|]). done.
  - rewrite valid_utf8_3 in H by done. apply checks_split in H as [Hc Hr].
    exists ((code a - 0xe0) * 4096 + (code b - 0x80) * 64 + (code d - 0x80)), r'.
    split; [unfold scalar; lia|]. split; [|split; [cbn; lia|done]]. unfold encode.
    replace (_ <? 0x80) with false by lia. replace (_ <? 0x800) with false by lia. replace (_ <? 0x10000) with true by lia.
    cbn [bytes foldr String.append]. repeat (apply same_bytes; [lia|]). done.
  - rewrite valid_utf8_4 in H by done. apply checks_split in H as [Hc Hr].
    exists ((code a - 0xf0) * 262144 + (code b - 0x80) * 4096 + (code d - 0x80) * 64 + (code e - 0x80)), r'.
    split; [unfold scalar; lia|]. split; [|split; [cbn; lia|done]]. unfold encode.
    replace (_ <? 0x80) with false by lia. replace (_ <? 0x800) with false by lia. replace (_ <? 0x10000) with false by lia.
    cbn [bytes foldr String.append]. repeat (apply same_bytes; [lia|]). done.
Qed.

(** The check accepts a text exactly when it is the encoding of a sequence of Unicode
    scalar values. *)
Theorem valid_utf8_exact s : valid_utf8 s = true <-> exists xs, Forall scalar xs /\ s = encode_all xs.
Proof.
  split.
  - remember (String.length s) as n eqn:Hn. assert (String.length s <= n)%nat as Hle by lia. clear Hn. revert s Hle.
    induction n as [|n IH]; intros [|a r] Hle Hv; cbn in Hle; try lia; [by exists []..|].
    destruct (valid_utf8_step a r Hv) as (x & r' & Hx & -> & Hlen & Hr). destruct (IH r' ltac:(lia) Hr) as (xs & HF & ->).
    exists (x :: xs). split; [by constructor|done].
  - intros (xs & HF & ->). induction HF as [|x xs Hx _ IH]; [done|]. cbn [encode_all foldr]. by rewrite valid_utf8_encode.
Qed.
