(* ===== verification/Directory.v ===== *)
(** * Resources in directories (src/tool_resource_providers.cpp)

    The directory provider and the two repositories kept in directories.  The file
    system is a tree below the root the provider canonicalised; a regular file is
    what the code observes of it (its size, whether it opens, the bytes read, its
    size afterwards), so that a file that changes while it is read is part of the
    model.  A directory without links that stays as it is answers like a provider in
    memory that holds its files: [directory_refines_memory]. *)

From S2P Require Import Prelude Json Sha256 Reliability Resource Bundle BundleLaws Resolver Zip.
Open Scope string_scope.
Open Scope list_scope.
Open Scope Z_scope.

Record Observed := mkObserved { ob_before : Z; ob_opens : bool; ob_bytes : string; ob_after : Z }.
Inductive file :=
| Regular (seen : Observed)
| Folder (children : list (string * file))
| Link                                    (** a symbolic link, wherever it leads *)
| Special.

(** Texts of the exceptions of [std::filesystem], which the standard leaves open. *)
Class FileTexts := { fs_what : string -> string }.

Definition error (code message : string) : Error := mkError "resource" code message false.
Definition join_path (parent name : string) : string := if str_empty parent then name else parent +:+ "/" +:+ name.

(** ** Walking the tree *)
Definition child (name : string) (f : file) : option file :=
  match f with Folder children => om_get name children | _ => None end.
Fixpoint lookup_path (path : list string) (f : file) : option file :=
  match path with
  | [] => Some f
  | name :: rest => match child name f with Some f => lookup_path rest f | None => None end
  end.
(** [contains_symlink]: a component on the way is a link; below a link or a missing
    component nothing more is found. *)
Fixpoint contains_symlink (path : list string) (f : file) : bool :=
  match path with
  | [] => false
  | name :: rest => match child name f with
                    | Some Link => true
                    | Some f => contains_symlink rest f
                    | None => false
                    end
  end.

(** ** The provider *)
Record DirectoryResourceProvider := mkDirectory { dr_root : list (string * file); dr_limits : ResourceLimits }.
Definition directory_provider_new {F : FileTexts} (root : option file) (limits : ResourceLimits) : exc DirectoryResourceProvider :=
  match root with
  | None => Err (RuntimeError (fs_what "canonical"))
  | Some f =>
    validate_limits limits;;
    match f with
    | Folder children => Ok (mkDirectory children limits)
    | _ => Err (InvalidArgument "resource root is not a directory")
    end
  end.

Definition list_file (limits : ResourceLimits) (path : string) (size : Z) (acc : list string * Z) : Result (list string * Z) :=
  let '(paths, total) := acc in
  match normalize_resource_path path with
  | Err e => Err e
  | Ok _ =>
    if (max_path_bytes limits <? str_len path) || (max_depth limits <? depth path) then
      Err (error "RESOURCE_PATH_LIMIT" "resource path limit exceeded")
    else if (max_resource_bytes limits <? size) || (max_total_bytes limits <? size)
            || (u64 (max_total_bytes limits - size) <? total) then
      Err (error "RESOURCE_SIZE_LIMIT" "resource size limit exceeded")
    else if max_resources limits <? Z.of_nat (S (length paths)) then
      Err (error "RESOURCE_COUNT_LIMIT" "resource count limit exceeded")
    else Ok (paths ++ [path], u64 (total + size))
  end.
(** The recursive iterator: an entry, then what is below it. *)
Definition list_children (f : string -> file -> list string * Z -> Result (list string * Z)) (parent : string)
    : list (string * file) -> list string * Z -> Result (list string * Z) :=
  fix go children acc :=
    match children with
    | [] => Ok acc
    | (name, x) :: rest => acc ← f (join_path parent name) x acc; go rest acc
    end.
Fixpoint list_below (limits : ResourceLimits) (path : string) (f : file) (acc : list string * Z) : Result (list string * Z) :=
  match f with
  | Link => Err (error "SYMLINK_REJECTED" "symbolic links and reparse links are not resources")
  | Regular seen => list_file limits path (ob_before seen) acc
  | Folder children => list_children (list_below limits) path children acc
  | Special => Ok acc
  end.
Definition directory_list (d : DirectoryResourceProvider) : Result (list string) :=
  match list_below (dr_limits d) EmptyString (Folder (dr_root d)) ([], 0) with
  | Err e => Err e
  | Ok (paths, _) => Ok (sort_bytes paths)
  end.

Definition read_regular (limits : ResourceLimits) (seen : Observed) : Result string :=
  if max_resource_bytes limits <? ob_before seen then Err (error "RESOURCE_SIZE_LIMIT" "resource size limit exceeded")
  else if negb (ob_opens seen) then Err (error "RESOURCE_NOT_FOUND" "resource cannot be opened")
  else if negb (str_len (ob_bytes seen) =? ob_before seen) || negb (ob_after seen =? ob_before seen) then
    Err (error "RESOURCE_CHANGED" "resource changed while it was read")
  else Ok (ob_bytes seen).
Definition directory_read {F : FileTexts} (d : DirectoryResourceProvider) (path : string) : Result string :=
  match normalize_resource_path path with
  | Err e => Err e
  | Ok _ =>
    if (max_path_bytes (dr_limits d) <? str_len path) || (max_depth (dr_limits d) <? depth path) then
      Err (error "RESOURCE_PATH_LIMIT" "resource path limit exceeded")
    else if contains_symlink (segments path) (Folder (dr_root d)) then
      Err (error "SYMLINK_REJECTED" "symbolic links and reparse links are not resources")
    else match lookup_path (segments path) (Folder (dr_root d)) with
    | None => Err (error "RESOURCE_NOT_FOUND" (fs_what "canonical"))
    | Some (Regular seen) => read_regular (dr_limits d) seen
    | Some _ => Err (error "RESOURCE_NOT_FOUND" "resource is outside root or not a regular file")
    end
  end.
Definition directory_provider {F : FileTexts} (d : DirectoryResourceProvider) : ResourceProvider :=
  mkResourceProvider (directory_list d) (directory_read d).

(** ** Repositories *)
Definition is_alnum (c : ascii) : bool := in_range "0" "9" c || in_range "a" "z" c || in_range "A" "Z" c.
Definition safe_component (value : string) : bool :=
  negb (str_empty value || String.eqb value "." || String.eqb value "..")
  && str_forallb (fun c => is_alnum c || Ascii.eqb c "." || Ascii.eqb c "_" || Ascii.eqb c "-") value.

Record DirectoryBundleRepository := mkDirectoryRepository { db_root : list (string * file); db_limits : ResourceLimits; db_source : string }.
Definition is_folder (f : file) : bool := match f with Folder _ => true | _ => false end.
Definition is_regular (f : file) : bool := match f with Regular _ => true | _ => false end.
Definition versions_below (id : string) (root : list (string * file)) (version_of : string * file -> option string)
    : Result (list string) :=
  if negb (safe_component id) then Err (error "BUNDLE_ID_INVALID" "invalid Bundle id")
  else match om_get id root with
       | Some (Folder children) => Ok (sort_bytes (omap version_of children))
       | _ => Err (error "BUNDLE_NOT_FOUND" "Bundle not found")
       end.
Definition directory_version (entry : string * file) : option string :=
  if is_folder entry.2 && safe_component entry.1 then Some entry.1 else None.
Definition directory_versions (r : DirectoryBundleRepository) (id : string) : Result (list string) :=
  versions_below id (db_root r) directory_version.

(** Finding what a coordinate names, without following links. *)
Definition find_coordinate {F : FileTexts} (root : list (string * file)) (id name : string) : exc file :=
  if contains_symlink [id; name] (Folder root) then Err (RuntimeError "repository coordinate contains a symlink")
  else match lookup_path [id; name] (Folder root) with
       | None => Err (RuntimeError (fs_what "canonical"))
       | Some f => Ok f
       end.
Definition as_version_error {A} (m : exc A) : Result A :=
  match m with Ok a => Ok a | Err e => Err (error "VERSION_NOT_FOUND" (what e)) end.
Definition directory_get {F : FileTexts} (r : DirectoryBundleRepository) (id version : string) : Result ResourceProvider :=
  if negb (safe_component id) || negb (safe_component version) then
    Err (error "REPOSITORY_COORDINATE_INVALID" "invalid Bundle coordinate")
  else as_version_error
    (f ← find_coordinate (db_root r) id version;
     d ← directory_provider_new (Some f) (db_limits r);
     Ok (directory_provider d)).
Definition directory_repository {F : FileTexts} (r : DirectoryBundleRepository) : BundleRepository :=
  mkRepository (fun id _ => directory_versions r id) (fun id version _ => directory_get r id version) (Ok (db_source r)).

(** [path::extension] and [path::stem]: the last dot, unless it comes first. *)
Fixpoint last_dot (pos : nat) (s : string) : option nat :=
  match s with
  | EmptyString => None
  | String c s' => match last_dot (S pos) s' with
                   | Some p => Some p
                   | None => if Ascii.eqb c "." then Some pos else None
                   end
  end.
Definition split_extension (name : string) : string * string :=
  match last_dot 0 name with
  | Some (S p) => (str_upto (S p) name, str_from (S p) name)
  | _ => (name, EmptyString)
  end.
Record ZipBundleRepository := mkZipRepository { zb_root : list (string * file); zb_limits : ZipLimits; zb_source : string }.
Definition zip_version (entry : string * file) : option string :=
  let '(stem, extension) := split_extension entry.1 in
  if is_regular entry.2 && String.eqb extension ".zip" && safe_component stem then Some stem else None.
Definition zip_versions (r : ZipBundleRepository) (id : string) : Result (list string) :=
  versions_below id (zb_root r) zip_version.
Definition zip_provider_new {F : FileTexts} (f : file) (limits : ZipLimits) : partial ZipResourceProvider :=
  match f with
  | Regular seen => if ob_opens seen then parse_zip (ob_bytes seen) limits else throws "ZIP_NOT_FOUND"
  | _ => throws (fs_what "read")
  end.
Definition zip_get {F : FileTexts} (r : ZipBundleRepository) (id version : string) : option (Result ZipResourceProvider) :=
  if negb (safe_component id) || negb (safe_component version) then
    Some (Err (error "REPOSITORY_COORDINATE_INVALID" "invalid Bundle coordinate"))
  else match and_then (Some (find_coordinate (zb_root r) id (version +:+ ".zip")))
                      (fun f => zip_provider_new f (zb_limits r)) with
       | None => None
       | Some m => Some (as_version_error m)
       end.

(** ** Directories as providers in memory *)
Section FileInd.
Context (P : file -> Prop).
Context (Hregular : forall s, P (Regular s)) (Hlink : P Link) (Hspecial : P Special).
Context (Hfolder : forall l, Forall (fun x => P x.2) l -> P (Folder l)).
Fixpoint file_ind' (f : file) : P f :=
  match f with
  | Regular s => Hregular s
  | Link => Hlink
  | Special => Hspecial
  | Folder l =>
    Hfolder l ((fix go l : Forall (fun x => P x.2) l :=
                  match l with
                  | [] => Forall_nil_2 _
                  | x :: l' => Forall_cons_2 _ _ _ (file_ind' x.2) (go l')
                  end) l)
  end.
End FileInd.

(** The regular files of a tree, by the components of their paths, in the order of the
    iterator. *)
Fixpoint files_below (f : file) : list (list string * Observed) :=
  match f with
  | Regular seen => [([], seen)]
  | Folder children =>
    (fix go children := match children with
                        | [] => []
                        | (name, x) :: rest => (prod_map (cons name) id <$> files_below x) ++ go rest
                        end) children
  | _ => []
  end.
Definition files_in (children : list (string * file)) : list (list string * Observed) := files_below (Folder children).
Lemma files_in_cons name x rest : files_in ((name, x) :: rest) = (prod_map (cons name) id <$> files_below x) ++ files_in rest.
Proof. done. Qed.
Definition path_from (parent : string) (components : list string) : string := foldl join_path parent components.
Definition path_of (components : list string) : string := path_from EmptyString components.

(** A tree as file systems have them: names without slashes, each once in its folder;
    no links, and files that do not change. *)
Definition plain_name (name : string) : Prop := name <> "" /\ segments name = [name].
Fixpoint steady (f : file) : Prop :=
  match f with
  | Regular seen => ob_opens seen = true /\ ob_before seen = str_len (ob_bytes seen) /\ ob_after seen = ob_before seen
  | Folder children =>
    NoDup children.*1 /\ (fix go children := match children with
                          | [] => True
                          | (name, x) :: rest => (plain_name name /\ steady x) /\ go rest
                          end) children
  | Link => False
  | Special => True
  end.
Lemma steady_folder children : steady (Folder children) <->
  NoDup children.*1 /\ Forall (fun x => plain_name x.1 /\ steady x.2) children.
Proof.
  cbn [steady]. split; intros [Hd H]; (split; [done|]); clear Hd.
  - induction children as [|[name x] l IH]; [done|]. destruct H. constructor; auto.
  - induction H as [|[name x] l Hx _ IH]; [done|]. by split.
Qed.
#[local] Opaque steady.

Lemma lookup_files f comps seen : steady f -> lookup_path comps f = Some (Regular seen) <-> (comps, seen) ∈ files_below f.
Proof.
  revert comps. induction f as [s| | |l IH] using file_ind'; intros comps Hf.
  - cbn [files_below]. rewrite list_elem_of_singleton. destruct comps; cbn; naive_solver.
  - cbn [files_below]. destruct comps; cbn; set_solver.
  - cbn [files_below]. destruct comps; cbn; set_solver.
  - apply steady_folder in Hf as [Hd HF]. fold (files_in l). destruct comps as [|name comps].
    + cbn [lookup_path]. split; [done|]. clear. induction l as [|[name x] l IHl]; [set_solver|].
      rewrite files_in_cons. intros [([? ?] & [=] & _)%list_elem_of_fmap|H]%elem_of_app. by apply IHl in H.
    + cbn [lookup_path child]. induction l as [|[k x] l IHl]; [split; [done|set_solver]|].
      rewrite fmap_cons in Hd. apply NoDup_cons in Hd as [Hk Hd]. apply Forall_cons in HF as [[Hp Hx] HF].
      apply Forall_cons in IH as [IHx IH]. specialize (IHl IH Hd HF). cbn [fst snd] in *. rewrite files_in_cons, elem_of_app.
      cbn [om_get]. destruct (String.eqb_spec name k) as [->|Hne].
      * rewrite (IHx comps Hx). split.
        -- intros H. left. apply list_elem_of_fmap. by exists (comps, seen).
        -- intros [([c s] & Heq & Hin)%list_elem_of_fmap|Hin]; [by injection Heq as -> ->|]. apply IHl in Hin. by rewrite om_get_None in Hin.
      * rewrite IHl. split; [by right|]. intros [([c s] & Heq & Hin)%list_elem_of_fmap|Hin]; [by injection Heq|done].
Qed.
Lemma steady_no_link comps f : steady f -> contains_symlink comps f = false.
Proof.
  revert f. induction comps as [|name comps IH]; intros f Hf; cbn [contains_symlink]; [done|].
  destruct f as [|l| |]; cbn [child]; try done. apply steady_folder in Hf as [_ HF].
  destruct (om_get name l) as [x|] eqn:E; [|done]. assert (steady x) as Hx.
  { clear -HF E. induction HF as [|[k y] l [_ Hy] _ IHl]; [done|]. cbn in *. destruct (String.eqb name k); [|by apply IHl]. by injection E as <-. }
  destruct x; [by apply IH..|done|by apply IH].
Qed.

(** ** Paths and their components *)
Lemma segments_nonempty s : segments s <> [].
Proof. induction s as [|c s IH]; cbn; [done|]. destruct (Ascii.eqb c "/"); [done|]. by destruct (segments s). Qed.
Lemma segments_app p s : segments (p +:+ String "/" s) = segments p ++ segments s.
Proof.
  induction p as [|c p IH]; [done|]. cbn [String.append segments]. rewrite IH. destruct (Ascii.eqb c "/"); [done|].
  pose proof (segments_nonempty p). by destruct (segments p).
Qed.
Lemma path_from_segments parent comps : Forall plain_name comps -> parent <> "" ->
  segments (path_from parent comps) = segments parent ++ comps.
Proof.
  intros HF. revert parent. induction HF as [|c comps [Hc Hs] _ IH]; intros parent Hp; cbn [path_from foldl]; [by rewrite app_nil_r|].
  fold (path_from (join_path parent c) comps). unfold join_path. destruct parent as [|x parent]; [done|]. cbn [str_empty].
  rewrite IH by done. change (String x parent +:+ "/" +:+ c) with (String x parent +:+ String "/" c).
  by rewrite segments_app, Hs, <- app_assoc.
Qed.
Lemma path_of_segments comps : comps <> [] -> Forall plain_name comps -> segments (path_of comps) = comps.
Proof.
  destruct comps as [|c comps]; [done|]. intros _ [[Hc Hs] HF]%Forall_cons. unfold path_of, path_from. cbn [foldl].
  unfold join_path at 2. cbn [str_empty]. fold (path_from c comps). by rewrite path_from_segments, Hs.
Qed.
Lemma path_from_slash p s : p <> "" -> path_from p (segments s) = p +:+ String "/" s.
Proof.
  remember (String.length s) as n eqn:Hn. revert p s Hn. induction n as [n IH] using (well_founded_induction Nat.lt_wf_0).
  intros p s Hn Hp. pose proof (segments_cut s) as Hc. destruct (str_find "/" 0 s) as [e|].
  - destruct Hc as (a & b & -> & _ & ->). unfold path_from. cbn [foldl]. unfold join_path at 2.
    destruct p as [|x p]; [done|]. cbn [str_empty]. fold (path_from (String x p +:+ "/" +:+ a) (segments b)).
    rewrite (IH (String.length b)); [by rewrite str_app_assoc| |done|done]. rewrite Hn, str_length_app. cbn. lia.
  - rewrite Hc. cbn. unfold join_path. by destruct p.
Qed.
Lemma path_of_safe s : safe_path s -> path_of (segments s) = s.
Proof.
  intros (_ & _ & HF). pose proof (segments_cut s) as Hc. destruct (str_find "/" 0 s) as [e|].
  - destruct Hc as (a & b & -> & _ & E). rewrite E in HF |- *. apply Forall_cons in HF as [[Ha _] _].
    unfold path_of, path_from. cbn [foldl]. unfold join_path at 2. cbn [str_empty]. fold (path_from a (segments b)).
    by apply path_from_slash.
  - rewrite Hc. done.
Qed.
Lemma files_plain f : steady f -> Forall (fun x => Forall plain_name x.1 /\ steady (Regular x.2)) (files_below f).
Proof.
  induction f as [s| | |l IH] using file_ind'; intros Hf; [by apply Forall_singleton|constructor|constructor|].
  apply steady_folder in Hf as [_ HF]. fold (files_in l). induction IH as [|[name x] l Hx _ IHl]; [constructor|].
  apply Forall_cons in HF as [[Hp Hsx] HF]. rewrite files_in_cons. apply Forall_app. split; [|by apply IHl].
  apply Forall_fmap. eapply Forall_impl; [by apply Hx|]. intros [c s] [Hc Hr]. split; [by constructor|done].
Qed.
Lemma files_distinct f : steady f -> NoDup (files_below f).*1.
Proof.
  induction f as [s| | |l IH] using file_ind'; intros Hf; [apply NoDup_singleton|constructor|constructor|].
  apply steady_folder in Hf as [Hd HF]. fold (files_in l). induction IH as [|[name x] l Hx _ IHl]; [constructor|].
  apply Forall_cons in HF as [[Hp Hsx] HF]. rewrite fmap_cons in Hd. apply NoDup_cons in Hd as [Hn Hd].
  rewrite files_in_cons, fmap_app. apply NoDup_app. split; [|split; [|by apply IHl]].
  - assert ((prod_map (cons name) id <$> files_below x).*1 = cons name <$> (files_below x).*1) as ->
      by by rewrite <- !list_fmap_compose.
    apply NoDup_fmap_2; [by intros ? ? [=]|by apply Hx].
  - intros comps Hin Hin2. apply list_elem_of_fmap in Hin as ([c s] & -> & ([c' s'] & Heq & _)%list_elem_of_fmap).
    injection Heq as -> _. apply list_elem_of_fmap in Hin2 as ([c2 s2] & Heq2 & Hin2). cbn in Heq2. subst c2. cbn in Hn.
    assert (steady (Folder l)) as Hfl by by apply steady_folder.
    apply (lookup_files (Folder l) (name :: c') s2 Hfl) in Hin2. cbn [lookup_path child] in Hin2. by rewrite om_get_None in Hin2.
Qed.

(** ** What a listing that succeeds says *)
Definition listable (limits : ResourceLimits) (path : string) (seen : Observed) : Prop :=
  safe_path path /\ str_len path <= max_path_bytes limits /\ depth path <= max_depth limits
  /\ ob_before seen <= max_resource_bytes limits.
Lemma list_file_Ok limits path seen acc acc' : list_file limits path (ob_before seen) acc = Ok acc' ->
  acc'.1 = acc.1 ++ [path] /\ listable limits path seen.
Proof.
  unfold list_file. destruct acc as [paths total]. destruct (normalize_resource_path path) as [p|] eqn:En; [|done].
  apply normalize_Ok in En as [-> Hs]. destruct (_ || _) eqn:E1; [done|]. destruct (_ || _ || _) eqn:E2; [done|].
  destruct (max_resources limits <? _); [done|]. intros E; injection E as <-. split; [done|]. rewrite !orb_false_iff, !Z.ltb_ge in E1, E2. unfold listable. naive_solver lia.
Qed.
Definition listed (limits : ResourceLimits) (f : file) : Prop :=
  forall path acc acc', list_below limits path f acc = Ok acc' ->
    acc'.1 = acc.1 ++ ((fun x => path_from path x.1) <$> files_below f)
    /\ Forall (fun x => listable limits (path_from path x.1) x.2) (files_below f).
Lemma list_children_Ok limits l : Forall (fun x => listed limits x.2) l -> listed limits (Folder l).
Proof.
  intros HF path acc acc' E. cbn [list_below] in E. fold (files_in l). revert acc E.
  induction HF as [|[name f] l Hf _ IH]; intros acc E; [injection E as <-; by rewrite app_nil_r|].
  cbn [list_children] in E. apply bind_Ok in E as (acc1 & E1 & E). apply Hf in E1 as [E1 H1]. apply IH in E as [E H].
  rewrite files_in_cons. split.
  - by rewrite E, E1, fmap_app, app_assoc, <- list_fmap_compose.
  - apply Forall_app. split; [|done]. by apply Forall_fmap.
Qed.
Lemma list_below_Ok limits f : listed limits f.
Proof.
  induction f as [s| | |l IH] using file_ind'; [| | |by apply list_children_Ok]; intros path acc acc' E; cbn in E.
  - apply list_file_Ok in E as [-> H]. split; [done|]. by apply Forall_singleton.
  - done.
  - injection E as <-. by rewrite app_nil_r.
Qed.

(** ** The refinement *)
Definition memory_image (root : list (string * file)) : list (string * ResourceBytes) :=
  (fun x => (path_of x.1, ob_bytes x.2)) <$> files_in root.

Lemma add_resources_total resources m : Forall safe_path resources.*1 -> exists m', add_resources resources m = Ok m'.
Proof.
  revert m. induction resources as [|[p c] rest IH]; intros m HF; [by exists m|].
  rewrite fmap_cons in HF. apply Forall_cons in HF as [Hp HF]. cbn [add_resources].
  destruct (IH (mkMemoryResources (om_set p c (mr_resources m))) HF) as [m' E]. exists m'.
  by rewrite (proj2 (add_resource_Ok p c m _) (conj Hp eq_refl)).
Qed.
Lemma om_get_NoDup {A} k (v : A) m : NoDup m.*1 -> om_get k m = Some v <-> (k, v) ∈ m.
Proof.
  induction m as [|[k' v'] m IH]; intros Hd; [cbn; set_solver|]. rewrite fmap_cons in Hd. apply NoDup_cons in Hd as [Hn Hd].
  cbn [om_get]. rewrite elem_of_cons. destruct (String.eqb_spec k k') as [->|Hk].
  - split; [intros [= ->]; by left|]. intros [[= ->]|Hin]; [done|]. by apply (list_elem_of_fmap_2 fst) in Hin.
  - rewrite IH by done. naive_solver.
Qed.
Lemma last_added_elem path c resources :
  NoDup resources.*1 -> last_added path resources = Some c <-> (path, c) ∈ resources.
Proof.
  intros Hd. unfold last_added. rewrite om_get_NoDup; [by rewrite elem_of_reverse|].
  rewrite fmap_reverse. by rewrite reverse_Permutation.
Qed.
Lemma filled_keys resources m :
  NoDup resources.*1 -> memory_resources resources = Ok m -> sort_bytes resources.*1 = (mr_resources m).*1.
Proof.
  intros Hd E. apply add_resources_spec in E as ([Hs _] & _ & Hg); [|by repeat constructor]. cbn [mr_resources om_get] in Hg.
  apply (StronglySorted_unique byte_le); [apply (StronglySorted_merge_sort byte_le)| |].
  - unfold om_sorted in Hs. induction Hs as [|x l _ IH HF]; constructor; [done|]. eapply Forall_impl; [exact HF|].
    intros b Hab. apply byte_le_spec. cbn in Hab. by rewrite Hab.
  - rewrite sort_bytes_Permutation. apply NoDup_Permutation; [done|by apply om_sorted_NoDup|]. intros path.
    rewrite <- (om_mem_keys path (mr_resources m)). unfold om_mem. rewrite Hg, list_elem_of_fmap. split.
    + intros ([p c] & -> & Hin). cbn [fst]. apply last_added_elem in Hin as ->; [|done]. done.
    + destruct (last_added path resources) as [c|] eqn:Ec; [|done]. intros _. exists (path, c). split; [done|].
      by apply last_added_elem.
Qed.

Section Refinement.
Context {F : FileTexts} (d : DirectoryResourceProvider).
Context (Hd : steady (Folder (dr_root d))).
Context (Hl : Forall (fun x => listable (dr_limits d) (path_of x.1) x.2) (files_in (dr_root d))).

Lemma file_facts comps seen : (comps, seen) ∈ files_in (dr_root d) ->
  segments (path_of comps) = comps /\ steady (Regular seen) /\ listable (dr_limits d) (path_of comps) seen.
Proof.
  intros Hin. rewrite Forall_forall in Hl. specialize (Hl _ Hin). pose proof (files_plain _ Hd) as Hp.
  rewrite Forall_forall in Hp. destruct (Hp _ Hin) as [Hc Hr]. split; [|done]. apply path_of_segments; [|done].
  intros ->. destruct Hl as [(_ & _ & HF) _]. by apply Forall_cons in HF as [[? _] _].
Qed.
Lemma image_safe : Forall safe_path (memory_image (dr_root d)).*1.
Proof. unfold memory_image. rewrite <- list_fmap_compose, Forall_fmap. eapply Forall_impl; [exact Hl|]. by intros x [Hs _]. Qed.
Lemma image_distinct : NoDup (memory_image (dr_root d)).*1.
Proof.
  unfold memory_image. rewrite <- list_fmap_compose.
  apply (NoDup_fmap_1 segments). rewrite <- list_fmap_compose.
  rewrite (list_fmap_ext _ fst); [by apply files_distinct|]. intros i [comps seen] Hi%list_elem_of_lookup_2. by apply file_facts in Hi as [? _].
Qed.
Lemma directory_read_image path c : directory_read d path = Ok c <-> (path, c) ∈ memory_image (dr_root d).
Proof.
  unfold directory_read, memory_image. rewrite list_elem_of_fmap. rewrite steady_no_link by done. split.
  - destruct (normalize_resource_path path) as [p|] eqn:En; [|done]. apply normalize_Ok in En as [-> Hs].
    destruct (_ || _); [done|]. destruct (lookup_path _ _) as [[seen| | |]|] eqn:El; try done. intros Hr.
    exists (segments path, seen). split; [|by apply lookup_files]. cbn. rewrite path_of_safe by done. f_equal.
    unfold read_regular in Hr. repeat (case_match; try done). by simplify_res.
  - intros ([comps seen] & [= -> ->] & Hin). destruct (file_facts _ _ Hin) as (Hseg & (Ho & Hb & Ha) & Hs & H1 & H2 & H3).
    rewrite (proj2 (normalize_Ok _ _) (conj eq_refl Hs)), Hseg. apply lookup_files in Hin as ->; [|done]. cbn [fst snd] in *.
    rewrite !(proj2 (Z.ltb_ge _ _)) by done. cbn [orb]. unfold read_regular.
    by rewrite (proj2 (Z.ltb_ge _ _)), Ho, <- Hb, Ha, !Z.eqb_refl.
Qed.
End Refinement.

(** C5: A directory that is listed without an error, holds no links and is not changed
    meanwhile refines the provider in memory filled with its files: they accept to
    be filled, both list the same paths in the same order, a path reads as a content
    from the one exactly if from the other, a bundle loads from the one exactly if from
    the other, and where the manifest is listed both loads end alike, errors included. *)
Theorem directory_refines_memory {F : FileTexts} {J : JsonLib} d paths :
  steady (Folder (dr_root d)) -> list_resources (directory_provider d) = Ok paths ->
  exists m, memory_resources (memory_image (dr_root d)) = Ok m
    /\ list_resources (memory_provider m) = Ok paths
    /\ (forall path c, read_resource (directory_provider d) path = Ok c <-> read_resource (memory_provider m) path = Ok c)
    /\ (forall b, load_bundle_from_provider (directory_provider d) = Ok b <-> load_bundle_from_provider (memory_provider m) = Ok b)
    /\ ("manifest.json" ∈ paths ->
        load_bundle_from_provider (directory_provider d) = load_bundle_from_provider (memory_provider m)).
Proof.
  intros Hd E. cbn in E. unfold directory_list in E. destruct (list_below _ _ _ _) as [[listed_ total]|] eqn:El; [|done].
  injection E as <-. pose proof El as Elb. apply list_below_Ok in El as [El Hl]. cbn [fst] in El. fold (files_in (dr_root d)) in *.
  destruct (add_resources_total (memory_image (dr_root d)) (mkMemoryResources []) (image_safe d Hl)) as [m Em].
  exists m. split; [done|]. pose proof (image_distinct d Hd Hl) as Hn.
  pose proof Em as Em'. apply add_resources_spec in Em' as (Hm & _ & Hg); [|by repeat constructor]. cbn [mr_resources om_get] in Hg.
  assert (forall path c, directory_read d path = Ok c <-> memory_read_resource m path = Ok c) as Hr.
  { intros path c. rewrite memory_read_Ok, directory_read_image, Hg by done. rewrite <- last_added_elem by done.
    by destruct (last_added _ _). }
  assert (sort_bytes listed_ = (mr_resources m).*1) as Hs.
  { rewrite <- (filled_keys _ _ Hn Em), El. unfold memory_image. by rewrite <- list_fmap_compose. }
  split; [cbn; unfold memory_list_resources; by rewrite Hs|]. split; [done|].
  assert ("manifest.json" ∈ sort_bytes listed_ ->
    load_bundle_from_provider (directory_provider d) = load_bundle_from_provider (memory_provider m)) as Hload.
  { intros Hman. eapply load_same; [cbn; unfold directory_list; by rewrite Elb|by cbn|by rewrite Hs|].
    assert (forall path, path ∈ sort_bytes listed_ -> directory_read d path = memory_read_resource m path) as Hsame.
    { intros path Hin. rewrite Hs in Hin. apply om_mem_keys in Hin. unfold om_mem in Hin.
      destruct (om_get path (mr_resources m)) as [c|] eqn:Ec; [|done]. apply memory_read_Ok in Ec; [|done].
      rewrite Ec. by apply Hr. }
    intros path [->|Hin]; by apply Hsame. }
  split; [|exact Hload]. destruct (decide ("manifest.json" ∈ sort_bytes listed_)) as [Hman|Hman]; [by rewrite Hload|].
  assert (forall c, memory_read_resource m "manifest.json" <> Ok c) as Hno.
  { intros c Hc%memory_read_Ok; [|done]. apply Hman. rewrite Hs. apply om_mem_keys. unfold om_mem. by rewrite Hc. }
  intros b. split; intros [c Hc]%load_reads_manifest; exfalso; eapply Hno; [by apply Hr|exact Hc].
Qed.
