(* ===== verification/Disk.v ===== *)
(** * A directory on disk

    What the code of src/bundle_store.cpp sees of the file system: the entries of one
    directory, changed by system calls.  Before every call other processes may act,
    and every call may fail for reasons of the system; both come from a [world] the
    code does not control.  What the directory held at every moment is remembered:
    a crash leaves one of the [moments]. *)

From S2P Require Import Prelude Zip Directory.
Open Scope string_scope.
Open Scope list_scope.
Open Scope Z_scope.

Abbreviation entries := (list (string * file)).
Record Moment := mkMoment {
  mo_others : entries -> entries;   (** what others do before the call *)
  mo_fails : bool;                  (** the call fails *)
  mo_written : Z;                   (** how much a [write] takes *)
  mo_left : option file             (** what a failing [remove_all] leaves *)
}.
Record Disk := mkDisk {
  dk_entries : entries; dk_past : list entries; dk_clock : nat; next_temp : Z; dk_parent : bool
}.
#[export] Instance eta_Disk : Settable Disk :=
  fun s => mkDisk (dk_entries s) (dk_past s) (dk_clock s) (next_temp s) (dk_parent s).
Definition moments (s : Disk) : list entries := dk_entries s :: dk_past s.

(** [try { m } catch (e) { h }]. *)
Definition handle {E E' S A} (m : act E S A) (h : E -> act E' S A) : act E' S A := fun s =>
  match m s with (Ok a, s) => (Ok a, s) | (Err e, s) => h e s end.

(** ** Trees *)
Fixpoint change (path : list string) (g : option file -> option (option file)) (l : entries) : option entries :=
  match path with
  | [] => None
  | [name] =>
    match g (om_get name l) with
    | None => None
    | Some None => Some (om_del name l)
    | Some (Some f) => Some (om_set name f l)
    end
  | name :: rest =>
    match om_get name l with
    | Some (Folder sub) =>
      match change rest g sub with None => None | Some sub => Some (om_set name (Folder sub) l) end
    | _ => None
    end
  end.
Definition stable (content : string) : file := Regular (mkObserved (str_len content) true content (str_len content)).
Definition make_folder (f : option file) : option (option file) :=
  match f with
  | None => Some (Some (Folder []))
  | Some (Folder l) => Some (Some (Folder l))
  | _ => None
  end.
Definition make_file (f : option file) : option (option file) :=
  match f with None => Some (Some (stable EmptyString)) | Some _ => None end.
Definition append_file (data : string) (f : option file) : option (option file) :=
  match f with Some (Regular seen) => Some (Some (stable (ob_bytes seen +:+ data))) | _ => None end.
Definition unlink_file (f : option file) : option (option file) :=
  match f with Some (Folder _) | None => None | Some _ => Some None end.
(** [rename]: a folder replaces nothing or an empty folder, anything else replaces
    anything but a folder; not to the directory itself. *)
Definition rename (from to : string) (l : entries) : option entries :=
  if str_empty to || String.eqb to "." || String.eqb to ".." then None else
  match om_get from l with
  | None => None
  | Some f =>
    let moved := Some (om_set to f (om_del from l)) in
    match f, om_get to l with
    | _, None => moved
    | Folder _, Some (Folder []) => moved
    | Folder _, Some _ => None
    | _, Some (Folder _) => None
    | _, Some _ => moved
    end
  end.

(** ** System calls *)
Section Calls.
Context (world : nat -> Moment).

Definition put_entries {E} (l : entries) : act E Disk unit :=
  modify (fun s => s <| dk_entries := l |> <| dk_past := moments s |>).
Definition moment {E} : act E Disk Moment :=
  s ← get_state;
  let m := world (dk_clock s) in
  put_entries (mo_others m (dk_entries s));;
  modify (fun s => s <| dk_clock := S (dk_clock s) |>);;
  mret m.
Definition apply_to {E} (f : entries -> option entries) : act E Disk bool :=
  l ← gets dk_entries;
  match f l with None => mret false | Some l => put_entries l;; mret true end.
Definition call {E} (f : entries -> option entries) : act E Disk bool :=
  m ← moment; if mo_fails m then mret false else apply_to f.

(** [write]: [None] where it fails; the bytes taken go to the file opened. *)
Definition write_some {E} (path : list string) (rest : string) : act E Disk (option nat) :=
  m ← moment;
  let n := Z.to_nat (Z.min (mo_written m) (str_len rest)) in
  if mo_fails m || (n =? 0)%nat then mret None else
  apply_to (change path (append_file (str_upto n rest)));; mret (Some n).
Fixpoint write_loop {E} (turns : nat) (path : list string) (rest : string) : act E Disk bool :=
  match rest, turns with
  | EmptyString, _ => mret true
  | _, O => mret false
  | _, S turns =>
    written ← write_some path rest;
    match written with None => mret false | Some n => write_loop turns path (str_from n rest) end
  end.
(** [remove_all]. *)
Definition remove_all {E} (name : string) : act E Disk bool :=
  m ← moment;
  l ← gets dk_entries;
  if mo_fails m then
    put_entries (match mo_left m with Some f => om_set name f l | None => om_del name l end);; mret false
  else put_entries (om_del name l);; mret true.
End Calls.
