(* ===== verification/Store.v ===== *)
(** * Lock files, the bundle cache and the production profile (src/bundle_store.cpp)

    Atomic replacement of lock files and keyrings, the cache that keeps bundles under
    their digests with its garbage collection, and the options production resolves
    with, each call to the system in the order of the source (its POSIX branch). *)

From S2P Require Import Prelude Json Sha256 Reliability Resource Bundle BundleLaws Resolver Zip Directory Disk.
Open Scope string_scope.
Open Scope list_scope.
Open Scope Z_scope.

Definition tool_error (code message : string) : Error := mkError "bundle_tools" code message false.

Definition hex_digest (digest : string) : option string :=
  if negb (str_prefix "sha256:" digest) || negb (str_len digest =? 71) then None else
  let hex := str_from 7 digest in
  if str_forallb is_hex hex then Some hex else None.

(** ** Lock files *)
Section Locks.
Context {J : JsonLib}.

Fixpoint lock_digests (bundles : json) (ids : list string) (digests : gset string) : exc (Result (gset string)) :=
  match ids with
  | [] => Ok (Ok digests)
  | id :: rest =>
    value ← jget id bundles;
    digest ← get_string "digest" "" value;
    version ← get_string "version" "" value;
    if str_empty id || str_empty version || bool_decide (hex_digest digest = None) then
      Ok (Err (tool_error "LOCKFILE_ENTRY_INVALID" ("invalid lock entry: " +:+ id)))
    else lock_digests bundles rest ({[digest]} ∪ digests)
  end.
Definition lock_header : exc (Result (gset string)) :=
  Ok (Err (tool_error "LOCKFILE_INVALID" "invalid dage.lock header")).
Definition lockfile_digests_unchecked (text : string) : exc (Result (gset string)) :=
  root ← read_json text;
  format ← get_string "format" "" root;
  if negb (String.eqb format "dage-lock") then lock_header else
  version ← get_int "lock_version" 0 root;
  if negb (version =? 1) then lock_header else
  bundles ← jget "bundles" root;
  if negb (is_object bundles) then lock_header else
  ids ← jmembers bundles;
  lock_digests bundles ids ∅.
Definition lockfile_digests (text : string) : Result (gset string) :=
  match lockfile_digests_unchecked text with
  | Ok r => r
  | Err e => Err (tool_error "LOCKFILE_INVALID" (what e))
  end.

Definition verified_production_profile (lock : string) (repository : BundleRepository) (keys : KeyProvider)
    (trust : TrustPolicy) (signature_policy : SignaturePolicy) (offline : bool) : Result BundleResolverOptions :=
  if bool_decide (sp_kind signature_policy = Disabled)
     || (bool_decide (sp_kind signature_policy = Threshold) && (sp_threshold signature_policy =? 0)) then
    Err (tool_error "SIGNATURE_POLICY_INVALID" "production threshold must be positive") else
  lockfile_digests lock;;
  Ok (mkResolverOptions (if offline then Offline else Verified) (Some repository) (Some keys) (Some trust)
        lock signature_policy).
End Locks.

Section Store.
Context (world : nat -> Moment) {F : FileTexts}.
(** What the links of the directory lead to. *)
Context (follow : string -> option file).

Definition fs_error {A} (operation : string) : act exn Disk A := leave (RuntimeError (fs_what operation)).
Definition must {A} (operation : string) (ok : bool) (rest : act exn Disk A) : act exn Disk A :=
  if ok then rest else fs_error operation.

(** ** Writing files *)
Definition write_bytes (path : list string) (data : string) (durable : bool) : act Error Disk unit :=
  opened ← call world (change path make_file);
  if negb opened then leave (tool_error "FILE_CREATE_FAILED" "cannot create temporary file") else
  ok ← write_loop world (String.length data) path data;
  ok ← (if ok && durable then call world Some else mret ok);
  closed ← call world Some;
  if negb (ok && closed) then
    call world (change path unlink_file);;
    leave (tool_error "FILE_WRITE_FAILED" "cannot durably write temporary file")
  else mret tt.
Definition sync_directory (message : string) : act Error Disk unit :=
  opened ← call world Some;
  synced ← (if negb opened then mret false else call world Some);
  if negb synced then leave (tool_error "DIRECTORY_SYNC_FAILED" message) else mret tt.
Definition replace_file (temp target : string) (durable : bool) : act Error Disk unit :=
  renamed ← call world (rename temp target);
  if negb renamed then leave (tool_error "LOCKFILE_REPLACE_FAILED" "atomic lockfile replacement failed") else
  when durable (sync_directory "lockfile replaced but directory sync failed").
Definition publish_directory (staging target : string) : act Error Disk unit :=
  renamed ← call world (rename staging target);
  if negb renamed then leave (tool_error "CACHE_PUBLISH_FAILED" "cannot atomically publish cache entry") else
  sync_directory "cache entry published but directory sync failed".

Definition fetch_temp {E} : act E Disk Z :=
  n ← gets next_temp; modify (fun s => s <| next_temp := u64 (n + 1) |>);; mret n.
Definition temporary_sibling (process n : Z) (name : string) : string :=
  "." +:+ name +:+ ".tmp-" +:+ to_string process +:+ "-" +:+ to_string n.

Record AtomicLockfileOptions := mkAtomic { at_durable : bool; at_create_parent : bool; at_max_bytes : Z }.
Definition default_atomic : AtomicLockfileOptions := mkAtomic true false (16 * 1024 * 1024).
(** A path by its parent and its file name; the directory of the disk is the parent. *)
Record DocumentPath := mkDocument { dp_parent : string; dp_name : string }.
Definition prepare_parent (path : DocumentPath) (options : AtomicLockfileOptions) : act exn Disk bool :=
  (if at_create_parent options then
     made ← call world Some;
     must "create_directories" made (modify (fun s => s <| dk_parent := true |>))
   else mret tt);;
  is_directory ← gets dk_parent;
  if negb is_directory then mret false else
  resolved ← call world Some;
  must "canonical" resolved (mret true).
Definition write_text_atomic (process : Z) (path : DocumentPath) (text : string) (options : AtomicLockfileOptions)
    : act Error Disk unit :=
  if (str_empty (dp_parent path) && str_empty (dp_name path)) || (at_max_bytes options =? 0)
     || (at_max_bytes options <? str_len text) then
    leave (tool_error "ATOMIC_WRITE_SIZE_LIMIT" "invalid path or document size") else
  is_directory ← handle (prepare_parent path options) (fun e => leave (tool_error "ATOMIC_WRITE_FAILED" (what e)));
  if negb is_directory then leave (tool_error "ATOMIC_WRITE_PARENT_INVALID" "document parent is not a directory") else
  n ← fetch_temp;
  let temp := temporary_sibling process n (dp_name path) in
  write_bytes [temp] text (at_durable options);;
  handle (replace_file temp (dp_name path) (at_durable options)) (fun e =>
    call world (change [temp] unlink_file);; leave e).
Definition write_lockfile_atomic {J : JsonLib} (process : Z) (path : DocumentPath) (text : string)
    (options : AtomicLockfileOptions) : act Error Disk unit :=
  lift (lockfile_digests text);; write_text_atomic process path text options.
Definition write_keyring_atomic {J : JsonLib} (process : Z) (path : DocumentPath) (keyring : Keyring)
    (options : AtomicLockfileOptions) : act Error Disk unit :=
  snapshot ← lift (snapshot_json keyring);
  lift (from_snapshot_json snapshot);;
  write_text_atomic process path snapshot options.

(** ** The cache

    The directory is the folder [sha256] of the root. *)
Record BundleCache := mkCache { bc_limits : ResourceLimits }.
Definition bundle_cache_new (limits : ResourceLimits) : act exn Disk BundleCache :=
  if (max_resources limits =? 0) || (max_resource_bytes limits =? 0) || (max_total_bytes limits =? 0) then
    leave (InvalidArgument "BundleCache resource limits must be positive") else
  made ← call world Some;
  must "create_directories" made
    (resolved ← call world Some; must "canonical" resolved (mret (mkCache limits))).
Definition target_of (name : string) (l : entries) : option file :=
  match om_get name l with Some Link => follow name | f => f end.

Section Cache.
Context {J : JsonLib} (c : BundleCache).

Definition entry_exists (name : string) : act exn Disk bool :=
  m ← moment world;
  must "exists" (negb (mo_fails m)) (l ← gets dk_entries; mret (bool_decide (is_Some (target_of name l)))).
Definition entry_provider (name : string) : act exn Disk ResourceProvider :=
  m ← moment world;
  must "canonical" (negb (mo_fails m))
    (l ← gets dk_entries; directory_provider <$> lift (directory_provider_new (target_of name l) (bc_limits c))).
(** The folder is opened, listed and read at one moment. *)
Definition load_entry (name : string) : act exn Disk Bundle :=
  provider ← entry_provider name; lift (load_bundle_from_provider provider).
Definition same_digest (a b : Bundle) : bool := String.eqb (bd_digest a) (bd_digest b).

Definition message_of {A} (m : Result A) : exc A :=
  match m with Ok a => Ok a | Err e => Err (RuntimeError (err_message e)) end.
(** The folders above a file, outermost first. *)
Definition parents (components : list string) : list (list string) :=
  (fun n => take (S n) components) <$> seq 0 (length components - 1).
Definition install_resource (staging : string) (provider : ResourceProvider) (path : string) : act exn Disk unit :=
  match normalize_resource_path path with
  | Err _ => leave (RuntimeError "non-normalized cache resource")
  | Ok normalized =>
    if negb (String.eqb normalized path) then leave (RuntimeError "non-normalized cache resource") else
    bytes ← lift (message_of (read_resource provider path));
    for_each (fun folder => made ← call world (change (staging :: folder) make_folder);
                            must "create_directories" made (mret tt)) (parents (segments path));;
    handle (write_bytes (staging :: segments path) bytes true) (fun e => leave (RuntimeError (err_message e)))
  end.
Definition publish (staging hex : string) (source : Bundle) : act exn Disk unit :=
  handle (publish_directory staging hex) (fun e =>
    present ← entry_exists hex;
    if negb present then leave (RuntimeError (err_message e)) else
    winner ← load_entry hex;
    if negb (same_digest winner source) then leave (RuntimeError "concurrent cache entry digest mismatch") else
    removed ← remove_all world staging;
    must "remove_all" removed (mret tt)).
Definition stage (staging hex : string) (source : Bundle) (provider : ResourceProvider) : act exn Disk unit :=
  made ← call world (change [staging] make_folder);
  must "create_directory" made
   (listed ← lift (message_of (list_resources provider));
    for_each (install_resource staging provider) listed;;
    snapshot ← load_entry staging;
    if negb (same_digest snapshot source) then leave (RuntimeError "cache snapshot digest mismatch") else
    publish staging hex source).
(** The entry found: [Some] where the digest is in the cache already. *)
Definition find_existing (hex : string) (source : Bundle) : act exn Disk (option (Result string)) :=
  present ← entry_exists hex;
  if negb present then mret None else
  existing ← load_entry hex;
  mret (Some (if same_digest existing source then Ok (bd_digest source)
              else Err (tool_error "CACHE_CORRUPT" "existing cache entry digest mismatch"))).
Definition staging_name (hex : string) (n : Z) : string := "." +:+ hex +:+ ".tmp-" +:+ to_string n.
Definition install_failed {A} (e : exn) : act Error Disk A := leave (tool_error "CACHE_INSTALL_FAILED" (what e)).
Definition install (provider : ResourceProvider) : act Error Disk string :=
  source ← handle (lift (load_bundle_from_provider provider)) install_failed;
  match hex_digest (bd_digest source) with
  | None => leave (tool_error "DIGEST_INVALID" "invalid Bundle digest")
  | Some hex =>
    found ← handle (find_existing hex source) install_failed;
    match found with
    | Some r => lift r
    | None =>
      n ← fetch_temp;
      let staging := staging_name hex n in
      handle (stage staging hex source provider) (fun e => remove_all world staging;; install_failed e);;
      mret (bd_digest source)
    end
  end.
Definition open_bundle (digest : string) : act Error Disk ResourceProvider :=
  match hex_digest digest with
  | None => leave (tool_error "DIGEST_INVALID" "invalid Bundle digest")
  | Some hex => handle (entry_provider hex) (fun e => leave (tool_error "CACHE_MISS" (what e)))
  end.

(** ** Garbage collection *)
Record CacheGcOptions := mkGcOptions { gc_dry_run : bool; gc_max_removals : Z }.
Record CacheGcResult := mkGcResult { gc_candidates : list string; gc_removed : list string; gc_reclaimed : Z }.
Definition tree_children (f : file -> Z -> exc Z) : list (string * file) -> Z -> exc Z :=
  fix go children total :=
    match children with
    | [] => Ok total
    | (_, x) :: rest => total ← f x total; go rest total
    end.
Fixpoint tree_bytes (f : file) (total : Z) : exc Z :=
  match f with
  | Link => Err (RuntimeError "link-like entry in cache")
  | Regular seen => Ok (u64 (total + ob_before seen))
  | Special => Ok total
  | Folder children => tree_children tree_bytes children total
  end.
Fixpoint retained_names (retained : list string) : Result (list string) :=
  match retained with
  | [] => Ok []
  | digest :: rest =>
    match hex_digest digest with
    | None => Err (tool_error "DIGEST_INVALID" "invalid retained digest")
    | Some hex => rest ← retained_names rest; Ok (hex :: rest)
    end
  end.
Definition gc_failed {A} (e : exn) : act Error Disk A := leave (tool_error "CACHE_GC_FAILED" (what e)).
Definition is_candidate (retained_hex : list string) (name : string) (f : option file) : bool :=
  match f with
  | Some (Folder _) =>
    bool_decide (is_Some (hex_digest ("sha256:" +:+ name))) && negb (bool_decide (name ∈ retained_hex))
  | _ => false
  end.
Definition collect_entry (retained_hex : list string) (options : CacheGcOptions) (name : string) (result : CacheGcResult)
    : act Error Disk CacheGcResult :=
  m ← moment world;
  l ← gets dk_entries;
  if mo_fails m then gc_failed (RuntimeError (fs_what "symlink_status")) else
  let f := om_get name l in
  if negb (is_candidate retained_hex name f) then mret result else
  let digest := "sha256:" +:+ name in
  let result := mkGcResult (gc_candidates result ++ [digest]) (gc_removed result) (gc_reclaimed result) in
  if gc_max_removals options <? Z.of_nat (length (gc_candidates result)) then
    leave (tool_error "GC_LIMIT_EXCEEDED" "cache GC candidate limit exceeded") else
  bytes ← handle (lift (tree_bytes (default Special f) 0)) gc_failed;
  if gc_dry_run options then mret result else
  removed ← remove_all world name;
  if negb removed then gc_failed (RuntimeError (fs_what "remove_all")) else
  mret (mkGcResult (gc_candidates result) (gc_removed result ++ [digest]) (u64 (gc_reclaimed result + bytes))).
Fixpoint collect_entries (retained_hex : list string) (options : CacheGcOptions) (names : list string)
    (result : CacheGcResult) : act Error Disk CacheGcResult :=
  match names with
  | [] => mret result
  | name :: rest => result ← collect_entry retained_hex options name result; collect_entries retained_hex options rest result
  end.
Definition garbage_collect (retained : list string) (options : CacheGcOptions) : act Error Disk CacheGcResult :=
  if gc_max_removals options =? 0 then leave (tool_error "GC_OPTIONS_INVALID" "max_removals must be positive") else
  retained_hex ← lift (retained_names retained);
  m ← moment world;
  if mo_fails m then gc_failed (RuntimeError (fs_what "directory_iterator")) else
  names ← gets (fun s => (dk_entries s).*1);
  result ← collect_entries retained_hex options names (mkGcResult [] [] 0);
  mret (mkGcResult (sort_bytes (gc_candidates result)) (sort_bytes (gc_removed result)) (gc_reclaimed result)).
End Cache.
End Store.
