(* ===== verification/StoreLaws.v ===== *)
(** * What the store guarantees

    A document written atomically is at every moment the old one or the new one; a
    cache entry is published under the digest it loads with, whatever fails and
    whatever else happens meanwhile; garbage collection removes what it reports and
    nothing that is retained; and a resolution under the production profile only
    returns locked and signed bundles. *)

From S2P Require Import Prelude Json Sha256 Reliability Resource Bundle BundleLaws Resolver ResolverLaws Zip Directory Disk Store.
Open Scope string_scope.
Open Scope list_scope.
Open Scope Z_scope.
#[local] Opaque sha256_digest.

(** ** The directory over time *)
Definition evolves (P : entries -> Prop) (s s' : Disk) : Prop :=
  P (dk_entries s) -> P (dk_entries s') /\ exists since, dk_past s' = since ++ dk_past s /\ Forall P since.
#[export] Instance evolves_preorder P : PreOrder (evolves P).
Proof.
  split; [intros s Hs; split; [done|]; by exists []|]. intros a b c Hab Hbc H. destruct (Hab H) as (Hb & n1 & E1 & H1).
  destruct (Hbc Hb) as (Hc & n2 & E2 & H2). split; [done|]. exists (n2 ++ n1). rewrite E2, E1, app_assoc. split; [done|].
  by apply Forall_app.
Qed.
Lemma evolves_moments P s s' : evolves P s s' -> Forall P (moments s) -> Forall P (moments s').
Proof.
  intros H [Hs Hp]%Forall_cons. destruct (H Hs) as (Hs' & since & E & Hn). unfold moments. constructor; [done|]. rewrite E.
  by apply Forall_app.
Qed.
Lemma evolves_step (P : entries -> Prop) s l clock temp parent : P l ->
  evolves P s (mkDisk l (moments s) clock temp parent).
Proof. intros Hl Hs. split; [done|]. exists [dk_entries s]. split; [done|]. by constructor. Qed.
Lemma evolves_same (P : entries -> Prop) s clock temp parent :
  evolves P s (mkDisk (dk_entries s) (dk_past s) clock temp parent).
Proof. intros Hs. split; [done|]. by exists []. Qed.
Lemma keeps_handle {E E' S A} (R : S -> S -> Prop) `{!PreOrder R} (m : act E S A) (h : E -> act E' S A) :
  keeps R m -> (forall e, keeps R (h e)) -> keeps R (handle m h).
Proof.
  intros Hm Hh s. specialize (Hm s). unfold handle. destruct (m s) as [[a|e] s1]; [done|]. specialize (Hh e s1).
  destruct (h e s1) as [[a|e'] s2]; [etrans; [by apply Hm|done]|]. intros _. etrans; [by apply Hm|by apply Hh].
Qed.

(** The calls, unfolded. *)
Definition elapse (s : Disk) (l : entries) : Disk := mkDisk l (moments s) (S (dk_clock s)) (next_temp s) (dk_parent s).
Definition written (s : Disk) (l : entries) : Disk := mkDisk l (moments s) (dk_clock s) (next_temp s) (dk_parent s).
Lemma moment_eq world {E} s : moment world (E:=E) s =
  (Ok (world (dk_clock s)), elapse s (mo_others (world (dk_clock s)) (dk_entries s))).
Proof. done. Qed.
Lemma apply_eq {E} f s : apply_to (E:=E) f s =
  match f (dk_entries s) with None => (Ok false, s) | Some l => (Ok true, written s l) end.
Proof. unfold apply_to, mbind, act_bind, gets. by destruct (f (dk_entries s)). Qed.
Lemma call_eq world {E} f s : call world (E:=E) f s =
  let l := mo_others (world (dk_clock s)) (dk_entries s) in
  if mo_fails (world (dk_clock s)) then (Ok false, elapse s l)
  else match f l with None => (Ok false, elapse s l) | Some l' => (Ok true, written (elapse s l) l') end.
Proof.
  unfold call, mbind at 1, act_bind at 1. rewrite moment_eq. destruct (mo_fails _); [done|]. by rewrite apply_eq.
Qed.

Section Calls.
Context (world : nat -> Moment) (P : entries -> Prop).
Context (others_keep : forall n l, P l -> P (mo_others (world n) l)).

Lemma moment_keeps {E} : keeps (evolves P) (moment world (E:=E)).
Proof. intros s. rewrite moment_eq. intros Hs. by apply evolves_step; [apply others_keep|]. Qed.
Lemma apply_keeps {E} f : (forall l l', P l -> f l = Some l' -> P l') -> keeps (evolves P) (apply_to (E:=E) f).
Proof.
  intros Hf s. rewrite apply_eq. destruct (f (dk_entries s)) as [l|] eqn:Ef; [|done]. intros Hs.
  apply evolves_step; [|done]. by eapply Hf.
Qed.
#[local] Hint Resolve moment_keeps apply_keeps : keeps.
Lemma call_keeps {E} f : (forall l l', P l -> f l = Some l' -> P l') -> keeps (evolves P) (call world (E:=E) f).
Proof. intros Hf. unfold call. solve_keeps. Qed.
Lemma idle_keeps {E} : keeps (evolves P) (call world (E:=E) Some).
Proof. apply call_keeps. by intros l l' Hl [= <-]. Qed.
Lemma write_loop_keeps {E} turns path rest :
  (forall data l l', P l -> change path (append_file data) l = Some l' -> P l') ->
  keeps (evolves P) (write_loop world (E:=E) turns path rest).
Proof.
  intros Hf. revert rest. induction turns as [|turns IH]; intros [|x rest]; cbn [write_loop]; unfold write_some; solve_keeps.
  apply apply_keeps, Hf.
Qed.
Lemma remove_all_keeps {E} name :
  (forall f l, P l -> P (om_set name f l)) -> (forall l, P l -> P (om_del name l)) ->
  keeps (evolves P) (remove_all world (E:=E) name).
Proof.
  intros Hs Hd. apply keeps_bind; [apply _|apply moment_keeps|]. intros m s. unfold mbind, act_bind, gets.
  destruct (mo_fails m); intros H; (apply evolves_step; [|done]); [|by apply Hd].
  destruct (mo_left m); [by apply Hs|by apply Hd].
Qed.
End Calls.

Lemma change_folder top x rest g l : change (top :: x :: rest) g l =
  match om_get top l with
  | Some (Folder sub) => match change (x :: rest) g sub with None => None | Some sub => Some (om_set top (Folder sub) l) end
  | _ => None
  end.
Proof. done. Qed.
(** A path below [top] only changes what [top] names. *)
Lemma change_other top rest g l l' name : change (top :: rest) g l = Some l' -> name <> top -> om_get name l' = om_get name l.
Proof.
  intros E Hn. destruct rest as [|x rest]; [|rewrite change_folder in E].
  - cbn [change] in E. destruct (g _) as [[f|]|]; [| |done]; injection E as <-; [by apply om_get_set_ne|by apply om_get_del_ne].
  - destruct (om_get top l) as [[| sub | |]|]; try done. destruct (change (x :: rest) g sub); [|done]. injection E as <-.
    by apply om_get_set_ne.
Qed.
Lemma rename_get from to l l' : rename from to l = Some l' -> from <> to ->
  om_get to l' = om_get from l /\ om_get from l' = None /\ forall name, name <> from -> name <> to -> om_get name l' = om_get name l.
Proof.
  unfold rename. intros E Hne. destruct (_ || _); [done|]. destruct (om_get from l) as [f|] eqn:Ef; [|done].
  assert (l' = om_set to f (om_del from l)) as ->.
  { destruct f, (om_get to l) as [[|[|]| |]|]; try done; by injection E as <-. }
  rewrite om_get_set_eq, (om_get_set_ne to from) by done. rewrite om_get_del_eq. do 2 (split; [done|]).
  intros name H1 H2. rewrite om_get_set_ne by done. by apply om_get_del_ne.
Qed.

(** ** Writing a file *)
Lemma str_upto_from n s : str_upto n s +:+ str_from n s = s.
Proof.
  unfold str_upto, str_from. revert n. induction s as [|c s IH]; intros [|n]; cbn; try done.
  - f_equal. apply (substring_all s).
  - f_equal. apply IH.
Qed.
Lemma str_prefix_split a s : String.prefix a s = true -> exists b, s = a +:+ b.
Proof.
  revert s. induction a as [|x a IH]; intros [|y s] H; cbn in *; [by exists ""|by exists (String y s)|done|].
  destruct (Ascii.ascii_dec x y) as [->|]; [|done]. apply IH in H as [b ->]. by exists b.
Qed.
Definition at_path (path : list string) (l : entries) : option file := lookup_path path (Folder l).
Lemma at_path_one name l : at_path [name] l = om_get name l.
Proof. unfold at_path. cbn. by destruct (om_get name l). Qed.
Lemma at_path_cons top rest l : at_path (top :: rest) l = match om_get top l with Some f => lookup_path rest f | None => None end.
Proof. done. Qed.
Lemma change_at path g l l' : change path g l = Some l' -> g (at_path path l) = Some (at_path path l').
Proof.
  revert l l'. induction path as [|top [|x rest] IH]; intros l l' E; [done| |].
  - rewrite !at_path_one. cbn [change] in E. destruct (g (om_get top l)) as [[f|]|]; [| |done]; injection E as <-.
    + by rewrite om_get_set_eq.
    + by rewrite om_get_del_eq.
  - rewrite change_folder in E. rewrite !(at_path_cons top). destruct (om_get top l) as [[|sub| |]|]; try done.
    destruct (change (x :: rest) g sub) as [sub'|] eqn:Es; [|done]. injection E as <-. rewrite om_get_set_eq. by apply IH.
Qed.

Lemma change_exists path g l f x : at_path path l = Some f -> g (Some f) = Some x -> path <> [] -> exists l', change path g l = Some l'.
Proof.
  revert l. induction path as [|top [|y rest] IH]; intros l Hf Hg Hp; [done| |].
  - rewrite at_path_one in Hf. cbn [change]. rewrite Hf, Hg. destruct x; eauto.
  - rewrite change_folder. rewrite at_path_cons in Hf. destruct (om_get top l) as [[|sub| |]|]; try done.
    destruct (IH sub) as [l' ->]; eauto.
Qed.

(** [P] does not depend on what [top] names. *)
Definition blind (top : string) (P : entries -> Prop) : Prop :=
  forall l l', (forall name, name <> top -> om_get name l' = om_get name l) -> P l -> P l'.
Lemma blind_change top P rest g l l' : blind top P -> P l -> change (top :: rest) g l = Some l' -> P l'.
Proof. intros HP Hl E. eapply HP; [|exact Hl]. intros name Hn. by eapply change_other. Qed.

Section Writing.
Context (world : nat -> Moment) (top : string).

Lemma write_bytes_keeps P rest data durable :
  (forall n l, P l -> P (mo_others (world n) l)) ->
  (forall g l l', P l -> change (top :: rest) g l = Some l' -> P l') ->
  keeps (evolves P) (write_bytes world (top :: rest) data durable).
Proof.
  intros Ho Hc. unfold write_bytes. solve_keeps; (eapply call_keeps || eapply write_loop_keeps || eapply idle_keeps); eauto;
    by intros l l' Hl [= <-].
Qed.

Context (Hleft : forall n l, om_get top (mo_others (world n) l) = om_get top l).

Lemma left_at n rest l : at_path (top :: rest) (mo_others (world n) l) = at_path (top :: rest) l.
Proof. by rewrite !at_path_cons, Hleft. Qed.
Lemma call_true {E} f s s' : call world (E:=E) f s = (Ok true, s') ->
  exists n, f (mo_others (world n) (dk_entries s)) = Some (dk_entries s').
Proof.
  rewrite call_eq. cbn zeta. destruct (mo_fails _); [done|]. destruct (f _) eqn:Ef; [|done]. intros [= <-]. by exists (dk_clock s).
Qed.
Lemma call_idle {E} rest s r s' : call world (E:=E) Some s = (r, s') -> at_path (top :: rest) (dk_entries s') = at_path (top :: rest) (dk_entries s).
Proof. rewrite call_eq. cbn zeta. destruct (mo_fails _); intros [= <- <-]; apply left_at. Qed.
Lemma write_some_spec {E} rest data s n s' seen :
  write_some world (E:=E) (top :: rest) data s = (Ok (Some n), s') ->
  at_path (top :: rest) (dk_entries s) = Some (stable seen) ->
  at_path (top :: rest) (dk_entries s') = Some (stable (seen +:+ str_upto n data)).
Proof.
  unfold write_some, mbind at 1, act_bind at 1. rewrite moment_eq. intros E1 Hs. destruct (_ || _); [done|].
  unfold mbind, act_bind in E1. rewrite apply_eq in E1. cbn [dk_entries elapse] in E1.
  rewrite <- (left_at (dk_clock s)) in Hs.
  destruct (change_exists (top :: rest) (append_file (str_upto (Z.to_nat (Z.min (mo_written (world (dk_clock s))) (str_len data))) data))
    _ _ _ Hs eq_refl ltac:(done)) as [l' Ec].
  rewrite Ec in E1. injection E1 as <- <-. apply change_at in Ec. rewrite Hs in Ec. cbn [append_file stable ob_bytes] in Ec. injection Ec as Ec. by symmetry.
Qed.
Lemma write_loop_spec {E} turns rest data s s' seen :
  write_loop world (E:=E) turns (top :: rest) data s = (Ok true, s') ->
  at_path (top :: rest) (dk_entries s) = Some (stable seen) ->
  at_path (top :: rest) (dk_entries s') = Some (stable (seen +:+ data)).
Proof.
  revert data s seen. induction turns as [|turns IH]; intros [|x data] s seen E1 Hs; cbn [write_loop] in E1;
    try (injection E1 as <-; by rewrite app_nil_str); [done|].
  apply bind_inv in E1 as ([n|] & s1 & E1 & E2); [|done]. apply (IH _ _ (seen +:+ str_upto n (String x data))) in E2.
  - by rewrite str_app_assoc, str_upto_from in E2.
  - by eapply write_some_spec.
Qed.
Lemma write_bytes_spec rest data durable s s' :
  write_bytes world (top :: rest) data durable s = (Ok tt, s') -> at_path (top :: rest) (dk_entries s') = Some (stable data).
Proof.
  unfold write_bytes. intros E. apply bind_inv in E as ([|] & s1 & E1 & E); cbn [negb] in E; [|done].
  apply call_true in E1 as [n E1]. apply change_at in E1. rewrite left_at in E1.
  destruct (at_path (top :: rest) (dk_entries s)); [done|]. cbn in E1. injection E1 as E1.
  apply bind_inv in E as ([|] & s2 & E2 & E); cbn [andb] in E.
  - apply write_loop_spec with (seen := EmptyString) in E2; [|by symmetry]. cbn [String.append] in E2.
    apply bind_inv in E as (ok & s3 & E3 & E). apply bind_inv in E as (closed & s4 & E4 & E).
    assert (at_path (top :: rest) (dk_entries s3) = at_path (top :: rest) (dk_entries s2)) as H3.
    { destruct durable; [by eapply call_idle|]. by injection E3 as _ <-. }
    apply call_idle with (rest := rest) in E4. destruct (negb (ok && closed)).
    + by apply bind_inv in E as (? & ? & _ & ?).
    + injection E as <-. by rewrite E4, H3, E2.
  - apply bind_inv in E as (ok & s3 & E3 & E). injection E3 as <- <-. apply bind_inv in E as (closed & s4 & E4 & E). cbn in E.
    by apply bind_inv in E as (? & ? & _ & ?).
Qed.
End Writing.

(** ** Documents *)
Section Documents.
Context (world : nat -> Moment) {F : FileTexts} (process : Z) (path : DocumentPath) (text : string)
  (options : AtomicLockfileOptions) (old : option file).
Let temp (n : Z) : string := temporary_sibling process n (dp_name path).
Context (leave_target : forall n l, om_get (dp_name path) (mo_others (world n) l) = om_get (dp_name path) l).
Context (leave_temp : forall k n l, om_get (temp k) (mo_others (world n) l) = om_get (temp k) l).

Definition is_old (l : entries) : Prop := om_get (dp_name path) l = old.
Definition is_new (l : entries) : Prop := om_get (dp_name path) l = Some (stable text).
Lemma temp_other n : dp_name path <> temp n.
Proof.
  intros H. assert (String.length (dp_name path) = String.length (temp n)) as E by by rewrite <- H.
  unfold temp, temporary_sibling in E. rewrite !str_length_app in E. cbn in E. lia.
Qed.
Lemma blind_of n (Q : option file -> Prop) : blind (temp n) (fun l => Q (om_get (dp_name path) l)).
Proof. intros l l' H. rewrite H; [done|apply temp_other]. Qed.
Lemma others_of n (Q : option file -> Prop) l : Q (om_get (dp_name path) l) -> Q (om_get (dp_name path) (mo_others (world n) l)).
Proof. by rewrite leave_target. Qed.
Definition either (l : entries) : Prop := is_old l \/ is_new l.
Definition concluded (r : res Error unit) (s : Disk) : Prop :=
  Forall either (moments s)
  /\ match r with
     | Ok _ => is_new (dk_entries s)
     | Err e => is_old (dk_entries s) \/ (err_code e = "DIRECTORY_SYNC_FAILED" /\ is_new (dk_entries s))
     end.
Lemma either_old s : Forall is_old (moments s) -> Forall either (moments s).
Proof. intros H. eapply Forall_impl; [exact H|]. by left. Qed.
Lemma failed_old e s : Forall is_old (moments s) -> concluded (Err e) s.
Proof. intros H. split; [by apply either_old|]. left. by apply Forall_cons in H as [? _]. Qed.
Lemma either_others n l : either l -> either (mo_others (world n) l).
Proof. apply (others_of n (fun f => f = old \/ f = Some (stable text))). Qed.

Lemma call_target {E} f s r s' :
  (forall l l', f l = Some l' -> om_get (dp_name path) l' = om_get (dp_name path) l) ->
  call world (E:=E) f s = (r, s') -> om_get (dp_name path) (dk_entries s') = om_get (dp_name path) (dk_entries s).
Proof.
  intros Hf. rewrite call_eq. cbn zeta. destruct (mo_fails _); [intros [= _ <-]; apply leave_target|].
  destruct (f _) as [l|] eqn:Ef; intros [= _ <-]; [|apply leave_target]. cbn. apply Hf in Ef. by rewrite Ef, leave_target.
Qed.
Lemma sync_target message s r s' : sync_directory world message s = (r, s') ->
  om_get (dp_name path) (dk_entries s') = om_get (dp_name path) (dk_entries s)
  /\ match r with Ok _ => True | Err e => err_code e = "DIRECTORY_SYNC_FAILED" end.
Proof.
  assert (forall l l' : entries, Some l = Some l' -> om_get (dp_name path) l' = om_get (dp_name path) l) as Hid by by intros l l' [= ->].
  unfold sync_directory, mbind at 1, act_bind at 1. destruct (call world Some s) as [[opened|e] s1] eqn:E1.
  - apply (call_target Some _ _ _ Hid) in E1. destruct opened; cbn [negb]; [|intros [= <- <-]; by cbn].
    unfold mbind, act_bind. destruct (call world Some s1) as [[synced|e] s2] eqn:E2.
    + apply (call_target Some _ _ _ Hid) in E2. rewrite <- E1, <- E2. destruct synced; intros [= <- <-]; done.
    + rewrite call_eq in E2. cbn zeta in E2. by destruct (mo_fails _).
  - rewrite call_eq in E1. cbn zeta in E1. by destruct (mo_fails _).
Qed.
Lemma replace_spec n durable s r s' :
  replace_file world (temp n) (dp_name path) durable s = (r, s') ->
  om_get (temp n) (dk_entries s) = Some (stable text) -> Forall is_old (moments s) -> concluded r s'.
Proof.
  unfold replace_file, mbind, act_bind. rewrite call_eq. cbn zeta. intros E Ht Ho.
  set (l := mo_others _ _) in *. assert (Forall is_old (moments (elapse s l))) as Hl.
  { constructor; [|done]. apply (others_of _ (fun f => f = old)). by apply Forall_cons in Ho as [? _]. }
  destruct (mo_fails _); cbn [negb] in E; [injection E as <- <-; by apply failed_old|].
  destruct (rename _ _ l) as [l'|] eqn:Er; cbn [negb] in E; [|injection E as <- <-; by apply failed_old].
  apply rename_get in Er as [Hn _]; [|by apply not_eq_sym, temp_other].
  assert (is_new l') as Hnew by (unfold is_new; rewrite Hn, <- Ht; apply leave_temp).
  assert (Forall either (moments (written (elapse s l) l'))) as Hw by (constructor; [by right|by apply either_old]).
  destruct durable; cbn [when] in E; [|injection E as <- <-; by split].
  assert (keeps (evolves either) (sync_directory world "lockfile replaced but directory sync failed")) as Hk.
  { unfold sync_directory. solve_keeps; apply idle_keeps, either_others. }
  apply (keeps_run _ _ (written (elapse s l) l')), evolves_moments in Hk; [|done]. rewrite E in Hk.
  apply sync_target in E as [Et Ec]. assert (is_new (dk_entries s')) by (unfold is_new; by rewrite Et). split; [done|].
  destruct r; [done|by right].
Qed.
Lemma old_keeps_prepare : keeps (evolves is_old) (prepare_parent world path options).
Proof.
  unfold prepare_parent, must, fs_error. solve_keeps; try (apply idle_keeps; intros k l; by apply (others_of k (fun f => f = old))).
  apply keeps_modify. intros s. apply evolves_same.
Qed.
Lemma save_spec k s r s' :
  (write_bytes world [temp k] text (at_durable options);;
   handle (replace_file world (temp k) (dp_name path) (at_durable options)) (fun e =>
     call world (change [temp k] unlink_file);; leave e)) s = (r, s') ->
  Forall is_old (moments s) -> concluded r s'.
Proof.
  intros E Ho. unfold mbind at 1, act_bind at 1 in E.
  assert (keeps (evolves is_old) (write_bytes world [temp k] text (at_durable options))) as Hw.
  { apply write_bytes_keeps; [intros n l; by apply (others_of n (fun f => f = old))|intros g l l'; apply blind_change, (blind_of k (fun f => f = old))]. }
  apply (keeps_run _ _ s), evolves_moments in Hw; [|done].
  destruct (write_bytes _ _ _ _ s) as [[[]|e] s1] eqn:Ew; cbn [snd] in Hw; [|injection E as <- <-; by apply failed_old].
  apply write_bytes_spec in Ew; [|apply leave_temp]. rewrite at_path_one in Ew. unfold handle in E.
  destruct (replace_file _ _ _ _ s1) as [[[]|e] s2] eqn:Er; apply replace_spec in Er as [Hm Hr]; try done;
    [injection E as <- <-; by split|].
  unfold mbind, act_bind in E. destruct (call world _ s2) as [rc s3] eqn:Ec.
  assert (keeps (evolves either) (call world (E:=Error) (change [temp k] unlink_file))) as Hk.
  { apply call_keeps; [apply either_others|]. intros l l'. apply blind_change, (blind_of k (fun f => f = old \/ f = Some (stable text))). }
  apply (keeps_run _ _ s2), evolves_moments in Hk; [|done]. rewrite Ec in Hk. cbn [snd] in Hk.
  assert (exists b, rc = Ok b) as [b ->].
  { rewrite call_eq in Ec. cbn zeta in Ec. destruct (mo_fails _); [|destruct (change _ _ _)]; injection Ec as <- _; eauto. }
  apply call_target in Ec; [|intros l l' H; eapply change_other; [exact H|apply temp_other]].
  injection E as <- <-. split; [done|]. unfold is_old, is_new in *. by rewrite Ec.
Qed.
Lemma write_text_spec s r s' : write_text_atomic world process path text options s = (r, s') ->
  Forall is_old (moments s) -> concluded r s'.
Proof.
  unfold write_text_atomic. intros E Ho. destruct (_ || _ || _); [injection E as <- <-; by apply failed_old|].
  unfold mbind at 1, act_bind at 1 in E.
  assert (keeps (evolves is_old) (handle (prepare_parent world path options)
            (fun e => leave (tool_error "ATOMIC_WRITE_FAILED" (what e))))) as Hp.
  { apply keeps_handle; [apply _|apply old_keeps_prepare|]. intros e. apply keeps_leave, _. }
  apply (keeps_run _ _ s), evolves_moments in Hp; [|done]. destruct (handle _ _ s) as [[ok|e] s1]; cbn [snd] in Hp;
    [|injection E as <- <-; by apply failed_old].
  destruct (negb ok); [injection E as <- <-; by apply failed_old|].
  unfold mbind at 1, act_bind at 1 in E. cbn [fetch_temp mbind act_bind gets modify mret act_ret] in E.
  eapply save_spec; [exact E|exact Hp].
Qed.

(** C27: A lock file is replaced atomically: as long as others leave the file and the
    temporary file alone, the name stands at every moment, so also after a crash,
    for the old document or the whole new one.  It is the new one if writing
    succeeds, which takes a valid lock file; the old one if it fails, unless the
    failure is that the directory could not be synchronised after the replacement. *)
Theorem lockfile_atomic {J : JsonLib} s r s' :
  write_lockfile_atomic world process path text options s = (r, s') ->
  om_get (dp_name path) (dk_entries s) = old -> dk_past s = [] ->
  Forall (fun l => om_get (dp_name path) l = old \/ om_get (dp_name path) l = Some (stable text)) (moments s')
  /\ match r with
     | Ok _ => is_ok (lockfile_digests text) /\ om_get (dp_name path) (dk_entries s') = Some (stable text)
     | Err e => om_get (dp_name path) (dk_entries s') = old
                \/ (err_code e = "DIRECTORY_SYNC_FAILED" /\ om_get (dp_name path) (dk_entries s') = Some (stable text))
     end.
Proof.
  intros E Ho Hp. assert (Forall is_old (moments s)) as Hm by (unfold moments; rewrite Hp; by repeat constructor).
  unfold write_lockfile_atomic, mbind, act_bind, lift in E. destruct (lockfile_digests text) as [ds|e].
  - apply write_text_spec in E as [H1 H2]; [|done]. split; [done|]. destruct r; [by split|done].
  - injection E as <- <-. by apply failed_old.
Qed.
End Documents.

(** ** The cache *)
Section Cache.
Context (world : nat -> Moment) {F : FileTexts} (follow : string -> option file) {J : JsonLib} (c : BundleCache).

Definition entry_loads (name digest : string) (l : entries) : Prop :=
  exists f d b, target_of follow name l = Some f /\ directory_provider_new (Some f) (bc_limits c) = Ok d
    /\ load_bundle_from_provider (directory_provider d) = Ok b /\ bd_digest b = digest.
Definition is_hex_name (hex : string) : Prop := hex_digest ("sha256:" +:+ hex) = Some hex.
Definition present (hex : string) (l : entries) : Prop := is_Some (target_of follow hex l).
(** What is kept under a digest loads as a bundle with that digest. *)
Definition addressed (l : entries) : Prop :=
  forall hex, is_hex_name hex -> present hex l -> entry_loads hex ("sha256:" +:+ hex) l.

Context (others_addressed : forall n l, addressed l -> addressed (mo_others (world n) l)).
Context (others_stay : forall n l hex, is_hex_name hex -> present hex l -> present hex (mo_others (world n) l)).
Context (others_staging : forall n l hex k,
  om_get (staging_name hex k) (mo_others (world n) l) = om_get (staging_name hex k) l).

Lemma hex_digest_name digest hex : hex_digest digest = Some hex -> digest = "sha256:" +:+ hex /\ is_hex_name hex.
Proof.
  intros E. assert (digest = "sha256:" +:+ hex) as Hd; [|split; [done|]; unfold is_hex_name; by rewrite <- Hd].
  unfold hex_digest in E. destruct (str_prefix "sha256:" digest) eqn:Ep; [|done]. destruct (negb _ || _); [done|].
  destruct (str_forallb _ _); [|done]. injection E as <-. unfold str_prefix in Ep. apply str_prefix_split in Ep as [rest ->].
  by rewrite (str_from_app "sha256:").
Qed.
Lemma hex_not_staging hex h k : is_hex_name hex -> hex <> staging_name h k.
Proof.
  unfold is_hex_name, hex_digest. intros E ->. destruct (_ || _); [done|]. rewrite (str_from_app "sha256:") in E.
  unfold staging_name in E. cbn in E. done.
Qed.
Lemma present_blind hex h k : is_hex_name hex -> blind (staging_name h k) (present hex).
Proof. intros Hh l l' H. unfold present, target_of. by rewrite H by by apply hex_not_staging. Qed.
Lemma addressed_blind h k : blind (staging_name h k) addressed.
Proof.
  intros l l' H Ha hex Hh. specialize (Ha hex Hh). unfold present, entry_loads, target_of in *.
  by rewrite H by by apply hex_not_staging.
Qed.

(** The staging directory: a folder, and the entries stay addressed. *)
Section Staging.
Context (h : string) (k : Z) (source : Bundle).
Let staging : string := staging_name h k.
Context (Hh : hex_digest (bd_digest source) = Some h).

Definition staged (l : entries) : Prop := addressed l /\ exists tree, om_get staging l = Some (Folder tree).
Lemma staged_others n l : staged l -> staged (mo_others (world n) l).
Proof. intros [Ha Hf]. split; [by apply others_addressed|]. unfold staging. by rewrite others_staging. Qed.
Lemma staged_change x rest g l l' : staged l -> change (staging :: x :: rest) g l = Some l' -> staged l'.
Proof.
  intros [Ha _] E. split; [by eapply blind_change; [apply addressed_blind|exact Ha|exact E]|].
  rewrite change_folder in E. destruct (om_get staging l) as [[|sub| |]|]; try done.
  destruct (change (x :: rest) g sub) as [sub'|]; [|done]. injection E as <-. exists sub'. by rewrite om_get_set_eq.
Qed.
Lemma moment_others {E} s m s' : moment world (E:=E) s = (Ok m, s') -> dk_entries s' = mo_others (world (dk_clock s)) (dk_entries s).
Proof. rewrite moment_eq. by intros [= _ <-]. Qed.

Lemma parents_nonempty comps folder : folder ∈ parents comps -> exists x rest, folder = x :: rest.
Proof.
  unfold parents. intros (n & -> & Hn)%list_elem_of_fmap. apply elem_of_seq in Hn. destruct comps as [|x comps]; [cbn in Hn; lia|].
  cbn. eauto.
Qed.
Lemma install_resource_keeps provider path : keeps (evolves staged) (install_resource world staging provider path).
Proof.
  unfold install_resource. destruct (normalize_resource_path path); [|apply keeps_leave, _].
  destruct (negb _); [apply keeps_leave, _|]. apply keeps_bind; [apply _|apply keeps_lift, _|]. intros bytes.
  apply keeps_bind; [apply _| |intros _].
  - assert (forall l, (forall f, f ∈ l -> exists x rest, f = x :: rest) ->
      keeps (evolves staged) (for_each (fun folder => made ← call world (change (staging :: folder) make_folder);
        must "create_directories" made (mret tt)) l)) as H; [|apply H, parents_nonempty].
    induction l as [|f l IH]; intros Hl; [apply keeps_ret, _|]. cbn [for_each]. apply keeps_bind; [apply _| |intros _; apply IH; set_solver].
    destruct (Hl f) as (x & rest & ->); [by left|]. unfold must, fs_error. solve_keeps.
    apply call_keeps; [apply staged_others|apply staged_change].
  - pose proof (segments_nonempty path). destruct (segments path) as [|x rest]; [done|].
    apply keeps_handle; [apply _| |intros; apply keeps_leave, _].
    apply write_bytes_keeps; [apply staged_others|apply staged_change].
Qed.

Lemma load_entry_spec name s b s' : load_entry world follow c name s = (Ok b, s') -> entry_loads name (bd_digest b) (dk_entries s').
Proof.
  intros E. apply bind_inv in E as (p & s1 & E1 & E). unfold lift in E. injection E as E <-.
  apply bind_inv in E1 as (m & s2 & E2 & E1). unfold must in E1. destruct (negb (mo_fails m)); [|done].
  apply bind_inv in E1 as (l & s3 & E3 & E1). injection E3 as <- <-. unfold fmap, act_fmap, lift in E1.
  destruct (directory_provider_new _ _) as [d|] eqn:Ed; [|done]. injection E1 as <- <-.
  destruct (target_of follow name (dk_entries s2)) as [f|] eqn:Ef; [|done]. by exists f, d, b.
Qed.
Lemma load_entry_keeps P name : (forall n l, P l -> P (mo_others (world n) l)) -> keeps (evolves P) (load_entry world follow c name).
Proof.
  intros Ho. unfold load_entry, entry_provider, must, fs_error. solve_keeps. by apply moment_keeps.
Qed.
Lemma entry_exists_keeps P name : (forall n l, P l -> P (mo_others (world n) l)) -> keeps (evolves P) (entry_exists world follow name).
Proof. intros Ho. unfold entry_exists, must, fs_error. solve_keeps. by apply moment_keeps. Qed.

Definition kept (l : entries) : Prop := addressed l /\ present h l.
Lemma source_name : bd_digest source = "sha256:" +:+ h /\ is_hex_name h.
Proof. by apply hex_digest_name. Qed.
Lemma kept_others n l : kept l -> kept (mo_others (world n) l).
Proof. intros [Ha Hp]. split; [by apply others_addressed|]. apply others_stay; [apply source_name|done]. Qed.
Lemma kept_blind : blind staging kept.
Proof.
  intros l l' H [Ha Hp]. split; [by eapply addressed_blind|]. by eapply present_blind; [apply source_name|exact H|].
Qed.
Lemma loads_present l : entry_loads h (bd_digest source) l -> present h l.
Proof. intros (f & _ & _ & Hf & _). by exists f. Qed.
Lemma remove_staging_keeps {E} P : (forall n l, P l -> P (mo_others (world n) l)) -> blind staging P ->
  keeps (evolves P) (remove_all world (E:=E) staging).
Proof.
  intros Ho Hb. apply remove_all_keeps; [done| |]; intros; (eapply Hb; [|done]); intros name Hn; [by apply om_get_set_ne|by apply om_get_del_ne].
Qed.

Definition take_winner (e : Error) : act exn Disk unit :=
  present ← entry_exists world follow h;
  if negb present then leave (RuntimeError (err_message e)) else
  winner ← load_entry world follow c h;
  if negb (same_digest winner source) then leave (RuntimeError "concurrent cache entry digest mismatch") else
  removed ← remove_all world staging;
  must "remove_all" removed (mret tt).
Lemma take_winner_keeps e : keeps (evolves addressed) (take_winner e).
Proof.
  unfold take_winner, must, fs_error. solve_keeps.
  - apply entry_exists_keeps, others_addressed.
  - apply load_entry_keeps, others_addressed.
  - apply remove_staging_keeps; [apply others_addressed|apply addressed_blind].
Qed.
Lemma take_winner_present e s s' : addressed (dk_entries s) -> take_winner e s = (Ok tt, s') -> present h (dk_entries s').
Proof.
  intros Ha E. apply bind_inv in E as (ok & s1 & E1 & E). destruct ok; cbn [negb] in E; [|done].
  pose proof (keeps_run _ _ s (entry_exists_keeps addressed h others_addressed)) as H1. rewrite E1 in H1. destruct (H1 Ha) as [Ha1 _].
  apply bind_inv in E as (b & s2 & E2 & E). destruct (negb (same_digest b source)) eqn:Es; [done|].
  pose proof (keeps_run _ _ s1 (load_entry_keeps addressed h others_addressed)) as H2. rewrite E2 in H2. destruct (H2 Ha1) as [Ha2 _].
  apply load_entry_spec in E2. apply negb_false_iff, String.eqb_eq in Es. rewrite Es in E2. apply loads_present in E2.
  apply bind_inv in E as (ok & s3 & E3 & E). unfold must in E. destruct ok; [|done]. injection E as <-.
  pose proof (keeps_run _ _ s2 (remove_staging_keeps (E:=exn) kept kept_others kept_blind)) as H3. rewrite E3 in H3.
  by destruct (H3 (conj Ha2 E2)) as [[_ Hp] _].
Qed.
Lemma take_winner_spec e s r s' : take_winner e s = (r, s') -> Forall addressed (moments s) ->
  Forall addressed (moments s') /\ (r = Ok tt -> present h (dk_entries s')).
Proof.
  intros E Ha. split.
  - pose proof (keeps_run _ _ s (take_winner_keeps e)) as H. rewrite E in H. by eapply evolves_moments.
  - intros ->. eapply take_winner_present; [|exact E]. by apply Forall_cons in Ha as [? _].
Qed.

(** The staging directory moved to its digest. *)
Lemma rename_addressed l l' : staged l -> entry_loads staging (bd_digest source) l -> rename staging h l = Some l' -> kept l'.
Proof.
  intros [Ha [tree Ht]] (f & d & b & Hf & Hd & Hb & Hg) E. destruct source_name as [Hs Hn].
  assert (staging <> h) as Hne by by apply not_eq_sym, hex_not_staging.
  apply rename_get in E as (Eh & _ & Eo); [|done]. unfold target_of in Hf. rewrite Ht in Hf, Eh. injection Hf as <-.
  assert (present h l') as Hp by (unfold present, target_of; by rewrite Eh).
  split; [|done]. intros hex Hx Hpx. destruct (decide (hex = h)) as [->|Hdif].
  - exists (Folder tree), d, b. unfold target_of. rewrite Eh. by rewrite <- Hs.
  - assert (om_get hex l' = om_get hex l) as Eg by (apply Eo; [by apply hex_not_staging|done]).
    specialize (Ha hex Hx). unfold present, entry_loads, target_of in *. rewrite Eg in *. by apply Ha.
Qed.
Lemma publish_spec s r s' : publish world follow c staging h source s = (r, s') ->
  Forall addressed (moments s) -> staged (dk_entries s) -> entry_loads staging (bd_digest source) (dk_entries s) ->
  Forall addressed (moments s') /\ (r = Ok tt -> present h (dk_entries s')).
Proof.
  unfold publish. change (handle _ _) with (handle (publish_directory world staging h) take_winner).
  unfold handle, publish_directory. unfold mbind at 1, act_bind at 1. rewrite call_eq. cbn zeta. intros E Ha Hs Hl.
  set (l := mo_others _ _) in *. assert (staged l) as Hsl by by apply staged_others.
  assert (Forall addressed (moments (elapse s l))) as Hel by (constructor; [apply Hsl|done]).
  destruct (mo_fails _); cbn [negb] in E; [eapply take_winner_spec; [exact E|done]|].
  destruct (rename staging h l) as [l'|] eqn:Er; cbn [negb] in E; [|eapply take_winner_spec; [exact E|done]].
  assert (entry_loads staging (bd_digest source) l) as Hll.
  { unfold entry_loads, target_of in *. unfold l, staging in *. by rewrite others_staging. }
  pose proof (rename_addressed l l' Hsl Hll Er) as Hk.
  set (s1 := written (elapse s l) l') in *.
  assert (Forall addressed (moments s1)) as H1 by (constructor; [apply Hk|done]).
  assert (forall P, (forall n l, P l -> P (mo_others (world n) l)) ->
    keeps (evolves P) (sync_directory world "cache entry published but directory sync failed")) as Hy.
  { intros P Ho. unfold sync_directory. solve_keeps; by apply idle_keeps. }
  pose proof (keeps_run _ _ s1 (Hy _ others_addressed)) as Y1. pose proof (keeps_run _ _ s1 (Hy _ kept_others)) as Y2.
  destruct (sync_directory _ _ s1) as [[[]|e] s2]; cbn [snd] in *; apply evolves_moments in Y1; try done.
  - injection E as <- <-. split; [done|]. intros _. by destruct (Y2 Hk) as [[_ ?] _].
  - eapply take_winner_spec; [exact E|done].
Qed.

Lemma stage_spec provider s r s' : stage world follow c staging h source provider s = (r, s') -> Forall addressed (moments s) ->
  Forall addressed (moments s') /\ (r = Ok tt -> present h (dk_entries s')).
Proof.
  unfold stage. intros E Ha. unfold mbind at 1, act_bind at 1 in E. rewrite call_eq in E. cbn zeta in E.
  set (l := mo_others _ _) in *. pose proof Ha as [Hc _]%Forall_cons.
  assert (Forall addressed (moments (elapse s l))) as Hel by (constructor; [by apply others_addressed|done]).
  destruct (mo_fails _); [injection E as <- <-; by split|].
  destruct (change [staging] make_folder l) as [l1|] eqn:E1; [|injection E as <- <-; by split]. cbn [must] in E.
  set (s1 := written (elapse s l) l1) in *. assert (staged l1) as H1.
  { split; [eapply blind_change; [apply addressed_blind|by apply others_addressed|exact E1]|].
    apply change_at in E1. rewrite !at_path_one in E1. destruct (om_get staging l) as [[|t| |]|]; try done; injection E1 as E1; eauto. }
  assert (Forall addressed (moments s1)) as Hm1 by (constructor; [apply H1|done]).
  unfold mbind at 1, act_bind at 1, lift in E. destruct (message_of _) as [listed|]; [|injection E as <- <-; by split].
  unfold mbind at 1, act_bind at 1 in E.
  assert (keeps (evolves staged) (for_each (install_resource world staging provider) listed)) as Hf
    by (apply keeps_for_each; [apply _|apply install_resource_keeps]).
  apply (keeps_run _ _ s1) in Hf. destruct (for_each _ _ s1) as [rf s2]. destruct (Hf H1) as (H2 & since & Ep & Hn). cbn [snd] in *.
  assert (Forall addressed (moments s2)) as Hm2.
  { unfold moments. rewrite Ep. constructor; [apply H2|]. apply Forall_app. split; [|by apply Forall_cons in Hm1 as [_ ?]].
    eapply Forall_impl; [exact Hn|]. by intros ? [? _]. }
  destruct rf as [[]|]; [|injection E as <- <-; by split]. unfold mbind, act_bind in E.
  pose proof (keeps_run _ _ s2 (load_entry_keeps staged staging staged_others)) as H3.
  pose proof (keeps_run _ _ s2 (load_entry_keeps addressed staging others_addressed)) as Hm3.
  destruct (load_entry _ _ _ staging s2) as [[b|] s3] eqn:E3; cbn [snd] in *; apply evolves_moments in Hm3; try done;
    [|injection E as <- <-; by split].
  destruct (H3 H2) as [Hs3 _]. destruct (negb (same_digest b source)) eqn:Es; [injection E as <- <-; by split|].
  apply negb_false_iff, String.eqb_eq in Es. apply load_entry_spec in E3. rewrite Es in E3. by eapply publish_spec.
Qed.
End Staging.

Lemma find_existing_spec hex source s r s' : find_existing world follow c hex source s = (r, s') -> Forall addressed (moments s) ->
  Forall addressed (moments s') /\ (forall digest, r = Ok (Some (Ok digest)) -> digest = bd_digest source /\ present hex (dk_entries s')).
Proof.
  intros E Ha. split.
  - assert (keeps (evolves addressed) (find_existing world follow c hex source)) as Hk.
    { unfold find_existing. solve_keeps; [apply entry_exists_keeps, others_addressed|apply load_entry_keeps, others_addressed]. }
    apply (keeps_run _ _ s) in Hk. rewrite E in Hk. by eapply evolves_moments.
  - intros digest ->. apply bind_inv in E as (ok & s1 & _ & E). destruct ok; [|done]. cbn [negb] in E.
    apply bind_inv in E as (b & s2 & E2 & E). apply load_entry_spec in E2 as (f & _ & _ & Hf & _).
    destruct (same_digest b source); [|done]. injection E as <- <-. split; [done|]. by exists f.
Qed.
Lemma fetch_temp_eq {E} s : fetch_temp (E:=E) s =
  (Ok (next_temp s), mkDisk (dk_entries s) (dk_past s) (dk_clock s) (u64 (next_temp s + 1)) (dk_parent s)).
Proof. done. Qed.
Lemma install_spec provider s r s' : install world follow c provider s = (r, s') -> Forall addressed (moments s) ->
  Forall addressed (moments s') /\ (forall digest, r = Ok digest -> exists source hex, load_bundle_from_provider provider = Ok source
    /\ digest = bd_digest source /\ hex_digest digest = Some hex /\ present hex (dk_entries s')).
Proof.
  unfold install. intros E Ha. unfold mbind at 1, act_bind at 1, handle, lift in E.
  destruct (load_bundle_from_provider provider) as [source|e]; [|injection E as <- <-; by split].
  destruct (hex_digest (bd_digest source)) as [hex|] eqn:Eh; [|injection E as <- <-; by split].
  unfold mbind at 1, act_bind at 1 in E. destruct (find_existing _ _ _ hex source s) as [[found|e] s1] eqn:Ef;
    apply find_existing_spec in Ef as [H1 Hp1]; try done; [|injection E as <- <-; by split].
  destruct found as [[d|e]|].
  - injection E as <- <-. destruct (Hp1 d eq_refl) as [-> Hp]. split; [done|]. intros digest [= <-]. by exists source, hex.
  - injection E as <- <-. by split.
  - unfold mbind at 1, act_bind at 1 in E. rewrite fetch_temp_eq in E.
    unfold mbind at 1, act_bind at 1 in E. destruct (stage _ _ _ _ _ _ _ _) as [[[]|e] s3] eqn:Es;
      apply stage_spec in Es as [H3 Hp3]; try done.
    + injection E as <- <-. split; [done|]. intros digest [= <-]. exists source, hex. auto.
    + unfold mbind, act_bind in E.
      pose proof (keeps_run _ _ s3 (remove_staging_keeps (E:=Error) hex (next_temp s1) addressed others_addressed (addressed_blind _ _))) as Hk.
      destruct (remove_all _ _ s3) as [[ok|e'] s4]; cbn [snd] in Hk; injection E as <- <-;
        (split; [by eapply evolves_moments|done]).
Qed.

End Cache.

(** ** Garbage collection *)
Section Collection.
Context (world : nat -> Moment) {F : FileTexts} (options : CacheGcOptions) (retained_hex : list string).
Context (quiet : forall n l, mo_others (world n) l = l).

Lemma collect_entry_Ok name result s result' s' : collect_entry world retained_hex options name result s = (Ok result', s') ->
  let l := dk_entries s in let digest := "sha256:" +:+ name in
  if is_candidate retained_hex name (om_get name l) then
    gc_candidates result' = gc_candidates result ++ [digest]
    /\ Z.of_nat (length (gc_candidates result')) <= gc_max_removals options
    /\ if gc_dry_run options then gc_removed result' = gc_removed result /\ dk_entries s' = l
       else gc_removed result' = gc_removed result ++ [digest] /\ dk_entries s' = om_del name l
  else result' = result /\ dk_entries s' = l.
Proof.
  unfold collect_entry. cbn zeta. unfold mbind at 1, act_bind at 1. rewrite moment_eq, quiet. unfold mbind at 1, act_bind at 1, gets.
  cbn [elapse dk_entries]. intros E. destruct (mo_fails _); [done|].
  destruct (is_candidate retained_hex name _); cbn [negb] in E; [|injection E as <- <-; done].
  cbn [gc_candidates] in E. destruct (_ <? _) eqn:El; [done|]. apply Z.ltb_ge in El. unfold mbind, act_bind, handle, lift in E.
  destruct (tree_bytes _ _) as [bytes|]; [|done]. destruct (gc_dry_run options); [injection E as <- <-; done|].
  unfold remove_all, mbind, act_bind in E. rewrite moment_eq, quiet in E. unfold gets in E. cbn [elapse dk_entries] in E.
  destruct (mo_fails _); [done|]. cbn in E. injection E as <- <-. done.
Qed.

Definition digest_of (name : string) : string := "sha256:" +:+ name.
Definition collected (names : list string) (l : entries) : list string :=
  List.filter (fun name => is_candidate retained_hex name (om_get name l)) names.
Lemma collected_del name names l : name ∉ names -> collected names (om_del name l) = collected names l.
Proof.
  intros Hn. unfold collected. induction names as [|x names IH]; [done|]. cbn [List.filter].
  rewrite om_get_del_ne, IH by set_solver. done.
Qed.
Lemma collect_entries_Ok names result s result' s' :
  collect_entries world retained_hex options names result s = (Ok result', s') -> NoDup names ->
  Z.of_nat (length (gc_candidates result)) <= gc_max_removals options ->
  let found := collected names (dk_entries s) in
  gc_candidates result' = gc_candidates result ++ (digest_of <$> found)
  /\ Z.of_nat (length (gc_candidates result')) <= gc_max_removals options
  /\ if gc_dry_run options then gc_removed result' = gc_removed result
     else gc_removed result' = gc_removed result ++ (digest_of <$> found)
          /\ forall name, name ∈ found \/ om_get name (dk_entries s) = None -> om_get name (dk_entries s') = None.
Proof.
  revert result s. induction names as [|name names IH]; intros result s E Hd Hm; cbn zeta.
  { injection E as <- <-. cbn. rewrite app_nil_r. split; [done|]. split; [done|]. destruct (gc_dry_run options); [done|].
    split; [by rewrite app_nil_r|]. intros name [?|?]; [set_solver|done]. }
  apply NoDup_cons in Hd as [Hn Hd]. cbn [collect_entries] in E. apply bind_inv in E as (r1 & s1 & E1 & E).
  apply collect_entry_Ok in E1. cbn zeta in E1. unfold collected. cbn [List.filter]. fold (collected names (dk_entries s)).
  destruct (is_candidate retained_hex name _).
  - destruct E1 as (Ec & El & E1). apply IH in E as (Hc & Hlen & Hr); [|done|done].
    assert (collected names (dk_entries s1) = collected names (dk_entries s)) as Ef.
    { destruct (gc_dry_run options); destruct E1 as [_ ->]; [done|by apply collected_del]. }
    rewrite fmap_cons. rewrite Ec, Ef, <- app_assoc in Hc. split; [done|]. split; [done|]. destruct (gc_dry_run options).
    + destruct E1 as [E1 _]. by rewrite Hr.
    + destruct E1 as [Er Ee]. destruct Hr as [Hr Hg]. rewrite Er, Ef, <- app_assoc in Hr. split; [done|].
      intros x Hx. apply Hg. rewrite Ef, Ee. destruct (decide (x = name)) as [->|Hne]; [right; apply om_get_del_eq|].
      rewrite om_get_del_ne by done. destruct Hx as [[->|Hx]%elem_of_cons|Hx]; [done|by left|by right].
  - destruct E1 as [-> Ee]. apply IH in E as (Hc & Hlen & Hr); [|done|done]. by rewrite Ee in *.
Qed.

(** What is no candidate stays; in a dry run everything does. *)
Definition spared (l0 l : entries) : Prop :=
  (forall name, is_candidate retained_hex name (om_get name l0) = false -> om_get name l = om_get name l0)
  /\ (gc_dry_run options = true -> l = l0).
Lemma spared_remove {E} l0 name s : spared l0 (dk_entries s) -> gc_dry_run options = false ->
  is_candidate retained_hex name (om_get name (dk_entries s)) = true ->
  evolves (spared l0) s (remove_all world (E:=E) name s).2.
Proof.
  intros Hs Hd Hc. assert (is_candidate retained_hex name (om_get name l0) = true) as H0.
  { destruct (is_candidate retained_hex name (om_get name l0)) eqn:E0; [done|]. destruct Hs as [Hs _]. by rewrite Hs, E0 in Hc. }
  apply (keeps_run (evolves (spared l0)) (remove_all world name)). apply remove_all_keeps.
  - by intros n l; rewrite quiet.
  - intros f l [Hl _]. split; [|congruence]. intros x Hx. rewrite om_get_set_ne by congruence. by apply Hl.
  - intros l [Hl _]. split; [|congruence]. intros x Hx. rewrite om_get_del_ne by congruence. by apply Hl.
Qed.
Lemma collect_entry_keeps l0 name result : keeps (evolves (spared l0)) (collect_entry world retained_hex options name result).
Proof.
  intros s. unfold collect_entry. unfold mbind at 1, act_bind at 1. rewrite moment_eq, quiet. set (s1 := elapse s (dk_entries s)).
  assert (forall s2, evolves (spared l0) s1 s2 -> evolves (spared l0) s s2) as Ht.
  { intros s2 H. etrans; [|exact H]. intros Hs. by apply evolves_step. }
  unfold mbind at 1, act_bind at 1, gets. assert (evolves (spared l0) s s1) as H1 by by apply Ht.
  destruct (mo_fails _); [intros _; exact H1|]. destruct (is_candidate _ _ _) eqn:Ec; cbn [negb]; [|exact H1].
  destruct (_ <? _); [intros _; exact H1|]. unfold mbind, act_bind, handle, lift. destruct (tree_bytes _ _); [|intros _; exact H1].
  destruct (gc_dry_run options) eqn:Ed; [exact H1|].
  assert (evolves (spared l0) s (remove_all world (E:=Error) name s1).2) as H2.
  { intros Hs. apply Ht; [|done]. apply spared_remove; [|done|exact Ec]. by apply H1. }
  destruct (remove_all world name s1) as [[[|]|e] s2]; cbn [negb]; first [exact H2|intros _; exact H2].
Qed.
Lemma collect_entries_keeps l0 names result : keeps (evolves (spared l0)) (collect_entries world retained_hex options names result).
Proof.
  revert result. induction names as [|name names IH]; intros result; cbn [collect_entries]; [apply keeps_ret, _|].
  apply keeps_bind; [apply _|apply collect_entry_keeps|]. intros r. apply IH.
Qed.
End Collection.

(** Folders named by a digest that is not retained. *)
Definition collectable (retained : list string) (name : string) (f : option file) : Prop :=
  (exists tree, f = Some (Folder tree)) /\ is_hex_name name /\ digest_of name ∉ retained.
Lemma retained_names_elem retained names name : retained_names retained = Ok names -> is_hex_name name ->
  name ∈ names <-> digest_of name ∈ retained.
Proof.
  intros E Hn. revert names E. induction retained as [|digest rest IH]; cbn [retained_names]; intros names E; [simplify_res; set_solver|].
  destruct (hex_digest digest) as [hex|] eqn:Eh; [|done]. apply bind_Ok in E as (rest' & E1 & E). injection E as <-.
  rewrite !elem_of_cons, (IH rest' E1). apply hex_digest_name in Eh as [-> _]. unfold digest_of.
  split; (intros [H|H]; [left|by right]); [by rewrite H|]. by injection H.
Qed.
Lemma candidate_spec retained names name f : retained_names retained = Ok names ->
  is_candidate names name f = true <-> collectable retained name f.
Proof.
  intros E. unfold is_candidate, collectable. destruct f as [[|tree| |]|]; try (split; [done|intros ([? ?] & _); done]).
  rewrite andb_true_iff, negb_true_iff, bool_decide_eq_true, bool_decide_eq_false. split.
  - intros [[hex Hh] Hr]. pose proof (hex_digest_name _ _ Hh) as [Hd _]. injection Hd as <-. split; [eauto|]. split; [exact Hh|].
    by rewrite <- (retained_names_elem _ _ _ E Hh).
  - intros (_ & Hh & Hr). split; [by exists name|]. by rewrite (retained_names_elem _ _ _ E Hh).
Qed.

Lemma collected_spec retained names l : retained_names retained = Ok names -> NoDup l.*1 ->
  NoDup (collected names l.*1 l) /\ forall name, name ∈ collected names l.*1 l <-> collectable retained name (om_get name l).
Proof.
  intros E Hd. unfold collected. split; [by apply NoDup_ListNoDup, List.NoDup_filter, NoDup_ListNoDup|]. intros name.
  rewrite list_elem_of_In, filter_In, <- list_elem_of_In, (candidate_spec retained) by done.
  split; [by intros [_ ?]|]. intros H. split; [|done]. destruct H as ([tree Ht] & _). apply om_mem_keys. unfold om_mem. by rewrite Ht.
Qed.

Section Exact.
Context (world : nat -> Moment) {F : FileTexts} (options : CacheGcOptions) (names : list string).
Context (quiet : forall n l, mo_others (world n) l = l).

Definition collect_all : act Error Disk CacheGcResult :=
  m ← moment world;
  if mo_fails m then gc_failed (RuntimeError (fs_what "directory_iterator")) else
  listed ← gets (fun s => (dk_entries s).*1);
  result ← collect_entries world names options listed (mkGcResult [] [] 0);
  mret (mkGcResult (sort_bytes (gc_candidates result)) (sort_bytes (gc_removed result)) (gc_reclaimed result)).
Lemma collect_all_keeps l0 : keeps (evolves (spared options names l0)) collect_all.
Proof.
  unfold collect_all, gc_failed. solve_keeps; [apply moment_keeps; intros n l; by rewrite quiet|by apply collect_entries_keeps].
Qed.
Lemma collect_all_Ok s result s' : collect_all s = (Ok result, s') -> NoDup (dk_entries s).*1 -> 0 <= gc_max_removals options ->
  let found := collected names (dk_entries s).*1 (dk_entries s) in
  gc_candidates result = sort_bytes (digest_of <$> found)
  /\ Z.of_nat (length (gc_candidates result)) <= gc_max_removals options
  /\ gc_removed result = (if gc_dry_run options then [] else gc_candidates result)
  /\ (gc_dry_run options = false -> forall name, name ∈ found -> om_get name (dk_entries s') = None).
Proof.
  intros E Hd Hm. unfold collect_all in E. unfold mbind at 1, act_bind at 1 in E. rewrite moment_eq, quiet in E.
  destruct (mo_fails _); [done|]. apply bind_inv in E as (listed & s1 & E1 & E). injection E1 as <- <-.
  apply bind_inv in E as (r & s2 & E2 & E). injection E as <- <-. apply collect_entries_Ok in E2; [|done|done|done].
  cbn zeta in *. destruct E2 as (Hc & Hl & Hr). cbn [gc_candidates gc_removed app elapse dk_entries] in *. rewrite Hc in *.
  split; [done|]. split; [by rewrite sort_bytes_Permutation|]. destruct (gc_dry_run options); [by rewrite Hr|].
  destruct Hr as [-> Hg]. split; [done|]. intros _ name Hn. apply Hg. by left.
Qed.
End Exact.

(** Garbage collection, running alone, never touches anything but the folders named by
    a digest that is not retained, at any moment and however it ends, and in a dry
    run nothing at all.  If it succeeds it reports exactly these folders in order, no
    more than allowed; unless it is a dry run all of them are reported as removed and
    are gone. *)
Theorem gc_exact (world : nat -> Moment) {F : FileTexts} retained options s r s' :
  (forall n l, mo_others (world n) l = l) -> NoDup (dk_entries s).*1 -> dk_past s = [] -> 0 <= gc_max_removals options ->
  garbage_collect world retained options s = (r, s') ->
  Forall (fun l => forall name, ~ collectable retained name (om_get name (dk_entries s)) ->
    om_get name l = om_get name (dk_entries s)) (moments s')
  /\ (gc_dry_run options = true -> dk_entries s' = dk_entries s)
  /\ match r with
     | Err _ => True
     | Ok result =>
       (exists names, gc_candidates result = sort_bytes (digest_of <$> names) /\ NoDup names
          /\ (forall name, name ∈ names <-> collectable retained name (om_get name (dk_entries s)))
          /\ (gc_dry_run options = false -> forall name, name ∈ names -> om_get name (dk_entries s') = None))
       /\ Z.of_nat (length (gc_candidates result)) <= gc_max_removals options
       /\ gc_removed result = if gc_dry_run options then [] else gc_candidates result
     end.
Proof.
  intros Hq Hd Hp Hm. unfold garbage_collect. intros E.
  destruct (_ =? 0). { injection E as <- <-. unfold moments. rewrite Hp. by repeat constructor. }
  unfold mbind at 1, act_bind at 1, lift in E. destruct (retained_names retained) as [names|e] eqn:En;
    [|injection E as <- <-; unfold moments; rewrite Hp; by repeat constructor].
  change (collect_all world options names s = (r, s')) in E.
  pose proof (keeps_run _ _ s (collect_all_keeps world options names Hq (dk_entries s))) as Hk. rewrite E in Hk. cbn [snd] in Hk.
  assert (spared options names (dk_entries s) (dk_entries s)) as H0 by done.
  destruct (Hk H0) as [[_ Hdry] _]. apply evolves_moments in Hk; [|unfold moments; rewrite Hp; by repeat constructor].
  split; [|split; [done|]].
  - eapply Forall_impl; [exact Hk|]. intros l [Hl _] name Hc. apply Hl. apply not_true_iff_false. by rewrite candidate_spec.
  - destruct r as [result|]; [|done]. apply collect_all_Ok in E as (Hc & Hlen & Hr & Hg); [|done..].
    destruct (collected_spec retained names (dk_entries s) En Hd) as [Hnd Hin]. split; [|done].
    by exists (collected names (dk_entries s).*1 (dk_entries s)).
Qed.

(** ** The production profile *)
Section Profile.
Context {J : JsonLib}.

Definition listed_in (locks : list (string * Locked)) (digests : gset string) : Prop :=
  forall id lock, om_get id locks = Some lock -> lk_digest lock ∈ digests.
Lemma lock_digests_locks bundles ids locks digests locks' digests' :
  read_locks bundles ids locks = Ok locks' -> lock_digests bundles ids digests = Ok (Ok digests') ->
  listed_in locks digests -> listed_in locks' digests'.
Proof.
  revert locks digests. induction ids as [|id ids IH]; cbn [read_locks lock_digests]; intros locks digests E1 E2 H; [by simplify_res|].
  apply bind_Ok in E1 as (v & Ev & E1). rewrite Ev in E2. cbn [mbind res_bind] in E2. simplify_res.
  match goal with H1 : get_string "digest" "" v = Ok ?a, H2 : get_string "digest" "" v = Ok ?b |- _ => assert (a = b) as -> by congruence end.
  repeat match goal with H : (if ?b then _ else _) = Ok _ |- _ => destruct b; [done|] end.
  eapply IH; [done..|]. intros k lock. rewrite om_get_set. case_decide; [intros [= <-]; set_solver|]. intros Hk%H. set_solver.
Qed.
Lemma lockfile_digests_locks text digests locks :
  lockfile_digests text = Ok digests -> parse_lock text = Ok locks -> listed_in locks digests.
Proof.
  unfold lockfile_digests, parse_lock. destruct (lockfile_digests_unchecked text) as [r|] eqn:E; [|done]. intros ->.
  destruct (str_empty text); [intros [= <-]; by intros|]. unfold lockfile_digests_unchecked, lock_header in E. intros E2.
  apply bind_Ok in E2 as (root & Er & E2). rewrite Er in E. cbn [mbind res_bind] in E.
  apply bind_Ok in E2 as (format & Ef & E2). rewrite Ef in E. cbn [mbind res_bind] in E. destruct (negb (String.eqb format _)); [done|].
  apply bind_Ok in E2 as (version & Ev & E2). rewrite Ev in E. cbn [mbind res_bind] in E. destruct (negb (version =? 1)); [done|].
  apply bind_Ok in E2 as (bundles & Eb & E2). rewrite Eb in E. cbn [mbind res_bind] in E. destruct (negb (is_object bundles)); [done|].
  apply bind_Ok in E2 as (ids & Ei & E2). rewrite Ei in E. cbn [mbind res_bind] in E. by eapply lock_digests_locks.
Qed.

(** C17: Resolution under the production profile is closed: every bundle it returns has a
    digest that the valid lock file lists, and a trusted signature by as many
    different keys as the policy requires, at least one. *)
Theorem production_profile_safe {C : Crypto} lock repository keys trust policy offline options fuel p g :
  verified_production_profile lock repository keys trust policy offline = Ok options -> 0 <= sp_threshold policy ->
  resolve_unchecked options fuel p = Some (Ok g) -> forall id b, find_bundle g id = Some b ->
  (exists digests, lockfile_digests lock = Ok digests /\ bd_digest b ∈ digests) /\ authenticated options b.
Proof.
  unfold verified_production_profile. destruct (bool_decide (sp_kind policy = Disabled)) eqn:Ek; [done|]. cbn [orb].
  destruct (_ && _); [done|]. intros E Ht Hr id b Hb. apply bind_Ok in E as (digests & Ed & E). injection E as <-.
  destruct (resolve_accepted _ fuel p g Hr Ht id b Hb) as [Hl Ha]. split.
  - destruct Hl as (locks & lk & El & Eg & _ & Edg); [cbn; by destruct offline|]. exists digests. split; [done|]. rewrite <- Edg.
    by eapply lockfile_digests_locks.
  - apply Ha; [cbn; destruct offline; auto|]. cbn. by apply bool_decide_eq_false in Ek.
Qed.
End Profile.
