(* ===== verification/Scenario.v ===== *)
(** A complete scenario.

    One workflow document (a fenced external write, a parallel node with two branches, a
    join and an end), the reference JSON library, a host that answers every call, and
    the runs it gives.  The documents are loaded and the runs executed by evaluation, so
    the hypotheses of the run-level theorems are seen to hold together, and each theorem
    is applied to a run that really takes the path it speaks about. *)
From stdpp Require Import base strings list relations.
From S2P Require Import Prelude.
From S2P Require Import Json.
From S2P Require Import Expr.
From S2P Require Import Sha256.
From S2P Require Import Ir.
From S2P Require Import Reliability.
From S2P Require Import Workflow.
From S2P Require Import Trace.
From S2P Require Import RunState.
From S2P Require Import RunStep.
From S2P Require Import RunTrace.
From S2P Require Import RunCalm.
From S2P Require Import RunEffects.
From S2P Require Import RunBounds.
From S2P Require Import RunBudget.
From S2P Require Import Restore.
From S2P Require Import RunReplay.
From S2P Require Import Drive.
#[local] Open Scope string_scope.
#[local] Open Scope list_scope.
#[local] Open Scope Z_scope.

(** ** The document *)
Definition save_node : json := obj [
  ("type", JString "tool"); ("executor", JString "db");
  ("input", obj [("v", JString "${workflow.input.v}")]);
  ("effects", obj [("kind", JString "external_write"); ("replay", JString "idempotent");
                   ("idempotency_key", JString "${run.id}/${node.id}")]);
  ("retry", obj [("max_attempts", JInt 3)]);
  ("next", JString "fan"); ("on_error", JString "done")].
Definition fan_node : json := obj [
  ("type", JString "parallel"); ("branches", JArray [JString "left"; JString "right"]); ("join", JString "meet")].
Definition leaf_node : json := obj [("type", JString "noop"); ("next", JString "meet")].
Definition meet_node : json := obj [
  ("type", JString "join"); ("executor", JString "merge"); ("next", JString "done")].
Definition document : json := obj [
  ("format", JString "dage-workflow"); ("format_version", JString "0.2.0"); ("id", JString "demo");
  ("entry", JString "save"); ("limits", obj [("max_steps", JInt 10); ("max_parallel", JInt 2)]);
  ("nodes", obj [("save", save_node); ("fan", fan_node); ("left", leaf_node); ("right", leaf_node);
                 ("meet", meet_node); ("done", obj [("type", JString "end")])])].
Definition text : string := write_json document false.

Definition no_workflow : WorkflowIR := mkWorkflow "" "" "" 0 0 0 [] [].
Definition workflow : WorkflowIR :=
  Eval vm_compute in match load default_limits text with Ok w => wf_compiled w | Err _ => no_workflow end.

(** ** The host

    Its state is the list of answers to the coming polls for finished branches. *)
Definition polls : Type := list (list (string * ExecutionResult)).
Definition answer {A} (a : A) (w : polls) : A * polls := (a, w).
Definition host : Host polls := mkHost polls
  (answer 0) (answer 1700000000000)
  (fun executor ctx input timeout =>
     answer (mkExecOutcome (Ok (ok_result (obj [("by", JString executor)]))) (x_effect_committer ctx) false))
  (fun executor ctx input generation => answer (None, Ok tt))
  (fun generation => answer false)
  (fun point node => answer false)
  (fun request => answer (Ok (Ok (mkLease "lease-1" 1 1700000030000))))
  (answer 1) (answer 1) (answer None)
  (fun w => (default [] (head w), tail w))
  (answer None).
Definition branch_ok (name : string) : string * ExecutionResult := (name, ok_result (JObject [])).
Definition world : polls := [[]; []; []; [branch_ok "left"; branch_ok "right"]].

(** With a store, a trace sink and a lease provider; and bare. *)
Definition cfg : RunConfig := mkConfig workflow ["db"; "merge"] [] [] None true true true true false.
Definition bare : RunConfig := mkConfig workflow ["db"; "merge"] [] [] None false false false false false.
Definition input : json := obj [("v", JInt 7)].
Definition machine_of (options : RunOptions) : machine MemoryStateStore polls :=
  mkMachine (new_run workflow options "") (mkMemory []) world [] [].
Definition start : machine MemoryStateStore polls := machine_of default_options.
Definition ended : res exit unit * machine MemoryStateStore polls :=
  Eval vm_compute in execute_step cfg host 11 input start.
Definition final : machine MemoryStateStore polls := ended.2.
Definition outcome : ExecutionResult :=
  match ended.1 with Err (Return r) => r | _ => ok_result JNull end.

Lemma runs : execute_step cfg host 11 input start = (Err (Return outcome), final).
Proof. by vm_compute. Qed.

(** ** The theorems of a step, on this run *)
Lemma step_trace_gapless_witness :
  exists evs, m_trace final = m_trace start ++ evs
    /\ consecutive 0 (ev_sequence <$> evs) (r_event_sequence (m_run final)) /\ length (m_trace final) = 26%nat.
Proof.
  destruct (step_trace_gapless cfg host 11 input start outcome final runs) as (evs & He & Hc).
  exists evs. split; [exact He|]. split; [exact Hc|]. by vm_compute.
Defined.

Lemma step_calls_authorised_witness :
  exists new, m_log final = m_log start ++ new /\ Forall (authorised_call cfg (m_run start)) new
    /\ calls (m_log final) = 2.
Proof.
  destruct (step_calls_authorised cfg host 11 input start (Err (Return outcome)) final runs) as (new & Hl & Hf).
  exists new. split; [exact Hl|]. split; [exact Hf|]. by vm_compute.
Defined.

Definition shadow : machine MemoryStateStore polls := machine_of (default_options <| o_mode := Shadow |>).
Lemma shadow_never_writes_witness :
  exists new, m_log (execute_step cfg host 11 input shadow).2 = m_log shadow ++ new
    /\ Forall (fun c => writes c = false) new.
Proof.
  apply (shadow_never_writes cfg host 11 input shadow (execute_step cfg host 11 input shadow).1).
  - by left.
  - by destruct (execute_step cfg host 11 input shadow).
Defined.

Definition recorded : list TraceReplayOutcome := [
  mkReplayOutcome "root" "save" 1 (ok_result (obj [("by", JString "db")]));
  mkReplayOutcome "root" "meet" 1 (ok_result (obj [("by", JString "merge")]))].
Definition plan : TraceReplayPlan :=
  mkReplayPlan "run-1" "" (w_digest workflow) "" input recorded (ok_result (JObject [])).
Definition replaying : machine MemoryStateStore polls :=
  mkMachine (or_else (create_replay_run cfg "" plan) (new_run workflow default_options "")) (mkMemory []) world [] [].
Definition replayed : res exit unit * machine MemoryStateStore polls := execute_step cfg host 11 input replaying.
Lemma replaying_reached : replay_reaches cfg host "" plan replaying.
Proof. constructor; by vm_compute. Qed.
Lemma replay_takes_recorded_witness :
  (match replayed.1 with Err (Return r) => xr_success r | _ => false end) = true
  /\ left_at (m_run replaying) (replay_key "root" "meet") = [ok_result (obj [("by", JString "merge")])]
  /\ left_at (m_run replayed.2) (replay_key "root" "meet") = []
  /\ Forall (fun c => is_call c = false) (m_log replayed.2).
Proof.
  split; [by vm_compute|]. split; [by vm_compute|]. split; [by vm_compute|].
  assert (replay_reaches cfg host "" plan replayed.2) as Hr.
  { apply (ReplayStep cfg host "" plan 11 input replayed.1 replaying replayed.2 replaying_reached). unfold replayed. apply surjective_pairing. }
  exact (proj1 (replay_takes_recorded cfg host "" plan replayed.2 Hr)).
Defined.

Lemma step_fenced_witness : step_ready cfg start /\ step_ready cfg final /\ calls (m_log final) = 2.
Proof.
  assert (step_ready cfg start) as Hs.
  { split; [|done]. split; [|done]. intros [] c after E; discriminate E. }
  split; [exact Hs|]. split; [|by vm_compute].
  apply (step_fenced cfg host 11 input start (Err (Return outcome)) final); [reflexivity|exact Hs|exact runs].
Defined.

Lemma step_terminates_witness : exists e s', execute_step cfg host 11 input start = (Err e, s').
Proof.
  apply (step_terminates cfg host 11 input start).
  - by vm_compute.
  - by vm_compute.
  - by vm_compute.
  - by vm_compute.
Defined.

Lemma step_call_budget_witness :
  calls (m_log final) - calls (m_log start) = 2
  /\ calls (m_log final) - calls (m_log start) <=
    (r_step (m_run final) - r_step (m_run start))
    + (r_retry_remaining (m_run start) - r_retry_remaining (m_run final)) + credit (m_run start).
Proof.
  split; [by vm_compute|].
  refine (proj1 (step_call_budget cfg host 11 input start final (Err (Return outcome)) _ _ _ _ runs)); by vm_compute.
Defined.

(** The parallel node on its own: one turn launches both branches, the next collects. *)
Definition fanning : machine MemoryStateStore polls :=
  mkMachine ((new_run workflow default_options "")
      <| r_run := obj [("id", JString "run-1")] |> <| r_workflow_input := JObject [] |>
      <| r_parallel := Some (mkPar "fan" "meet" "all" "wait" ["left"; "right"] 1 2 0 0 0 0 false false false
                               (ok_result (JObject [])) [] []) |>)
    (mkMemory []) world [] [].
Lemma parallel_loop_enough_witness :
  (forall s', parallel_loop bare host 3 "fan" (ok_result JNull) fanning <> (Ok None, s'))
  /\ (parallel_loop bare host 3 "fan" (ok_result JNull) fanning).1 = Ok (Some (ok_result JNull)).
Proof.
  split; [|by vm_compute]. intros s'.
  eapply (parallel_loop_enough bare host 3 "fan" (ok_result JNull) fanning s'); [reflexivity|by vm_compute..].
Defined.

(** ** Recovery *)

(** What the reference library reads back, decided. *)
Fixpoint sortedb (l : list string) : bool :=
  match l with
  | x :: (y :: _) as l' => (match String.compare x y with Lt => true | _ => false end) && sortedb l'
  | _ => true
  end.
Fixpoint text_okb (d : nat) (v : json) : bool :=
  match d with
  | O => false
  | Datatypes.S d' =>
    match v with
    | JInt z => (- 2 ^ 63 <=? z) && (z <? 2 ^ 63)
    | JUInt z => (0 <=? z) && (z <? 2 ^ 64)
    | JArray l => forallb (text_okb d') l
    | JObject m => sortedb m.*1 && forallb (fun p => text_okb d' p.2) m
    | _ => true
    end
  end.
Lemma sortedb_sorted {A} (m : list (string * A)) : sortedb m.*1 = true -> om_sorted m.
Proof.
  intros H. apply Sorted_StronglySorted; [intros x y z; apply str_compare_trans|].
  induction m.*1 as [|x l IH]; [constructor|]. destruct l as [|y l]; [by repeat constructor|].
  cbn [sortedb] in H. apply andb_true_iff in H as [Hx Hl]. constructor; [by apply IH|].
  constructor. by destruct (String.compare x y).
Qed.
#[local] Transparent text_ok.
Lemma text_okb_ok d v : text_okb d v = true -> text_ok (fun _ => True) (fun _ => True) d v.
Proof.
  revert v. induction d as [|d IH]; intros v; [done|]. cbn [text_okb].
  destruct v as [|z|z|x|s|b|l|m]; intros H; try exact I.
  - apply andb_true_iff in H as [Hl Hh]. apply Z.leb_le in Hl. apply Z.ltb_lt in Hh. by split.
  - apply andb_true_iff in H as [Hl Hh]. apply Z.leb_le in Hl. apply Z.ltb_lt in Hh. by split.
  - rewrite forallb_forall in H. apply List.Forall_forall. intros x Hx. by apply IH, H.
  - apply andb_true_iff in H as [Hs Hm]. split; [by apply sortedb_sorted|].
    rewrite forallb_forall in Hm. apply List.Forall_forall. intros p Hp. split; [exact I|]. by apply IH, Hm.
Qed.
#[local] Opaque text_ok.

Definition bare_run : RunImpl := Eval vm_compute in m_run (execute_step bare host 11 input start).2.
Lemma bare_run_ok : run_ok bare bare_run.
Proof.
  split.
  - apply text_okb_ok. by vm_compute.
  - by vm_compute.
  - repeat constructor; by vm_compute.
  - repeat constructor; by vm_compute.
  - apply sortedb_sorted. by vm_compute.
  - apply sortedb_sorted. by vm_compute.
  - intros n Hn. apply (bool_decide_unpack _).
    enough (forallb (fun n => bool_decide (n_id n ∈ (r_node_status bare_run).*1)) (w_nodes bare.(c_workflow)) = true) as Ha.
    { rewrite forallb_forall in Ha. apply Is_true_true, Ha. by apply list_elem_of_In. }
    by vm_compute.
  - assert (r_hits bare_run = []) as -> by by vm_compute. by repeat constructor.
  - assert (r_loops bare_run = []) as -> by by vm_compute. by repeat constructor.
  - by vm_compute.
  - by vm_compute.
Qed.

Lemma restore_roundtrip_witness :
  exists s', restore_run bare host "" (write_json (checkpoint (w_digest workflow) bare_run) true) start = (Ok tt, s')
    /\ m_run s' = recovered bare 0 bare_run /\ r_completed (m_run s') = true.
Proof.
  destruct (restore_roundtrip bare host bare_run start) as (s' & Hr & Hs).
  - reflexivity.
  - exact bare_run_ok.
  - intros node Hn. apply list_elem_of_In in Hn.
    assert (forallb (fun p => resumable bare p.1) (r_node_status bare_run) = true) as Ha by by vm_compute.
    rewrite forallb_forall in Ha. exact (Ha _ Hn).
  - exists s'. split; [exact Hr|]. split; [exact Hs|]. rewrite Hs. by vm_compute.
Defined.

(** The record the store holds after the run, recovered twice. *)
Definition stored : string := sr_checkpoint (mem_at "run-1" (m_store final)).
Definition document_of (text : string) : json := or_else (parse_json text) JNull.
Definition recovering : machine MemoryStateStore polls := mkMachine (m_run start) (m_store final) [] [] [].
Definition restored : machine MemoryStateStore polls := Eval vm_compute in (restore_run cfg host "" stored recovering).2.
Lemma restores : restore_run cfg host "" stored recovering = (Ok tt, restored).
Proof. by vm_compute. Qed.
Lemma restore_exclusive_witness : (restore_run cfg host "" stored restored).1 <> Ok tt.
Proof.
  intros E.
  apply (restore_exclusive cfg host "" "" stored (document_of stored) (or_else (jget "run" (document_of stored)) JNull)
           "run-1" recovering restored restored) with (s3 := (restore_run cfg host "" stored restored).2).
  - reflexivity.
  - by vm_compute.
  - by vm_compute.
  - by vm_compute.
  - by vm_compute.
  - by vm_compute.
  - exact restores.
  - reflexivity.
  - rewrite <- E. apply surjective_pairing.
Defined.

Lemma restore_safe_witness :
  get_string "workflow_digest" "" (document_of stored) = Ok (w_digest workflow)
  /\ forall node, om_get node (r_node_status (m_run restored)) <> Some Running.
Proof.
  destruct (restore_safe cfg host "" stored (document_of stored) recovering restored) as (Hd & _ & _ & Hn).
  - by vm_compute.
  - exact restores.
  - by split.
Defined.

(** ** Driving a run *)
Abbreviation driver := (Driver MemoryStateStore polls).
Definition begun (d : driver) : driver := or_else (begin_execute input d) d.
Definition run_armed : driver := arm 0 [] (begun (undriven start)).
Definition stepped (r : ExecutionResult) (m : machine MemoryStateStore polls) (d : driver) : driver :=
  d <| d_machine := m |> <| d_drives := [(0%nat, Stepped r)] |>.
Definition entered : driver := enter 0 [] (launched 0 [] run_armed).
Lemma drives_entered (cfg : RunConfig) : rtc (drives cfg host) (undriven start) entered.
Proof.
  apply (rtc_l _ _ (begun (undriven start))); [by apply (DExecute _ _ input)|].
  apply (rtc_l _ _ run_armed); [exact (DArm cfg host [] 0 [] (begun (undriven start)) eq_refl)|].
  apply (rtc_l _ _ (launched 0 [] run_armed)); [exact (DLaunch cfg host [] 0 [] run_armed eq_refl)|].
  apply rtc_once. exact (DEnter cfg host [] 0 [] (launched 0 [] run_armed) eq_refl).
Qed.

(** The run above, driven to the callback. *)
Definition delivered : driver := deliver 0 outcome [] (stepped outcome final entered).
Definition answered : driver := respond 0 (Some (0%nat, outcome)) [] delivered.
Lemma drives_answered : rtc (drives cfg host) (undriven start) answered.
Proof.
  eapply rtc_r; [eapply rtc_r; [eapply rtc_r; [apply drives_entered|]|]|].
  - apply (DStep cfg host 11 [] 0 [] final outcome entered); [reflexivity|exact runs].
  - apply (DDeliver cfg host [] 0 [] outcome (stepped outcome final entered)); [reflexivity|by vm_compute].
  - exact (DRespond cfg host [] 0 [] (Some (0%nat, outcome)) delivered eq_refl).
Qed.
Lemma callback_once_witness : times 0 (d_callbacks answered).*1 = 1%nat /\ (times 0 (d_callbacks answered).*1 <= 1)%nat.
Proof.
  split; [by vm_compute|]. destruct (callback_once cfg host start answered 0 drives_answered) as (H1 & _).
  etrans; [|etrans; [exact H1|]]; vm_compute; lia.
Defined.

(** The scheduler refuses the first task after a cancellation has already had the run
    driven to its answer: the caller is answered twice. *)
Definition cancelled_early : driver := enter 0 [] (woken true 0 [] (cancel "stop" run_armed)).
Definition after_cancel : machine MemoryStateStore polls := Eval vm_compute in (execute_step cfg host 11 input (d_machine cancelled_early)).2.
Definition cancel_result : ExecutionResult := Eval vm_compute in
  match (execute_step cfg host 11 input (d_machine cancelled_early)).1 with Err (Return r) => r | _ => outcome end.
Definition cancel_stepped : driver := cancelled_early <| d_machine := after_cancel |> <| d_drives := [(0%nat, Stepped cancel_result)] |>.
Definition cancel_delivered : driver := deliver 0 cancel_result [] cancel_stepped.
Definition cancel_answered : driver := respond 0 (Some (0%nat, cancel_result)) [] cancel_delivered.
Lemma drives_cancel_answered : rtc (drives cfg host) (undriven start) cancel_answered.
Proof.
  apply (rtc_l _ _ (begun (undriven start))); [by apply (DExecute _ _ input)|].
  apply (rtc_l _ _ run_armed); [exact (DArm cfg host [] 0 [] (begun (undriven start)) eq_refl)|].
  apply (rtc_l _ _ (cancel "stop" run_armed)); [apply DCancel|].
  apply (rtc_l _ _ (woken true 0 [] (cancel "stop" run_armed))); [exact (DWoken cfg host true [] 0 [] (cancel "stop" run_armed) eq_refl)|].
  apply (rtc_l _ _ cancelled_early); [exact (DEnter cfg host [] 0 [] (woken true 0 [] (cancel "stop" run_armed)) eq_refl)|].
  apply (rtc_l _ _ cancel_stepped); [apply (DStep cfg host 11 [] 0 [] after_cancel cancel_result cancelled_early); [reflexivity|by vm_compute]|].
  apply (rtc_l _ _ cancel_delivered); [exact (DDeliver cfg host [] 0 [] cancel_result cancel_stepped eq_refl eq_refl)|].
  apply rtc_once. exact (DRespond cfg host [] 0 [] (Some (0%nat, cancel_result)) cancel_delivered eq_refl).
Qed.
Definition refused_late (d : driver) : driver := refused 0 "scheduler is stopping" [] d.
Definition answered_twice : driver := respond 0 (Some (0%nat, rejection "scheduler is stopping")) [] (refused_late cancel_answered).
Lemma refusal_answers_twice : rtc (drives cfg host) (undriven start) answered_twice
  /\ d_callbacks answered_twice = [(0%nat, cancel_result); (0%nat, rejection "scheduler is stopping")].
Proof.
  split; [|by vm_compute]. etrans; [exact drives_cancel_answered|].
  apply (rtc_l _ _ (refused_late cancel_answered)); [exact (DRefused cfg host "scheduler is stopping" [] 0 [] cancel_answered eq_refl)|].
  apply rtc_once. exact (DRespond cfg host [] 0 [] (Some (0%nat, rejection "scheduler is stopping")) (refused_late cancel_answered) eq_refl).
Qed.
(** Or, where the caller has begun the next execution by then, that one is forgotten. *)
Lemma refusal_forgets : let d := refused_late (begun cancel_answered) in rtc (drives cfg host) (undriven start) d
  /\ d_executes d = 2%nat /\ awaited d = false /\ times 1 (answers_due d).*1 = 0%nat.
Proof.
  cbv zeta. split; [|by vm_compute]. etrans; [exact drives_cancel_answered|].
  apply (rtc_l _ _ (begun cancel_answered)); [by apply (DExecute cfg host input)|].
  apply rtc_once. exact (DRefused cfg host "scheduler is stopping" [] 0 [] (begun cancel_answered) eq_refl).
Qed.

(** With an asynchronous executor: the step is suspended, the completion arrives while
    the drive task still holds the run. *)
Definition async_cfg : RunConfig := mkConfig workflow ["merge"] ["db"] [] None true true true true false.
Definition waiting : machine MemoryStateStore polls := Eval vm_compute in (execute_step async_cfg host 11 input start).2.
Definition pending : ExecutionResult := RunStep.suspended "Async executor completion is pending.".
Definition completed : driver :=
  async_done 1 (ok_result (JObject [])) (look_async 0 [] (stepped pending waiting entered)).
Lemma no_lost_wakeup_witness : awaited completed = true /\ any_ready (the_run completed) = true
  /\ (moves_on completed \/ (stale completed /\ (2 <= d_executes completed)%nat)).
Proof.
  split; [by vm_compute|]. split; [by vm_compute|].
  apply (no_lost_wakeup async_cfg host start completed); [|by vm_compute..].
  eapply rtc_r; [eapply rtc_r; [eapply rtc_r; [apply drives_entered|]|]|].
  - apply (DStep async_cfg host 11 [] 0 [] waiting pending entered); [reflexivity|]. by vm_compute.
  - apply (DPending async_cfg host [] 0 [] pending (stepped pending waiting entered)); reflexivity.
  - apply (DAsyncDone async_cfg host 1 (ok_result (JObject [])) (look_async 0 [] (stepped pending waiting entered))).
Defined.

(** A subflow node whose [entry] is an object: reading it as a text throws. *)
Definition throwing : WorkflowIR := Eval vm_compute in
  match load default_limits (write_json (obj [
    ("format", JString "dage-workflow"); ("format_version", JString "0.2.0"); ("entry", JString "call");
    ("nodes", obj [("call", obj [("type", JString "subflow");
       ("config", obj [("workflow", JString "demo"); ("entry", JObject [])])])])]) false)
  with Ok w => wf_compiled w | Err _ => no_workflow end.
Definition throwing_cfg : RunConfig := mkConfig throwing [] [] [("demo", workflow)] None true true false true false.
Definition thrown : machine MemoryStateStore polls := (execute_step throwing_cfg host 2 input start).2.
Definition escaped : driver := entered <| d_machine := thrown |> <| d_drives := [] |>.
Lemma escaped_exception_strands_witness : exists d1, drives throwing_cfg host entered d1 /\
  (rtc (fun a b => drives throwing_cfg host a b /\ forall reason, b <> cancel reason a) d1 escaped ->
   d_callbacks escaped = [] /\ awaited escaped = true).
Proof.
  apply (escaped_exception_strands throwing_cfg host 2 thrown (LogicError "not convertible") 0 entered escaped);
    [reflexivity..|by vm_compute].
Defined.

Definition rerun : driver := match selective_rerun cfg "meet" 5 answered with Ok (inr d) => d | _ => answered end.
Lemma rerun_resets_reachable_witness :
  r_current (the_run rerun) = "meet" /\ om_get "done" (r_node_status (the_run rerun)) = Some Pending
  /\ om_get "save" (r_node_status (the_run rerun)) = Some Succeeded.
Proof.
  destruct (rerun_resets_reachable cfg "meet" 5 answered rerun "done") as (Hc & _ & _ & _ & Hr & _); [by vm_compute|].
  split; [exact Hc|]. split; [|by vm_compute]. apply Hr. apply rtc_once.
  eexists. split; [reflexivity|]. by left.
Defined.

(** ** The components, on the same data *)
Lemma validate_sound_witness : document_ok document.
Proof.
  apply (validate_sound default_limits text []); [by vm_compute|reflexivity|by vm_compute].
Defined.
Lemma validate_cycles_bounded_witness : document_acyclic document.
Proof.
  apply (validate_cycles_bounded default_limits text []); [by vm_compute|reflexivity|by vm_compute].
Defined.

(** The search for cycles does not enter the branches of a parallel node: a branch that
    leads back to itself without a bound is accepted. *)
Definition spinning : json := obj [
  ("format", JString "dage-workflow"); ("format_version", JString "0.2.0"); ("id", JString "spin");
  ("entry", JString "fan");
  ("nodes", obj [("fan", fan_node); ("left", obj [("type", JString "noop"); ("next", JString "left")]);
                 ("right", leaf_node); ("meet", meet_node); ("done", obj [("type", JString "end")])])].
Lemma branch_cycle_accepted : exists nodes,
  jget "nodes" spinning = Ok nodes /\ unbounded_step nodes "left" "left"
  /\ (forallb (fun d => negb (is_error d)) <$> validate default_limits (write_json spinning false)) = Ok true.
Proof.
  eexists. split; [reflexivity|]. split; [|by vm_compute]. exists (obj [("to", JString "left")]). split.
  - exists (obj [("type", JString "noop"); ("next", JString "left")]), "next", [obj [("to", JString "left")]].
    split_and!; [by vm_compute|left|by vm_compute|left|by vm_compute].
  - intros [E|(hits & E & Hh)]; vm_compute in E; [done|]. injection E as <-. lia.
Qed.

Definition budget : Z := 32 * 1024 * 1024.
Definition accounted : Z * WorkflowIR := or_else (compile_accounted text budget) (0, no_workflow).
Lemma compile_within_budget_witness : accounted.1 = ir_bytes accounted.2 /\ ir_bytes accounted.2 <= budget.
Proof. apply (compile_within_budget text budget). by vm_compute. Defined.
Lemma compile_find_node_witness : ir_wf accounted.2 /\ length (w_nodes accounted.2) = 6%nat.
Proof. split; [|by vm_compute]. apply (compile_find_node text budget). by vm_compute. Defined.

Definition revised : json := or_else (jset "x_revision" (JInt 4) document) document.
Definition compiled (v : json) : WorkflowIR := or_else (compile_workflow_ir (write_json v false) budget) no_workflow.
Lemma digest_ignores_revision_witness : w_digest (compiled document) = w_digest (compiled revised).
Proof.
  apply (digest_ignores_revision text (write_json revised false) document revised budget); by vm_compute.
Defined.

Definition constant : json := obj [("k", JArray [JString "plain"; JInt 3]); ("l", JString "text")].
Definition scope_here : scope := mkScope JNull (obj [("a", JString "x"); ("b", JString "y")]) JNull JNull JNull JNull JNull.
Lemma resolve_template_ground_witness : resolve_template constant scope_here = Ok constant.
Proof.
  apply (resolve_template_ground constant scope_here). split; [apply sortedb_sorted; reflexivity|by vm_compute].
Defined.
Lemma two_references_null_witness :
  resolve_template (JString "${input.a}-${input.b}") scope_here = Ok JNull.
Proof. apply (two_references_null scope_here). reflexivity. Defined.

(** Two writers and a recovery race for one run. *)
Definition race : list store_op := [OpCas "r" 0 "a"; OpCas "r" 0 "b"; OpClaim "r" 1 "p"; OpCas "r" 1 "c"; OpCas "r" 2 "d"].
Lemma cas_versions_increase_witness :
  wins "r" race (mkMemory []) = [1; 2; 3] /\ StronglySorted Z.lt (wins "r" race (mkMemory [])).
Proof.
  split; [by vm_compute|].
  refine (proj1 (cas_versions_increase "r" race (mkMemory []) _ _ _)); [|by vm_compute..].
  repeat constructor.
Defined.

Definition a_record : StateRecord := mkRecord 3 1 "recovery-1" "{}".
Lemma record_roundtrip_witness : decode_record (encode_record a_record) = Ok a_record.
Proof. apply (record_roundtrip a_record). by vm_compute. Defined.
Lemma file_put_result_witness :
  match file_put "run-1" "{}" (mkFile [] []) with
  | (Ok b, s') => b = true /\ file_content s' "run-1" = cas_record empty_record "{}"
  | (Err _, _) => False
  end.
Proof. refine (file_put_result "run-1" "{}" [] _ _); by vm_compute. Defined.

Definition an_event (n : Z) : EventEnvelope :=
  mkEnvelope 1 n 0 0 0 "node_started" "run-1" "root" "" "" "save" "tool" "db" "" "" "" "t1" "" "" "".
(** A queue of one that drops its oldest event: two emitted, the worker idle. *)
Definition queued : AsyncTraceSink := mkAsync 1 DropOldest false [an_event 2] None 2 1 0 [].
Lemma async_sink_accounting_witness :
  Z.of_nat (length (aq_queue queued)) <= 1 /\ aq_done queued `sublist_of` [an_event 1; an_event 2]
  /\ aq_exported queued = 0 /\ aq_accepted queued = 0 + 1 + aq_evicted queued.
Proof.
  apply (async_sink_accounting 1 DropOldest [an_event 1; an_event 2] queued).
  eapply (run_emit _ _ [an_event 1]); [eapply (run_emit _ _ [])|]; [by eapply run_new|reflexivity|reflexivity].
Defined.
Lemma sampling_consistent_witness :
  sampling_emit (mkSampling 500 true) (an_event 1) = sampling_emit (mkSampling 500 true) (an_event 2).
Proof. by apply (sampling_consistent (mkSampling 500 true) (an_event 1) (an_event 2)). Defined.

Definition secret : json := obj [("headers", JArray [obj [("token", JString "s3cret")]])].
Definition leaking : EventEnvelope := (an_event 1) <| ev_payload_json := write_json secret false |>.
Lemma redacting_complete_witness :
  exists v, ev_payload_json (redacting_emit ["token"] "[REDACTED]" leaking) = jl_write_ascii v
    /\ redacted ["token"] "[REDACTED]" v.
Proof.
  destruct (redacting_complete ["token"] "[REDACTED]" leaking secret) as (v & Hv & Hr & _); [done|by vm_compute|].
  by exists v.
Defined.
