(* ===== verification/Services.v ===== *)
(** The services around a run, on concrete cases: leases of one resource passed from a
    caller to the next, a pool of one worker that is shut down, a timer that fires and
    one that is cancelled, and a recorded run whose trace is read back into a plan and
    compared with a shadow run. *)
From S2P Require Import Prelude Json Expr Sha256 Ir Reliability Workflow Trace RunState RunStep.
From S2P Require Import Restore Lease Scheduler Timer Replay Scenario.
#[local] Open Scope string_scope.
#[local] Open Scope list_scope.
#[local] Open Scope Z_scope.

(** ** Leases *)
Definition slots : list (string * Z) := [("slots", 1)].
Definition one_slot : Provider := mkProvider slots slots [] [] "" 1 1.
Definition asking (run : string) : ResourceRequest := mkRequest run "save" "tool" "db" 1 [] 0 "" 30000 0.
Definition queued (run : string) (s : System) : System :=
  let '(c, p) := join_queue 0 slots (asking run) (sy_provider s) in
  s <| sy_provider := p |> <| sy_calls := sy_calls s ++ [c] |>.
Definition idle_system : System := mkSystem one_slot [] [].
Definition waiting_system : System := queued "run-2" (queued "run-1" idle_system).
Definition one_turn (s : System) : System :=
  match sy_calls s with
  | [] => s
  | c :: rest =>
    let '(out, p) := poll 1000 0 None c (sy_provider s) in
    s <| sy_provider := p |> <| sy_calls := match out with None => sy_calls s | Some _ => rest end |>
      <| sy_granted := sy_granted s ++ lease_token out |>
  end.
Definition served : System := one_turn waiting_system.

Lemma asks run s : check_request (asking run) (sy_provider s) = Ok slots -> leasing s (queued run s).
Proof.
  intros H. unfold queued. destruct (join_queue 0 slots (asking run) (sy_provider s)) as [c p] eqn:E.
  apply (LAsk 0 (asking run) slots); [|done|done]. split; [by repeat constructor|]. by repeat constructor.
Qed.
Lemma turns_once s : sy_calls s <> [] -> leasing s (one_turn s).
Proof.
  intros Hc. unfold one_turn. destruct (sy_calls s) as [|c rest] eqn:E; [done|].
  destruct (poll 1000 0 None c (sy_provider s)) as [out p] eqn:Ep. rewrite <- E.
  exact (LTurn 1000 0 None [] c rest out p s E Ep).
Qed.
Lemma reaches_served : rtc leasing idle_system served.
Proof.
  eapply rtc_l; [by apply (asks "run-1")|]. eapply rtc_l; [by apply (asks "run-2")|].
  eapply rtc_l; [by apply turns_once|]. constructor.
Qed.
Lemma leases_conserved_witness :
  sy_granted served = [1] /\ exists a, om_get "slots" (lp_available (sy_provider served)) = Some a
    /\ 0 <= a /\ a + held "slots" (lp_active (sy_provider served)) = 1.
Proof.
  split; [by vm_compute|].
  apply (leases_conserved slots one_slot served); [|reflexivity|exact reaches_served|by vm_compute|reflexivity].
  split; by repeat constructor.
Defined.

Lemma ageing_bounds_overtaking_witness :
  effective 900000000 (mkWaiter 2 5 "b" 500000000) <= effective 900000000 (mkWaiter 1 0 "a" 0).
Proof. apply (ageing_bounds_overtaking 900000000 (mkWaiter 1 0 "a" 0) (mkWaiter 2 5 "b" 500000000) 5); simpl; lia. Defined.

(** ** The pool *)
Definition outsider : Caller := mkCaller false 0.
Definition one_worker : ThreadPoolOptions := mkPoolOptions 1 2 Reject 1.
Definition submitted_one : Pool := (schedule outsider (Some 7%nat) false (pool_new 4 one_worker)).2.
Definition submitted : Pool := (schedule outsider (Some 8%nat) false submitted_one).2.
Definition stopped : Pool := shutdown submitted.
Definition working : Pool := default stopped (take_task stopped).
Definition second : Pool := default stopped (take_task (finish_task [] [] working)).
Definition drained : Pool := default stopped (leave_loop (finish_task [] [] second)).
Lemma pool_runs_accepted_witness :
  sp_accepted drained = [7; 8]%nat /\ sp_started drained = sp_accepted drained /\ sp_stopping drained = true.
Proof.
  split; [by vm_compute|].
  assert (rtc pooling (pool_new 4 one_worker) drained) as Hr.
  { apply (rtc_l _ _ submitted_one); [apply (PSchedule outsider (Some 7%nat) false)|].
    apply (rtc_l _ _ submitted); [apply (PSchedule outsider (Some 8%nat) false)|].
    apply (rtc_l _ _ stopped); [apply PShutdown|]. apply (rtc_l _ _ working); [apply PTake; by vm_compute|].
    apply (rtc_l _ _ (finish_task [] [] working)); [apply (PFinish [] 7%nat []); by vm_compute|].
    apply (rtc_l _ _ second); [apply PTake; by vm_compute|].
    apply (rtc_l _ _ (finish_task [] [] second)); [apply (PFinish [] 8%nat []); by vm_compute|].
    apply rtc_once, PLeave. by vm_compute. }
  apply (pool_runs_accepted 4 one_worker drained); [by vm_compute|exact Hr|reflexivity|reflexivity].
Defined.

(** ** Timers: the first is cancelled, the second fires at its time. *)
Definition armed_one : Timers := (schedule_after 0 20 true timers_new).2.
Definition armed : Timers := (schedule_after 0 30 true armed_one).2.
Definition disarmed : Timers := on_cancel (cancel_flag 0 armed).
Definition swept : Timers := default disarmed (drop_top disarmed).
Definition due_now : Timers := default swept (take_due 30000001 swept).
Definition rung : Timers := default due_now (fire 30000002 due_now).
Lemma timers_sound_witness :
  exists x, tm_fired rung = [(x, 30000002)] /\ exists start delay, tm_requests rung !! tk_handle x = Some (start, delay) /\ due_time start delay <= 30000002.
Proof.
  eexists. split; [by vm_compute|]. destruct (timers_sound 30000002 rung) as (_ & Hf & _).
  - apply (rtc_l _ _ (0, armed_one)); [by apply (TSchedule 20 true)|].
    apply (rtc_l _ _ (0, armed)); [by apply (TSchedule 30 true)|].
    apply (rtc_l _ _ (0, cancel_flag 0 armed)); [apply TCancel; vm_compute; lia|].
    apply (rtc_l _ _ (0, disarmed)); [by apply TCancelled|].
    apply (rtc_l _ _ (0, swept)); [apply TDrop; by vm_compute|]. apply (rtc_l _ _ (30000001, swept)); [by apply TTick|].
    apply (rtc_l _ _ (30000001, due_now)); [apply TTake; by vm_compute|]. apply (rtc_l _ _ (30000002, due_now)); [by apply TTick|].
    apply rtc_once, TFire. by vm_compute.
  - edestruct Hf as (start & delay & E & Hd & _); [|exists start, delay; split; [exact E|exact Hd]]. by left.
Defined.

(** ** A recorded run, read back *)
Definition recording (mode : RunMode) : machine MemoryStateStore polls :=
  machine_of (default_options <| o_mode := mode |> <| o_trace_capture := CaptureFull |>).
Definition trace_of (mode : RunMode) : list EventEnvelope := m_trace (execute_step cfg host 11 input (recording mode)).2.
Definition recorded_trace : list EventEnvelope := Eval vm_compute in trace_of Normal.
Definition read_back : TraceReplayPlan := Eval vm_compute in
  match prepare_trace_replay recorded_trace (w_digest workflow) "" with Ok (Ok p) => p | _ => empty_plan end.
Lemma recorded_run : recorded_trace = trace_of Normal.
Proof. by vm_compute. Qed.
Lemma prepare_certifies_witness :
  rp_workflow_digest read_back = w_digest workflow /\ rp_workflow_input read_back = input
  /\ outcome_key <$> rp_executor_outcomes read_back = [("root", "save", 1); ("root", "meet", 1)].
Proof.
  split; [|by vm_compute].
  apply (prepare_certifies (w_digest workflow) "" recorded_trace read_back). by vm_compute.
Defined.

(** A child run of which only the start was recorded does not count as incomplete. *)
Definition with_lost_child : list EventEnvelope :=
  match recorded_trace with
  | start :: rest => start :: (start <| ev_run_id := "lost-child" |> <| ev_invocation_id := "root/lost" |>) :: rest
  | [] => []
  end.
Lemma lost_child_accepted :
  length with_lost_child = S (length recorded_trace)
  /\ prepare_trace_replay with_lost_child (w_digest workflow) "" = Ok (Ok read_back).
Proof. by vm_compute. Qed.

(** ** A shadow run, compared: a workflow that only asks the merge executor. *)
Definition read_document : json := obj [
  ("format", JString "dage-workflow"); ("format_version", JString "0.2.0"); ("id", JString "reader");
  ("entry", JString "ask");
  ("nodes", obj [("ask", obj [("type", JString "tool"); ("executor", JString "merge"); ("next", JString "done");
                              ("effects", obj [("kind", JString "pure"); ("replay", JString "safe")])]);
                 ("done", obj [("type", JString "end")])])].
Definition reader : WorkflowIR := Eval vm_compute in
  match load default_limits (write_json read_document false) with Ok w => wf_compiled w | Err _ => no_workflow end.
Definition reader_cfg : RunConfig := mkConfig reader ["merge"] [] [] None true true false false false.
Definition asked (mode : RunMode) : res exit unit * machine MemoryStateStore polls :=
  execute_step reader_cfg host 11 input
    (mkMachine (new_run reader (default_options <| o_mode := mode |> <| o_trace_capture := CaptureFull |>) "")
       (mkMemory []) [] [] []).
Definition sample (label : string) (mode : RunMode) : EvaluationSample :=
  mkSample label (w_digest reader) (match (asked mode).1 with Err (Return r) => r | _ => ok_result JNull end)
    (m_trace (asked mode).2).
Definition baseline : EvaluationSample := Eval vm_compute in sample "baseline" Normal.
Definition candidate : EvaluationSample := Eval vm_compute in sample "candidate" Shadow.
(** Shorter traces are better. *)
Definition brevity : MetricDefinition :=
  mkMetric "brevity" (d_of_Z 1) (d_of_Z 0) (Some (fun s => Ok (Ok (d_of_Z (100 - Z.of_nat (length (sm_trace s))))))).
Definition verdict : ShadowEvaluationReport := Eval vm_compute in
  match compare_shadow_evaluation baseline candidate [brevity] with
  | Ok (Ok r) => r | _ => mkReport "" "" false false false (d_of_Z 0) []
  end.
Lemma recommendation_sound_witness :
  sr_recommended verdict = true /\ is_shadow_trace (sm_trace candidate) = true
  /\ xr_success (sm_result candidate) = true.
Proof.
  split; [by vm_compute|].
  destruct (recommendation_sound baseline candidate [brevity] verdict) as (Hs & Hx & _); [by vm_compute..|].
  split; [exact Hs|exact Hx].
Defined.
