(* ===== verification/PatchCases.v ===== *)
(** Patches on concrete workflows: one that is applied, tried, analysed and taken back, a
    node that is renamed, and one whose inverse the candidate refuses. *)
From S2P Require Import Prelude Json Expr Sha256 Ir Reliability Workflow Trace RunState RunStep.
From S2P Require Import Patch PatchInverse Scenario Services.
#[local] Open Scope string_scope.
#[local] Open Scope list_scope.
#[local] Open Scope Z_scope.

(** ** Patches: the reader gets another name for a node, a new entry, and its old one back. *)
Definition loaded (doc : json) : Workflow :=
  match load default_limits (write_json doc false) with Ok w => w | Err _ => mkWf JNull no_workflow "" end.
Definition base : Workflow := Eval vm_compute in loaded read_document.
Definition patch_of (w : Workflow) (changes : list json) : string :=
  write_json (obj [("base_digest", JString (w_digest (wf_compiled w))); ("changes", JArray changes)]) false.
Definition slower : string :=
  patch_of base [obj [("action", JString "set_field"); ("node_id", JString "ask"); ("field", JString "timeout_ms"); ("value", JInt 5000)]].
Definition patched (w : Workflow) (p : string) : Workflow := or_else (apply_patch default_limits w p) base.
Definition slow : Workflow := Eval vm_compute in patched base slower.
Lemma slows : apply_patch default_limits base slower = Ok slow.
Proof. by vm_compute. Qed.

Lemma patch_guarded_witness : exists revision root, revision_of (wf_root base) = Ok revision
  /\ load default_limits (write_json root false) = Ok slow /\ revision_of root = Ok (u64 (revision + 1)).
Proof.
  destruct (patch_guarded JsonRef.laws default_limits base slower slow) as (d & revision & c & cs & root & H); [by vm_compute|exact slows|].
  destruct H as (_ & _ & Hr & _ & _ & Hl & Hn & _). exists revision, root. split; [exact Hr|]. split; [exact Hl|exact Hn].
Defined.

Definition dry : PatchDryRunResult := Eval vm_compute in
  match dry_run_patch default_limits base slower with Ok d => d | Err _ => mkDryRun false "" "" 0 [] end.
Lemma dry_run_faithful_witness :
  dr_valid dry = true /\ dr_candidate_digest dry = w_digest (wf_compiled slow) /\ dr_diagnostics dry = [].
Proof.
  assert (dr_valid dry = true) as Hv by by vm_compute. split; [exact Hv|].
  apply (dry_run_faithful JsonRef.laws default_limits base slower dry); [by vm_compute|exact slows|exact Hv].
Defined.

Definition renaming : json :=
  obj [("action", JString "rename_node"); ("node_id", JString "done"); ("new_node_id", JString "finish")].
Definition members (v : json) : list (string * json) := match v with JObject m => m | _ => [] end.
Definition base_nodes : list (string * json) := Eval vm_compute in members (or_else (jget "nodes" (wf_root base)) JNull).
Lemma rename_complete_witness :
  exists root' m', change_rename_node "" renaming "done" (wf_root base) = Ok root' /\ jget "nodes" root' = Ok (JObject m')
    /\ om_get "done" m' = None /\ exists node', om_get "ask" m' = Some (JObject node') /\ references node' = Ok ["finish"].
Proof.
  set (out := change_rename_node "" renaming "done" (wf_root base)).
  assert (out = Ok (or_else out JNull)) as E by by vm_compute.
  destruct (rename_complete JsonRef.laws "" renaming "done" (wf_root base) (or_else out JNull) base_nodes) as (to & m' & Hne & Ht & Hm & Hg & _ & Hr).
  - done.
  - by vm_compute.
  - apply sortedb_sorted. by vm_compute.
  - exact E.
  - exists (or_else out JNull), m'. split; [exact E|]. split; [exact Hm|]. split; [exact Hg|].
    assert (to = "finish") as -> by (vm_compute in Ht; congruence).
    destruct (Hr "ask" (members (default JNull (om_get "ask" base_nodes))) ["done"]) as (node' & H1 & H2 & _); [by vm_compute..|].
    exists node'. split; [exact H1|exact H2].
Defined.

Definition no_analysis : PatchAnalysis := mkAnalysis false "" "" [] [] false false "" [].
Definition analysed (w : Workflow) (p : string) : PatchAnalysis := or_else (analyze_patch default_limits w p) no_analysis.
Definition findings : PatchAnalysis := Eval vm_compute in analysed base slower.
Lemma finds : analyze_patch default_limits base slower = Ok findings.
Proof. by vm_compute. Qed.
Lemma analysis_exact_witness :
  pa_directly_changed_nodes findings = ["ask"] /\ exists c, apply_patch default_limits base slower = Ok c
    /\ exists d, d ∈ pa_directly_changed_nodes findings /\ rtc (affects (source_of (wf_root c)) (w_nodes (wf_compiled c))) d "done".
Proof.
  split; [by vm_compute|].
  destruct (analysis_exact default_limits base slower findings finds) as (c & Hc & _ & Ha); [by vm_compute|].
  exists c. split; [exact Hc|]. apply Ha. vm_compute. by right; left.
Defined.

(** The inverse patch of [slower]. *)
Definition base_root : list (string * json) := Eval vm_compute in members (wf_root base).
Definition slow_root : list (string * json) := Eval vm_compute in members (wf_root slow).
Definition undoing : json := Eval vm_compute in
  or_else (proposed (wf_root base) (wf_root slow) (w_digest (wf_compiled slow))) JNull.
Definition undone_workflow : Workflow := Eval vm_compute in patched slow (pa_inverse_patch_json findings).
Definition slower_root : json := Eval vm_compute in or_else (patched_root base slower) JNull.
Lemma readable_ref v : text_okb 1000 v = true -> readable JsonRef.laws v.
Proof. exact (text_okb_ok 1000 v). Qed.
Lemma base_settled : settled JsonRef.laws default_limits base base_root base_nodes "ask".
Proof. split; [by vm_compute..|apply readable_ref; by vm_compute|by vm_compute]. Qed.
Lemma inverse_restores_witness :
  w_digest (wf_compiled slow) <> w_digest (wf_compiled base)
  /\ w_digest (wf_compiled undone_workflow) = w_digest (wf_compiled base).
Proof.
  split; [by vm_compute|].
  apply (inverse_restores JsonRef.laws default_limits base base_root base_nodes "ask" slower slower_root slow slow_root
           (members (default JNull (om_get "nodes" slow_root))) findings undoing undone_workflow).
  - exact base_settled.
  - by vm_compute.
  - apply readable_ref. by vm_compute.
  - exact slows.
  - by vm_compute.
  - by vm_compute.
  - apply readable_ref. by vm_compute.
  - by vm_compute.
  - exact finds.
  - by vm_compute.
  - by vm_compute.
  - apply readable_ref. by vm_compute.
  - by vm_compute.
Defined.

(** A patch that replaces the entry node by another. *)
Definition reentry : string := patch_of base [
  obj [("action", JString "add_node"); ("node_id", JString "first");
       ("node", obj [("type", JString "noop"); ("next", JString "done")])];
  obj [("action", JString "set_entry"); ("value", JString "first")];
  obj [("action", JString "remove_node"); ("node_id", JString "ask")]].

(** the inverse of an analysed patch is not always applicable.  For a patch that adds a
    node, makes it the entry and removes the old entry, the analysis is valid, but the
    candidate refuses the inverse patch: it sets the entry before the node it names is
    back. *)
Theorem inverse_entry_refused :
  pa_valid (analysed base reentry) = true
  /\ apply_patch default_limits (patched base reentry) (pa_inverse_patch_json (analysed base reentry))
     = Err (PatchValidationError "PATCH_ENTRY_NOT_FOUND" "/changes/0/value" "set_entry requires an existing node.").
Proof. split; by vm_compute. Qed.
