(* ===== verification/BundleCases.v ===== *)
(** * Bundles on concrete inputs

    The golden vector of testdata/golden (the canonical manifests, the signed text
    and the digest every platform must reproduce) and the cases at which the
    theorems about bundles and their resolution are applied. *)

From S2P Require Import Prelude Json Sha256 Reliability Resource Bundle CanonText BundleLaws Resolver ResolverLaws LockLaws Keys.
Import JsonText.
Open Scope string_scope.
Open Scope list_scope.
Open Scope Z_scope.

(** JSON written with single quotes. *)
Fixpoint quoted (s : string) : string :=
  match s with
  | EmptyString => EmptyString
  | String c s' => String (if Ascii.eqb c "'" then dquote else c) (quoted s')
  end.

Module Golden.
Definition manifest : string := quoted
  "{'workflows':{'main':'workflows/main.json'},'version':'1.2.3','signatures':[{'signature':'ribHBq80/3m16eT6p1YoOKaVhQ7dGRf//41xw9gr6wv2skhHiaEb/DDuVs7zpoqyvqmObN9EO/KqVkIOZ3jzCw==','key_id':'golden-ed25519','algorithm':'ed25519','signed_at':'2026-07-27T00:00:00Z'}],'id':'org.dage.golden','format_version':'0.2.0','format':'dage-bundle','dependencies':{},'config':{'unicode':'DAGE-中文','é':1,'中':2,'temperature':0.8,'negative_zero':-0.0,'escaped':'line\nquote\'slash\\','enabled':true}}".
Definition resources : list (string * string) :=
  [("workflows/main.json", quoted "{'nodes':{'z':{'type':'end','input':{'ok':true}}},'entry':'z','format_version':'0.2.0','format':'dage-workflow'}" +:+ nl);
   ("manifest.json", manifest);
   ("assets/prompt.txt", "DAGE golden payload" +:+ nl)].
Definition provider : ResourceProvider :=
  memory_provider (or_else (memory_resources resources) (mkMemoryResources [])).

(** Loading the golden bundle gives the texts and the digest the vector fixes. *)
Example golden_vector :
  match load_bundle_from_provider provider with
  | Ok b =>
    (bd_unsigned_manifest b, bd_signing_payload b, bd_digest b) =
    (quoted "{'config':{'enabled':true,'escaped':'line\nquote\'slash\\','negative_zero':0,'temperature':8.00000000000000044e-01,'unicode':'DAGE-中文','é':1,'中':2},'dependencies':{},'format':'dage-bundle','format_version':'0.2.0','id':'org.dage.golden','version':'1.2.3','workflows':{'main':'workflows/main.json'}}",
     "manifest.json" +:+ nl +:+ "sha256:837d4c599eb939d15ba3191f49c7d41b82e0a48c6877d1d4b22db36b64042f0e" +:+ nl
     +:+ "assets/prompt.txt" +:+ nl +:+ "sha256:84b93cca6a8d9391ef4d2860e2b0eb33a6dafd54b483dd04e782b70948991929" +:+ nl
     +:+ "workflows/main.json" +:+ nl +:+ "sha256:833b884daaac5337ea089ef7bd7cac41ddc6a0ebf679b08854750bcb502fbaeb" +:+ nl,
     "sha256:0cb55992cf28832224a05ec32a4cc01cb87d593bde399e14d50d231f2a9e522b")
  | Err _ => False
  end.
Proof. vm_compute. reflexivity. Qed.
End Golden.

(** ** Line breaks in names *)
Definition plain_manifest : string :=
  quoted "{'format':'dage-bundle','format_version':'0.2.0','id':'org.dage.plain','version':'1.0.0','workflows':{}}".
Definition with_resources (resources : list (string * string)) : ResourceProvider :=
  memory_provider (or_else (memory_resources (("manifest.json", plain_manifest) :: resources)) (mkMemoryResources [])).
Definition two_files : ResourceProvider := with_resources [("a", "first"); ("b", "second")].
Definition one_file : ResourceProvider :=
  with_resources [("a" +:+ nl +:+ sha256_digest "first" +:+ nl +:+ "b", "second")].

(** A resource whose name holds line breaks stands for two resources: the bundle with
    the files a and b and the bundle with that one file have the same signed text
    and digest, so a signature of one is a signature of the other. *)
Theorem payload_newline_collision :
  list_resources two_files <> list_resources one_file
  /\ is_ok (load_bundle_from_provider two_files) /\ is_ok (load_bundle_from_provider one_file)
  /\ bd_signing_payload <$> load_bundle_from_provider two_files = bd_signing_payload <$> load_bundle_from_provider one_file
  /\ bd_digest <$> load_bundle_from_provider two_files = bd_digest <$> load_bundle_from_provider one_file.
Proof.
  split; [by vm_compute|]. split; [by vm_compute|]. split; [by vm_compute|]. split; by vm_compute.
Qed.

(** ** Nulls in an overlay *)
Definition null_overlay : json := JObject [("a", JObject [("b", JNull)])].

(** With the default options a null inside an object the base lacks is kept, and
    merging the same overlay once more removes it: merging is not idempotent. *)
Theorem merge_keeps_nested_null :
  deep_merge_config (JObject []) null_overlay default_merge = Ok null_overlay
  /\ deep_merge_config null_overlay null_overlay default_merge = Ok (JObject [("a", JObject [])]).
Proof. split; by vm_compute. Qed.

(** ** Applying the theorems about bundles *)
Definition loaded_or (b : Bundle) (p : ResourceProvider) : Bundle := or_else (load_bundle_from_provider p) b.
Definition no_bundle : Bundle := mkBundle "" "" "" "" "" "" JNull [] [] [].
Lemma loads p : is_ok (load_bundle_from_provider p) = true -> load_bundle_from_provider p = Ok (loaded_or no_bundle p).
Proof. unfold loaded_or. by destruct (load_bundle_from_provider p). Qed.

Definition some_resources : MemoryResourceProvider := or_else (memory_resources Golden.resources) (mkMemoryResources []).
Lemma memory_provider_faithful_witness :
  read_resource (memory_provider some_resources) "assets/prompt.txt" = Ok ("DAGE golden payload" +:+ nl).
Proof.
  destruct (memory_provider_faithful Golden.resources some_resources) as (_ & _ & H); [by vm_compute|].
  apply H. by vm_compute.
Defined.

Lemma canonical_injective_witness :
  exists sk, shape (JObject [("a", JInt 1)]) = Ok sk /\ shape (JObject [("a", JUInt 1)]) = Ok sk.
Proof.
  apply (canonical_injective (JObject [("a", JInt 1)]) (JObject [("a", JUInt 1)])
    (or_else (canonical_json (JObject [("a", JInt 1)])) "")); by vm_compute.
Defined.

(** The golden bundle listed in the opposite order. *)
Definition reversed (p : ResourceProvider) : ResourceProvider :=
  mkResourceProvider (match list_resources p with Ok l => Ok (reverse l) | Err e => Err e end) (read_resource p).
Lemma load_order_irrelevant_witness :
  load_bundle_from_provider Golden.provider = load_bundle_from_provider (reversed Golden.provider).
Proof.
  apply (load_order_irrelevant _ _ ["assets/prompt.txt"; "manifest.json"; "workflows/main.json"]
           ["workflows/main.json"; "manifest.json"; "assets/prompt.txt"]); [by vm_compute..| |done].
  by apply (Permutation_rev ["assets/prompt.txt"; "manifest.json"; "workflows/main.json"]).
Defined.

(** The same resources in two providers. *)
Definition two_files_again : ResourceProvider := with_resources [("b", "second"); ("a", "first")].
Lemma payload_determines_witness :
  resource_paths ["a"; "b"; "manifest.json"] = resource_paths ["a"; "b"; "manifest.json"]
  /\ forall path, path ∈ resource_paths ["a"; "b"; "manifest.json"] ->
       sha256_digest (or_else (read_resource two_files path) "") = sha256_digest (or_else (read_resource two_files_again path) "").
Proof.
  apply (payload_determines two_files two_files_again (loaded_or no_bundle two_files) (loaded_or no_bundle two_files_again));
    [apply loads; by vm_compute..|by vm_compute|by vm_compute|by repeat constructor|by repeat constructor|by vm_compute].
Defined.

(** The plain manifest with and without a signature. *)
Definition plain_members : list (string * json) :=
  [("format", JString "dage-bundle"); ("format_version", JString "0.2.0"); ("id", JString "org.dage.plain");
   ("version", JString "1.0.0"); ("workflows", JObject [])].
Definition signed_members : list (string * json) :=
  om_set "signatures" (JArray [JObject [("algorithm", JString "ed25519"); ("key_id", JString "release");
    ("signature", JString "c2lnbmF0dXJl")]]) plain_members.
Definition with_manifest (m : list (string * json)) : ResourceProvider :=
  memory_provider (or_else (memory_resources [("manifest.json", print (JObject m)); ("a", "first")]) (mkMemoryResources [])).
Lemma identity_ignores_signatures_witness :
  bd_digest (loaded_or no_bundle (with_manifest plain_members)) = bd_digest (loaded_or no_bundle (with_manifest signed_members)).
Proof.
  apply (identity_ignores_signatures (with_manifest plain_members) (with_manifest signed_members) _ _ ["a"; "manifest.json"]
    (print (JObject plain_members)) (print (JObject signed_members)) plain_members signed_members);
    try (apply loads; by vm_compute); try by vm_compute.
  - intros path Hp. unfold with_manifest. cbn [memory_provider read_resource].
    unfold memory_read_resource. destruct (normalize_resource_path path) as [q|] eqn:E; [|done].
    apply normalize_Ok in E as [-> _]. cbn [memory_resources]. destruct (decide (path = "a")) as [->|Ha]; [by vm_compute|].
    rewrite !om_get_None; [done|..]; vm_compute; set_solver.
  - by apply keys_sorted_sound.
  - by apply keys_sorted_sound.
  - intros k Hk. unfold signed_members. by rewrite om_get_set_ne.
Defined.

Lemma merge_follows_overlay_witness :
  exists merged, merge_config_json default_merge (JObject [("a", JNull); ("b", JInt 2)]) (JObject [("a", JInt 1); ("c", JInt 3)]) 0
                 = Ok (JObject merged) /\ om_get "a" merged = None /\ om_get "b" merged = Some (JInt 2) /\ om_get "c" merged = Some (JInt 3).
Proof.
  destruct (merge_follows_overlay default_merge [("a", JNull); ("b", JInt 2)] [("a", JInt 1); ("c", JInt 3)] 0)
    as (merged & Hm & Hg); [by vm_compute|apply NoDup_cons; split; [set_solver|apply NoDup_singleton]|].
  exists merged. split; [done|]. exact (conj (Hg "a") (conj (Hg "b") (Hg "c"))).
Defined.

(** ** A repository

    The application depends on a library and on a tool, the library on the tool; the
    repository has two versions of the tool. *)
Module World.
(** Signatures for the cases: a text is its own decoding, and a signature is made
    with the key it begins with. *)
#[export] Instance plain_crypto : Crypto := {|
  evp_decode_block := Some;
  evp_verify_ed25519 := fun key signature _ => String.eqb (str_upto 32 signature) key
|}.
Definition key : string := "0123456789abcdef0123456789abcdef".
Definition bundle (id version dependencies : string) : ResourceProvider :=
  memory_provider (or_else (memory_resources
    [("main.json", quoted "{'nodes':{}}");
     ("manifest.json", quoted ("{'dependencies':{" +:+ dependencies +:+ "},'format':'dage-bundle','format_version':'0.2.0','id':'"
        +:+ id +:+ "','signatures':[{'algorithm':'ed25519','key_id':'release','signature':'" +:+ key +:+ key
        +:+ "'}],'version':'" +:+ version +:+ "','workflows':{'main':'main.json'}}"))]) (mkMemoryResources [])).
Definition app (version : string) : ResourceProvider := bundle "org.app" version "'org.lib':'^1.0.0','org.tool':'>=1.0.0 <2.0.0'".
Definition memory : MemoryBundleRepository :=
  mkMemoryRepository "memory"
    [("org.lib", [("1.4.0", bundle "org.lib" "1.4.0" "'org.tool':'^1.0.0'")]);
     ("org.tool", [("1.0.0", bundle "org.tool" "1.0.0" ""); ("1.2.0", bundle "org.tool" "1.2.0" "");
                   ("2.0.0", bundle "org.tool" "2.0.0" "")])].
Definition repository : BundleRepository := memory_repository memory.
Definition keyring : Keyring := mkKeyring [("release", mkKeyRecord "release" key ["org"] false)].
Definition policy : SignaturePolicy := mkSignaturePolicy AtLeastOne 1.
Definition development : BundleResolverOptions :=
  mkResolverOptions Development (Some repository) (Some (find_key keyring)) (Some allow_known_keys) "" policy.
Definition no_graph : ResolvedBundleGraph := mkGraph "" "" Development [] [].
Definition graph_of (r : partial ResolvedBundleGraph) : ResolvedBundleGraph :=
  match r with Some (Ok g) => g | _ => no_graph end.
Definition graph : ResolvedBundleGraph := Eval vm_compute in graph_of (resolve_unchecked development 9 (app "1.1.0")).
Lemma resolution_eq : resolve_unchecked development 9 (app "1.1.0") = Some (Ok graph).
Proof. vm_compute. reflexivity. Qed.

(** The tool and the library come before the application, and the tool in its
    highest compatible version. *)
Example graph_order : gr_order graph = ["org.tool"; "org.lib"; "org.app"]
  /\ bd_version <$> find_bundle graph "org.tool" = Some "1.2.0".
Proof. by vm_compute. Qed.

Lemma resolve_closed_witness : NoDup (gr_order graph) /\ last (gr_order graph) = Some "org.app".
Proof.
  destruct (resolve_closed development 9 (app "1.1.0") graph resolution_eq) as (_ & Hl & Hd & _). split; [exact Hd|exact Hl].
Defined.

Definition verified : BundleResolverOptions :=
  mkResolverOptions Verified (Some repository) (Some (find_key keyring)) (Some allow_known_keys) (gr_lock graph) policy.
Definition verified_graph : ResolvedBundleGraph := Eval vm_compute in graph_of (resolve_unchecked verified 9 (app "1.1.0")).
Lemma verified_eq : resolve_unchecked verified 9 (app "1.1.0") = Some (Ok verified_graph).
Proof. vm_compute. reflexivity. Qed.
Lemma resolve_authentic_witness :
  exists b, find_bundle verified_graph "org.lib" = Some b /\ authenticated verified b.
Proof.
  destruct (find_bundle verified_graph "org.lib") as [b|] eqn:E; [|by vm_compute in E]. exists b. split; [done|].
  destruct (resolve_authentic verified 9 (app "1.1.0") verified_graph verified_eq ltac:(done) "org.lib" b E) as [_ H].
  by apply H; [left|].
Defined.

Lemma resolve_terminates_witness : is_Some (resolve development 4 (app "1.1.0")).
Proof.
  apply (resolve_terminates development {["org.lib"; "org.tool"]}); [|by vm_compute].
  intros r id version offline [= <-] Hn. unfold repository, memory_repository. cbn [get_bundle]. unfold memory_get_bundle, memory.
  cbn [mb_bundles om_get]. destruct (String.eqb_spec id "org.lib") as [->|]; [set_solver|].
  destruct (String.eqb_spec id "org.tool") as [->|]; [set_solver|done].
Defined.

Lemma lock_reproduces_witness :
  resolve_unchecked (frozen development (gr_lock graph)) 9 (app "1.1.0")
  = Some (Ok (mkGraph "org.app" (gr_lock graph) Frozen (gr_bundles graph) (gr_order graph))).
Proof.
  apply (lock_reproduces development eq_refl 9 (app "1.1.0") graph
           (lock_document development (gr_root_id graph) (gr_bundles graph)) resolution_eq).
  - by vm_compute.
  - apply printableb_sound. by vm_compute.
  - by vm_compute.
  - intros id b Hb. assert (forallb (fun p => negb (str_empty (bd_version p.2))) (gr_bundles graph) = true) as Hv by by vm_compute.
    unfold find_bundle in Hb. clear -Hb Hv. induction (gr_bundles graph) as [|[k x] l IH]; [done|]. cbn [forallb om_get snd] in *.
    apply andb_prop in Hv as [Hx Hv]. destruct (String.eqb id k); [|by apply IH]. injection Hb as <-. by destruct (bd_version x).
Defined.

Definition older : ResolvedBundleGraph := Eval vm_compute in graph_of (resolve_unchecked development 9 (app "1.0.0")).
Definition plan : BundleRollbackPlan :=
  Eval vm_compute in match plan_rollback_to graph older with Some (Ok p) => p | _ => mkPlan "" "" "" "" "" "" Frozen false [] end.
Lemma rollback_plan_exact_witness : foldl apply_version_change (summary graph) (pl_changes plan) = summary older.
Proof.
  destruct (root_bundle graph) as [from|] eqn:Ef; [|by vm_compute in Ef]. destruct (root_bundle older) as [to|] eqn:Et; [|by vm_compute in Et].
  apply (rollback_plan_exact graph older plan from to); [by vm_compute|by apply keys_sorted_sound|by apply keys_sorted_sound|done..].
Defined.

Lemma keyring_roundtrip_witness : from_snapshot_json (or_else (snapshot_json keyring) "") = Ok keyring.
Proof.
  apply (keyring_roundtrip keyring); [|by apply printableb_sound; vm_compute|by vm_compute].
  split; [by apply keys_sorted_sound|]. intros id r. unfold keyring. cbn [kg_records om_get].
  destruct (String.eqb_spec id "release") as [->|]; [|done]. by intros [= <-].
Defined.
End World.
