(* ===== verification/ProviderCases.v ===== *)
(** * Resource providers on concrete inputs

    A stored archive as a packer writes it, with the checksum of RFC 1952 in the place
    of zlib's, and a directory that holds a bundle: the cases at which the theorems
    about the two providers are applied. *)

From S2P Require Import Prelude Json Sha256 Reliability Resource Bundle CanonText BundleLaws Resolver Zip Directory BundleCases.
Import JsonText.
Open Scope string_scope.
Open Scope list_scope.
Open Scope Z_scope.

(** ** An archive *)
Module Archive.
Definition crc_bit (crc : Z) : Z :=
  if Z.odd crc then Z.lxor 0xedb88320 (Z.shiftr crc 1) else Z.shiftr crc 1.
Definition crc_byte (crc byte : Z) : Z := Nat.iter 8 crc_bit (Z.lxor crc byte).
Definition crc (s : string) : Z := Z.lxor 0xffffffff (fold_left crc_byte (bytes_of s) 0xffffffff).
(** Only stored entries are read here. *)
#[export] Instance stored_only : Zlib := {
  zlib_init := false; zlib_inflate := fun _ _ => (false, EmptyString, 0); zlib_crc32 := crc
}.
Definition of_bytes (l : list Z) : string := fold_right (fun b s => String (chr b) s) EmptyString l.
Definition archive : string := of_bytes
  [80; 75; 3; 4; 20; 0; 0; 0; 0; 0; 0; 0; 33; 0; 232; 118; 113; 203; 4; 0; 0; 0; 4; 0; 0; 0; 3; 0; 0; 0; 97; 47; 98; 100;
   97; 103; 101; 80; 75; 1; 2; 20; 3; 20; 0; 0; 0; 0; 0; 0; 0; 33; 0; 232; 118; 113; 203; 4; 0; 0; 0; 4; 0; 0; 0; 3; 0; 0;
   0; 0; 0; 0; 0; 0; 0; 0; 0; 128; 1; 0; 0; 0; 0; 97; 47; 98; 80; 75; 5; 6; 0; 0; 0; 0; 1; 0; 1; 0; 49; 0; 0; 0; 37; 0;
   0; 0; 0; 0].
Definition provider : ZipResourceProvider :=
  mkZip archive default_zip_limits [("a/b", mkEntry 0 0 3413210856 4 4 0)].

Lemma zip_reads_inside_witness :
  str_len archive = 108
  /\ parse_zip archive default_zip_limits = Some (Ok provider)
  /\ zip_read_resource provider "a/b" = Some (Ok "dage")
  /\ exists r, parse_zip archive default_zip_limits = Some r
       /\ forall z path, r = Ok z -> is_Some (zip_read_resource z path).
Proof.
  split; [by vm_compute|]. split; [by vm_compute|]. split; [by vm_compute|]. apply zip_reads_inside. by vm_compute.
Defined.

Lemma zip_within_limits_witness :
  (forall name e, om_get name (zp_entries provider) = Some e -> within_limits default_zip_limits name e)
  /\ exists e, om_get "a/b" (zp_entries provider) = Some e /\ str_len "dage" = en_size e /\ zlib_crc32 "dage" = en_crc e.
Proof.
  destruct (zip_within_limits archive default_zip_limits provider) as (_ & _ & _ & Hl & Hr).
  - by vm_compute.
  - by vm_compute.
  - by vm_compute.
  - split; [exact Hl|]. apply Hr. by vm_compute.
Defined.
End Archive.

(** ** A directory *)
Module Tree.
#[export] Instance texts : FileTexts := { fs_what := fun operation => "filesystem error: " +:+ operation }.
Definition steady_file (content : string) : file :=
  Regular (mkObserved (str_len content) true content (str_len content)).
Definition root : list (string * file) :=
  [("workflows", Folder [("main.json", steady_file "{}"); ("lib", Folder [])]);
   ("manifest.json", steady_file plain_manifest); ("socket", Special)].
Definition directory : DirectoryResourceProvider := mkDirectory root default_resource_limits.

Lemma directory_refines_memory_witness :
  list_resources (directory_provider directory) = Ok ["manifest.json"; "workflows/main.json"]
  /\ is_ok (load_bundle_from_provider (directory_provider directory))
  /\ exists m, memory_resources (memory_image root) = Ok m
       /\ list_resources (memory_provider m) = Ok ["manifest.json"; "workflows/main.json"]
       /\ load_bundle_from_provider (directory_provider directory) = load_bundle_from_provider (memory_provider m).
Proof.
  split; [by vm_compute|]. split; [by vm_compute|].
  destruct (directory_refines_memory directory ["manifest.json"; "workflows/main.json"]) as (m & Em & El & _ & Eb).
  - repeat constructor; set_solver.
  - by vm_compute.
  - exists m. split; [exact Em|]. split; [exact El|]. apply Eb. by left.
Defined.
End Tree.
