(* ===== verification/StoreCases.v ===== *)
(** * The store on concrete inputs

    A disk on which every call succeeds and one on which the last one fails, the cases
    at which the theorems about the store are applied, and two ways of the cache to
    lose work. *)

From S2P Require Import Prelude Json Sha256 Reliability Resource Bundle CanonText BundleLaws Resolver ResolverLaws Zip Directory Disk Store StoreLaws BundleCases.
Import JsonText World.
Open Scope string_scope.
Open Scope list_scope.
Open Scope Z_scope.

#[export] Instance texts : FileTexts := { fs_what := fun operation => "filesystem error: " +:+ operation }.
(** Nobody else acts, nothing fails; a [write] takes at most 100 bytes. *)
Definition calm : nat -> Moment := fun _ => mkMoment id false 100 None.
Definition no_links : string -> option file := fun _ => None.
Definition disk (l : entries) : Disk := mkDisk l [] 0 1 true.

(** ** Documents *)
Definition lock_path : DocumentPath := mkDocument "deployment" "dage.lock".
Definition old_lock : Disk := disk [("dage.lock", stable "old")].
(** The call that synchronises the directory fails. *)
Definition unsynced : nat -> Moment := fun n => mkMoment id (n =? 13)%nat 100 None.
Lemma lockfile_atomic_witness :
  is_ok (write_lockfile_atomic calm 7 lock_path (gr_lock graph) default_atomic old_lock).1
  /\ Forall (fun l => om_get "dage.lock" l = Some (stable "old") \/ om_get "dage.lock" l = Some (stable (gr_lock graph)))
       (moments (write_lockfile_atomic unsynced 7 lock_path (gr_lock graph) default_atomic old_lock).2).
Proof.
  split; [by vm_compute|].
  destruct (lockfile_atomic unsynced 7 lock_path (gr_lock graph) default_atomic (Some (stable "old"))
    ltac:(done) ltac:(done) old_lock _ _ (surjective_pairing _)) as [H _]; [done|done|exact H].
Defined.

(** ** The cache *)
Definition cache : BundleCache := mkCache default_resource_limits.
Definition plain_bundle : ResourceProvider := with_resources [("docs/a", "first"); ("docs/b", "second")].
Definition plain_digest : string :=
  Eval vm_compute in match load_bundle_from_provider plain_bundle with Ok b => bd_digest b | Err _ => "" end.
Definition plain_hex : string := Eval vm_compute in str_from 7 plain_digest.

(** A staging directory is named after the digest and a counter that starts anew in
    every process: where another process (or one that crashed) is writing the same
    bundle under the same number, installing fails and removes what that process has
    written. *)
Theorem foreign_staging_removed :
  let foreign := "." +:+ plain_hex +:+ ".tmp-1" in
  let s := disk [(foreign, Folder [("manifest.json", stable "partly written")])] in
  install calm no_links cache plain_bundle s = (Err (tool_error "CACHE_INSTALL_FAILED" "cannot create temporary file"),
    (install calm no_links cache plain_bundle s).2)
  /\ om_get foreign (dk_entries (install calm no_links cache plain_bundle s).2) = None.
Proof. vm_compute. split; reflexivity. Qed.

(** ** Garbage collection *)
Definition hex_of (c : ascii) : string := Nat.iter 64 (String c) EmptyString.
Definition two_entries : Disk := disk [(hex_of "a", Folder [("x", stable "1234")]); (hex_of "b", Folder []); ("notes", Folder [])].
Lemma gc_exact_witness :
  (garbage_collect calm [digest_of (hex_of "b")] (mkGcOptions false 10) two_entries).1
    = Ok (mkGcResult [digest_of (hex_of "a")] [digest_of (hex_of "a")] 4)
  /\ Forall (fun l => om_get (hex_of "b") l = Some (Folder []))
       (moments (garbage_collect calm [digest_of (hex_of "b")] (mkGcOptions false 10) two_entries).2).
Proof.
  split; [by vm_compute|].
  destruct (gc_exact calm [digest_of (hex_of "b")] (mkGcOptions false 10) two_entries _ _ ltac:(done)
    ltac:(repeat constructor; vm_compute; set_solver) ltac:(done) ltac:(done) (surjective_pairing _)) as [H _].
  eapply Forall_impl; [exact H|]. intros l Hl. apply Hl. intros (_ & _ & Hn). apply Hn. by left.
Defined.

(** With more candidates than allowed, as many entries as allowed are removed before
    the limit is noticed; the failure does not say which. *)
Theorem gc_limit_after_removal :
  let r := garbage_collect calm [] (mkGcOptions false 1) two_entries in
  r.1 = Err (tool_error "GC_LIMIT_EXCEEDED" "cache GC candidate limit exceeded")
  /\ (dk_entries r.2).*1 = [hex_of "b"; "notes"].
Proof. vm_compute. split; reflexivity. Qed.

(** ** The production profile *)
Lemma production_profile_safe_witness :
  exists b, find_bundle verified_graph "org.lib" = Some b
    /\ (exists digests, lockfile_digests (gr_lock graph) = Ok digests /\ bd_digest b ∈ digests) /\ authenticated verified b.
Proof.
  destruct (find_bundle verified_graph "org.lib") as [b|] eqn:E; [|by vm_compute in E]. exists b. split; [done|].
  apply (production_profile_safe (gr_lock graph) repository (find_key keyring) allow_known_keys policy false verified 9
    (app "1.1.0") verified_graph) with (id := "org.lib"); [by vm_compute|by vm_compute|exact verified_eq|exact E].
Defined.
