(* ===== verification/Engine.v ===== *)
(** * The engine (src/dage.cpp: Engine::Impl, registration, load_workflow, create_run, and
    the exports of a workflow)

    What the engine holds and what a run takes of it when it is created.  Executors and
    services are host code: the model keeps which are registered, a function known by a
    number. *)

From S2P Require Import Prelude Json Expr Sha256 Ir Reliability Workflow Trace RunState Resource Bundle.
Open Scope string_scope.
Open Scope list_scope.
Open Scope Z_scope.

Record Engine := mkEngine {
  en_executors : list (string * Z); en_async_executors : list (string * Z);
  en_workflows : list (string * WorkflowIR); en_policy : option (string -> bool); en_events : bool;
  en_trace_sink : bool; en_lease_provider : bool; en_injector : bool; en_limits : WorkflowResourceLimits
}.
#[export] Instance eta_Engine : Settable Engine := fun e =>
  mkEngine (en_executors e) (en_async_executors e) (en_workflows e) (en_policy e) (en_events e) (en_trace_sink e)
    (en_lease_provider e) (en_injector e) (en_limits e).
Definition new_engine : Engine := mkEngine [] [] [] None false false false false default_limits.

Section Engine.
Context {J : JsonLib}.

(** ** Registration.  An empty function is [None]. *)
Definition register_executor (n : string) (executor : option Z) (e : Engine) : exc Engine :=
  match executor with
  | Some f => if negb (valid_id n) then Err (InvalidArgument "invalid executor")
              else Ok (e <| en_executors := om_set n f (en_executors e) |>)
  | None => Err (InvalidArgument "invalid executor")
  end.
Definition register_async_executor (n : string) (executor : option Z) (e : Engine) : exc Engine :=
  match executor with
  | Some f => if negb (valid_id n) then Err (InvalidArgument "invalid async executor")
              else Ok (e <| en_async_executors := om_set n f (en_async_executors e) |>
                         <| en_executors := om_del n (en_executors e) |>)
  | None => Err (InvalidArgument "invalid async executor")
  end.
Definition register_workflow (name text : string) (e : Engine) : exc Engine :=
  if negb (valid_id name) then Err (InvalidArgument "invalid workflow name") else
  w ← load (en_limits e) text;
  Ok (e <| en_workflows := om_set name (wf_compiled w) (en_workflows e) |>).
Definition set_executor_policy (p : option (string -> bool)) (e : Engine) : Engine := e <| en_policy := p |>.
Definition set_event_callback (given : bool) (e : Engine) : Engine := e <| en_events := given |>.
Definition set_trace_sink (given : bool) (e : Engine) : Engine := e <| en_trace_sink := given |>.
Definition set_resource_lease_provider (given : bool) (e : Engine) : Engine := e <| en_lease_provider := given |>.
Definition set_failure_injector (given : bool) (e : Engine) : Engine := e <| en_injector := given |>.
(** The scheduler and the store themselves are parameters of a run's model. *)
Definition set_scheduler (given : bool) (e : Engine) : exc Engine :=
  if negb given then Err (InvalidArgument "scheduler must not be null") else Ok e.
Definition set_state_store (given : bool) (e : Engine) : exc Engine :=
  if negb given then Err (InvalidArgument "state store must not be null") else Ok e.
Definition set_limits (limits : WorkflowResourceLimits) (e : Engine) : exc Engine :=
  limits ← set_workflow_resource_limits limits; Ok (e <| en_limits := limits |>).

(** ** Loading and creating *)
Definition load_workflow (e : Engine) (bundle : Bundle) (workflow_id : string) : exc Workflow :=
  match bundle_workflow_json bundle workflow_id with
  | Err x => Err (RuntimeError (err_code x +:+ ": " +:+ err_message x))
  | Ok text => w ← load (en_limits e) text; Ok (mkWf (wf_root w) (wf_compiled w) (bd_digest bundle))
  end.
(** What a run sees of the engine; the engine always has a state store. *)
Definition run_config (e : Engine) (w : Workflow) : RunConfig :=
  mkConfig (wf_compiled w) (en_executors e).*1 (en_async_executors e).*1 (en_workflows e) (en_policy e) (en_events e)
    (en_trace_sink e) (en_lease_provider e) true (en_injector e).
Definition create_run (w : Workflow) (options : RunOptions) : RunImpl := new_run (wf_compiled w) options (wf_bundle_digest w).

(** ** Exports *)
Definition cr : ascii := "013".
Definition lf : ascii := "010".
Fixpoint escape_mermaid (text : string) : string :=
  match text with
  | EmptyString => EmptyString
  | String c rest =>
    (if Ascii.eqb c dquote then "&quot;" else if Ascii.eqb c lf || Ascii.eqb c cr then " " else String c "")
    +:+ escape_mermaid rest
  end.
Fixpoint escape_dot (text : string) : string :=
  match text with
  | EmptyString => EmptyString
  | String c rest =>
    (if Ascii.eqb c dquote || Ascii.eqb c "\" then "\" else "")
    +:+ (if Ascii.eqb c lf || Ascii.eqb c cr then "\n" else String c "") +:+ escape_dot rest
  end.
Definition in_quotes (text : string) : string := String dquote (text +:+ String dquote "").

Definition label_of (name : string) (n : json) : exc string := x ← jget_or "name" (JString name) n; jl_as_string x.
Definition edge_target (e : json) : exc string := x ← jget "to" e; jl_as_string x.
(** The lines of a node, one text per line. *)
Fixpoint each {A} (f : A -> exc string) (l : list A) : exc (list string) :=
  match l with [] => Ok [] | x :: l => y ← f x; ys ← each f l; Ok (y :: ys) end.
Definition arrows (f : string -> string) (n : json) (field : string) : exc (list string) :=
  es ← edges_of n field; each (fun e => to ← edge_target e; Ok (f to)) es.
Definition mermaid_branches (name : string) (n : json) : exc (list string) :=
  type ← jget "type" n;
  type ← jl_as_string type;
  if negb (String.eqb type "parallel") then Ok [] else
  branches ← jget "branches" n;
  each (fun j => b ← jat j branches; b ← jl_as_string b; Ok ("  " +:+ name +:+ " --> " +:+ b +:+ nl)) (seq 0 (Z.to_nat (jsize branches))).
Definition mermaid_node (nodes : json) (name : string) : exc (list string) :=
  n ← jget name nodes;
  label ← label_of name n;
  next ← arrows (fun to => "  " +:+ name +:+ " --> " +:+ to +:+ nl) n "next";
  on_error ← arrows (fun to => "  " +:+ name +:+ " -.-> " +:+ to +:+ nl) n "on_error";
  branches ← mermaid_branches name n;
  Ok (("  " +:+ name +:+ "[" +:+ in_quotes (escape_mermaid label) +:+ "]" +:+ nl) :: next ++ on_error ++ branches).
Definition dot_node (nodes : json) (name : string) : exc (list string) :=
  n ← jget name nodes;
  label ← label_of name n;
  let arrow (style to : string) :=
    "  " +:+ in_quotes (escape_dot name) +:+ " -> " +:+ in_quotes (escape_dot to) +:+ style +:+ ";" +:+ nl in
  next ← arrows (arrow "") n "next";
  on_error ← arrows (arrow " [style=dashed]") n "on_error";
  Ok (("  " +:+ in_quotes (escape_dot name) +:+ " [label=" +:+ in_quotes (escape_dot label) +:+ "];" +:+ nl) :: next ++ on_error).
Fixpoint export_nodes (f : string -> exc (list string)) (names : list string) : exc (list string) :=
  match names with [] => Ok [] | name :: rest => l ← f name; ls ← export_nodes f rest; Ok (l ++ ls) end.
Definition export_with (f : json -> string -> exc (list string)) (w : Workflow) : exc (list string) :=
  nodes ← jget "nodes" (wf_root w); names ← jmembers nodes; export_nodes (f nodes) names.
Definition export_mermaid (w : Workflow) : exc string :=
  lines ← export_with mermaid_node w; Ok ("flowchart TD" +:+ nl +:+ String.concat "" lines).
Definition export_dot (w : Workflow) : exc string :=
  lines ← export_with dot_node w; Ok ("digraph DAGE {" +:+ nl +:+ String.concat "" lines +:+ "}" +:+ nl).
End Engine.

(** ** What is registered *)

(** An engine runs an executor of a name either way, asynchronously where both kinds
    are registered: [execute_node] looks for the asynchronous one first. *)
Definition runs_async (e : Engine) (n : string) : bool := om_mem n (en_async_executors e).
Definition runs_sync (e : Engine) (n : string) : bool := negb (runs_async e n) && om_mem n (en_executors e).

(** The last registration of a name decides, but for a synchronous executor registered
    where an asynchronous one is: that registration succeeds and has no effect. *)
Theorem registration_wins n f e e' :
  (register_async_executor n (Some f) e = Ok e' -> runs_async e' n = true)
  /\ (register_executor n (Some f) e = Ok e' -> runs_sync e' n = negb (runs_async e n) /\ runs_async e' n = runs_async e n).
Proof.
  unfold register_async_executor, register_executor, runs_sync, runs_async. destruct (valid_id n); [|done]. cbn [negb].
  split; intros [= <-]; cbn.
  - unfold om_mem. by rewrite om_get_set_eq.
  - unfold om_mem at 2. rewrite om_get_set_eq. by rewrite andb_true_r.
Qed.

(** ** Quoting

    How a reader of DOT finds the end of a quoted text: a backslash takes the next
    character with it.  Mermaid knows no such escape. *)
Fixpoint after_quoted (s : string) : option string :=
  match s with
  | EmptyString => None
  | String c rest =>
    if Ascii.eqb c dquote then Some rest
    else if Ascii.eqb c "\" then match rest with String _ rest => after_quoted rest | EmptyString => None end
    else after_quoted rest
  end.
Fixpoint until_quote (s : string) : option string :=
  match s with
  | EmptyString => None
  | String c rest => if Ascii.eqb c dquote then Some rest else until_quote rest
  end.

(** Whatever a node is called or labelled, its quoted text in an export ends where the
    exporter ends it: a label cannot close the quotes and add lines of its own. *)
Theorem exports_quoted text rest :
  after_quoted (escape_dot text +:+ String dquote rest) = Some rest
  /\ until_quote (escape_mermaid text +:+ String dquote rest) = Some rest.
Proof.
  split; induction text as [|c text IH]; try done; cbn [escape_dot escape_mermaid].
  - rewrite !str_app_assoc. destruct (Ascii.eqb_spec c dquote) as [->|Hd]; [exact IH|].
    destruct (Ascii.eqb_spec c "\") as [->|Hb]; [exact IH|]. cbn [orb].
    destruct (_ || _); [exact IH|]. cbn. apply Ascii.eqb_neq in Hd, Hb. rewrite Hd, Hb. exact IH.
  - rewrite str_app_assoc. destruct (Ascii.eqb_spec c dquote) as [->|Hd]; [exact IH|].
    destruct (_ || _); [exact IH|]. cbn. apply Ascii.eqb_neq in Hd. rewrite Hd. exact IH.
Qed.
