(* ===== verification/CSpi.v ===== *)
(** * Host callbacks behind the C interface (src/c_api.cpp)

    State stores, trace sinks, leases, resources, repositories, keys, trust policies
    and executors a host provides as C functions.  A callback returns a status, or
    throws, and fills a structure; what it fills is handed over to the library, which
    must call its [release].  Each adapter is a function of the callback's answer
    that gives what the library sees of it and the releases it calls, in order; a
    release is known by the userdata it is called with.  Sizes of structures are
    those of a 64-bit platform. *)

From S2P Require Import Prelude Json Sha256 Reliability Workflow Trace RunState Resource Bundle Resolver.
Open Scope string_scope.
Open Scope list_scope.
Open Scope Z_scope.

(** ** Status codes *)
Definition DAGE_STATUS_OK : Z := 0.
Definition DAGE_STATUS_INVALID_ARGUMENT : Z := 1.
Definition DAGE_STATUS_OUT_OF_MEMORY : Z := 2.
Definition DAGE_STATUS_PARSE_ERROR : Z := 3.
Definition DAGE_STATUS_VALIDATION_ERROR : Z := 4.
Definition DAGE_STATUS_EXECUTION_ERROR : Z := 5.
Definition DAGE_STATUS_CANCELLED : Z := 6.
Definition DAGE_STATUS_NOT_FOUND : Z := 7.
Definition DAGE_STATUS_BUFFER_TOO_SMALL : Z := 8.
Definition DAGE_STATUS_SUSPENDED : Z := 9.
Definition DAGE_STATUS_RESOURCE_EXHAUSTED : Z := 10.
Definition DAGE_STATUS_INTERNAL_ERROR : Z := 100.
Definition DAGE_STATUS_UNKNOWN_ERROR : Z := 101.

(** ** Memory

    A [const char*] with its size: null, or the bytes it points to. *)
Inductive chars := Null (size : Z) | Bytes (s : string).
Definition null_chars (c : chars) : bool := match c with Null size => negb (size =? 0) | Bytes _ => false end.
Definition text_of_chars (c : chars) : string := match c with Null _ => EmptyString | Bytes s => s end.
Definition chars_size (c : chars) : Z := match c with Null size => size | Bytes s => str_len s end.
Definition string_of (v : chars) : exc string :=
  if null_chars v then Err (InvalidArgument "null string data") else Ok (text_of_chars v).

Record dage_owned_buffer_t := mkOwned { bf_chars : chars; bf_release : option Z }.
Definition no_buffer : dage_owned_buffer_t := mkOwned (Null 0) None.
Definition releases (b : dage_owned_buffer_t) : list Z := match bf_release b with Some userdata => [userdata] | None => [] end.

(** What a callback answers: the status it returns or the exception that leaves it,
    and what it left in its output. *)
Record answer (A : Type) := mkAnswer { an_status : exc Z; an_out : A }.
Arguments mkAnswer {A}. Arguments an_status {A}. Arguments an_out {A}.
Definition safe_callback {A} (a : answer A) : Z :=
  match an_status a with Ok status => status | Err _ => DAGE_STATUS_UNKNOWN_ERROR end.
Definition succeeded {A} (a : answer A) : bool := safe_callback a =? DAGE_STATUS_OK.

Definition spi_error (status : Z) (operation : string) : Error :=
  mkError "c_spi" "CALLBACK_FAILED" (operation +:+ " callback failed with status " +:+ to_string status) false.
Definition invalid_answer (operation message : string) : Error :=
  (spi_error DAGE_STATUS_INVALID_ARGUMENT operation) <| err_message := message |>.

(** A status alone. *)
Definition c_status {A} (operation : string) (value : A) (a : answer unit) : Result A :=
  if succeeded a then Ok value else Err (spi_error (safe_callback a) operation).
(** A text in an owned buffer. *)
Definition c_text (operation : string) (a : answer dage_owned_buffer_t) : Result string :=
  if negb (succeeded a) then Err (spi_error (safe_callback a) operation)
  else if null_chars (bf_chars (an_out a)) then Err (invalid_answer operation "C SPI returned null owned buffer")
  else Ok (text_of_chars (bf_chars (an_out a))).

Section Adapters.
Context {J : JsonLib}.

(** A JSON array of strings in an owned buffer. *)
Fixpoint read_strings (item_message : string) (items : list json) : exc (list string) :=
  match items with
  | [] => Ok []
  | item :: rest =>
    if negb (is_string item) then Err (InvalidArgument item_message) else
    s ← jl_as_string item;
    rest ← read_strings item_message rest;
    Ok (s :: rest)
  end.
Definition parse_strings (null_message array_message item_message : string) (c : chars) : exc (list string) :=
  if null_chars c then Err (InvalidArgument null_message) else
  match jl_parse (text_of_chars c) with
  | Ok (JArray items) => read_strings item_message items
  | _ => Err (InvalidArgument array_message)
  end.
Definition c_strings (operation null_message array_message item_message : string) (a : answer dage_owned_buffer_t)
    : Result (list string) :=
  if negb (succeeded a) then Err (spi_error (safe_callback a) operation) else
  match parse_strings null_message array_message item_message (bf_chars (an_out a)) with
  | Ok l => Ok l
  | Err e => Err (invalid_answer operation (what e))
  end.

(** ** State stores *)
Record dage_state_record_t := mkCRecord {
  crc_version : Z; crc_epoch : Z; crc_owner : dage_owned_buffer_t; crc_checkpoint : dage_owned_buffer_t
}.
Definition c_record (operation : string) (a : answer dage_state_record_t) : Result StateRecord * list Z :=
  let out := an_out a in
  (if negb (succeeded a) then Err (spi_error (safe_callback a) operation)
   else if null_chars (bf_chars (crc_owner out)) || null_chars (bf_chars (crc_checkpoint out)) then
     Err (invalid_answer operation "C SPI returned null StateRecord buffer")
   else Ok (mkRecord (crc_version out) (crc_epoch out)
              (text_of_chars (bf_chars (crc_owner out))) (text_of_chars (bf_chars (crc_checkpoint out)))),
   releases (crc_owner out) ++ releases (crc_checkpoint out)).

(** [dage_state_store_vtable_t], over the state [H] of the host. *)
Record dage_state_store_vtable_t (H : Type) := mkStoreTable {
  vt_put : string -> string -> H -> answer unit * H;
  vt_get : string -> H -> answer dage_owned_buffer_t * H;
  vt_erase : string -> H -> answer unit * H;
  vt_load : string -> H -> answer dage_state_record_t * H;
  vt_compare_exchange : string -> Z -> string -> H -> answer Z * H;
  vt_claim : string -> Z -> string -> H -> answer dage_state_record_t * H;
  vt_list : string -> H -> answer dage_owned_buffer_t * H
}.
Arguments mkStoreTable {H}. Arguments vt_put {H}. Arguments vt_get {H}. Arguments vt_erase {H}. Arguments vt_load {H}.
Arguments vt_compare_exchange {H}. Arguments vt_claim {H}. Arguments vt_list {H}.

(** The host's state and the releases called so far. *)
Record CStateStore (H : Type) := mkCStore { cst_host : H; cst_released : list Z }.
Arguments mkCStore {H}. Arguments cst_host {H}. Arguments cst_released {H}.

Section Store.
Context {H : Type} (table : dage_state_store_vtable_t H).
Definition c_call {A R} (callback : H -> answer A * H) (read : answer A -> R * list Z) (s : CStateStore H)
    : R * CStateStore H :=
  let '(a, h) := callback (cst_host s) in
  let '(r, l) := read a in
  (r, mkCStore h (cst_released s ++ l)).
Definition no_release {A R} (f : answer A -> R) (a : answer A) : R * list Z := (f a, []).
Definition and_release {R} (f : answer dage_owned_buffer_t -> R) (a : answer dage_owned_buffer_t) : R * list Z :=
  (f a, releases (an_out a)).
Definition c_version (operation : string) (a : answer Z) : Result Z :=
  if succeeded a then Ok (an_out a) else Err (spi_error (safe_callback a) operation).
Definition c_run_ids : answer dage_owned_buffer_t -> Result (list string) :=
  c_strings "list" "C SPI returned null owned buffer" "StateStore list output must be a JSON array" "run id must be a string".
Definition c_state_store : StateStore (CStateStore H) := {|
  ss_put := fun id cp => c_call (vt_put table id cp) (no_release (c_status "put" true));
  ss_get := fun id => c_call (vt_get table id) (and_release (c_text "get"));
  ss_erase := fun id => c_call (vt_erase table id) (no_release (c_status "erase" true));
  ss_load := fun id => c_call (vt_load table id) (c_record "load");
  ss_compare_exchange := fun id expected cp =>
    c_call (vt_compare_exchange table id expected cp) (no_release (c_version "compare_exchange"));
  ss_claim := fun id expected owner => c_call (vt_claim table id expected owner) (c_record "claim");
  ss_list := fun prefix => c_call (vt_list table prefix) (and_release c_run_ids)
|}.
End Store.

(** ** Resources and repositories *)
Definition c_listed : answer dage_owned_buffer_t -> Result (list string) :=
  c_strings "resource_provider.list" "provider returned null list" "provider list must be a JSON array"
    "resource path must be a string".
Definition c_bytes (operation : string) (a : answer dage_owned_buffer_t) : Result string :=
  if negb (succeeded a) then Err (spi_error (safe_callback a) operation)
  else if null_chars (bf_chars (an_out a)) then Err (spi_error DAGE_STATUS_INVALID_ARGUMENT operation)
  else Ok (text_of_chars (bf_chars (an_out a))).
(** [dage_resource_provider_t]; a null function is [None]. *)
Record dage_resource_provider_t := mkCProvider {
  pv_struct_size : Z; pv_list : option (answer dage_owned_buffer_t);
  pv_read : option (string -> answer dage_owned_buffer_t); pv_release : option Z
}.
Definition resource_provider_prefix : Z := 40.
Definition call_of {A} (f : option A) (default : A) : A := match f with Some f => f | None => default end.
Definition c_resource_provider (p : dage_resource_provider_t) : ResourceProvider :=
  let absent := mkAnswer (Ok DAGE_STATUS_UNKNOWN_ERROR) no_buffer in
  mkResourceProvider (c_listed (call_of (pv_list p) absent))
    (fun path => c_bytes "resource_provider.read" (call_of (pv_read p) (fun _ => absent) path)).

Definition c_versions : answer dage_owned_buffer_t -> Result (list string) :=
  c_strings "repository.available_versions" "repository returned null versions" "versions must be a JSON array"
    "version must be a string".
(** What [get] makes of the provider filled in: the provider, which releases it when
    it is destroyed, or an error after releasing it. *)
Definition cleanup (p : dage_resource_provider_t) : list Z := match pv_release p with Some userdata => [userdata] | None => [] end.
Definition usable (p : dage_resource_provider_t) : bool :=
  (resource_provider_prefix <=? pv_struct_size p) && bool_decide (is_Some (pv_list p))
  && bool_decide (is_Some (pv_read p)) && bool_decide (is_Some (pv_release p)).
Definition c_get_provider (a : answer dage_resource_provider_t) : Result dage_resource_provider_t * list Z :=
  if negb (succeeded a) then (Err (spi_error (safe_callback a) "repository.get"), cleanup (an_out a))
  else if negb (usable (an_out a)) then (Err (spi_error DAGE_STATUS_INVALID_ARGUMENT "repository.get"), cleanup (an_out a))
  else (Ok (an_out a), []).
Definition destroy_provider (p : dage_resource_provider_t) (owns : bool) : list Z := if owns then cleanup p else [].
(** [source]: an exception where the callback fails. *)
Definition c_source (a : answer dage_owned_buffer_t) : exc string :=
  if negb (succeeded a) then Err (RuntimeError "REPOSITORY_SOURCE_FAILED")
  else if null_chars (bf_chars (an_out a)) then Err (RuntimeError "REPOSITORY_SOURCE_INVALID")
  else Ok (text_of_chars (bf_chars (an_out a))).

(** ** Keys and trust *)
Definition compact_json (value : json) : string := jl_write false value.
Definition signature_context_json (context : SignatureContext) : string :=
  compact_json (JObject
    [("algorithm", JString (sc_algorithm context)); ("bundle_digest", JString (sc_bundle_digest context));
     ("bundle_id", JString (sc_bundle_id context)); ("bundle_version", JString (sc_bundle_version context));
     ("key_id", JString (sc_key_id context)); ("signed_at", JString (sc_signed_at context))]).
Definition c_key (a : answer dage_owned_buffer_t) : Result string :=
  if negb (succeeded a) then Err (spi_error (safe_callback a) "key_provider.find_key") else
  match bf_chars (an_out a) with
  | Bytes key => if str_len key =? 32 then Ok key else Err (spi_error DAGE_STATUS_INVALID_ARGUMENT "key_provider.find_key")
  | Null _ => Err (spi_error DAGE_STATUS_INVALID_ARGUMENT "key_provider.find_key")
  end.
Definition c_key_provider (find_key : string -> string -> answer dage_owned_buffer_t) : KeyProvider :=
  fun id context => c_key (find_key id (signature_context_json context)).
Definition c_trust (a : answer Z) : Result bool :=
  if negb (succeeded a) then Err (spi_error (safe_callback a) "trust_policy.trust")
  else if 1 <? an_out a then Err (spi_error DAGE_STATUS_INVALID_ARGUMENT "trust_policy.trust")
  else Ok (negb (an_out a =? 0)).
Definition c_trust_policy (trust : string -> answer Z) : TrustPolicy :=
  fun context => c_trust (trust (signature_context_json context)).

(** ** Leases *)
Record dage_resource_lease_t := mkCLease {
  cl_struct_size : Z; cl_lease_id : dage_owned_buffer_t; cl_fencing_token : Z; cl_expires_at_unix_ms : Z;
  cl_renew : option (Z -> answer Z); cl_release : option Z
}.
#[export] Instance eta_dage_resource_lease_t : Settable dage_resource_lease_t := fun l =>
  mkCLease (cl_struct_size l) (cl_lease_id l) (cl_fencing_token l) (cl_expires_at_unix_ms l) (cl_renew l) (cl_release l).
Definition resource_lease_prefix : Z := 80.
Record CResourceLease := mkHeldLease { hl_lease : dage_resource_lease_t; hl_id : string }.
#[export] Instance eta_CResourceLease : Settable CResourceLease := fun l => mkHeldLease (hl_lease l) (hl_id l).
Definition release_lease (l : dage_resource_lease_t) : list Z := match cl_release l with Some userdata => [userdata] | None => [] end.
Definition release_both (l : dage_resource_lease_t) : list Z * list Z := (releases (cl_lease_id l), release_lease l).

(** The outcome of [acquire] with the buffers and the leases released on the way. *)
Definition lease_new (l : dage_resource_lease_t) : exc CResourceLease * (list Z * list Z) :=
  if null_chars (bf_chars (cl_lease_id l)) then (Err (InvalidArgument "lease id is null"), ([], []))
  else (Ok (mkHeldLease (l <| cl_lease_id := no_buffer |>) (text_of_chars (bf_chars (cl_lease_id l)))),
        (releases (cl_lease_id l), [])).
Definition c_acquire (a : answer dage_resource_lease_t) : exc (Result CResourceLease) * (list Z * list Z) :=
  let lease := an_out a in
  if negb (succeeded a) then (Ok (Err (spi_error (safe_callback a) "acquire")), release_both lease)
  else if (cl_struct_size lease <? resource_lease_prefix) || negb (bool_decide (is_Some (cl_release lease))) then
    (Ok (Err (spi_error DAGE_STATUS_INVALID_ARGUMENT "acquire")), release_both lease)
  else match lease_new lease with
       | (Ok held, released) => (Ok (Ok held), released)
       | (Err e, _) => (Err e, release_both lease)
       end.
Definition c_renew (ttl : Z) (l : CResourceLease) : Result Z * CResourceLease :=
  match cl_renew (hl_lease l) with
  | None => (Err (spi_error DAGE_STATUS_INVALID_ARGUMENT "renew"), l)
  | Some renew =>
    let a := renew ttl in
    if negb (succeeded a) then (Err (spi_error (safe_callback a) "renew"), l)
    else (Ok (an_out a), l <| hl_lease := (hl_lease l) <| cl_expires_at_unix_ms := an_out a |> |>)
  end.
Definition destroy_lease (l : CResourceLease) : list Z := release_lease (hl_lease l).

Definition request_json (r : ResourceRequest) : string :=
  compact_json (JObject
    [("deadline_remaining_ms", JUInt (q_deadline_remaining_ms r)); ("executor", JString (q_executor r));
     ("fairness_key", JString (q_fairness_key r)); ("lease_ttl_ms", JUInt (q_lease_ttl_ms r)); ("node_id", JString (q_node_id r));
     ("node_type", JString (q_node_type r)); ("priority", JInt (q_priority r));
     ("resources", JObject (prod_map id JUInt <$> q_resources r)); ("run_id", JString (q_run_id r)); ("units", JUInt (q_units r))]).

(** ** Executors *)
Definition parse_output (c : chars) : exc json := parse_json (text_of_chars c).
Definition invalid_json (message : string) : ExecutionResult := fail_result "invalid_output" "INVALID_JSON" message.
(** The synchronous executor: an exception of the callback passes on. *)
Definition c_execute (a : answer dage_owned_buffer_t) : exc ExecutionResult * list Z :=
  match an_status a with
  | Err e => (Err e, [])
  | Ok status =>
    if status =? DAGE_STATUS_SUSPENDED then (Ok (fail_result "suspended" "AWAITING_HUMAN" "Executor suspended the run."), [])
    else if negb (status =? DAGE_STATUS_OK) then
      (Ok (fail_result "tool_error" "CALLBACK_FAILED" "C executor callback failed."), [])
    else
      let out := bf_chars (an_out a) in
      (Ok (if null_chars out then fail_result "invalid_output" "NULL_OUTPUT" "Executor returned a null output buffer."
           else match parse_output out with
                | Ok v => ok_result v
                | Err _ => invalid_json "Executor output is not JSON."
                end), releases (an_out a))
  end.
(** The result a host completes an asynchronous executor with. *)
Definition owned_result (status : Z) (output : option dage_owned_buffer_t) : ExecutionResult * list Z :=
  (if negb (status =? DAGE_STATUS_OK) then
     fail_result (if status =? DAGE_STATUS_CANCELLED then "cancelled" else "tool_error")
       (if status =? DAGE_STATUS_CANCELLED then "ASYNC_CANCELLED" else "ASYNC_CALLBACK_FAILED") "Async C executor failed."
   else match output with
        | None => fail_result "invalid_output" "NULL_OUTPUT" "Async executor returned invalid output."
        | Some b =>
          if null_chars (bf_chars b) then fail_result "invalid_output" "NULL_OUTPUT" "Async executor returned invalid output."
          else match parse_output (bf_chars b) with
               | Ok v => ok_result v
               | Err _ => invalid_json "Async executor output is not JSON."
               end
        end,
   match output with Some b => releases b | None => [] end).
End Adapters.
Arguments mkStoreTable {H}. Arguments vt_put {H}. Arguments vt_get {H}. Arguments vt_erase {H}. Arguments vt_load {H}.
Arguments vt_compare_exchange {H}. Arguments vt_claim {H}. Arguments vt_list {H}.
Arguments mkCStore {H}. Arguments cst_host {H}. Arguments cst_released {H}.
