(* ===== verification/CSpiLaws.v ===== *)
(** * What holds of host callbacks

    Whatever a callback answers, what it handed over is released once; a state store
    whose callbacks implement a lawful store is lawful itself, so that the theorems
    about recovery hold of it; but no answer is understood as a record that is not
    there, so that no branch of a parallel node starts over such a store. *)

From S2P Require Import Prelude Json Sha256 Reliability Workflow Trace RunState RunStep Resource Bundle Resolver CSpi.
Open Scope string_scope.
Open Scope list_scope.
Open Scope Z_scope.

(** ** Releases *)
Section Releases.
Context {J : JsonLib}.

(** A call of a callback with its answer; [handed] is what it handed over, buffers and
    then leases or providers, and [released] what the library releases, to the end of
    the life of the lease or provider it may keep. *)
Inductive spi_call :=
| CallText (operation : string) (a : answer dage_owned_buffer_t)
| CallRunIds (a : answer dage_owned_buffer_t)
| CallRecord (operation : string) (a : answer dage_state_record_t)
| CallGetProvider (a : answer dage_resource_provider_t)
| CallAcquire (a : answer dage_resource_lease_t) (renewals : list Z)
| CallComplete (status : Z) (output : option dage_owned_buffer_t).

Fixpoint renew_all (ttls : list Z) (l : CResourceLease) : CResourceLease :=
  match ttls with [] => l | ttl :: rest => renew_all rest (c_renew ttl l).2 end.
Definition handed (c : spi_call) : list Z * list Z :=
  match c with
  | CallText _ a | CallRunIds a => (releases (an_out a), [])
  | CallRecord _ a => (releases (crc_owner (an_out a)) ++ releases (crc_checkpoint (an_out a)), [])
  | CallGetProvider a => ([], cleanup (an_out a))
  | CallAcquire a _ => (releases (cl_lease_id (an_out a)), release_lease (an_out a))
  | CallComplete _ output => (match output with Some b => releases b | None => [] end, [])
  end.
Definition released (c : spi_call) : list Z * list Z :=
  match c with
  | CallText operation a => ((and_release (c_text operation) a).2, [])
  | CallRunIds a => ((and_release c_run_ids a).2, [])
  | CallRecord operation a => ((c_record operation a).2, [])
  | CallGetProvider a =>
    match c_get_provider a with
    | (Ok p, l) => ([], l ++ destroy_provider p true)
    | (Err _, l) => ([], l)
    end
  | CallAcquire a ttls =>
    match c_acquire a with
    | (Ok (Ok held), (b, l)) => (b, l ++ destroy_lease (renew_all ttls held))
    | (_, (b, l)) => (b, l)
    end
  | CallComplete status output => ((owned_result status output).2, [])
  end.
Lemma renew_all_release ttls l : destroy_lease (renew_all ttls l) = destroy_lease l.
Proof.
  revert l. induction ttls as [|ttl ttls IH]; intros l; [done|]. cbn [renew_all]. rewrite IH. unfold c_renew.
  destruct (cl_renew (hl_lease l)) as [renew|]; [|done]. by destruct (negb (succeeded (renew ttl))).
Qed.

(** Whatever a callback answers, every buffer, provider and lease it handed over is
    released exactly once: at once where the answer is refused, and a lease however
    often it was renewed. *)
Theorem spi_released_once c : released c = handed c.
Proof.
  destruct c as [operation a|a|operation a|a|a ttls|status output]; cbn [released handed]; try done.
  - unfold c_get_provider. destruct (negb (succeeded a)); [done|]. by destruct (negb (usable (an_out a))).
  - unfold c_acquire. destruct (negb (succeeded a)); [done|]. destruct (_ || _); [done|].
    unfold lease_new. destruct (null_chars _); [done|]. by rewrite renew_all_release.
Qed.
End Releases.

(** ** State stores *)
Section Stores.
Context {J : JsonLib} {H : Type} `{StateStore H} (table : dage_state_store_vtable_t H).

(** The callbacks do what a store does: they succeed where it does and hand over its
    results in buffers that are not null. *)
Definition answers {A R} (read : answer A -> R -> Prop) (p : answer A * H) (q : Result R * H) : Prop :=
  p.2 = q.2 /\ match q.1 with Ok r => succeeded p.1 = true /\ read p.1 r | Err _ => succeeded p.1 = false end.
Definition holds_text (b : dage_owned_buffer_t) (text : string) : Prop :=
  null_chars (bf_chars b) = false /\ text_of_chars (bf_chars b) = text.
Definition holds_record (a : answer dage_state_record_t) (r : StateRecord) : Prop :=
  crc_version (an_out a) = sr_version r /\ crc_epoch (an_out a) = sr_epoch r
  /\ holds_text (crc_owner (an_out a)) (sr_owner r) /\ holds_text (crc_checkpoint (an_out a)) (sr_checkpoint r).
Record implements : Prop := mkImplements {
  im_put : forall id cp h, answers (fun _ _ => True) (vt_put table id cp h) (ss_put id cp h);
  im_get : forall id h, answers (fun a t => holds_text (an_out a) t) (vt_get table id h) (ss_get id h);
  im_erase : forall id h, answers (fun _ _ => True) (vt_erase table id h) (ss_erase id h);
  im_load : forall id h, answers holds_record (vt_load table id h) (ss_load id h);
  im_cas : forall id e cp h, answers (fun a v => an_out a = v) (vt_compare_exchange table id e cp h) (ss_compare_exchange id e cp h);
  im_claim : forall id e o h, answers holds_record (vt_claim table id e o h) (ss_claim id e o h)
}.
(** The list of runs is handed over as a JSON array, which must read as the list. *)
Definition lists (prefix : string) (h : H) : Prop :=
  answers (fun a l => parse_strings "" "" "" (bf_chars (an_out a)) = Ok l) (vt_list table prefix h) (ss_list prefix h).

(** The adapter's outcome follows the store's: the same value, or a failure of the
    callback; the host's state is the store's. *)
Definition follows {R} (p : Result R * CStateStore H) (q : Result R * H) : Prop :=
  cst_host p.2 = q.2 /\ match q.1 with
                        | Ok r => p.1 = Ok r
                        | Err _ => exists e, p.1 = Err e /\ err_code e = "CALLBACK_FAILED"
                        end.
Lemma c_call_follows {A R} (callback : H -> answer A * H) (read : answer A -> Result R * list Z) (good : answer A -> R -> Prop) q s :
  answers good (callback (cst_host s)) q ->
  (forall a r, succeeded a = true -> good a r -> (read a).1 = Ok r) ->
  (forall a, succeeded a = false -> exists e, (read a).1 = Err e /\ err_code e = "CALLBACK_FAILED") ->
  follows (c_call callback read s) q.
Proof.
  unfold answers, follows, c_call. destruct (callback (cst_host s)) as [a h]. cbn [fst snd]. intros [Hh Hq] Hok Herr.
  specialize (Hok a). specialize (Herr a). destruct (read a) as [r l]. cbn [fst snd cst_host] in *. split; [done|].
  destruct q.1 as [v|e]; [destruct Hq; by apply Hok|by apply Herr].
Qed.
Lemma read_strings_message m m' items l : read_strings m items = Ok l -> read_strings m' items = Ok l.
Proof.
  revert l. induction items as [|x items IH]; intros l E; [done|]. cbn [read_strings] in *. destruct (negb (is_string x)); [done|].
  apply bind_Ok in E as (v & -> & E). apply bind_Ok in E as (rest & Er & E). cbn. by rewrite (IH rest Er).
Qed.
Lemma parse_strings_message a b c a' b' c' t l : parse_strings a b c t = Ok l -> parse_strings a' b' c' t = Ok l.
Proof.
  unfold parse_strings. destruct (null_chars t); [done|]. destruct (jl_parse _) as [[]|]; try done. apply read_strings_message.
Qed.
Lemma c_record_good operation a r : succeeded a = true -> holds_record a r -> (c_record operation a).1 = Ok r.
Proof.
  intros Hs (Hv & He & (Ho1 & Ho2) & (Hc1 & Hc2)). unfold c_record. rewrite Hs, Ho1, Hc1. cbn. rewrite Hv, He, Ho2, Hc2. by destruct r.
Qed.

(** [put] and [erase] of the adapter report no more than success. *)
Definition done_ (q : Result bool * H) : Result bool * H := (match q.1 with Ok _ => Ok true | Err e => Err e end, q.2).

Lemma c_status_follows operation callback q s :
  answers (fun _ _ => True) (callback (cst_host s)) q ->
  follows (c_call callback (no_release (c_status operation true)) s) (done_ q).
Proof.
  intros [Hh Hq]. apply c_call_follows with (good := fun _ b => b = true).
  - split; [done|]. unfold done_. cbn. destruct q.1; [|done]. by destruct Hq.
  - intros a r Ha ->. unfold no_release, c_status. by rewrite Ha.
  - intros a Ha. unfold no_release, c_status. rewrite Ha. by eexists.
Qed.
Lemma c_record_follows operation callback q s :
  answers holds_record (callback (cst_host s)) q -> follows (c_call callback (c_record operation) s) q.
Proof.
  intros Hq. eapply c_call_follows; [exact Hq|apply c_record_good|].
  intros a Ha. unfold c_record. rewrite Ha. by eexists.
Qed.
Lemma c_version_follows operation callback q s :
  answers (fun a v => an_out a = v) (callback (cst_host s)) q -> follows (c_call callback (no_release (c_version operation)) s) q.
Proof.
  intros Hq. eapply c_call_follows; [exact Hq| |].
  - intros a r Ha <-. unfold no_release, c_version. by rewrite Ha.
  - intros a Ha. unfold no_release, c_version. rewrite Ha. by eexists.
Qed.
Lemma c_cas_follows id e cp s : implements ->
  follows (ss_compare_exchange (StateStore := c_state_store table) id e cp s) (ss_compare_exchange id e cp (cst_host s)).
Proof. intros Hi. apply c_version_follows, Hi. Qed.

(** C13: A state store of a host whose callbacks implement a store refines that store: each
    operation succeeds exactly if the store's does, with the same value, leaves the
    host's state as the store leaves it, and fails as a failed callback. *)
Theorem c_store_refines id e cp owner prefix s : implements -> lists prefix (cst_host s) ->
  let C := c_state_store table in let h := cst_host s in
  follows (ss_put (StateStore := C) id cp s) (done_ (ss_put id cp h))
  /\ follows (ss_get (StateStore := C) id s) (ss_get id h)
  /\ follows (ss_erase (StateStore := C) id s) (done_ (ss_erase id h))
  /\ follows (ss_load (StateStore := C) id s) (ss_load id h)
  /\ follows (ss_compare_exchange (StateStore := C) id e cp s) (ss_compare_exchange id e cp h)
  /\ follows (ss_claim (StateStore := C) id e owner s) (ss_claim id e owner h)
  /\ follows (ss_list (StateStore := C) prefix s) (ss_list prefix h).
Proof.
  intros Hi Hl C h. split_and!.
  - apply c_status_follows, Hi.
  - eapply c_call_follows; [apply Hi| |].
    + intros a r Ha [Hn <-]. unfold and_release, c_text. by rewrite Ha, Hn.
    + intros a Ha. unfold and_release, c_text. rewrite Ha. by eexists.
  - apply c_status_follows, Hi.
  - apply c_record_follows, Hi.
  - by apply c_cas_follows.
  - apply c_record_follows, Hi.
  - eapply c_call_follows; [exact Hl| |].
    + intros a r Ha Hr. unfold and_release, c_run_ids, c_strings. rewrite Ha. cbn [negb fst].
      erewrite parse_strings_message; [done|exact Hr].
    + intros a Ha. unfold and_release, c_run_ids, c_strings. rewrite Ha. by eexists.
Qed.
End Stores.

(** The laws of stores pass from the host's store to the adapter. *)
Section Laws.
Context {J : JsonLib} {H : Type} `{StateStoreLaws H} (table : dage_state_store_vtable_t H) (Hi : implements table).
Lemma follows_inv {R} (p : Result R * CStateStore H) (q : Result R * H) r s : follows p q -> p = (r, s) ->
  match r with
  | Ok v => q = (Ok v, cst_host s)
  | Err e => err_code e = "CALLBACK_FAILED" /\ exists e', q = (Err e', cst_host s)
  end.
Proof.
  intros [Hh Hq] ->. destruct q as [[v|e] h]; cbn [fst snd] in *; subst; [done|].
  destruct Hq as (e' & -> & Hc). split; [done|by eexists].
Qed.
Definition c_store_laws : @StateStoreLaws (CStateStore H) (c_state_store table).
Proof.
  refine {| ss_content := fun s : CStateStore H => ss_content (cst_host s) |}.
  - intros id e cp s v s' Hcp E. apply (follows_inv _ _ _ _ (c_cas_follows _ id e cp s Hi)) in E. by apply ss_cas_ok.
  - intros id e cp s err s' Hcp E. apply (follows_inv _ _ _ _ (c_cas_follows _ id e cp s Hi)) in E as [-> [e' E]].
    apply ss_cas_err in E as [E|[_ E]]; [by left|by right|done].
  - intros id e o s r s' E. apply (follows_inv _ _ _ _ (c_record_follows _ _ _ s (im_claim _ Hi id e o (cst_host s)))) in E.
    by apply ss_claim_ok in E.
  - intros id e o s err s' E.
    apply (follows_inv _ _ _ _ (c_record_follows _ _ _ s (im_claim _ Hi id e o (cst_host s)))) in E as [-> [e' E]].
    apply ss_claim_err in E as [E|[_ E]]; [by left|by right].
  - intros id id' e cp o s Hne. destruct (c_cas_follows _ id e cp s Hi) as [-> _].
    destruct (c_record_follows "claim" _ _ s (im_claim _ Hi id e o (cst_host s))) as [E _].
    split; [by apply ss_frame|]. cbn [ss_claim c_state_store]. rewrite E. by apply (ss_frame id id' e cp).
  - intros id s r s' E. apply (follows_inv _ _ _ _ (c_record_follows _ _ _ s (im_load _ Hi id (cst_host s)))) in E.
    by apply ss_load_ok in E.
  - intros id s e s' E. apply (follows_inv _ _ _ _ (c_record_follows _ _ _ s (im_load _ Hi id (cst_host s)))) in E as [-> _].
    done.
Defined.
End Laws.

(** ** Branches of a parallel node *)
Section Branches.
Context {J : JsonLib} {H W : Type} (table : dage_state_store_vtable_t H) (cfg : RunConfig) (host : Host W).
#[local] Existing Instance c_state_store.
Abbreviation C := (CStateStore H).

(** An action that only fails, with no call of the host on the way. *)
Definition same_log (s s' : machine C W) : Prop := m_log s' = m_log s.
#[local] Instance same_log_preorder : PreOrder same_log.
Proof. split; [done|]. intros x y z E1 E2. unfold same_log in *. congruence. Qed.
Definition aborts {A} (m : act exit (machine C W) A) : Prop :=
  forall s, exists e s', m s = (Err e, s') /\ m_log s' = m_log s.
Lemma aborts_first {A B} (m : act exit (machine C W) A) (f : A -> act exit (machine C W) B) : aborts m -> aborts (m ≫= f).
Proof. intros Hm s. destruct (Hm s) as (e & s' & E & Hl). exists e, s'. unfold mbind, act_bind. by rewrite E. Qed.
Lemma aborts_bind {A B} (m : act exit (machine C W) A) (f : A -> act exit (machine C W) B) :
  keeps same_log m -> (forall a, aborts (f a)) -> aborts (m ≫= f).
Proof.
  intros Hm Hf s. specialize (Hm s). unfold mbind, act_bind. destruct (m s) as [[a|e] s'].
  - destruct (Hf a s') as (e & s'' & E & Hl). exists e, s''. split; [done|]. unfold same_log in Hm. congruence.
  - exists e, s'. split; [done|]. by apply Hm.
Qed.
Lemma load_reports id s : succeeded (vt_load table id (cst_host s)).1 = false ->
  exists e s', store_load (H := c_state_store table) id s = (Err e, s') /\ err_code e = "CALLBACK_FAILED".
Proof.
  intros E. unfold store_load. cbn [ss_load c_state_store]. unfold c_call, c_record.
  destruct (vt_load table id (cst_host s)) as [a h]. cbn [fst] in E. rewrite E. by do 2 eexists.
Qed.

(** Over a state store of a host no branch of a parallel node starts unless the host
    has a record for it: where its [load] fails, with "not found" as with any other
    status, the launch ends the step with an error and calls no child. *)
Theorem c_store_strands current branch s :
  c_store cfg = true -> (forall id h, succeeded (vt_load table id h).1 = false) ->
  exists e s', launch_branch (H := c_state_store table) cfg host current branch s = (Err e, s') /\ m_log s' = m_log s.
Proof.
  intros Hst Hl. revert s. change (aborts (launch_branch (H := c_state_store table) cfg host current branch)). unfold launch_branch.
  do 6 (apply aborts_bind; [unfold mod_par, mod_state, mod_json, get_par, run_get, run_mod, try_; solve_keeps; by apply keeps_modify|intros ?]). apply aborts_first. rewrite Hst.
  intros s. destruct (load_reports a4 (m_store s) (Hl _ _)) as (e & s' & E & Hc).
  unfold mbind, act_bind. cbn [get_state]. rewrite E. cbn [put_store modify]. rewrite Hc. by do 2 eexists.
Qed.
End Branches.
