(* ===== verification/CConvert.v ===== *)
(** * Documents of the C interface (src/c_api.cpp)

    Diagnostics, results, events and evaluation samples as the JSON texts that cross
    the C interface, and the readers of those a host hands back: a trace to replay,
    samples to compare. *)

From S2P Require Import Prelude Json Sha256 Ir Reliability Workflow Trace RunState Restore Replay Resource Bundle Resolver CSpi.
Open Scope string_scope.
Open Scope list_scope.
Open Scope Z_scope.

Section Convert.
Context {J : JsonLib}.

Definition severity_name (s : Severity) : string :=
  match s with SevError => "error" | SevWarning => "warning" | SevInfo => "info" end.
Definition diagnostic_json (d : Diagnostic) : json := obj [
  ("severity", JString (severity_name (d_severity d))); ("code", JString (d_code d)); ("path", JString (d_path d));
  ("message", JString (d_message d)); ("suggestion", JString (d_suggestion d))].
Definition diagnostics_json (diagnostics : list Diagnostic) : json := JArray (diagnostic_json <$> diagnostics).
Definition strings_json (values : list string) : json := JArray (JString <$> values).

(** ** Results *)
Definition error_json (e : ExecutionError) : json := obj [
  ("category", JString (xe_category e)); ("code", JString (xe_code e)); ("message", JString (xe_message e));
  ("node_id", JString (xe_node_id e)); ("attempt", JUInt (xe_attempt e)); ("retryable", JBool (xe_retryable e))].
Definition execution_result_json (r : ExecutionResult) : json :=
  if xr_success r then
    obj [("success", JBool true);
         ("output", match jl_parse (write_json (xr_output r) false) with Ok v => v | Err _ => JNull end)]
  else obj [("success", JBool false); ("error", error_json (xr_error r))].
Definition parse_execution_result (value : json) : exc ExecutionResult :=
  if negb (is_object value) then Err (InvalidArgument "sample result is invalid") else
  success ← jget "success" value;
  match success with
  | JBool true =>
    has ← jmember "output" value;
    if negb has then Err (InvalidArgument "successful sample has no output") else
    output ← jget "output" value;
    output ← parse_json (compact_json output);
    Ok (ok_result output)
  | JBool false =>
    error ← jget "error" value;
    if negb (is_object error) then Err (InvalidArgument "failed sample has no error") else
    category ← get_string "category" "execution_error" error;
    code ← get_string "code" "FAILED" error;
    message ← get_string "message" "Execution failed." error;
    retryable ← get_bool "retryable" false error;
    node_id ← get_string "node_id" "" error;
    attempt ← get_uint "attempt" 0 error;
    Ok (mkResult false JNull (mkExecError category code message node_id attempt retryable JNull))
  | _ => Err (InvalidArgument "sample result is invalid")
  end.

(** ** Events *)
Definition event_members (e : EventEnvelope) : list (string * json) := [
  ("schema_version", JUInt (ev_schema_version e)); ("sequence", JUInt (ev_sequence e));
  ("timestamp_unix_ms", JUInt (ev_timestamp_unix_ms e)); ("elapsed_ms", JUInt (ev_elapsed_ms e));
  ("attempt", JUInt (ev_attempt e)); ("event", JString (ev_event e)); ("run_id", JString (ev_run_id e));
  ("invocation_id", JString (ev_invocation_id e)); ("workflow_digest", JString (ev_workflow_digest e));
  ("bundle_digest", JString (ev_bundle_digest e)); ("node_id", JString (ev_node_id e));
  ("node_type", JString (ev_node_type e)); ("executor", JString (ev_executor e));
  ("category", JString (ev_category e)); ("code", JString (ev_code e)); ("trace_id", JString (ev_trace_id e));
  ("span_id", JString (ev_span_id e)); ("parent_span_id", JString (ev_parent_span_id e));
  ("causation_id", JString (ev_causation_id e))].
Definition event_json (e : EventEnvelope) : json := obj (event_members e ++ [("payload_json", JString (ev_payload_json e))]).
(** What a trace sink of the host is given: the payload as a value. *)
Definition sink_payload (e : EventEnvelope) : json :=
  let payload_text := if str_empty (ev_payload_json e) then "{}" else ev_payload_json e in
  match jl_parse payload_text with Ok v => v | Err _ => JObject [] end.
Definition sink_json (e : EventEnvelope) : json := obj (event_members e ++ [("payload", sink_payload e)]).
Definition c_emit (e : EventEnvelope) : string := compact_json (sink_json e).

Definition parse_payload (value : json) : exc string :=
  payload ← jget "payload_json" value;
  match payload with
  | JString s => Ok s
  | _ =>
    has ← jmember "payload" value;
    payload ← (if has : bool then jget "payload" value else Ok (JObject []));
    Ok (compact_json payload)
  end.
Definition parse_event (value : json) : exc EventEnvelope :=
  if negb (is_object value) then Err (InvalidArgument "trace event is invalid") else
  event ← jget "event" value;
  if negb (is_string event) then Err (InvalidArgument "trace event is invalid") else
  schema_version ← get_uint "schema_version" 1 value;
  sequence ← get_uint64 "sequence" 0 value;
  timestamp_unix_ms ← get_uint64 "timestamp_unix_ms" 0 value;
  elapsed_ms ← get_uint64 "elapsed_ms" 0 value;
  attempt ← get_uint "attempt" 0 value;
  event ← jl_as_string event;
  run_id ← get_string "run_id" "" value;
  invocation_id ← get_string "invocation_id" "" value;
  workflow_digest ← get_string "workflow_digest" "" value;
  bundle_digest ← get_string "bundle_digest" "" value;
  node_id ← get_string "node_id" "" value;
  node_type ← get_string "node_type" "" value;
  executor ← get_string "executor" "" value;
  category ← get_string "category" "" value;
  code ← get_string "code" "" value;
  trace_id ← get_string "trace_id" "" value;
  span_id ← get_string "span_id" "" value;
  parent_span_id ← get_string "parent_span_id" "" value;
  causation_id ← get_string "causation_id" "" value;
  payload_json ← parse_payload value;
  Ok (mkEnvelope schema_version sequence timestamp_unix_ms elapsed_ms attempt event run_id invocation_id workflow_digest
        bundle_digest node_id node_type executor category code payload_json trace_id span_id parent_span_id causation_id).
Fixpoint parse_items (items : list json) : exc (list EventEnvelope) :=
  match items with
  | [] => Ok []
  | item :: rest => e ← parse_event item; rest ← parse_items rest; Ok (e :: rest)
  end.
Definition parse_events (value : json) : exc (list EventEnvelope) :=
  match value with
  | JArray items => parse_items items
  | _ => Err (InvalidArgument "trace must be a JSON array")
  end.

(** ** Samples *)
Definition parse_sample (text : string) : exc EvaluationSample :=
  match jl_parse text with
  | Ok (JObject m) =>
    let value := JObject m in
    label ← get_string "label" "" value;
    workflow_digest ← get_string "workflow_digest" "" value;
    result ← jget "result" value;
    result ← parse_execution_result result;
    trace ← jget "trace" value;
    trace ← parse_events trace;
    Ok (mkSample label workflow_digest result trace)
  | _ => Err (InvalidArgument "evaluation sample is invalid JSON")
  end.
Definition sample_value (s : EvaluationSample) : json := obj [
  ("label", JString (sm_label s)); ("workflow_digest", JString (sm_workflow_digest s));
  ("result", execution_result_json (sm_result s)); ("trace", JArray (event_json <$> sm_trace s))].
Definition sample_json (s : EvaluationSample) : string := compact_json (sample_value s).
End Convert.

(** ** Round trips *)
Section RoundTrip.
Context {J : JsonLib} {L : JsonLaws J}.

(** The numbers of an event fit their C++ types. *)
Record event_ok (e : EventEnvelope) : Prop := mkEventOk {
  eo_schema : 0 <= ev_schema_version e <= u32_max; eo_attempt : 0 <= ev_attempt e <= u32_max;
  eo_sequence : is_u64 (ev_sequence e); eo_timestamp : is_u64 (ev_timestamp_unix_ms e); eo_elapsed : is_u64 (ev_elapsed_ms e)
}.
Lemma event_member e k extra x : om_get k (event_members e) = Some x -> NoDup (event_members e ++ [extra]).*1 ->
  member k (obj (event_members e ++ [extra])) = Some x.
Proof.
  intros Hk Hn. rewrite member_obj by done. revert Hk. clear Hn.
  induction (event_members e) as [|[k' y] l IH]; [done|]. cbn [app om_get]. by destruct (String.eqb k k').
Qed.
Lemma parse_event_ok e key x p : event_ok e -> NoDup (event_members e ++ [(key, x)]).*1 ->
  parse_payload (canon (obj (event_members e ++ [(key, x)]))) = Ok p ->
  parse_event (canon (obj (event_members e ++ [(key, x)]))) = Ok (e <| ev_payload_json := p |>).
Proof.
  intros [] Hn Hp. unfold parse_event. pose proof (fun k y Hk => event_member e k (key, x) y Hk Hn) as Hm.
  change (is_object (canon (obj (event_members e ++ [(key, x)])))) with true. cbn [negb].
  erewrite jget_canon by (by apply Hm). cbn [canon is_string negb mbind res_bind].
  erewrite get_uint_canon, !get_uint64_canon, get_uint_canon by (done || by apply Hm). cbn [mbind res_bind].
  rewrite jl_as_string_string. erewrite !get_string_canon by (by apply Hm). cbn [mbind res_bind]. rewrite Hp. by destruct e.
Qed.

(** What is read back of a printed value prints and reads as itself. *)
Lemma canon_idem v : canon (canon v) = canon v.
Proof.
  induction v as [|z|z|x|s|b|l IH|m IH] using json_rect'; try done; cbn [canon].
  - destruct (z <? 2 ^ 63) eqn:E; cbn [canon]; by rewrite ?E.
  - f_equal. rewrite <- list_fmap_compose. apply Forall_fmap_ext; exact IH.
  - f_equal. rewrite <- list_fmap_compose. apply Forall_fmap_ext. eapply Forall_impl; [exact IH|]. intros [k v] E. cbn in *. by rewrite E.
Qed.
#[local] Transparent text_ok.
#[local] Arguments text_ok _ _ !_ _.
Lemma text_ok_canon d v : text_ok jl_str_ok jl_real_ok d v -> text_ok jl_str_ok jl_real_ok d (canon v).
Proof.
  revert v. induction d as [|d IH]; intros v; [done|]. destruct v as [|z|z|x|s|b|l|m]; try done; cbn [text_ok canon].
  - intros Hz. destruct (Z.ltb_spec z (2 ^ 63)); cbn [text_ok]; lia.
  - intros Hl. apply Forall_fmap. eapply Forall_impl; [exact Hl|]. intros v. apply IH.
  - intros [Hs Hm]. split; [by apply sorted_map|]. apply Forall_fmap. eapply Forall_impl; [exact Hm|].
    intros [k v] [Hk Hv]. split; [done|by apply IH].
Qed.
#[local] Opaque text_ok.

Abbreviation readable := (text_ok jl_str_ok jl_real_ok 1000).

(** An event written and read back. *)
Lemma event_read_back e : event_ok e -> parse_event (canon (event_json e)) = Ok e.
Proof.
  intros He. unfold event_json. rewrite (parse_event_ok e _ _ (ev_payload_json e)); [by destruct e|done| |].
  - by apply (bool_decide_unpack _).
  - unfold parse_payload. rewrite (jget_canon "payload_json" _ (JString (ev_payload_json e))); [done|].
    by rewrite member_obj by (by apply (bool_decide_unpack _)).
Qed.
Definition with_payload (e : EventEnvelope) : EventEnvelope := e <| ev_payload_json := compact_json (canon (sink_payload e)) |>.
Lemma sink_read_back e : event_ok e -> parse_event (canon (sink_json e)) = Ok (with_payload e).
Proof.
  intros He. unfold sink_json. apply parse_event_ok; [done| |].
  - by apply (bool_decide_unpack _).
  - unfold parse_payload, obj. cbn [canon jget]. rewrite om_get_canon. cbn. done.
Qed.
Lemma parse_items_ok {A} (f : A -> json) (g : A -> EventEnvelope) l :
  Forall (fun x => parse_event (f x) = Ok (g x)) l -> parse_items (f <$> l) = Ok (g <$> l).
Proof. induction 1 as [|x l Hx _ IH]; [done|]. cbn. rewrite Hx. cbn. by rewrite IH. Qed.

(** What a result is read back as: without the details of an error, which are not
    written, and with the numbers of the output as the parser takes them. *)
Definition read_result (r : ExecutionResult) : ExecutionResult :=
  if xr_success r then ok_result (canon (xr_output r))
  else mkResult false JNull ((xr_error r) <| xe_details := JNull |>).
Definition result_ok (r : ExecutionResult) : Prop :=
  if xr_success r then readable (xr_output r) /\ str_len (compact_json (canon (xr_output r))) <= 16 * 1024 * 1024
  else 0 <= xe_attempt (xr_error r) <= u32_max.
Lemma result_read_back r : result_ok r -> parse_execution_result (canon (execution_result_json r)) = Ok (read_result r).
Proof.
  unfold result_ok, execution_result_json, read_result, parse_execution_result. destruct (xr_success r).
  - intros [Hr Hs]. unfold write_json. rewrite jl_parse_write by done.
    set (x := canon (xr_output r)) in *. set (v := obj [("success", JBool true); ("output", x)]).
    change (is_object (canon v)) with true. change (jget "success" (canon v)) with (Ok (E := exn) (JBool true)).
    change (jmember "output" (canon v)) with (Ok (E := exn) true). cbn [negb mbind res_bind].
    rewrite (jget_canon "output" v x) by done. cbn [mbind res_bind]. unfold parse_json. subst x. rewrite canon_idem. destruct (Z.ltb_spec (16 * 1024 * 1024) (str_len (compact_json (canon (xr_output r))))); [lia|].
    unfold compact_json. rewrite jl_parse_write by by apply text_ok_canon. by rewrite canon_idem.
  - intros Ha. set (e := xr_error r) in *. set (v := obj [("success", JBool false); ("error", error_json e)]).
    change (is_object (canon v)) with true. change (jget "success" (canon v)) with (Ok (E := exn) (JBool false)).
    cbn [negb mbind res_bind]. rewrite (jget_canon "error" v (error_json e)) by done. cbn [mbind res_bind].
    change (is_object (canon (error_json e))) with true. cbn [negb].
    erewrite !get_string_canon, get_bool_canon, get_uint_canon by reflexivity || done. by destruct e.
Qed.

(** A sample a metric is given can be read back: label, digest and trace as they were,
    the result as [read_result] says. *)
Theorem sample_roundtrip s :
  readable (sample_value s) -> result_ok (sm_result s) -> Forall event_ok (sm_trace s) ->
  parse_sample (sample_json s) = Ok (mkSample (sm_label s) (sm_workflow_digest s) (read_result (sm_result s)) (sm_trace s)).
Proof.
  intros Hv Hr Ht. unfold parse_sample, sample_json, compact_json. rewrite jl_parse_write by done.
  assert (exists m, canon (sample_value s) = JObject m) as [m Em] by (by eexists). rewrite Em. rewrite <- Em.
  erewrite !get_string_canon by reflexivity. cbn [mbind res_bind].
  rewrite (jget_canon "result" _ (execution_result_json (sm_result s))) by done. cbn [mbind res_bind].
  rewrite result_read_back by done. cbn [mbind res_bind].
  rewrite (jget_canon "trace" _ (JArray (event_json <$> sm_trace s))) by done. cbn [mbind res_bind canon parse_events].
  rewrite <- list_fmap_compose. rewrite (parse_items_ok _ id); [by rewrite list_fmap_id|].
  eapply Forall_impl; [exact Ht|]. apply event_read_back.
Qed.
End RoundTrip.
