(* ===== verification/CApi.v ===== *)
(** * Entry points of the C interface (src/c_api.cpp)

    Handles are options, [None] for null; an output parameter is present or null, and
    what an entry point leaves in it is a [slot].  [guard] turns exceptions into
    statuses and the text of the engine's last error.  Sizes of structures are those
    of a 64-bit platform; allocation by [new] succeeds.  Diagnostics and documents are
    those of CConvert.v, the callbacks those of CSpi.v. *)

From S2P Require Import Prelude Json Expr Sha256 Ir Reliability Workflow Trace RunState RunStep Restore Drive Replay Patch Resource Bundle Resolver Engine CSpi CConvert.
Open Scope string_scope.
Open Scope list_scope.
Open Scope Z_scope.

(** ** Outputs

    [memcpy] to a buffer of the host; [None] is a write past its end. *)
Definition memcpy (dst src : string) : option string :=
  if str_len dst <? str_len src then None else Some (src +:+ str_from (String.length src) dst).
Definition c_str (text : string) : string := text +:+ String "000" "".

(** What a call leaves: its status, the size it reports and the host's buffer. *)
Record copied := mkCopied { cp_status : Z; cp_required : option Z; cp_buffer : option string }.
(** The size of a text is far from the largest [size_t]. *)
Definition copy_output (text : string) (buffer : option string) (size : Z) (required : bool) : option copied :=
  if negb required then Some (mkCopied DAGE_STATUS_INVALID_ARGUMENT None buffer) else
  let need := str_len text + 1 in
  match buffer with
  | None => Some (mkCopied DAGE_STATUS_BUFFER_TOO_SMALL (Some need) None)
  | Some memory =>
    if size <? need then Some (mkCopied DAGE_STATUS_BUFFER_TOO_SMALL (Some need) buffer)
    else memory ← memcpy memory (c_str text); Some (mkCopied DAGE_STATUS_OK (Some need) (Some memory))
  end.

(** A buffer of the library's: from its own heap, or from the allocator of the engine
    with the total size it must be returned with. *)
Inductive transferred := FromHeap (text : string) | FromAllocator (text : string) (total : Z).
Definition allocated_header : Z := 32.
Definition transfer_output (text : string) (allocator : option (Z -> bool)) : Z * option transferred :=
  match allocator with
  | Some allocate =>
    let total := allocated_header + str_len text in
    if negb (allocate total) then (DAGE_STATUS_OUT_OF_MEMORY, None) else (DAGE_STATUS_OK, Some (FromAllocator text total))
  | None => (DAGE_STATUS_OK, Some (FromHeap text))
  end.

(** ** Engines *)
Record dage_engine_t := mkCEngine {
  ce_engine : Engine; ce_error : string; ce_callbacks : list (string * Z); ce_allocator : option (Z -> bool);
  ce_destroyed : list Z
}.
#[export] Instance eta_dage_engine_t : Settable dage_engine_t := fun e =>
  mkCEngine (ce_engine e) (ce_error e) (ce_callbacks e) (ce_allocator e) (ce_destroyed e).

(** The body of an entry point: a status and what it hands over. *)
Abbreviation entry A := (act exn dage_engine_t (Z * option A)).
Definition set_error (text : string) : act exn dage_engine_t unit := modify (fun e => e <| ce_error := text |>).
Definition report {A} (status : Z) (text : string) : entry A := set_error text;; mret (status, None).
Definition hand_over {A} (a : A) : entry A := mret (DAGE_STATUS_OK, Some a).
Definition guard_status (x : exn) : Z :=
  match x with
  | InvalidArgument _ => DAGE_STATUS_INVALID_ARGUMENT
  | _ => if str_prefix "WORKFLOW_" (what x) then DAGE_STATUS_RESOURCE_EXHAUSTED else DAGE_STATUS_VALIDATION_ERROR
  end.
Definition guard {A} (f : entry A) (e : dage_engine_t) : (Z * option A) * dage_engine_t :=
  match f e with
  | (Ok r, e) => (r, e)
  | (Err x, e) => ((guard_status x, None), e <| ce_error := what x |>)
  end.

(** [*out]: left alone, set to null, or set to a handle. *)
Inductive slot (A : Type) := Untouched | Cleared | Given (a : A).
Arguments Untouched {A}. Arguments Cleared {A}. Arguments Given {A}.
Definition slot_of {A} (a : option A) : slot A := match a with Some a => Given a | None => Cleared end.
Definition called (A : Type) : Type := Z * slot A * option dage_engine_t.
Definition refuse_call {A} (e : option dage_engine_t) : called A := (DAGE_STATUS_INVALID_ARGUMENT, Untouched, e).
(** The frame of the entry points that create a handle: null arguments are refused
    before [*out] is written. *)
Definition creating {A} (engine : option dage_engine_t) (present : bool) (f : entry A) : called A :=
  match engine with
  | Some e => if negb present then refuse_call engine else let '((status, a), e) := guard f e in (status, slot_of a, Some e)
  | None => refuse_call engine
  end.
(** The entry points that only change the engine. *)
Definition changing (engine : option dage_engine_t) (present : bool) (f : act exn dage_engine_t unit) : Z * option dage_engine_t :=
  match engine with
  | Some e => if negb present then (DAGE_STATUS_INVALID_ARGUMENT, engine)
              else let '((status, _), e) := guard (f;; mret (DAGE_STATUS_OK, @None unit)) e in (status, Some e)
  | None => (DAGE_STATUS_INVALID_ARGUMENT, engine)
  end.
Definition try_c {A} (m : exc A) : act exn dage_engine_t A := lift m.
Definition on_engine (f : Engine -> exc Engine) : act exn dage_engine_t unit :=
  e ← get_state; engine ← try_c (f (ce_engine e)); modify (fun e => e <| ce_engine := engine |>).

(** *** dage_engine_create *)
Definition DAGE_C_ABI_VERSION : Z := 1.
Record dage_allocator_t := mkAllocator { al_struct_size : Z; al_allocate : option (Z -> bool); al_deallocate : bool }.
Record dage_engine_options_t := mkEngineOptions {
  eo_struct_size : Z; eo_api_version : Z; eo_output_allocator : option dage_allocator_t; eo_max_workflow_bytes : Z;
  eo_max_json_depth : Z; eo_max_nodes : Z; eo_max_edges : Z; eo_max_expression_bytes : Z; eo_max_literal_bytes : Z;
  eo_max_compiled_ir_bytes : Z
}.
Definition unless_zero (value other : Z) : Z := if value =? 0 then other else value.
Definition c_limits (o : dage_engine_options_t) : WorkflowResourceLimits :=
  let d := default_limits in
  mkLimits (unless_zero (eo_max_workflow_bytes o) (max_workflow_bytes d)) (unless_zero (eo_max_json_depth o) (max_json_depth d))
    (unless_zero (eo_max_nodes o) (max_nodes d)) (unless_zero (eo_max_edges o) (max_edges d))
    (unless_zero (eo_max_expression_bytes o) (max_expression_bytes d)) (unless_zero (eo_max_literal_bytes o) (max_literal_bytes d))
    (unless_zero (eo_max_compiled_ir_bytes o) (max_compiled_ir_bytes d)).
Definition bad_allocator (a : dage_allocator_t) : bool :=
  (al_struct_size a <? 32) || negb (bool_decide (is_Some (al_allocate a))) || negb (al_deallocate a).
Definition dage_engine_create (options : option dage_engine_options_t) (out : bool) : Z * slot dage_engine_t :=
  if negb out then (DAGE_STATUS_INVALID_ARGUMENT, Untouched) else
  match options with
  | None => (DAGE_STATUS_OK, Given (mkCEngine new_engine "" [] None []))
  | Some o =>
    if (eo_struct_size o <? 64) || (DAGE_C_ABI_VERSION <? eo_api_version o) then (DAGE_STATUS_INVALID_ARGUMENT, Cleared)
    else if match eo_output_allocator o with Some a => bad_allocator a | None => false end then
      (DAGE_STATUS_INVALID_ARGUMENT, Cleared)
    else match set_limits (c_limits o) new_engine with
         | Ok engine => (DAGE_STATUS_OK, Given (mkCEngine engine "" [] (a ← eo_output_allocator o; al_allocate a) []))
         | Err _ => (DAGE_STATUS_UNKNOWN_ERROR, Cleared)
         end
  end.

(** *** Services: the structure's size and whether its functions are all present. *)
Record vtable := mkVtable { vt_struct_size : Z; vt_complete : bool }.
Definition vtable_ok (prefix : Z) (v : option vtable) : bool :=
  match v with Some v => (prefix <=? vt_struct_size v) && vt_complete v | None => false end.
Definition dage_engine_set_scheduler (engine : option dage_engine_t) (v : option vtable) : Z * option dage_engine_t :=
  changing engine (vtable_ok 16 v) (on_engine (set_scheduler true)).
Definition dage_engine_set_state_store (engine : option dage_engine_t) (v : option vtable) : Z * option dage_engine_t :=
  changing engine (vtable_ok 64 v) (on_engine (set_state_store true)).
Definition dage_engine_set_trace_sink (engine : option dage_engine_t) (v : option vtable) : Z * option dage_engine_t :=
  changing engine (vtable_ok 16 v) (on_engine (fun e => Ok (set_trace_sink true e))).
Definition dage_engine_set_resource_lease_provider (engine : option dage_engine_t) (v : option vtable) : Z * option dage_engine_t :=
  changing engine (vtable_ok 16 v) (on_engine (fun e => Ok (set_resource_lease_provider true e))).

(** *** Registration

    [owner] stands for the userdata of a callback.  A [CallbackOwner] is shared by the
    entry of [callbacks] and the executor the engine holds; the userdata is destroyed
    when the last of them goes.  No run is alive meanwhile, so none holds an executor. *)
Definition holders (e : dage_engine_t) : list Z :=
  (ce_callbacks e).*2 ++ (en_executors (ce_engine e)).*2 ++ (en_async_executors (ce_engine e)).*2.
Definition let_go (before : dage_engine_t) : act exn dage_engine_t unit :=
  modify (fun e => e <| ce_destroyed := ce_destroyed e ++ filter (fun o => o ∉ holders e) (remove_dups (holders before)) |>).
Definition registering (name : chars) (owner : Z) (f : string -> Engine -> exc Engine) : act exn dage_engine_t unit :=
  n ← try_c (string_of name);
  before ← get_state;
  modify (fun e => e <| ce_callbacks := om_set n owner (ce_callbacks e) |>);;
  let_go before;;
  before ← get_state;
  on_engine (f n);;
  let_go before.
Definition dage_engine_register_executor (engine : option dage_engine_t) (name : chars) (callback : bool) (owner : Z)
    : Z * option dage_engine_t :=
  changing engine callback (registering name owner (fun n => register_executor n (Some owner))).
Definition dage_engine_register_async_executor (engine : option dage_engine_t) (name : chars) (callback : bool) (owner : Z)
    : Z * option dage_engine_t :=
  changing engine callback (registering name owner (fun n => register_async_executor n (Some owner))).
(** [delete engine]: all userdata destroyed so far and now. *)
Definition dage_engine_destroy (engine : option dage_engine_t) : list Z :=
  match engine with Some e => ce_destroyed e ++ remove_dups (holders e) | None => [] end.

Section Entries.
Context {J : JsonLib}.
Definition limits_now : act exn dage_engine_t WorkflowResourceLimits := gets (fun e => en_limits (ce_engine e)).
Definition dage_engine_register_workflow (engine : option dage_engine_t) (name json : chars) : Z * option dage_engine_t :=
  changing engine true (
    n ← try_c (string_of name); text ← try_c (string_of json); on_engine (register_workflow n text)).

(** ** Workflows and bundles *)
Definition dage_engine_load (engine : option dage_engine_t) (json : chars) (out : bool) : called Workflow :=
  creating engine out (
    limits ← limits_now; text ← try_c (string_of json); w ← try_c (load limits text); hand_over w).
Fixpoint add_entries (entries : list (chars * chars)) (m : MemoryResourceProvider) : exc MemoryResourceProvider :=
  match entries with
  | [] => Ok m
  | (path, content) :: rest =>
    path ← string_of path; content ← string_of content; m ← add_resource path content m; add_entries rest m
  end.
(** A null table of [entry_count] entries is refused unless it is empty. *)
Definition dage_bundle_load (engine : option dage_engine_t) (entries : option (list (chars * chars))) (entry_count : Z) (out : bool)
    : called Bundle :=
  creating engine (out && (bool_decide (is_Some entries) || (entry_count =? 0))) (
    m ← try_c (add_entries (default [] entries) (mkMemoryResources []));
    b ← try_c (load_bundle_from_provider (memory_provider m)); hand_over b).
Definition dage_bundle_load_workflow (engine : option dage_engine_t) (bundle : option Bundle) (workflow_id : chars) (out : bool)
    : called Workflow :=
  match bundle with
  | None => refuse_call engine
  | Some bundle =>
    creating engine out (
      id ← try_c (string_of workflow_id); e ← get_state; w ← try_c (load_workflow (ce_engine e) bundle id); hand_over w)
  end.
Definition dage_resolved_bundle_graph_load_workflow (engine : option dage_engine_t) (graph : option ResolvedBundleGraph)
    (bundle_id workflow_id : chars) (out : bool) : called Workflow :=
  match graph with
  | None => refuse_call engine
  | Some graph =>
    creating engine out (
      id ← try_c (string_of bundle_id);
      match (if str_empty id then root_bundle graph else find_bundle graph id) with
      | None => report DAGE_STATUS_NOT_FOUND ("BUNDLE_NOT_FOUND: " +:+ id)
      | Some bundle =>
        workflow_id ← try_c (string_of workflow_id);
        e ← get_state; w ← try_c (load_workflow (ce_engine e) bundle workflow_id); hand_over w
      end)
  end.
Definition dage_workflow_apply_patch (engine : option dage_engine_t) (workflow : option Workflow) (patch : chars) (out : bool)
    : called Workflow :=
  match workflow with
  | None => refuse_call engine
  | Some w =>
    creating engine out (
      text ← try_c (string_of patch); limits ← limits_now; w ← try_c (apply_patch limits w text); hand_over w)
  end.

(** *** dage_bundle_resolve *)
Record dage_bundle_resolver_options_t := mkCResolverOptions {
  br_struct_size : Z; br_mode : Z; br_signature_policy : Z; br_signature_threshold : Z; br_lock_json : chars
}.
Record dage_bundle_repository_vtable_t := mkCRepository {
  rt_struct_size : Z; rt_versions : option (string -> bool -> answer dage_owned_buffer_t);
  rt_get : option (string -> string -> bool -> answer dage_resource_provider_t); rt_source : option (answer dage_owned_buffer_t)
}.
Definition c_repository_get (get : string -> string -> bool -> answer dage_resource_provider_t) (id version : string) (offline : bool)
    : Result ResourceProvider :=
  match (c_get_provider (get id version offline)).1 with Ok p => Ok (c_resource_provider p) | Err e => Err e end.
(** The repository, where all its functions are there. *)
Definition c_repository (t : dage_bundle_repository_vtable_t) : option BundleRepository :=
  match rt_versions t, rt_get t, rt_source t with
  | Some versions, Some get, Some source =>
    if rt_struct_size t <? 32 then None
    else Some (mkRepository (fun id offline => c_versions (versions id offline)) (c_repository_get get) (c_source source))
  | _, _, _ => None
  end.
Definition load_mode_of (mode : Z) : option BundleLoadMode :=
  match mode with 0 => Some Development | 1 => Some Frozen | 2 => Some Verified | 3 => Some Offline | _ => None end.
Definition policy_of (kind : Z) : option SignaturePolicyKind :=
  match kind with 0 => Some Disabled | 1 => Some AtLeastOne | 2 => Some Threshold | 3 => Some AllSignatures | _ => None end.
Record dage_key_provider_vtable_t := mkCKeys { ky_struct_size : Z; ky_find_key : option (string -> string -> answer dage_owned_buffer_t) }.
Record dage_trust_policy_vtable_t := mkCTrust { ty_struct_size : Z; ty_trust : option (string -> answer Z) }.
(** [None]: a value of an enumeration that is not one of its constants. *)
Definition c_resolver_options (options : option dage_bundle_resolver_options_t) (repository : option BundleRepository)
    (keys : option dage_key_provider_vtable_t) (trust : option dage_trust_policy_vtable_t) : exc (option BundleResolverOptions) :=
  let keys := f ← keys ≫= ky_find_key; Some (c_key_provider f) in
  let trust := f ← trust ≫= ty_trust; Some (c_trust_policy f) in
  match options with
  | None => Ok (Some (mkResolverOptions Development repository keys trust "" (mkSignaturePolicy AtLeastOne 1)))
  | Some o =>
    match load_mode_of (br_mode o), policy_of (br_signature_policy o) with
    | Some mode, Some kind =>
      lock ← string_of (br_lock_json o);
      Ok (Some (mkResolverOptions mode repository keys trust lock (mkSignaturePolicy kind (br_signature_threshold o))))
    | _, _ => Ok None
    end
  end.
Definition root_ok (root : dage_resource_provider_t) : bool :=
  (resource_provider_prefix <=? pv_struct_size root) && bool_decide (is_Some (pv_list root)) && bool_decide (is_Some (pv_read root)).
Definition shape_ok {A B} (size : A -> Z) (f : A -> option B) (prefix : Z) (x : option A) : bool :=
  match x with Some x => (prefix <=? size x) && bool_decide (is_Some (f x)) | None => true end.

Section Resolve.
Context {C : Crypto}.
(** [None] of a body: the fuel ran out. *)
Definition resolve_body (fuel : nat) (root : dage_resource_provider_t) (options : exc (option BundleResolverOptions))
    : option (entry ResolvedBundleGraph) :=
  match options with
  | Err x => Some (leave x)
  | Ok None => Some (mret (DAGE_STATUS_INVALID_ARGUMENT, None))
  | Ok (Some options) =>
    match resolve options fuel (c_resource_provider root) with
    | None => None
    | Some (Err e) => Some (report DAGE_STATUS_VALIDATION_ERROR (err_code e +:+ ": " +:+ err_message e))
    | Some (Ok graph) => Some (hand_over graph)
    end
  end.
Definition dage_bundle_resolve (fuel : nat) (engine : option dage_engine_t) (root : option dage_resource_provider_t)
    (options : option dage_bundle_resolver_options_t) (repository : option dage_bundle_repository_vtable_t)
    (keys : option dage_key_provider_vtable_t) (trust : option dage_trust_policy_vtable_t) (out : bool)
    : option (called ResolvedBundleGraph) :=
  match engine, root with
  | Some e, Some root =>
    if negb out || negb (root_ok root) then Some (refuse_call engine) else
    let invalid := Some (DAGE_STATUS_INVALID_ARGUMENT, Cleared, engine) in
    if match options with Some o => br_struct_size o <? 32 | None => false end then invalid else
    let adapter := repository ≫= c_repository in
    if bool_decide (is_Some repository) && negb (bool_decide (is_Some adapter)) then invalid
    else if negb (shape_ok ky_struct_size ky_find_key 16 keys) then invalid
    else if negb (shape_ok ty_struct_size ty_trust 16 trust) then invalid
    else body ← resolve_body fuel root (c_resolver_options options adapter keys trust); Some (creating engine true body)
  | _, _ => Some (refuse_call engine)
  end.
End Resolve.

(** ** Documents in a buffer of the host *)

(** The entry points that report a document: under [guard], or with any exception
    caught as unknown. *)
Definition guarded_text (engine : option dage_engine_t) (present : bool) (document : Engine -> exc string)
    (buffer : option string) (size : Z) (required : bool) : option (copied * option dage_engine_t) :=
  let refused := mkCopied DAGE_STATUS_INVALID_ARGUMENT None buffer in
  match engine with
  | None => Some (refused, engine)
  | Some e =>
    if negb present then Some (refused, engine) else
    match document (ce_engine e) with
    | Ok text => c ← copy_output text buffer size required; Some (c, engine)
    | Err x => Some (mkCopied (guard_status x) None buffer, Some (e <| ce_error := what x |>))
    end
  end.
Definition plain_text {A} (handle : option A) (document : A -> exc string) (buffer : option string) (size : Z) (required : bool)
    : option copied :=
  match handle with
  | None => Some (mkCopied DAGE_STATUS_INVALID_ARGUMENT None buffer)
  | Some a =>
    match document a with
    | Ok text => copy_output text buffer size required
    | Err _ => Some (mkCopied DAGE_STATUS_UNKNOWN_ERROR None buffer)
    end
  end.

Definition dry_run_document (r : PatchDryRunResult) : json := obj [
  ("schema_version", JInt 1); ("kind", JString "patch_dry_run"); ("valid", JBool (dr_valid r));
  ("base_digest", JString (dr_base_digest r)); ("candidate_digest", JString (dr_candidate_digest r));
  ("candidate_revision", JUInt (dr_candidate_revision r)); ("diagnostics", diagnostics_json (dr_diagnostics r))].
Definition dage_workflow_dry_run_patch (engine : option dage_engine_t) (workflow : option Workflow) (patch : chars) :=
  guarded_text engine (bool_decide (is_Some workflow)) (fun e =>
    match workflow with
    | Some w => text ← string_of patch; r ← dry_run_patch (en_limits e) w text; Ok (compact_json (dry_run_document r))
    | None => Ok ""
    end).
Definition analysis_document (r : PatchAnalysis) : json := obj [
  ("schema_version", JInt 1); ("kind", JString "patch_analysis"); ("valid", JBool (pa_valid r));
  ("base_digest", JString (pa_base_digest r)); ("candidate_digest", JString (pa_candidate_digest r));
  ("directly_changed_nodes", strings_json (pa_directly_changed_nodes r)); ("affected_nodes", strings_json (pa_affected_nodes r));
  ("effect_policy_changed", JBool (pa_effect_policy_changed r));
  ("checkpoint_resume_compatible", JBool (pa_checkpoint_resume_compatible r));
  ("inverse_patch_json", JString (pa_inverse_patch_json r)); ("diagnostics", diagnostics_json (pa_diagnostics r))].
Definition dage_workflow_analyze_patch (engine : option dage_engine_t) (workflow : option Workflow) (patch : chars) :=
  guarded_text engine (bool_decide (is_Some workflow)) (fun e =>
    match workflow with
    | Some w => text ← string_of patch; r ← analyze_patch (en_limits e) w text; Ok (compact_json (analysis_document r))
    | None => Ok ""
    end).
Definition change_kind_name (k : WorkflowNodeChangeKind) : string :=
  match k with Patch.Added => "added" | Patch.Removed => "removed" | Modified => "modified" end.
Definition node_change_json (d : WorkflowNodeDiff) : json := obj [
  ("node_id", JString (nd_node_id d)); ("kind", JString (change_kind_name (nd_kind d)));
  ("changed_fields", strings_json (nd_changed_fields d)); ("effect_policy_changed", JBool (nd_effect_policy_changed d))].
Definition diff_document (r : WorkflowDiff) : json := obj [
  ("schema_version", JInt 1); ("kind", JString "workflow_diff"); ("before_digest", JString (wd_before_digest r));
  ("after_digest", JString (wd_after_digest r)); ("changed_workflow_fields", strings_json (wd_changed_workflow_fields r));
  ("affected_nodes", strings_json (wd_affected_nodes r)); ("effect_policy_changed", JBool (wd_effect_policy_changed r));
  ("checkpoint_resume_compatible", JBool (wd_checkpoint_resume_compatible r));
  ("node_changes", JArray (node_change_json <$> wd_node_changes r))].
Definition dage_workflow_diff (engine : option dage_engine_t) (before after : option Workflow) :=
  guarded_text engine (bool_decide (is_Some before) && bool_decide (is_Some after)) (fun _ =>
    match before, after with
    | Some b, Some a => r ← diff_workflows b a; Ok (compact_json (diff_document r))
    | _, _ => Ok ""
    end).
Definition dage_workflow_format (w : option Workflow) := plain_text w (fun w => Ok (write_json (wf_root w) true)).
Definition dage_workflow_export_mermaid (w : option Workflow) := plain_text w export_mermaid.
Definition dage_workflow_export_dot (w : option Workflow) := plain_text w export_dot.
Definition dage_resolved_bundle_graph_lock (g : option ResolvedBundleGraph) := plain_text g (fun g => Ok (gr_lock g)).
(** [*bundles.find(root_id)]: a resolved graph has its root. *)
Definition dage_resolved_bundle_graph_root_id (g : option ResolvedBundleGraph) (buffer : option string) (size : Z) (required : bool)
    : option copied :=
  match g with
  | None => Some (mkCopied DAGE_STATUS_INVALID_ARGUMENT None buffer)
  | Some g => b ← root_bundle g; copy_output (bd_id b) buffer size required
  end.
Definition dage_last_error (e : option dage_engine_t) := plain_text e (fun e => Ok (ce_error e)).
End Entries.

(** ** The registry *)
Definition runtime_capabilities : list string :=
  ["core.dag.v1"; "c.async_executor.v1"; "c.runtime_spi.v1"; "c.bundle_resolver.v1"; "c.analysis.v1"; "c.trace_replay.v1";
   "c.shadow_metrics.v1"; "c.output_allocator.v1"].
Definition dage_runtime_has_capability (capability : chars) : bool :=
  if null_chars capability then false else mem_str (text_of_chars capability) runtime_capabilities.
Definition registry_statuses : list (string * Z) := [
  ("ok", DAGE_STATUS_OK); ("invalid_argument", DAGE_STATUS_INVALID_ARGUMENT); ("out_of_memory", DAGE_STATUS_OUT_OF_MEMORY);
  ("parse_error", DAGE_STATUS_PARSE_ERROR); ("validation_error", DAGE_STATUS_VALIDATION_ERROR);
  ("execution_error", DAGE_STATUS_EXECUTION_ERROR); ("cancelled", DAGE_STATUS_CANCELLED); ("not_found", DAGE_STATUS_NOT_FOUND);
  ("buffer_too_small", DAGE_STATUS_BUFFER_TOO_SMALL); ("suspended", DAGE_STATUS_SUSPENDED);
  ("resource_exhausted", DAGE_STATUS_RESOURCE_EXHAUSTED); ("internal_error", DAGE_STATUS_INTERNAL_ERROR);
  ("unknown_error", DAGE_STATUS_UNKNOWN_ERROR)].
Definition registry_run_modes : list (string * Z) := [("normal", 0); ("replay", 1); ("shadow", 2)].
Definition registry_trace_captures : list (string * Z) := [("metadata", 0); ("off", 1); ("inputs", 2); ("full", 3)].
Definition registry_load_modes : list (string * Z) := [("development", 0); ("frozen", 1); ("verified", 2); ("offline", 3)].
Definition registry_policies : list (string * Z) := [("disabled", 0); ("at_least_one", 1); ("threshold", 2); ("all", 3)].
Definition registry_sizes : list (string * Z) := [
  ("engine_options", 64); ("run_options", 64); ("allocator", 32); ("scheduler_vtable", 16); ("state_store_vtable", 64);
  ("trace_sink_vtable", 16); ("resource_lease_provider_vtable", 16)].
Definition registry_node_types : list string :=
  ["tool"; "llm"; "transform"; "condition"; "parallel"; "join"; "subflow"; "human"; "noop"; "end"; "fail"; "switch"].
Definition registry_kinds : list string :=
  ["patch_dry_run"; "patch_analysis"; "workflow_diff"; "trace_replay_plan"; "shadow_evaluation"].
Definition registry_fields : list (string * list string) := [
  ("event_envelope", ["schema_version"; "sequence"; "timestamp_unix_ms"; "elapsed_ms"; "attempt"; "event"; "run_id";
    "invocation_id"; "workflow_digest"; "bundle_digest"; "node_id"; "node_type"; "executor"; "category"; "code"; "payload";
    "trace_id"; "span_id"; "parent_span_id"; "causation_id"]);
  ("execution_context", ["struct_size"; "run_id"; "node_id"; "node_type"; "attempt"; "idempotency_key"; "run_mode";
    "deadline_remaining_ms"; "commit_effect"; "commit_effect_userdata"; "is_cancelled"; "cancellation_userdata"]);
  ("engine_options", ["struct_size"; "api_version"; "output_allocator"; "max_workflow_bytes"; "max_json_depth"; "max_nodes";
    "max_edges"; "max_expression_bytes"; "max_literal_bytes"; "max_compiled_ir_bytes"]);
  ("patch_dry_run", ["schema_version"; "kind"; "valid"; "base_digest"; "candidate_digest"; "candidate_revision"; "diagnostics"]);
  ("patch_analysis", ["schema_version"; "kind"; "valid"; "base_digest"; "candidate_digest"; "directly_changed_nodes";
    "affected_nodes"; "effect_policy_changed"; "checkpoint_resume_compatible"; "inverse_patch_json"; "diagnostics"]);
  ("workflow_diff", ["schema_version"; "kind"; "before_digest"; "after_digest"; "changed_workflow_fields"; "node_changes";
    "affected_nodes"; "effect_policy_changed"; "checkpoint_resume_compatible"]);
  ("trace_replay_plan", ["schema_version"; "kind"; "source_run_id"; "trace_id"; "workflow_digest"; "bundle_digest";
    "workflow_input"; "executor_outcome_count"; "expected_result"]);
  ("shadow_evaluation", ["schema_version"; "kind"; "baseline_label"; "candidate_label"; "candidate_is_shadow"; "outputs_equal";
    "recommended"; "weighted_score_delta"; "metrics"])].
(** Threads, whether concurrent, whether it may block, ownership. *)
Definition registry_callbacks : list (string * (string * bool * bool * string)) := [
  ("executor", ("scheduler_worker", true, true, "inputs borrowed; output transferred"));
  ("async_executor", ("scheduler_worker", true, false, "completion transferred one-shot"));
  ("scheduler.submit", ("submitting_thread", true, false, "task transferred only on OK"));
  ("state_store", ("scheduler_worker", true, true, "inputs borrowed; outputs transferred"));
  ("trace_sink.emit", ("emitting_thread", true, false, "event borrowed"));
  ("resource_lease.acquire", ("scheduler_worker", true, true, "lease transferred on OK"));
  ("repository", ("resolver_caller", false, true, "dependency provider transferred"));
  ("key_provider", ("resolver_caller", false, true, "public key transferred"));
  ("trust_policy", ("resolver_caller", false, true, "context borrowed"));
  ("metric", ("shadow_compare_caller", false, true, "sample borrowed"))].
Definition callback_json (c : string * bool * bool * string) : json :=
  let '(threads, concurrent, may_block, ownership) := c in
  obj [("threads", JString threads); ("concurrent", JBool concurrent); ("may_block", JBool may_block); ("ownership", JString ownership)].
Definition numbers_json (l : list (string * Z)) : json := obj (prod_map id JInt <$> l).
Definition runtime_registry : json := obj [
  ("schema_version", JInt 1); ("runtime_version", JString "0.2.0"); ("c_abi_version", JUInt DAGE_C_ABI_VERSION);
  ("capabilities", strings_json runtime_capabilities); ("statuses", numbers_json registry_statuses);
  ("enums", obj [("run_mode", numbers_json registry_run_modes); ("trace_capture", numbers_json registry_trace_captures);
     ("bundle_load_mode", numbers_json registry_load_modes); ("signature_policy", numbers_json registry_policies)]);
  ("minimum_struct_size", obj (prod_map id JUInt <$> registry_sizes));
  ("analysis_result_kinds", strings_json registry_kinds); ("node_types", strings_json registry_node_types);
  ("fields", obj (prod_map id strings_json <$> registry_fields));
  ("callbacks", obj (prod_map id callback_json <$> registry_callbacks))].
Definition dage_runtime_registry {J : JsonLib} (buffer : option string) (size : Z) (required : bool) : option copied :=
  copy_output (compact_json runtime_registry) buffer size required.
