(* ===== verification/CRun.v ===== *)
(** * Runs, replays and comparisons through the C interface (src/c_api.cpp)

    A run's handle keeps the output of an execution that did not fit the host's buffer;
    the next call delivers it instead of executing again.  [c_step] interleaves the
    host's calls with the threads that drive the run (Drive.v); the scheduler may refuse
    any task but the first of an execution. *)

From S2P Require Import Prelude Json Expr Sha256 Ir Reliability Workflow Trace RunState RunStep Restore Drive Replay Patch Resource Bundle Resolver Engine CSpi CConvert CApi.
Open Scope string_scope.
Open Scope list_scope.
Open Scope Z_scope.

(** ** Creating runs *)
Record dage_run_options_t := mkCRunOptions {
  cr_struct_size : Z; cr_mode : Z; cr_allow_external_writes : Z; cr_allow_irreversible : Z; cr_trace_capture : Z;
  cr_deadline_ms : Z; cr_retry_budget : Z; cr_max_output_bytes : Z; cr_max_state_bytes : Z; cr_max_events : Z;
  cr_max_in_flight_tasks : Z
}.
Definition c_run_mode (mode : Z) : RunMode := if mode =? 1 then Replay else if mode =? 2 then Shadow else Normal.
Definition c_trace_capture (capture : Z) : option TraceCapture :=
  match capture with
  | 0 => Some CaptureMetadata | 1 => Some CaptureOff | 2 => Some CaptureInputs | 3 => Some CaptureFull | _ => None
  end.
Definition c_run_options (options : option dage_run_options_t) : option RunOptions :=
  let d := default_options in
  match options with
  | None => Some d
  | Some o =>
    capture ← c_trace_capture (cr_trace_capture o);
    Some (d <| o_mode := c_run_mode (cr_mode o) |>
            <| o_allow_external_writes := negb (cr_allow_external_writes o =? 0) |>
            <| o_allow_irreversible := negb (cr_allow_irreversible o =? 0) |> <| o_trace_capture := capture |>
            <| o_deadline_ms := cr_deadline_ms o |> <| o_retry_budget := cr_retry_budget o |>
            <| o_max_output_bytes := unless_zero (cr_max_output_bytes o) (o_max_output_bytes d) |>
            <| o_max_state_bytes := unless_zero (cr_max_state_bytes o) (o_max_state_bytes d) |>
            <| o_max_events := unless_zero (cr_max_events o) (o_max_events d) |>
            <| o_max_in_flight_tasks := unless_zero (cr_max_in_flight_tasks o) (o_max_in_flight_tasks d) |>)
  end.

(** A new run: what it takes of the engine and its state. *)
Definition dage_run_create_with_options (engine : option dage_engine_t) (workflow : option Workflow)
    (options : option dage_run_options_t) (out : bool) : called (RunConfig * RunImpl) :=
  match workflow with
  | None => refuse_call engine
  | Some w =>
    if match options with Some o => cr_struct_size o <? 64 | None => false end then refuse_call engine else
    creating engine out (
      match c_run_options options with
      | None => mret (DAGE_STATUS_INVALID_ARGUMENT, None)
      | Some options => e ← get_state; hand_over (run_config (ce_engine e) w, create_run w options)
      end)
  end.
Definition dage_run_create (engine : option dage_engine_t) (workflow : option Workflow) (out : bool) :=
  dage_run_create_with_options engine workflow None out.

Section Runs.
Context {J : JsonLib} {S : Type} `{StateStore S} {W : Type} (cfg : RunConfig) (host : Host W).
Abbreviation D := (Driver S W).

(** With the machine as the recovery leaves it, its store changed by a claim even where
    the recovery fails.  [None]: [restore_run] would have been left the way only
    [execute_step] is. *)
Definition dage_run_restore (engine : option dage_engine_t) (workflow : option Workflow) (checkpoint : chars) (out : bool)
    (m : machine S W) : option (called RunImpl * machine S W) :=
  match engine, workflow, out with
  | Some _, Some w, true =>
    match string_of checkpoint with
    | Err x => Some (creating engine true (leave x), m)
    | Ok text =>
      match restore_run cfg host (wf_bundle_digest w) text m with
      | (Ok _, m) => Some (creating engine true (hand_over (m_run m)), m)
      | (Err (Throw x), m) => Some (creating engine true (leave x), m)
      | (Err _, _) => None
      end
    end
  | _, _, _ => Some (refuse_call engine, m)
  end.

(** ** Calls on a run

    The host's buffer, the size it says it has, and whether it takes the size. *)
Record buffers := mkBuffers { bu_memory : option string; bu_size : Z; bu_required : bool }.
Record dage_run_t := mkCRun { rh_run : D; rh_pending : option string }.
#[local] Instance eta_dage_run_t : Settable dage_run_t := fun h => mkCRun (rh_run h) (rh_pending h).

Definition copy_pending (text : string) (b : buffers) (h : dage_run_t) : option (copied * dage_run_t) :=
  c ← copy_output text (bu_memory b) (bu_size b) (bu_required b);
  Some (c, h <| rh_pending := if cp_status c =? DAGE_STATUS_OK then None else Some text |>).
Definition failure_status (e : ExecutionError) : Z :=
  if String.eqb (xe_category e) "cancelled" then DAGE_STATUS_CANCELLED
  else if String.eqb (xe_category e) "suspended" then DAGE_STATUS_SUSPENDED
  else DAGE_STATUS_EXECUTION_ERROR.
(** [copy_run_result], and the end of [dage_run_execute]; with the text of the error. *)
Definition copy_run_result (result : ExecutionResult) (b : buffers) (h : dage_run_t) : option (copied * option string * dage_run_t) :=
  if negb (xr_success result) then
    Some (mkCopied (failure_status (xr_error result)) None (bu_memory b),
          Some (xe_code (xr_error result) +:+ ": " +:+ xe_message (xr_error result)), h)
  else '(c, h) ← copy_pending (write_json (xr_output result) false) b h; Some (c, None, h).

Inductive run_request := RqExecute (input : chars) | RqResume (value : chars) | RqRerun (node_id : chars).
(** The call of the run, where no output is pending: an exception, an early result, or
    an execution under way. *)
Definition begin_call (q : run_request) (now : Z) (d : D) : exc (ExecutionResult + D) :=
  match q with
  | RqExecute input => text ← string_of input; input ← parse_json text; d ← begin_execute input d; Ok (inr d)
  | RqResume value => text ← string_of value; value ← parse_json text; resume value now d
  | RqRerun node => node ← string_of node; selective_rerun cfg node now d
  end.

(** A host that calls from one thread: its call may be waiting for the result after
    the [wt_from] results it already has; [se_received] are the outputs it read from
    its buffers. *)
Record waiting_call := mkWaiting { wt_from : nat; wt_buffers : buffers }.
Record session := mkSession { se_handle : dage_run_t; se_waiting : option waiting_call; se_received : list string }.
#[local] Instance eta_session : Settable session := fun s => mkSession (se_handle s) (se_waiting s) (se_received s).
(** What the host reads: the bytes before the final zero. *)
Definition received (c : copied) : list string :=
  match cp_buffer c, cp_required c with
  | Some memory, Some n => if cp_status c =? DAGE_STATUS_OK then [str_upto (Z.to_nat (n - 1)) memory] else []
  | _, _ => []
  end.
Definition honest (b : buffers) : Prop := match bu_memory b with Some memory => bu_size b <= str_len memory | None => True end.

Inductive c_step : session -> session -> Prop :=
| CPending text b c h h' l :
    rh_pending h = Some text -> honest b -> copy_pending text b h = Some (c, h') ->
    c_step (mkSession h None l) (mkSession h' None (l ++ received c))
| CBegin q now b h d l :
    rh_pending h = None -> honest b -> begin_call q now (rh_run h) = Ok (inr d) ->
    c_step (mkSession h None l)
      (mkSession (h <| rh_run := d |>) (Some (mkWaiting (length (given_answers (rh_run h))) b)) l)
| CEarly q now b r c error h h' l :
    rh_pending h = None -> honest b -> begin_call q now (rh_run h) = Ok (inl r) ->
    copy_run_result r b h = Some (c, error, h') ->
    c_step (mkSession h None l) (mkSession h' None (l ++ received c))
| CThrow q now h x l :
    rh_pending h = None -> begin_call q now (rh_run h) = Err x -> c_step (mkSession h None l) (mkSession h None l)
| CDrive h d w l :
    drives cfg host (rh_run h) d -> d_executes d = d_executes (rh_run h) -> d_rejected d = d_rejected (rh_run h) ->
    c_step (mkSession h w l) (mkSession (h <| rh_run := d |>) w l)
| CReturn w r c error h h' l :
    given_answers (rh_run h) !! wt_from w = Some r -> copy_run_result r (wt_buffers w) h = Some (c, error, h') ->
    c_step (mkSession h (Some w) l) (mkSession h' None (l ++ received c)).
Definition fresh_session (m : machine S W) : session := mkSession (mkCRun (undriven m) None) None [].

(** [dage_run_checkpoint], [dage_run_snapshot] and the cancellations, on the state of
    the run as they find it. *)
Definition dage_run_checkpoint (h : option dage_run_t) : option string -> Z -> bool -> option copied :=
  plain_text h (fun h => Ok (write_json (checkpoint (w_digest (c_workflow cfg)) (m_run (d_machine (rh_run h)))) true)).
Definition dage_run_snapshot (h : option dage_run_t) : option string -> Z -> bool -> option copied :=
  plain_text h (fun h => v ← snapshot cfg (m_run (d_machine (rh_run h))); Ok (write_json v false)).
Definition cancel_handle (reason : string) (h : dage_run_t) : dage_run_t := h <| rh_run := cancel reason (rh_run h) |>.
Definition dage_run_cancel (h : option dage_run_t) : option dage_run_t := h ← h; Some (cancel_handle "cancelled" h).
Definition dage_run_cancel_with_reason (h : option dage_run_t) (reason : chars) : Z * option dage_run_t :=
  match h with
  | None => (DAGE_STATUS_INVALID_ARGUMENT, None)
  | Some r => match string_of reason with
              | Ok reason => (DAGE_STATUS_OK, Some (cancel_handle reason r))
              | Err _ => (DAGE_STATUS_UNKNOWN_ERROR, h)
              end
  end.

(** ** What reaches the host *)
Lemma copy_output_spec text b : honest b ->
  exists c, copy_output text (bu_memory b) (bu_size b) (bu_required b) = Some c
  /\ if cp_status c =? DAGE_STATUS_OK then received c = [text] else received c = [] /\ cp_buffer c = bu_memory b.
Proof.
  unfold copy_output, honest, received. destruct (bu_required b); cbn [negb];
    [|eexists; split; [done|]; by destruct (bu_memory b)].
  destruct (bu_memory b) as [memory|]; [|by eexists; split]. intros Hb.
  destruct (Z.ltb_spec (bu_size b) (str_len text + 1)); [by eexists; split|]. unfold memcpy.
  assert (str_len (c_str text) = str_len text + 1) as Hl by (unfold c_str, str_len; rewrite str_length_app; cbn; lia).
  destruct (Z.ltb_spec (str_len memory) (str_len (c_str text))); [lia|]. eexists. split; [done|]. cbn. f_equal.
  unfold c_str, str_upto. replace (Z.to_nat (str_len text + 1 - 1)) with (String.length text) by (unfold str_len; lia).
  rewrite str_app_assoc. apply substring_0_app.
Qed.
Lemma copy_pending_spec text b h c h' : honest b -> copy_pending text b h = Some (c, h') ->
  rh_run h' = rh_run h /\ received c ++ option_list (rh_pending h') = [text].
Proof.
  unfold copy_pending. intros Hb E. destruct (copy_output_spec text b Hb) as (c' & Ec & Hc). rewrite Ec in E. cbn in E.
  injection E as <- <-. split; [done|]. cbn. destruct (cp_status c' =? DAGE_STATUS_OK); [by rewrite Hc|]. by destruct Hc as [-> _].
Qed.
(** The outputs of the executions that succeeded, in order. *)
Definition output_of (r : ExecutionResult) : option string := if xr_success r then Some (write_json (xr_output r) false) else None.
Definition outputs_of (l : list ExecutionResult) : list string := omap output_of l.
Lemma copy_run_result_spec r b h c error h' : honest b -> rh_pending h = None ->
  copy_run_result r b h = Some (c, error, h') ->
  rh_run h' = rh_run h /\ received c ++ option_list (rh_pending h') = option_list (output_of r).
Proof.
  unfold copy_run_result, output_of. destruct (xr_success r); cbn [negb]; intros Hb Hp E.
  - destruct (copy_pending _ b h) as [[c' h1]|] eqn:Ep; [|done]. cbn in E. injection E as <- _ <-. by eapply copy_pending_spec.
  - injection E as <- _ <-. rewrite Hp. split; [done|]. unfold received. cbn. by destruct (bu_memory b).
Qed.
Lemma answers_grow d d' : drives cfg host d d' -> exists l, given_answers d' = given_answers d ++ l.
Proof.
  assert (forall x y : D, (exists f i, begin_execute i (on_run f x) = Ok y) -> given_answers y = given_answers x) as Hexec.
  { by intros x y (f & i & [_ ->]%begin_execute_Ok). }
  assert (forall b (x : D), given_answers (wake b x) = given_answers x) as Hwake.
  { intros b x. unfold given_answers. by destruct (wake_same b x) as (_ & _ & _ & _ & _ & _ & _ & _ & ->). }
  assert (forall (x y : D), given_answers y = given_answers x -> exists l, given_answers y = given_answers x ++ l) as Hsame by (intros x y E; exists []; by rewrite app_nil_r).
  destruct 1 as [i d d' E|o now d d' E|n now d d' E|pre k post d E|pre k post d E|what pre k post d E|pre k post d E|pre k post d E
    |fuel pre k post m' r d E Es|fuel pre k post m' e d E Es|pre k post r d E Hr|pre k post r d E Hr|pre k post b d E|t pre k post b d E
    |pre k post a d E|t pre k post d E|g r d|r d|b r d|pre post b d E|w d]; try by apply Hsame.
  1-3: apply Hsame, Hexec, (begins cfg); eauto.
  - apply Hsame. unfold deliver. by destruct (d_delivered d).
  - apply Hsame. unfold look_subflow. destruct (_ || _); [|done]. unfold given_answers. by destruct (schedule_same t k (d <| d_drives := pre ++ post |>)) as (_ & _ & _ & _ & _ & _ & _ & ->).
  - unfold given_answers. cbn. rewrite fmap_app. by eexists.
  - apply Hsame. unfold woken, schedule_copy. by destruct t.
  - apply Hsame. unfold async_done. destruct (_ || _); [done|]. by rewrite Hwake.
  - apply Hsame. unfold subflow_done. destruct (_ || _); [done|]. by rewrite Hwake.
  - apply Hsame. unfold notice. by rewrite Hwake.
  - apply Hsame. unfold cancel. by rewrite Hwake.
Qed.
(** Where no first task was refused, the answers are at most the executions. *)
Lemma answers_bound (d : D) : delivers_once d -> d_rejected d = [] -> (length (given_answers d) <= d_executes d)%nat.
Proof.
  intros Ho Er. pose proof (once_all _ Ho) as Hn. rewrite Er in Hn. unfold answers_due in Hn. unfold given_answers. rewrite length_app in Hn.
  rewrite length_fmap. cbn in Hn. lia.
Qed.

(** The results a session has taken note of: all, but for the one a call waits for. *)
Definition taken (s : session) : nat :=
  match se_waiting s with Some w => wt_from w | None => length (given_answers (rh_run (se_handle s))) end.
Record session_ok (s : session) : Prop := mkSessionOk {
  so_once : delivers_once (rh_run (se_handle s));
  so_accepted : d_rejected (rh_run (se_handle s)) = [];
  so_wait : match se_waiting s with
            | Some w => rh_pending (se_handle s) = None /\ honest (wt_buffers w)
                        /\ (wt_from w <= length (given_answers (rh_run (se_handle s))))%nat
                        /\ d_executes (rh_run (se_handle s)) = Datatypes.S (wt_from w)
            | None => d_executes (rh_run (se_handle s)) = length (given_answers (rh_run (se_handle s)))
            end;
  so_outputs : se_received s ++ option_list (rh_pending (se_handle s))
               = outputs_of (take (taken s) (given_answers (rh_run (se_handle s))))
}.
Lemma begin_call_inr q now d d' : begin_call q now d = Ok (inr d') ->
  drives cfg host d d' /\ given_answers d' = given_answers d /\ d_executes d' = Datatypes.S (d_executes d) /\ d_rejected d' = d_rejected d.
Proof.
  destruct q; cbn [begin_call]; intros E; simplify_res.
  - split; [by eapply DExecute|]. match goal with H : begin_execute _ _ = Ok _ |- _ => by apply begin_execute_Ok in H as [_ ->] end.
  - match goal with H : resume _ _ _ = Ok _ |- _ => split; [by eapply DResume|]; by apply resume_Ok in H as [f [_ ->]%begin_execute_Ok] end.
  - match goal with H : selective_rerun _ _ _ _ = Ok _ |- _ =>
      split; [by eapply DRerun|]; by apply rerun_Ok in H as [f [_ ->]%begin_execute_Ok] end.
Qed.
Lemma begin_call_inl q now d r : begin_call q now d = Ok (inl r) -> output_of r = None.
Proof.
  destruct q; cbn [begin_call]; intros E; simplify_res; [done| |].
  - match goal with H : resume _ _ _ = Ok _ |- _ => unfold resume in H; destruct (negb _) end; simplify_res; done.
  - match goal with H : selective_rerun _ _ _ _ = Ok _ |- _ => unfold selective_rerun in H; destruct (find_node _ _) as [st|] end;
      [destruct (n_replay st)|]; simplify_res; done.
Qed.

Lemma session_step s s' : c_step s s' -> session_ok s -> session_ok s'.
Proof.
  destruct 1 as [text b c h h' l Hp Hb E|q now b h d l Hp Hb E|q now b r c error h h' l Hp Hb E Er|q now h x l Hp E
    |h d w l Hd He Hj|w r c error h h' l Hr E]; intros [Ho Hrj Hw Hout]; unfold taken in *; cbn in *.
  - apply copy_pending_spec in E as [Er Ec]; [|done]. split; unfold taken; cbn; rewrite Er; [done..|].
    by rewrite <- app_assoc, Ec, <- Hout, Hp.
  - apply begin_call_inr in E as (Hd & Ec & Ee & Ej). split; unfold taken; cbn; rewrite ?Ec, ?Ej; [by eapply delivers_once_step|done| |done].
    split_and!; [done|done|lia|]. by rewrite Ee, Hw.
  - apply begin_call_inl in E. apply copy_run_result_spec in Er as [Eh Ec]; [|done..]. rewrite E in Ec.
    split; unfold taken; cbn; rewrite Eh; [done..|]. rewrite <- app_assoc, Ec. by rewrite Hp in Hout.
  - by split.
  - pose proof (delivers_once_step _ _ _ _ Hd Ho) as Ho'. rewrite Hrj in Hj. destruct (answers_grow _ _ Hd) as [l' Eg].
    pose proof (answers_bound _ Ho' Hj) as Hn. destruct w as [w|].
    + destruct Hw as (? & ? & ? & ?). split; unfold taken; cbn; [done|done| |].
      * rewrite Eg, length_app, He. split_and!; [done|done|lia|done].
      * by rewrite Eg, take_app_le.
    + assert (l' = []) as ->.
      { rewrite Eg, length_app in Hn. destruct l'; [done|]. cbn in Hn. lia. }
      rewrite app_nil_r in Eg. split; unfold taken; cbn; [done|done|by rewrite He, Eg|by rewrite Eg].
  - destruct Hw as (Hp & Hb & Hle & He). apply copy_run_result_spec in E as [Eh Ec]; [|done..]. rewrite Hp, app_nil_r in Hout.
    assert (length (given_answers (rh_run h)) = Datatypes.S (wt_from w)) as Hl.
    { pose proof (lookup_lt_Some _ _ _ Hr). pose proof (answers_bound _ Ho Hrj). lia. }
    split; unfold taken; cbn; rewrite Eh; [done|done|lia|]. rewrite <- app_assoc, Ec, Hout, Hl.
    erewrite take_S_r by done. unfold outputs_of. rewrite omap_app. by cbn; destruct (output_of r).
Qed.

(** C3: an output reaches the host once.  However the host's calls interleave with the
    threads driving the run, and whatever buffers it offers, as long as the scheduler
    does not refuse the first task of an execution: the outputs it has read,
    then the one kept for its next call, then the one its present call is about to
    return are the outputs of all executions that succeeded, in their order.  A buffer
    that is too small loses nothing and makes nothing run again. *)
Theorem outputs_reach_host m s : rtc c_step (fresh_session m) s ->
  se_received s ++ option_list (rh_pending (se_handle s))
    ++ outputs_of (drop (taken s) (given_answers (rh_run (se_handle s))))
  = outputs_of (given_answers (rh_run (se_handle s)))
  /\ (length (given_answers (rh_run (se_handle s))) <= d_executes (rh_run (se_handle s)))%nat.
Proof.
  intros Hr. assert (session_ok s) as [Ho Hj Hw Hout].
  { assert (session_ok (fresh_session m)) as H0 by (split; [apply once_undriven|done..]).
    induction Hr as [|x y z Hxy _ IH]; [done|]. by eapply IH, session_step. }
  split; [|by apply answers_bound]. rewrite app_assoc, Hout. unfold outputs_of. by rewrite <- omap_app, take_drop.
Qed.
End Runs.

(** ** Replays *)
Section Replays.
Context {J : JsonLib}.
Definition document_limit : Z := 64 * 1024 * 1024.

Definition dage_trace_replay_prepare (engine : option dage_engine_t) (events_json workflow_digest bundle_digest : chars) (out : bool)
    : called TraceReplayPlan :=
  creating engine out (
    text ← try_c (string_of events_json);
    if document_limit <? str_len text then report DAGE_STATUS_INVALID_ARGUMENT "REPLAY_TRACE_TOO_LARGE" else
    match jl_parse text with
    | Err errors => report DAGE_STATUS_PARSE_ERROR ("REPLAY_TRACE_INVALID: " +:+ errors)
    | Ok value =>
      events ← try_c (parse_events value);
      workflow_digest ← try_c (string_of workflow_digest);
      bundle_digest ← try_c (string_of bundle_digest);
      prepared ← try_c (prepare_trace_replay events workflow_digest bundle_digest);
      match prepared with
      | Err e => report DAGE_STATUS_VALIDATION_ERROR (err_code e +:+ ": " +:+ err_message e)
      | Ok plan => hand_over plan
      end
    end).
Definition dage_trace_replay_plan_input (plan : option TraceReplayPlan) :=
  plain_text plan (fun p => Ok (write_json (rp_workflow_input p) false)).
(** The text of the input was just printed, so reading it does not fail. *)
Definition plan_document (p : TraceReplayPlan) : json := obj [
  ("schema_version", JInt 1); ("kind", JString "trace_replay_plan"); ("source_run_id", JString (rp_source_run_id p));
  ("trace_id", JString (rp_trace_id p)); ("workflow_digest", JString (rp_workflow_digest p));
  ("bundle_digest", JString (rp_bundle_digest p));
  ("workflow_input", match jl_parse (write_json (rp_workflow_input p) false) with Ok v => v | Err _ => JNull end);
  ("executor_outcome_count", JUInt (Z.of_nat (length (rp_executor_outcomes p))));
  ("expected_result", execution_result_json (rp_expected_result p))].
Definition dage_trace_replay_plan_describe (plan : option TraceReplayPlan) :=
  plain_text plan (fun p => Ok (compact_json (plan_document p))).
Definition dage_run_create_replay (engine : option dage_engine_t) (workflow : option Workflow) (plan : option TraceReplayPlan)
    (out : bool) : called (RunConfig * RunImpl) :=
  match workflow, plan with
  | Some w, Some plan =>
    creating engine out (
      e ← get_state;
      let cfg := run_config (ce_engine e) w in
      run ← try_c (create_replay_run cfg (wf_bundle_digest w) plan); hand_over (cfg, run))
  | _, _ => refuse_call engine
  end.

(** ** Comparisons *)
Record dage_metric_definition_t := mkCMetric {
  mt_struct_size : Z; mt_name : chars; mt_weight : double; mt_regression_tolerance : double;
  mt_evaluate : option (string -> answer double)
}.
Definition c_metric (evaluate : string -> answer double) (sample : EvaluationSample) : exc (Result double) :=
  let a := evaluate (sample_json sample) in
  Ok (if succeeded a then Ok (an_out a) else Err (spi_error (safe_callback a) "metric.evaluate")).
(** [None]: a definition that is too short or has no function. *)
Fixpoint c_metrics (metrics : list dage_metric_definition_t) : exc (option (list MetricDefinition)) :=
  match metrics with
  | [] => Ok (Some [])
  | m :: rest =>
    match mt_evaluate m with
    | None => Ok None
    | Some evaluate =>
      if mt_struct_size m <? 56 then Ok None else
      name ← string_of (mt_name m);
      rest ← c_metrics rest;
      Ok (l ← rest; Some (mkMetric name (mt_weight m) (mt_regression_tolerance m) (Some (c_metric evaluate)) :: l))
    end
  end.
Definition comparison_json (c : MetricComparison) : json := obj [
  ("name", JString (mc_name c)); ("baseline", JReal (mc_baseline c)); ("candidate", JReal (mc_candidate c));
  ("delta", JReal (mc_delta c)); ("weighted_delta", JReal (mc_weighted_delta c)); ("regressed", JBool (mc_regressed c))].
Definition shadow_document (r : ShadowEvaluationReport) : json := obj [
  ("schema_version", JInt 1); ("kind", JString "shadow_evaluation"); ("baseline_label", JString (sr_baseline_label r));
  ("candidate_label", JString (sr_candidate_label r)); ("candidate_is_shadow", JBool (sr_candidate_is_shadow r));
  ("outputs_equal", JBool (sr_outputs_equal r)); ("recommended", JBool (sr_recommended r));
  ("weighted_score_delta", JReal (sr_weighted_score_delta r)); ("metrics", JArray (comparison_json <$> sr_metrics r))].
Definition dage_shadow_compare (engine : option dage_engine_t) (baseline_json candidate_json : chars)
    (metrics : option (list dage_metric_definition_t)) (metric_count : Z) (report_json : bool) : called transferred :=
  creating engine (report_json && (bool_decide (is_Some metrics) || (metric_count =? 0)) && (metric_count <=? 1024)) (
    baseline_text ← try_c (string_of baseline_json);
    candidate_text ← try_c (string_of candidate_json);
    if (document_limit <? str_len baseline_text) || (document_limit <? str_len candidate_text)
    then mret (DAGE_STATUS_INVALID_ARGUMENT, None) else
    baseline ← try_c (parse_sample baseline_text);
    candidate ← try_c (parse_sample candidate_text);
    definitions ← try_c (c_metrics (default [] metrics));
    match definitions with
    | None => mret (DAGE_STATUS_INVALID_ARGUMENT, None)
    | Some definitions =>
      compared ← try_c (compare_shadow_evaluation baseline candidate definitions);
      match compared with
      | Err e => report DAGE_STATUS_VALIDATION_ERROR (err_code e +:+ ": " +:+ err_message e)
      | Ok r => allocator ← gets ce_allocator; mret (transfer_output (compact_json (shadow_document r)) allocator)
      end
    end).
End Replays.
