(* ===== verification/CApiLaws.v ===== *)
(** * What the C interface promises its hosts

    A handle exactly with success, a graph only as the host's keys allow, events that
    can be read back, and a registry that describes the documents; and where the
    registry does not describe the runtime. *)

From S2P Require Import Prelude Json Expr Sha256 Ir Reliability Workflow Trace RunState RunStep Restore Drive Replay Patch Resource Bundle Resolver ResolverLaws Engine CSpi CConvert CApi CRun.
Open Scope string_scope.
Open Scope list_scope.
Open Scope Z_scope.

(** ** Handles *)
Definition handle_rule {A} (c : called A) : Prop :=
  let '(status, out, _) := c in status = DAGE_STATUS_OK <-> exists a, out = Given a.
(** A body that hands something over exactly where its status is success. *)
Definition hands_over {A} (f : entry A) : Prop :=
  forall e, match f e with (Ok (status, a), _) => status = DAGE_STATUS_OK <-> is_Some a | (Err _, _) => True end.
Lemma guard_status_not_ok x : guard_status x <> DAGE_STATUS_OK.
Proof. unfold guard_status. destruct x; try done; by destruct (str_prefix _ _). Qed.
Lemma refused_rule {A} e : handle_rule (A := A) (refuse_call e).
Proof. split; [done|by intros [a [=]]]. Qed.
Lemma creating_rule {A} engine present (f : entry A) : hands_over f -> handle_rule (creating engine present f).
Proof.
  intros Hf. destruct engine as [e|]; [|apply refused_rule]. unfold creating. destruct present; [|apply refused_rule]. cbn [negb].
  specialize (Hf e). unfold guard. destruct (f e) as [[[status a]|x] e'].
  - unfold handle_rule. rewrite Hf. destruct a as [a|]; cbn; split; intros [y E]; try done; by eexists.
  - split; [intros E; by apply guard_status_not_ok in E|by intros [a [=]]].
Qed.
Lemma hands_over_bind {A B} (m : act exn dage_engine_t A) (f : A -> entry B) : (forall a, hands_over (f a)) -> hands_over (m ≫= f).
Proof. intros Hf e. unfold mbind, act_bind. destruct (m e) as [[a|x] e']; [apply Hf|done]. Qed.
Lemma hands_over_ok {A} (a : A) : hands_over (hand_over a).
Proof. by split. Qed.
Lemma hands_over_status {A} status : status <> DAGE_STATUS_OK -> hands_over (A := A) (mret (status, None)).
Proof. intros Hs e. cbn. split; [done|by intros []]. Qed.
Lemma hands_over_leave {A} x : hands_over (A := A) (leave x).
Proof. done. Qed.
Ltac solve_handle := repeat
  first [ apply creating_rule | apply refused_rule | apply hands_over_bind; intros ? | apply hands_over_ok
        | by apply hands_over_status | apply hands_over_leave
        | match goal with
          | |- hands_over (match ?x with _ => _ end) => destruct x
          | |- handle_rule (match ?x with _ => _ end) => destruct x
          end ].

Section Handles.
Context {J : JsonLib} {C : Crypto}.

Lemma transfer_hands_over text allocator : hands_over (mret (transfer_output text allocator)).
Proof. intros e. unfold transfer_output. cbn. destruct allocator as [allocate|]; [|by split]. by destruct (allocate _). Qed.
Lemma resolve_rule fuel e root ro rp ks ts out r : dage_bundle_resolve fuel e root ro rp ks ts out = Some r -> handle_rule r.
Proof.
  assert (forall x : option dage_engine_t, handle_rule (A := ResolvedBundleGraph) (DAGE_STATUS_INVALID_ARGUMENT, Cleared, x)) as Hc
    by (intros x; split; [done|by intros [a E]]).
  unfold dage_bundle_resolve. destruct e as [e|]; [|intros [= <-]; solve_handle].
  destruct root as [root|]; [|intros [= <-]; solve_handle]. destruct (_ || _); [intros [= <-]; solve_handle|].
  destruct (match ro with Some _ => _ | None => _ end); [intros [= <-]; apply Hc|].
  cbv zeta.
  do 3 (case_match; [intros [= <-]; apply Hc|]).
  intros (body & Hb & <-%(inj Some))%bind_Some. apply creating_rule. unfold resolve_body in Hb.
  repeat case_match; try done; injection Hb as <-; solve_handle.
Qed.

(** a handle comes exactly with success.  Every entry point that creates something
    reports success exactly where it sets the host's pointer to it: a host that looks
    at the status neither uses a handle that is not there nor loses one it must
    destroy. *)
Theorem handle_iff_ok e out (c1 c2 c3 : chars) w options b g p entries n metrics root ro rp ks ts fuel :
  handle_rule (dage_engine_load e c1 out)
  /\ handle_rule (dage_bundle_load e entries n out)
  /\ handle_rule (dage_bundle_load_workflow e b c1 out)
  /\ handle_rule (dage_resolved_bundle_graph_load_workflow e g c1 c2 out)
  /\ handle_rule (dage_workflow_apply_patch e w c1 out)
  /\ handle_rule (dage_run_create_with_options e w options out)
  /\ handle_rule (dage_run_create_replay e w p out)
  /\ handle_rule (dage_trace_replay_prepare e c1 c2 c3 out)
  /\ handle_rule (dage_shadow_compare e c1 c2 metrics n out)
  /\ match dage_bundle_resolve fuel e root ro rp ks ts out with Some r => handle_rule r | None => True end.
Proof.
  split_and!.
  - unfold dage_engine_load. solve_handle.
  - unfold dage_bundle_load. solve_handle.
  - unfold dage_bundle_load_workflow. solve_handle.
  - unfold dage_resolved_bundle_graph_load_workflow. solve_handle.
  - unfold dage_workflow_apply_patch. solve_handle.
  - unfold dage_run_create_with_options. solve_handle.
  - unfold dage_run_create_replay. solve_handle.
  - unfold dage_trace_replay_prepare. solve_handle.
  - unfold dage_shadow_compare. solve_handle. apply transfer_hands_over.
  - destruct (dage_bundle_resolve _ _ _ _ _ _ _ _) eqn:E; [by eapply resolve_rule|done].
Qed.
End Handles.

(** ** Graphs *)
Section Graphs.
Context {J : JsonLib} {C : Crypto}.

(** A graph the host was given is one the resolver accepted, under the host's options. *)
Lemma c_resolve_inv fuel e root o rp ks ts out g e' :
  dage_bundle_resolve fuel e root (Some o) rp ks ts out = Some (DAGE_STATUS_OK, Given g, e') ->
  exists options mode kind provider, load_mode_of (br_mode o) = Some mode /\ policy_of (br_signature_policy o) = Some kind
    /\ ro_mode options = mode /\ ro_lock_json options = text_of_chars (br_lock_json o)
    /\ ro_signature_policy options = mkSignaturePolicy kind (br_signature_threshold o)
    /\ ro_keys options = (f ← ks ≫= ky_find_key; Some (c_key_provider f))
    /\ ro_trust options = (f ← ts ≫= ty_trust; Some (c_trust_policy f))
    /\ resolve_unchecked options fuel provider = Some (Ok g).
Proof.
  unfold dage_bundle_resolve. destruct e as [e|]; [|done]. destruct root as [root|]; [|done]. destruct (_ || _); [done|].
  destruct (_ <? _); [done|]. cbv zeta.
  do 3 (case_match; [done|]). intros (body & Hb & E%(inj Some))%bind_Some. unfold resolve_body in Hb.
  destruct (c_resolver_options _ _ _ _) as [[options|]|x] eqn:Eo.
  - destruct (resolve options fuel _) as [[graph|err]|] eqn:Er; [| |done]; injection Hb as <-; [|by cbn in E].
    cbn in E. injection E as -> _. unfold resolve in Er. destruct (resolve_unchecked _ _ _) as [[g'|x]|] eqn:Eu; [|done..].
    injection Er as ->. unfold c_resolver_options in Eo. destruct (load_mode_of _) as [mode|] eqn:Em; [|done].
    destruct (policy_of _) as [kind|] eqn:Ek; [|done]. apply bind_Ok in Eo as (lock & El & [= <-]).
    unfold string_of in El. destruct (null_chars _); [done|]. injection El as <-.
    eexists _, mode, kind, _. split_and!; [..|exact Eu]; done.
  - injection Hb as <-. by cbn in E.
  - injection Hb as <-. cbn in E. injection E as E _. by apply guard_status_not_ok in E.
Qed.
Lemma c_key_Ok a key : c_key a = Ok key -> succeeded a = true /\ bf_chars (an_out a) = Bytes key /\ str_len key = 32.
Proof.
  unfold c_key. destruct (succeeded a); [|done]. cbn [negb]. destruct (bf_chars _) as [|k]; [done|].
  destruct (Z.eqb_spec (str_len k) 32); [|done]. by intros [= <-].
Qed.
Lemma c_trust_Ok (a : answer Z) : c_trust a = Ok true -> succeeded a = true /\ an_out a <> 0 /\ an_out a <= 1.
Proof.
  unfold c_trust. destruct (succeeded a); [|done]. cbn [negb]. destruct (Z.ltb_spec 1 (an_out a)); [done|].
  by destruct (Z.eqb_spec (an_out a) 0).
Qed.

(** C18: a graph is vetted by the host.  In every mode but development each bundle of a
    graph handed to the host is in its lock file, with that version and digest.  In the
    verified and offline modes, unless signatures are disabled, each has a signature
    the host's callbacks vouched for: the key provider answered with a key of 32
    bytes, the trust policy with neither zero nor more than one, and the signature over the bundle's
    signed text verifies under that key. *)
Theorem c_resolve_vetted fuel e root o rp ks ts out g e' id b :
  dage_bundle_resolve fuel e root (Some o) rp ks ts out = Some (DAGE_STATUS_OK, Given g, e') ->
  0 <= br_signature_threshold o -> find_bundle g id = Some b ->
  (br_mode o <> 0 -> exists locks lock, parse_lock (text_of_chars (br_lock_json o)) = Ok locks /\ om_get id locks = Some lock
     /\ lk_version lock = bd_version b /\ lk_digest lock = bd_digest b)
  /\ (br_mode o = 2 \/ br_mode o = 3 -> br_signature_policy o <> 0 ->
      exists find trust signature key, ks ≫= ky_find_key = Some find /\ ts ≫= ty_trust = Some trust
      /\ signature ∈ bd_signatures b
      /\ (let context := signature_context_json (signature_context b signature) in
          succeeded (find (sg_key_id signature) context) = true
          /\ bf_chars (an_out (find (sg_key_id signature) context)) = Bytes key /\ str_len key = 32
          /\ succeeded (trust context) = true /\ an_out (trust context) <> 0 /\ an_out (trust context) <= 1)
      /\ verify_ed25519 key (bd_signing_payload b) (sg_signature_base64 signature) = true).
Proof.
  intros (options & mode & kind & provider & Em & Ek & <- & Elk & Ep & Eks & Ets & Hr)%c_resolve_inv Ht Hb.
  destruct (resolve_accepted options fuel provider g Hr) with id b as [Hlock Hsig]; [by rewrite Ep|done|].
  rewrite Elk in Hlock. split.
  - intros Hm. apply Hlock. intros E. rewrite E in Em. unfold load_mode_of in Em. by repeat case_match.
  - intros Hm Hk. destruct Hsig as (keys & trust & l & Hks & Hts & _ & Hl & _ & Hf).
    + destruct Hm as [E|E]; rewrite E in Em; injection Em as <-; auto.
    + rewrite Ep. cbn. intros ->. unfold policy_of in Ek. by repeat case_match.
    + rewrite Eks in Hks. apply bind_Some in Hks as (find & Hfind & [= <-]).
      rewrite Ets in Hts. apply bind_Some in Hts as (tr & Htr & [= <-]).
      destruct l as [|key l]; [cbn in Hl; lia|]. apply Forall_cons in Hf as [(sg & Hs & _ & Hkey & Htrust & Hv) _].
      exists find, tr, sg, key. split_and!; [done|done|done| |done].
      apply c_key_Ok in Hkey as (? & ? & ?). apply c_trust_Ok in Htrust as (? & ? & ?). by split_and!.
Qed.
End Graphs.

(** ** Traces *)
Section Traces.
Context {J : JsonLib} {L : JsonLaws J}.
Lemma sink_items events vs :
  Forall event_ok events -> Forall (fun e => text_ok jl_str_ok jl_real_ok 1000 (sink_json e)) events ->
  Forall2 (fun e v => jl_parse (c_emit e) = Ok v) events vs -> parse_items vs = Ok (with_payload <$> events).
Proof.
  intros Ho Ht Hv. assert (vs = (fun e => canon (sink_json e)) <$> events) as ->.
  { revert Ht. clear Ho. induction Hv as [|e v events vs E _ IH]; [done|]. intros [He Hs]%Forall_cons.
    unfold c_emit, compact_json in E. rewrite jl_parse_write in E by done. injection E as <-. cbn. by rewrite IH. }
  apply parse_items_ok. eapply Forall_impl; [exact Ho|]. apply sink_read_back.
Qed.

(** a trace can be fed back.  Where a host keeps the texts its trace sink was given
    and hands them back as one array, the events are read as they were emitted, their
    payloads printed anew: a replay plan is prepared exactly where the runtime would
    prepare it of these events, and it is the same plan. *)
Theorem trace_feedback e events vs text wd bd plan :
  Forall event_ok events -> Forall (fun e => text_ok jl_str_ok jl_real_ok 1000 (sink_json e)) events ->
  Forall2 (fun e v => jl_parse (c_emit e) = Ok v) events vs -> jl_parse text = Ok (JArray vs) -> str_len text <= document_limit ->
  (dage_trace_replay_prepare (Some e) (Bytes text) (Bytes wd) (Bytes bd) true = (DAGE_STATUS_OK, Given plan, Some e))
  <-> prepare_trace_replay (with_payload <$> events) wd bd = Ok (Ok plan).
Proof.
  intros Ho Ht Hv Hp Hl. unfold dage_trace_replay_prepare, creating, guard, mbind, act_bind, try_c, lift. cbn [negb string_of null_chars text_of_chars].
  rewrite (proj2 (Z.ltb_ge _ _) Hl), Hp. cbn [parse_events]. rewrite (sink_items events vs) by done.
  destruct (prepare_trace_replay _ _ _) as [[p|err]|x]; cbn; split; try done.
  - by intros [= ->].
  - by intros [= ->].
Qed.
End Traces.

(** ** The registry *)
Definition documented (kind : string) (v : json) : Prop :=
  exists m, v = JObject m /\ m.*1 ≡ₚ default [] (om_get kind registry_fields).

(** the registry describes the documents.  Each report of the interface, and each
    event a trace sink is given, has exactly the members the registry lists for it. *)
Theorem registry_describes {J : JsonLib} dr pa wd rp sr e :
  documented "patch_dry_run" (dry_run_document dr) /\ documented "patch_analysis" (analysis_document pa)
  /\ documented "workflow_diff" (diff_document wd) /\ documented "trace_replay_plan" (plan_document rp)
  /\ documented "shadow_evaluation" (shadow_document sr) /\ documented "event_envelope" (sink_json e).
Proof. split_and!; (eexists; split; [reflexivity|by apply (bool_decide_unpack _)]). Qed.

(** the registry's node types are not the runtime's: [fail] and [switch] are listed
    and refused by the loader, [start] and [custom] are accepted and not listed; on all
    others the two agree. *)
Theorem registry_misnames type :
  mem_str type registry_node_types = known_type type <->
  type <> "fail" /\ type <> "switch" /\ type <> "start" /\ type <> "custom".
Proof.
  split.
  - intros E. split_and!; intros ->; by vm_compute in E.
  - intros (H1 & H2 & H3 & H4). apply String.eqb_neq in H1, H2, H3, H4. unfold known_type, mem_str, om_mem. cbn.
    rewrite H1, H2, H3, H4.
    repeat match goal with |- context [String.eqb type ?x] => destruct (String.eqb type x); try done end.
Qed.

