(* ===== verification/COwners.v ===== *)
(** * Userdata of registered callbacks (src/c_api.cpp: CallbackOwner)

    Whatever is registered, replaced or refused, the userdata an engine took is
    destroyed once. *)

From S2P Require Import Prelude Json Reliability Workflow RunState Resource Bundle Resolver Engine CSpi CConvert CApi.
Open Scope string_scope.
Open Scope list_scope.
Open Scope Z_scope.

Record registration := mkRegistration { rg_async : bool; rg_name : chars; rg_callback : bool; rg_owner : Z }.
Definition register (r : registration) (e : dage_engine_t) : Z * option dage_engine_t :=
  (if rg_async r then dage_engine_register_async_executor else dage_engine_register_executor)
    (Some e) (rg_name r) (rg_callback r) (rg_owner r).
Definition registered (r : registration) (e : dage_engine_t) : dage_engine_t := default e (register r e).2.
(** The registrations whose userdata the engine takes, also where it then refuses them. *)
Definition takes (r : registration) : Prop := rg_callback r = true /\ null_chars (rg_name r) = false.
#[export] Instance takes_dec r : Decision (takes r).
Proof. unfold takes. apply _. Defined.
Definition owners_taken (rs : list registration) : list Z := rg_owner <$> filter takes rs.

(** ** The values of a map *)
Lemma set_values {A} k (v : A) m x : x ∈ (om_set k v m).*2 -> x = v \/ x ∈ m.*2.
Proof.
  induction m as [|[k' v'] m IH]; cbn [om_set].
  - intros [->|H]%elem_of_cons; [by left|by apply elem_of_nil in H].
  - destruct (String.compare k k'); cbn.
    + rewrite !elem_of_cons. tauto.
    + rewrite !elem_of_cons. tauto.
    + rewrite !elem_of_cons. intros [->|H]; [by right; left|]. destruct (IH H); auto.
Qed.
Lemma set_value_in {A} k (v : A) m : v ∈ (om_set k v m).*2.
Proof. induction m as [|[k' v'] m IH]; cbn [om_set]; [by left|]. destruct (String.compare k k'); cbn; [by left|by left|by right]. Qed.
Lemma del_values {A} k (m : list (string * A)) x : x ∈ (om_del k m).*2 -> x ∈ m.*2.
Proof.
  unfold om_del. induction m as [|[k' v'] m IH]; [done|]. cbn. destruct (negb (String.eqb k k')); cbn; rewrite ?elem_of_cons; [|by auto].
  intros [->|H]; [by left|right; by apply IH].
Qed.

(** ** Who holds what

    [owns l e]: the userdata of [l] is what the engine took, each destroyed, once, or
    still held. *)
Record owns (l : list Z) (e : dage_engine_t) : Prop := mkOwns {
  ow_once : NoDup (ce_destroyed e);
  ow_apart : forall o, o ∈ ce_destroyed e -> o ∉ holders e;
  ow_all : forall o, o ∈ l <-> o ∈ ce_destroyed e \/ o ∈ holders e
}.
(** The maps change and what nobody holds any more is destroyed. *)
Lemma owns_let_go l new before e :
  owns l before -> ce_destroyed e = ce_destroyed before -> (forall o, o ∈ new -> (o ∉ l) /\ o ∈ holders e) ->
  (forall o, o ∈ holders e -> o ∈ new \/ o ∈ holders before) ->
  exists e', let_go before e = (Ok tt, e') /\ owns (new ++ l) e' /\ holders e' = holders e.
Proof.
  intros [Ho Ha Hl] Ed Hn Hh. eexists. split; [reflexivity|]. split; [|done]. split; cbn; change (holders (_ <| ce_destroyed := _ |>)) with (holders e); rewrite ?Ed.
  - apply NoDup_app. split; [done|]. split; [|apply NoDup_filter, NoDup_remove_dups].
    intros o H1 [_ H2]%list_elem_of_filter. rewrite elem_of_remove_dups in H2. exact (Ha o H1 H2).
  - intros o [H|[H _]%list_elem_of_filter]%elem_of_app; [|done]. intros [H'|H']%Hh; [|by apply (Ha o)].
    apply Hn in H' as [H' _]. apply H', Hl. by left.
  - intros o. rewrite (elem_of_app new), (elem_of_app (ce_destroyed before)), list_elem_of_filter, elem_of_remove_dups, Hl. split.
    + intros [H|[H|H]]; [right; by apply Hn|auto|]. destruct (decide (o ∈ holders e)); auto.
    + intros [[H|[_ H]]|H]; [auto|auto|]. destruct (Hh o H); auto.
Qed.

Lemma owns_registering l name owner f e r e' :
  owns l e -> null_chars name = false -> owner ∉ l ->
  (forall n x y, f n x = Ok y -> forall o, o ∈ (en_executors y).*2 ++ (en_async_executors y).*2 ->
     o = owner \/ o ∈ (en_executors x).*2 ++ (en_async_executors x).*2) ->
  registering name owner f e = (r, e') -> owns (owner :: l) e'.
Proof.
  intros He Hn Hl Hf. unfold registering, mbind, act_bind, try_c, lift, string_of. rewrite Hn. cbn [get_state].
  set (e1 := e <| ce_callbacks := om_set (text_of_chars name) owner (ce_callbacks e) |>). change (modify _ e) with (Ok (E := exn) tt, e1).
  destruct (owns_let_go l [owner] e e1 He eq_refl) as (e2 & -> & H2 & Hh2).
  { intros o ->%list_elem_of_singleton. split; [done|]. apply elem_of_app. left. apply set_value_in. }
  { intros o [[->|H]%set_values|H]%elem_of_app; [by left; left|right..]; apply elem_of_app; auto. }
  unfold on_engine, mbind, act_bind, try_c, lift. cbn [get_state].
  destruct (f _ (ce_engine e2)) as [y|x] eqn:Ef; [|by intros [= _ <-]].
  set (e3 := e2 <| ce_engine := y |>). change (modify _ e2) with (Ok (E := exn) tt, e3).
  destruct (owns_let_go (owner :: l) [] e2 e3 H2 eq_refl) as (e4 & -> & H4 & _); [by intros o ?%elem_of_nil| |by intros [= _ <-]].
  intros o [H|H]%elem_of_app; right; [apply elem_of_app; by left|].
  destruct (Hf _ _ _ Ef o H) as [->|H']; [|apply elem_of_app; by right]. rewrite Hh2. apply elem_of_app. left. apply set_value_in.
Qed.
Lemma owns_error l text e : owns l e -> owns l (e <| ce_error := text |>).
Proof. by intros [Ho Ha Hl]. Qed.
Lemma owns_changing l callback f e :
  owns l (f e).2 -> owns l e -> owns l (default e (changing (Some e) callback f).2).
Proof.
  unfold changing. destruct callback; cbn [negb]; [|done]. unfold guard, mbind, act_bind. destruct (f e) as [[u|x] e']; [done|].
  intros He _. by apply owns_error.
Qed.
Lemma sync_values owner n x y : register_executor n (Some owner) x = Ok y ->
  forall o, o ∈ (en_executors y).*2 ++ (en_async_executors y).*2 -> o = owner \/ o ∈ (en_executors x).*2 ++ (en_async_executors x).*2.
Proof.
  unfold register_executor. destruct (valid_id n); [|done]. intros [= <-] o. cbn. rewrite !elem_of_app.
  intros [[->|H]%set_values|H]; auto.
Qed.
Lemma async_values owner n x y : register_async_executor n (Some owner) x = Ok y ->
  forall o, o ∈ (en_executors y).*2 ++ (en_async_executors y).*2 -> o = owner \/ o ∈ (en_executors x).*2 ++ (en_async_executors x).*2.
Proof.
  unfold register_async_executor. destruct (valid_id n); [|done]. intros [= <-] o. cbn. rewrite !elem_of_app.
  intros [H%del_values|[->|H]%set_values]; auto.
Qed.
Lemma registering_null name owner f e : null_chars name = true -> (registering name owner f e).2 = e.
Proof. intros Hn. unfold registering, mbind, act_bind, try_c, lift, string_of. by rewrite Hn. Qed.
Lemma owns_registered l r e : owns l e -> rg_owner r ∉ l -> owns (if decide (takes r) then rg_owner r :: l else l) (registered r e).
Proof.
  intros He Hl. unfold registered, register, takes. destruct r as [async name callback owner]. cbn [rg_async rg_name rg_callback rg_owner] in *.
  destruct callback; [|destruct (decide _) as [[[=] _]|]; by destruct async].
  assert (forall f, (forall n x y, f n x = Ok y -> forall o, o ∈ (en_executors y).*2 ++ (en_async_executors y).*2 ->
      o = owner \/ o ∈ (en_executors x).*2 ++ (en_async_executors x).*2) ->
    owns (if decide (true = true /\ null_chars name = false) then owner :: l else l)
      (default e (changing (Some e) true (registering name owner f)).2)) as Hr.
  { intros f Hf. destruct (null_chars name) eqn:En.
    - destruct (decide _) as [[_ [=]]|]. apply owns_changing; [by rewrite registering_null|done].
    - destruct (decide _) as [_|Hd]; [|by destruct Hd]. unfold changing, guard, mbind, act_bind. cbn [negb].
      destruct (registering name owner f e) as [x e'] eqn:E.
      pose proof (owns_registering l name owner f e x e' He En Hl Hf E). destruct x; [done|by apply owns_error]. }
  destruct async; apply Hr; [apply async_values|apply sync_values].
Qed.

(** Whatever executors are registered under whatever names, replaced or refused: by the
    time the engine is destroyed, the userdata of every registration with a callback and
    a name was destroyed, once, and no other.  This includes the registrations refused
    because the name is no identifier. *)
Lemma userdata_once rs allocator : NoDup (rg_owner <$> rs) ->
  dage_engine_destroy (Some (foldl (fun e r => registered r e) (mkCEngine new_engine "" [] allocator []) rs)) ≡ₚ owners_taken rs.
Proof.
  intros Hd. set (e0 := mkCEngine _ _ _ _ _).
  assert (owns (owners_taken rs) (foldl (fun e r => registered r e) e0 rs)) as [Ho Ha Hl].
  { induction rs as [|r rs IH] using rev_ind.
    - split; [constructor|by intros o ?%elem_of_nil|]. intros o. unfold owners_taken, holders. cbn. set_solver.
    - rewrite fmap_app in Hd. apply NoDup_app in Hd as (Hd & Hr & _). rewrite foldl_app. cbn.
      assert (owns (if decide (takes r) then rg_owner r :: owners_taken rs else owners_taken rs)
        (registered r (foldl (fun e r => registered r e) e0 rs))) as [H1 H2 H3].
      { apply owns_registered; [by apply IH|]. intros (x & Ex & [_ Hx]%list_elem_of_filter)%list_elem_of_fmap.
        apply (Hr (rg_owner r)); [rewrite Ex; by apply list_elem_of_fmap_2|by left]. }
      split; [done|done|]. intros o. rewrite <- H3. unfold owners_taken. rewrite filter_app, fmap_app, elem_of_app.
      rewrite filter_cons. destruct (decide (takes r)); cbn; rewrite ?elem_of_cons, ?elem_of_nil; tauto. }
  apply NoDup_Permutation.
  - apply NoDup_app. split; [done|]. split; [|apply NoDup_remove_dups]. intros o H1 H2. rewrite elem_of_remove_dups in H2. by apply (Ha o).
  - unfold owners_taken. eapply sublist_NoDup; [exact Hd|]. apply fmap_sublist, sublist_filter.
  - intros o. unfold dage_engine_destroy. rewrite elem_of_app, elem_of_remove_dups. by rewrite <- Hl.
Qed.

(** ** Registration in the bindings

    Each gives the engine an object it allocated and a function that frees it.  java
    (dage_jni.cpp) and csharp may fail before they call the library, and free the
    object then; java also frees it where the library refuses the registration.
    [ready]: nothing failed before the call. *)
Inductive registrar := NodeRegister | JavaRegister | CSharpRegister | RustRegister.
Record host_registration := mkHostRegistration { hr_name : string; hr_object : Z; hr_ready : bool }.
Definition may_fail (b : registrar) : bool := match b with JavaRegister | CSharpRegister => true | _ => false end.
Definition enters (b : registrar) (r : host_registration) : bool := negb (may_fail b) || hr_ready r.
(** The objects the binding frees itself, and the engine. *)
Definition native_register (r : host_registration) (e : dage_engine_t) : Z * dage_engine_t :=
  let '(status, e') := dage_engine_register_async_executor (Some e) (Bytes (hr_name r)) true (hr_object r) in (status, default e e').
Definition java_register (r : host_registration) (e : dage_engine_t) : list Z * dage_engine_t :=
  if negb (hr_ready r) then ([hr_object r], e) else
  let '(status, e') := native_register r e in (if negb (status =? DAGE_STATUS_OK) then [hr_object r] else [], e').
Definition csharp_register (r : host_registration) (e : dage_engine_t) : list Z * dage_engine_t :=
  if negb (hr_ready r) then ([hr_object r], e) else ([], (native_register r e).2).
Definition node_register (r : host_registration) (e : dage_engine_t) : list Z * dage_engine_t := ([], (native_register r e).2).
Definition rust_register (r : host_registration) (e : dage_engine_t) : list Z * dage_engine_t := ([], (native_register r e).2).
Definition host_register (b : registrar) : host_registration -> dage_engine_t -> list Z * dage_engine_t :=
  match b with
  | NodeRegister => node_register | JavaRegister => java_register | CSharpRegister => csharp_register | RustRegister => rust_register
  end.
Definition host_registers (b : registrar) (rs : list host_registration) (e : dage_engine_t) : list Z * dage_engine_t :=
  foldl (fun s r => let '(freed, e) := host_register b r s.2 in (s.1 ++ freed, e)) ([], e) rs.
(** The registrations java frees although the engine took them. *)
Definition freed_early (b : registrar) (r : host_registration) : bool :=
  match b with JavaRegister => enters b r && negb (valid_id (hr_name r)) | _ => false end.
Definition native_registration (r : host_registration) : registration := mkRegistration true (Bytes (hr_name r)) true (hr_object r).

Lemma async_status (e : dage_engine_t) name owner :
  ((dage_engine_register_async_executor (Some e) (Bytes name) true owner).1 =? DAGE_STATUS_OK) = valid_id name.
Proof.
  unfold dage_engine_register_async_executor, changing, guard, registering, on_engine, register_async_executor, mbind, act_bind.
  cbn. by destruct (valid_id name).
Qed.
Lemma native_register_spec r e :
  ((native_register r e).1 =? DAGE_STATUS_OK) = valid_id (hr_name r) /\ (native_register r e).2 = registered (native_registration r) e.
Proof.
  pose proof (async_status e (hr_name r) (hr_object r)) as Hs. unfold native_register, registered, register.
  cbn [rg_async rg_name rg_callback rg_owner native_registration].
  by destruct (dage_engine_register_async_executor _ _ _ _) as [status e'].
Qed.
Lemma host_register_spec b r e :
  (host_register b r e).1 = (if enters b r then [] else [hr_object r]) ++ (if freed_early b r then [hr_object r] else [])
  /\ (host_register b r e).2 = if enters b r then registered (native_registration r) e else e.
Proof.
  destruct (native_register_spec r e) as [Hs He]. unfold freed_early, enters.
  destruct b; cbn [host_register may_fail negb orb andb]; unfold node_register, java_register, csharp_register, rust_register;
    try destruct (hr_ready r); cbn [negb andb]; try done.
  destruct (native_register r e) as [status e']. cbn [fst snd] in *. rewrite Hs. by destruct (valid_id (hr_name r)).
Qed.
Lemma host_registers_spec b rs e :
  (host_registers b rs e).1 ≡ₚ (hr_object <$> filter (fun r => enters b r = false) rs) ++ (hr_object <$> filter (fun r => freed_early b r = true) rs)
  /\ (host_registers b rs e).2
     = foldl (fun e r => registered r e) e (native_registration <$> filter (fun r => enters b r = true) rs).
Proof.
  induction rs as [|r rs [IH1 IH2]] using rev_ind; [done|].
  unfold host_registers in *. rewrite foldl_app. cbn [foldl]. set (s := foldl _ _ rs) in *.
  destruct (host_register_spec b r s.2) as [E1 E2]. destruct (host_register b r s.2) as [freed e']. cbn in *. subst.
  rewrite !filter_app, !fmap_app, foldl_app, <- IH2, !filter_cons, !filter_nil, IH1. split.
  - rewrite <- !app_assoc. apply Permutation_app_head. rewrite !(Permutation_app_comm (_ <$> filter _ rs)), <- app_assoc.
    destruct (enters b r), (freed_early b r); done.
  - by destruct (enters b r).
Qed.
Lemma taken_native l : owners_taken (native_registration <$> l) = hr_object <$> l.
Proof. unfold owners_taken. induction l as [|r l IH]; [done|]. rewrite !fmap_cons, filter_cons, decide_True by done. by rewrite fmap_cons, IH. Qed.
Lemma enters_split b rs : filter (fun r => enters b r = false) rs ++ filter (fun r => enters b r = true) rs ≡ₚ rs.
Proof.
  induction rs as [|r rs IH]; [done|]. rewrite !filter_cons. destruct (enters b r); cbn [decide].
  - rewrite decide_False, decide_True by done. by rewrite <- Permutation_middle, IH.
  - rewrite decide_True, decide_False by done. by rewrite <- app_comm_cons, IH.
Qed.

(** C14: userdata is freed once, but for java.  Whatever executors are registered through
    a binding, replaced or refused: by the time the engine is destroyed, each object a
    registration allocated was freed, once, by the binding or by the engine.  Only java
    frees objects twice, and these are those of the registrations the engine refuses,
    because the name is no identifier. *)
Theorem userdata_freed b rs allocator : NoDup (hr_object <$> rs) ->
  let '(freed, e) := host_registers b rs (mkCEngine new_engine "" [] allocator []) in
  freed ++ dage_engine_destroy (Some e) ≡ₚ (hr_object <$> rs) ++ (hr_object <$> filter (fun r => freed_early b r = true) rs).
Proof.
  intros Hd. destruct (host_registers_spec b rs (mkCEngine new_engine "" [] allocator [])) as [E1 E2].
  destruct (host_registers b rs _) as [freed e]. cbn [fst snd] in *. rewrite E1, E2.
  rewrite userdata_once, taken_native, <- app_assoc, (Permutation_app_comm (_ <$> filter (fun r => freed_early _ _ = _) _)), app_assoc, <- fmap_app.
  - by rewrite enters_split.
  - rewrite <- list_fmap_compose. eapply sublist_NoDup; [exact Hd|]. apply fmap_sublist, sublist_filter.
Qed.
(** Java registrations, the first under a name that is no identifier. *)
Definition java_registrations : list host_registration :=
  [mkHostRegistration "no name" 1 true; mkHostRegistration "echo" 2 true; mkHostRegistration "echo" 3 true].
Lemma userdata_freed_witness :
  let '(freed, e) := host_registers JavaRegister java_registrations (mkCEngine new_engine "" [] None []) in
  freed ++ dage_engine_destroy (Some e) ≡ₚ [1; 2; 3] ++ [1].
Proof.
  assert (NoDup (hr_object <$> java_registrations)) as Hd by by apply (bool_decide_unpack _).
  exact (userdata_freed JavaRegister java_registrations None Hd).
Defined.
