(* ===== verification/CRunCases.v ===== *)
(** * The C interface at work: runs, stores and traces

    Closed instances of the theorems about runs and host callbacks, on the workflow of
    Scenario.v. *)

From S2P Require Import Prelude Json Expr Sha256 Ir Reliability Workflow Trace RunState RunStep Restore Drive Replay Patch Resource Bundle Resolver Scenario Services Engine CSpi CSpiLaws CConvert CApi CRun CApiLaws.
Open Scope string_scope.
Open Scope list_scope.
Open Scope Z_scope.
#[local] Existing Instance JsonRef.lib.

(** ** A host with a buffer that is too small at first *)
Definition answered_text : string := Eval vm_compute in write_json (xr_output outcome) false.
Definition small : buffers := mkBuffers (Some "ab") 2 true.
Definition large : buffers := mkBuffers (Some (Nat.iter 200 (String " ") "")) 200 true.
Definition at_ (d : driver) (w : option waiting_call) : session := mkSession (mkCRun d None) w [].
Definition asked : option waiting_call := Some (mkWaiting 0 small).
Definition kept : session := mkSession (mkCRun answered (Some answered_text)) None [].
Definition told : session := mkSession (mkCRun answered None) None [answered_text].
Definition large_copy : copied := Eval vm_compute in
  default (mkCopied 0 None None) (copy_output answered_text (bu_memory large) (bu_size large) true).
Lemma host_reads : rtc (c_step cfg host) (fresh_session start) told.
Proof.
  apply (rtc_l _ _ (at_ (begun (undriven start)) asked)).
  { apply (CBegin cfg host (RqExecute (Bytes (write_json input false))) 0 small (mkCRun (undriven start) None)); [done|by vm_compute|by vm_compute]. }
  apply (rtc_l _ _ (at_ run_armed asked)).
  { apply (CDrive cfg host (mkCRun (begun (undriven start)) None)); [exact (DArm cfg host [] 0 [] (begun (undriven start)) eq_refl)|done..]. }
  apply (rtc_l _ _ (at_ (launched 0 [] run_armed) asked)).
  { apply (CDrive cfg host (mkCRun run_armed None)); [exact (DLaunch cfg host [] 0 [] run_armed eq_refl)|done..]. }
  apply (rtc_l _ _ (at_ entered asked)).
  { apply (CDrive cfg host (mkCRun (launched 0 [] run_armed) None)); [exact (DEnter cfg host [] 0 [] (launched 0 [] run_armed) eq_refl)|done..]. }
  apply (rtc_l _ _ (at_ (stepped outcome final entered) asked)).
  { apply (CDrive cfg host (mkCRun entered None)); [|done..]. by apply (DStep cfg host 11 [] 0 [] final outcome entered); [|exact runs]. }
  apply (rtc_l _ _ (at_ delivered asked)).
  { apply (CDrive cfg host (mkCRun (stepped outcome final entered) None)); [|by vm_compute..].
    exact (DDeliver cfg host [] 0 [] outcome (stepped outcome final entered) eq_refl eq_refl). }
  apply (rtc_l _ _ (at_ answered asked)).
  { apply (CDrive cfg host (mkCRun delivered None)); [|by vm_compute..].
    exact (DRespond cfg host [] 0 [] (Some (0%nat, outcome)) delivered eq_refl). }
  apply (rtc_l _ _ kept).
  { apply (CReturn cfg host (mkWaiting 0 small) outcome (mkCopied DAGE_STATUS_BUFFER_TOO_SMALL (Some (str_len answered_text + 1)) (Some "ab")) None
      (mkCRun answered None)); by vm_compute. }
  replace told with (mkSession (mkCRun answered None) None ([] ++ received large_copy)) by by vm_compute.
  apply rtc_once, (CPending cfg host answered_text large large_copy (mkCRun answered (Some answered_text))); by vm_compute.
Qed.
Lemma outputs_reach_host_witness : se_received told = [answered_text] /\ outputs_of (given_answers answered) = [answered_text].
Proof.
  split; [done|]. destruct (outputs_reach_host cfg host start told host_reads) as [E _]. etrans; [symmetry; exact E|by vm_compute].
Defined.

(** ** A host that keeps its records in memory *)
Definition in_buffer (text : string) : dage_owned_buffer_t := mkOwned (Bytes text) (Some 1).
Definition reply {A B} (f : A -> B) (b : B) (q : Result A * MemoryStateStore) : answer B * MemoryStateStore :=
  (match q.1 with Ok a => mkAnswer (Ok DAGE_STATUS_OK) (f a) | Err _ => mkAnswer (Ok DAGE_STATUS_NOT_FOUND) b end, q.2).
Definition c_of (r : StateRecord) : dage_state_record_t :=
  mkCRecord (sr_version r) (sr_epoch r) (in_buffer (sr_owner r)) (in_buffer (sr_checkpoint r)).
Definition no_c_record : dage_state_record_t := mkCRecord 0 0 no_buffer no_buffer.
Definition ids_text (ids : list string) : string := write_json (JArray (JString <$> ids)) false.
Definition memory_table : dage_state_store_vtable_t MemoryStateStore := mkStoreTable
  (fun id cp s => reply (fun _ => tt) tt (memory_put id cp s)) (fun id s => reply in_buffer no_buffer (memory_get id s))
  (fun id s => reply (fun _ => tt) tt (memory_erase id s)) (fun id s => reply c_of no_c_record (memory_load id s))
  (fun id e cp s => reply (fun v => v) 0 (memory_compare_exchange id e cp s))
  (fun id e o s => reply c_of no_c_record (memory_claim id e o s)) (fun p s => reply (in_buffer ∘ ids_text) no_buffer (memory_list p s)).
Lemma reply_answers {A R} (f : R -> A) (a : A) (read : answer A -> R -> Prop) (q : Result R * MemoryStateStore) :
  (forall r, read (mkAnswer (Ok DAGE_STATUS_OK) (f r)) r) -> answers read (reply f a q) q.
Proof. intros Hr. split; [done|]. destruct q as [[r|e] s]; cbn; [|done]. split; [done|apply Hr]. Qed.
Lemma memory_implements : implements memory_table.
Proof. split; intros; by apply reply_answers. Qed.
Definition records : MemoryStateStore := mkMemory [("run-1", a_record)].
Definition in_memory : CStateStore MemoryStateStore := mkCStore records [].
Lemma c_store_refines_witness :
  (ss_load (StateStore := c_state_store memory_table) "run-1" in_memory).1 = Ok a_record
  /\ (ss_list (StateStore := c_state_store memory_table) "" in_memory).1 = Ok ["run-1"].
Proof.
  destruct (c_store_refines memory_table "run-1" 0 "{}" "p" "" in_memory memory_implements) as (_ & _ & _ & [_ Hl] & _ & _ & [_ Hi]).
  - by vm_compute.
  - split; [exact Hl|exact Hi].
Defined.

(** ** A host that has no record of a branch *)
Definition empty_table : dage_state_store_vtable_t MemoryStateStore :=
  mkStoreTable (vt_put memory_table) (vt_get memory_table) (vt_erase memory_table)
    (fun _ s => (mkAnswer (Ok DAGE_STATUS_NOT_FOUND) no_c_record, s)) (vt_compare_exchange memory_table) (vt_claim memory_table)
    (vt_list memory_table).
Definition over_host (m : machine MemoryStateStore polls) : machine (CStateStore MemoryStateStore) polls :=
  mkMachine (m_run m) (mkCStore (m_store m) []) (m_world m) (m_trace m) (m_log m).
Lemma c_store_strands_witness : exists e s',
  launch_branch (H := c_state_store empty_table) cfg host "fan" "left" (over_host fanning) = (Err e, s') /\ m_log s' = [].
Proof. exact (c_store_strands empty_table cfg host "fan" "left" (over_host fanning) eq_refl (fun _ _ => eq_refl)). Defined.
(** The same launch over the library's own store starts the branch. *)
Example own_store_launches : is_ok (launch_branch cfg host "fan" "left" fanning).1 = true
  /\ length (m_log (launch_branch cfg host "fan" "left" fanning).2) = 1%nat.
Proof. by vm_compute. Qed.

(** ** A trace kept by the host and handed back *)
Definition engine : dage_engine_t := mkCEngine new_engine "" [] None [].
Definition kept_events : list json := Eval vm_compute in (fun e => canon (sink_json e)) <$> recorded_trace.
Definition kept_text : string := write_json (JArray kept_events) false.
Definition fed_back : TraceReplayPlan := Eval vm_compute in
  match prepare_trace_replay (with_payload <$> recorded_trace) (w_digest workflow) "" with Ok (Ok p) => p | _ => empty_plan end.
Definition event_okb (e : EventEnvelope) : bool :=
  forallb (fun z => (0 <=? z) && (z <=? u32_max)) [ev_schema_version e; ev_attempt e]
  && forallb (fun z => (0 <=? z) && (z <? 2 ^ 64)) [ev_sequence e; ev_timestamp_unix_ms e; ev_elapsed_ms e].
Lemma event_okb_ok e : event_okb e = true -> event_ok e.
Proof. unfold event_okb. cbn [forallb]. rewrite !andb_true_iff, !Z.leb_le, !Z.ltb_lt. unfold is_u64. intros. split; unfold is_u64; lia. Qed.
Lemma forallb_all {A} (f : A -> bool) (P : A -> Prop) l : (forall x, f x = true -> P x) -> forallb f l = true -> Forall P l.
Proof. intros Hf Hl. apply Forall_forall. intros x Hx. apply Hf. rewrite forallb_forall in Hl. by apply Hl, list_elem_of_In. Qed.
Lemma trace_feedback_witness :
  dage_trace_replay_prepare (Some engine) (Bytes kept_text) (Bytes (w_digest workflow)) (Bytes "") true
    = (DAGE_STATUS_OK, Given fed_back, Some engine)
  /\ outcome_key <$> rp_executor_outcomes fed_back = [("root", "save", 1); ("root", "meet", 1)].
Proof.
  split; [|by vm_compute].
  apply (trace_feedback (L := JsonRef.laws) engine recorded_trace kept_events kept_text (w_digest workflow) "" fed_back).
  - apply (forallb_all event_okb _ _ event_okb_ok). by vm_compute.
  - apply (forallb_all (fun e => text_okb 1000 (sink_json e))); [|by vm_compute]. intros e. apply (text_okb_ok 1000).
  - change kept_events with ((fun e => canon (sink_json e)) <$> recorded_trace). apply Forall2_fmap_r, Forall_Forall2_diag.
    apply (forallb_all (fun e => text_okb 1000 (sink_json e))); [|by vm_compute].
    intros e He. exact (jl_parse_write (JsonLaws := JsonRef.laws) false (sink_json e) (text_okb_ok 1000 _ He)).
  - by vm_compute.
  - apply Z.leb_le. by vm_compute.
  - by vm_compute.
Defined.
