(* ===== verification/CApiCases.v ===== *)
(** * The C interface at work: a resolution through host callbacks

    The bundles of BundleCases.v, served by a host through C functions with their
    listings as JSON texts, resolved in the verified mode under the lock file of an
    earlier resolution. *)

From S2P Require Import Prelude Json Sha256 Reliability Workflow Resource Bundle CanonText Resolver ResolverLaws BundleCases Engine CSpi CConvert CApi CApiLaws.
Open Scope string_scope.
Open Scope list_scope.
Open Scope Z_scope.
Import World.

Definition in_owned (text : string) : dage_owned_buffer_t := mkOwned (Bytes text) (Some 1).
Definition texts (l : list string) : dage_owned_buffer_t := in_owned (compact_json (strings_json l)).
Definition reply_with {A B} (f : A -> B) (b : B) (r : Result A) : CSpi.answer B :=
  match r with Ok a => mkAnswer (Ok DAGE_STATUS_OK) (f a) | Err _ => mkAnswer (Ok DAGE_STATUS_NOT_FOUND) b end.
Definition served (p : ResourceProvider) : dage_resource_provider_t :=
  mkCProvider 72 (Some (reply_with texts no_buffer (list_resources p)))
    (Some (fun path => reply_with in_owned no_buffer (read_resource p path))) (Some 7).
Definition c_table : dage_bundle_repository_vtable_t :=
  mkCRepository 64 (Some (fun id offline => reply_with texts no_buffer (available_versions repository id offline)))
    (Some (fun id version offline => reply_with served (mkCProvider 0 None None None) (get_bundle repository id version offline)))
    (Some (mkAnswer (Ok DAGE_STATUS_OK) (in_owned "memory"))).
Definition c_keys : dage_key_provider_vtable_t :=
  mkCKeys 48 (Some (fun id _ => if String.eqb id "release" then mkAnswer (Ok DAGE_STATUS_OK) (in_owned key)
                                else mkAnswer (Ok DAGE_STATUS_NOT_FOUND) no_buffer)).
Definition c_trusts : dage_trust_policy_vtable_t := mkCTrust 48 (Some (fun _ => mkAnswer (Ok DAGE_STATUS_OK) 1)).
Definition c_options : dage_bundle_resolver_options_t := mkCResolverOptions 96 2 1 1 (Bytes (gr_lock graph)).
Definition an_engine : dage_engine_t := mkCEngine new_engine "" [] None [].
Definition c_resolved : option (called ResolvedBundleGraph) :=
  dage_bundle_resolve 9 (Some an_engine) (Some (served (app "1.1.0"))) (Some c_options) (Some c_table) (Some c_keys) (Some c_trusts) true.
Lemma c_resolution : c_resolved = Some (DAGE_STATUS_OK, Given verified_graph, Some an_engine).
Proof. vm_compute. reflexivity. Qed.
Lemma c_resolve_vetted_witness : exists b signature, find_bundle verified_graph "org.lib" = Some b
  /\ signature ∈ bd_signatures b /\ verify_ed25519 key (bd_signing_payload b) (sg_signature_base64 signature) = true.
Proof.
  destruct (find_bundle verified_graph "org.lib") as [b|] eqn:E; [|by vm_compute in E].
  destruct (c_resolve_vetted 9 (Some an_engine) (Some (served (app "1.1.0"))) c_options (Some c_table) (Some c_keys) (Some c_trusts) true
    verified_graph (Some an_engine) "org.lib" b c_resolution ltac:(done) E) as [_ H].
  destruct H as (find & trust & sg & k & Hf & _ & Hs & (Hk & Hb & _) & Hv); [by left|done|].
  exists b, sg. split_and!; [done|done|]. injection Hf as <-. cbv beta in Hk, Hb. destruct (String.eqb _ _); [|done].
  injection Hb as <-. exact Hv.
Defined.
