(* ===== verification/CHandles.v ===== *)
(** * Handles that change owners (src/c_api.cpp: CScheduler, scheduler tasks, completions)

    The handle of a scheduler task or of an asynchronous executor's completion passes
    from the library to the host and is deleted by whoever consumes it.  The model of a
    handle outlives its deletion: it counts the deletions, and [fault] records a use
    or a deletion of a handle that was already deleted, after which the C++ program
    has no behaviour.  Allocation by [new] succeeds. *)

From S2P Require Import Prelude Json Reliability Workflow RunState Timer CSpi.
Open Scope string_scope.
Open Scope list_scope.
Open Scope Z_scope.

(** ** Scheduler tasks

    The future of a task is not ready, or ready with a value or an exception. *)
Record dage_scheduler_task_t := mkTaskHandle {
  th_deleted : nat; th_fault : bool; th_runs : nat; th_future : option (exc unit)
}.
#[export] Instance eta_dage_scheduler_task_t : Settable dage_scheduler_task_t := fun t =>
  mkTaskHandle (th_deleted t) (th_fault t) (th_runs t) (th_future t).
Definition new_task : dage_scheduler_task_t := mkTaskHandle 0 false 0 None.
Definition delete_task (t : dage_scheduler_task_t) : dage_scheduler_task_t :=
  t <| th_fault := th_fault t || negb (th_deleted t =? 0)%nat |> <| th_deleted := Datatypes.S (th_deleted t) |>.
(** A promise that is satisfied throws where it is set again. *)
Definition set_promise (r : exc unit) (t : dage_scheduler_task_t) : bool * dage_scheduler_task_t :=
  match th_future t with None => (true, t <| th_future := Some r |>) | Some _ => (false, t) end.

(** [outcome]: how the task returns. *)
Definition dage_scheduler_task_run (outcome : exc unit) (task : option dage_scheduler_task_t) : Z * option dage_scheduler_task_t :=
  match task with
  | None => (DAGE_STATUS_INVALID_ARGUMENT, None)
  | Some t =>
    let t := t <| th_runs := Datatypes.S (th_runs t) |> in
    let '(status, t) :=
      match outcome with
      | Ok _ => let '(set, t) := set_promise (Ok tt) t in (if set then DAGE_STATUS_OK else DAGE_STATUS_EXECUTION_ERROR, t)
      | Err x => (DAGE_STATUS_EXECUTION_ERROR, (set_promise (Err x) t).2)
      end in
    (status, Some (delete_task t))
  end.
Definition dage_scheduler_task_abandon (task : option dage_scheduler_task_t) : option dage_scheduler_task_t :=
  t ← task; Some (delete_task (set_promise (Err (RuntimeError "C scheduler abandoned task")) t).2).

(** What a host does with a task. *)
Inductive task_op := TaskRun (outcome : exc unit) | TaskAbandon.
Definition task_do (o : task_op) (t : dage_scheduler_task_t) : dage_scheduler_task_t :=
  default t match o with
            | TaskRun outcome => (dage_scheduler_task_run outcome (Some t)).2
            | TaskAbandon => dage_scheduler_task_abandon (Some t)
            end.
Definition task_ops (ops : list task_op) (t : dage_scheduler_task_t) : dage_scheduler_task_t := foldl (fun t o => task_do o t) t ops.
(** [CScheduler::submit], the host's callback acting on the handle. *)
Definition after_submit (status : Z) (t : dage_scheduler_task_t) : exc unit * dage_scheduler_task_t :=
  if negb (status =? DAGE_STATUS_OK) then (Err (RuntimeError "C scheduler rejected task"), delete_task t) else (Ok tt, t).
Definition submit (callback : dage_scheduler_task_t -> Z * dage_scheduler_task_t) : exc unit * dage_scheduler_task_t :=
  let '(status, t) := callback new_task in after_submit status t.

Definition task_life (inside : list task_op) (status : Z) (later : list task_op) : exc unit * dage_scheduler_task_t :=
  let '(r, t) := submit (fun t => (status, task_ops inside t)) in (r, task_ops later t).
(** The contract of docs/c_runtime_spi.md: accepted tasks are consumed once, others
    are left alone. *)
Definition keeps_contract (inside : list task_op) (status : Z) (later : list task_op) : bool :=
  if status =? DAGE_STATUS_OK then (length (inside ++ later) =? 1)%nat else (length (inside ++ later) =? 0)%nat.

(** The future of a task a host accepts becomes ready with the outcome of its one run,
    or with an exception where the host abandons it; its handle is deleted once. *)
Lemma task_contract inside status later : keeps_contract inside status later = true ->
  let '(r, t) := task_life inside status later in
  th_fault t = false /\ th_deleted t = 1%nat /\ (th_runs t <= 1)%nat
  /\ match r with Ok _ => is_Some (th_future t) | Err _ => th_runs t = 0%nat end.
Proof.
  unfold keeps_contract, task_life, submit, after_submit. destruct (status =? DAGE_STATUS_OK); cbn [negb].
  - destruct inside as [|o [|o' inside]]; [destruct later as [|o [|o' later]]|destruct later|]; try (cbn; done);
      destruct o as [[?|?]|]; intros _; cbn; split_and!; done || lia || by eexists.
  - destruct inside as [|o inside]; [destruct later as [|o later]|]; try (cbn; done). intros _. cbn. split_and!; done || lia.
Qed.

(** ** Completions of asynchronous executors

    The handle holds the completion the run waits for and the committer of its effect;
    [ch_cancelled] is what the run's token says. *)
Record dage_executor_completion_t := mkCompletionHandle {
  ch_deleted : nat; ch_fault : bool; ch_completion : Completion; ch_cancelled : bool; ch_committer : bool; ch_commits : nat
}.
#[export] Instance eta_dage_executor_completion_t : Settable dage_executor_completion_t := fun h =>
  mkCompletionHandle (ch_deleted h) (ch_fault h) (ch_completion h) (ch_cancelled h) (ch_committer h) (ch_commits h).
Definition new_completion (cancelled committer : bool) : dage_executor_completion_t :=
  mkCompletionHandle 0 false (mkCompletion false true []) cancelled committer 0.
Definition use_completion (h : dage_executor_completion_t) : dage_executor_completion_t :=
  h <| ch_fault := ch_fault h || negb (ch_deleted h =? 0)%nat |>.
Definition delete_completion (h : dage_executor_completion_t) : dage_executor_completion_t :=
  (use_completion h) <| ch_deleted := Datatypes.S (ch_deleted h) |>.
(** The results the run was given. *)
Definition answers_of (h : dage_executor_completion_t) : list ExecutionResult := cp_calls (ch_completion h).

Section Completions.
Context {J : JsonLib}.
(** [throws]: whether the run's callback throws. *)
Definition dage_executor_complete (status : Z) (output : option dage_owned_buffer_t) (throws : bool)
    (completion : option dage_executor_completion_t) : Z * option dage_executor_completion_t :=
  match completion with
  | None => (DAGE_STATUS_INVALID_ARGUMENT, None)
  | Some h =>
    let '(b, c) := Timer.complete (owned_result status output).1 throws (ch_completion h) in
    (if b then DAGE_STATUS_OK else DAGE_STATUS_INVALID_ARGUMENT, Some (delete_completion (h <| ch_completion := c |>)))
  end.
Definition abandoned : ExecutionResult := fail_result "cancelled" "ASYNC_ABANDONED" "Async operation abandoned.".
Definition dage_executor_abandon (throws : bool) (completion : option dage_executor_completion_t) : option dage_executor_completion_t :=
  h ← completion;
  Some (delete_completion (h <| ch_completion := (Timer.complete abandoned throws (ch_completion h)).2 |>)).
Definition dage_executor_completion_is_cancelled (completion : option dage_executor_completion_t)
    : bool * option dage_executor_completion_t :=
  match completion with None => (false, None) | Some h => (ch_cancelled h, Some (use_completion h)) end.
Definition dage_executor_completion_commit_effect (completion : option dage_executor_completion_t)
    : Z * option dage_executor_completion_t :=
  match completion with
  | None => (DAGE_STATUS_INVALID_ARGUMENT, None)
  | Some h =>
    let h := use_completion h in
    if ch_committer h then (DAGE_STATUS_OK, Some (h <| ch_commits := Datatypes.S (ch_commits h) |>))
    else (DAGE_STATUS_INVALID_ARGUMENT, Some h)
  end.

(** What the registered executor does: it hands the handle to the host's callback, and
    answers and deletes it itself where the callback reports that it did not start. *)
Definition not_started : ExecutionResult := fail_result "tool_error" "ASYNC_START_FAILED" "Async C executor did not start.".
Definition after_callback (throws : bool) (started : Z) (h : dage_executor_completion_t) : dage_executor_completion_t :=
  if negb (started =? DAGE_STATUS_OK)
  then delete_completion (h <| ch_completion := (Timer.complete not_started throws (ch_completion h)).2 |>)
  else h.
End Completions.
