(* ===== verification/Bindings.v ===== *)
(** * Completion handles in the language bindings (bindings/)

    Every binding keeps the handle of a completion behind a lock and takes it out to
    consume it: Completion (node/native.cpp, rust/src/lib.rs), AsyncExecutionContext
    (java, csharp) and _Completion (python).  The methods of one such object are atomic,
    so whatever threads do with it is a sequence of them. *)

From S2P Require Import Prelude Json Reliability Workflow RunState Timer CSpi CHandles.
Open Scope string_scope.
Open Scope list_scope.
Open Scope Z_scope.

(** The object: whether it still holds the handle, and the handle. *)
Record guarded := mkGuarded { gd_held : bool; gd_native : dage_executor_completion_t }.
#[export] Instance eta_guarded : Settable guarded := fun g => mkGuarded (gd_held g) (gd_native g).

Section Guards.
Context {J : JsonLib} (throws : bool).
(** [take], then a call that consumes the handle. *)
Definition consume (call : option dage_executor_completion_t -> option dage_executor_completion_t) (g : guarded) : guarded :=
  if gd_held g then mkGuarded false (default (gd_native g) (call (Some (gd_native g)))) else g.
(** A call under the lock that leaves the handle. *)
Definition probe (call : option dage_executor_completion_t -> option dage_executor_completion_t) (g : guarded) : guarded :=
  if gd_held g then g <| gd_native := default (gd_native g) (call (Some (gd_native g))) |> else g.
Definition complete_with (text : string) : guarded -> guarded :=
  consume (fun h => (dage_executor_complete DAGE_STATUS_OK (Some (mkOwned (Bytes text) None)) throws h).2).
Definition complete_failed : guarded -> guarded :=
  consume (fun h => (dage_executor_complete DAGE_STATUS_EXECUTION_ERROR None throws h).2).
Definition abandon : guarded -> guarded := consume (dage_executor_abandon throws).
Definition ask_cancelled : guarded -> guarded := probe (fun h => (dage_executor_completion_is_cancelled h).2).
Definition commit_effect : guarded -> guarded := probe (fun h => (dage_executor_completion_commit_effect h).2).

(** How the host's function ends: with a value, as the text it is serialised to,
    [None] where that fails or there is no value; with an error; or cancelled. *)
Inductive settlement := Value (text : option string) | Failure | Cancellation.

(** node: [settle_success] and the rejection.  A promise has no cancellation. *)
Definition node_settle (s : settlement) : guarded -> guarded :=
  match s with Value (Some text) => complete_with text | _ => complete_failed end.
(** java: the action of [whenComplete]. *)
Definition java_settle (s : settlement) : guarded -> guarded :=
  match s with Cancellation => abandon | Failure => complete_failed | Value (Some text) => complete_with text | Value None => complete_failed end.
(** csharp: the continuation; [Complete] of null throws before it takes the handle. *)
Definition csharp_settle (s : settlement) : guarded -> guarded :=
  match s with Cancellation => abandon | Failure => complete_failed | Value (Some text) => complete_with text | Value None => id end.
(** python: [complete] takes the handle before it serialises the value.  The exception
    of [json.dumps] leads to [complete(5)], which finds no handle. *)
Definition python_complete (value : option string) (g : guarded) : bool * guarded :=
  match value with
  | Some text => (true, complete_with text g)
  | None => (negb (gd_held g), consume id g)
  end.
Definition python_settle (s : settlement) (g : guarded) : guarded :=
  match s with
  | Cancellation => abandon g
  | Failure => complete_failed g
  | Value value => let '(returned, g) := python_complete value g in if returned then g else complete_failed g
  end.
(** rust: the spawned task.  A future gives a text. *)
Definition rust_settle (s : settlement) : guarded -> guarded :=
  match s with Cancellation => abandon | Value (Some text) => complete_with text | _ => complete_failed end.

Inductive binding := Node | Java | CSharp | Python | Rust.
Definition settle (b : binding) : settlement -> guarded -> guarded :=
  match b with Node => node_settle | Java => java_settle | CSharp => csharp_settle | Python => python_settle | Rust => rust_settle end.

(** ** Starting

    The callback the library calls: it has no context to make ([NoContext]: the thread
    cannot be attached, the registration is gone), it cannot queue the work, or it
    queues it. *)
Inductive launch := NoContext | NotQueued | Launched.
#[export] Instance launch_dec : EqDecision launch.
Proof. solve_decision. Defined.
(** node: [async_executor]; the queue's refusal gives the handle back. *)
Definition node_start (l : launch) (g : guarded) : Z * guarded :=
  match l with Launched => (DAGE_STATUS_OK, g) | _ => (DAGE_STATUS_EXECUTION_ERROR, g) end.
(** java: [java_async_execute]; the bridge fails the context its executor rejects. *)
Definition java_start (l : launch) (g : guarded) : Z * guarded :=
  match l with
  | NoContext => (DAGE_STATUS_EXECUTION_ERROR, g)
  | NotQueued => (DAGE_STATUS_OK, complete_failed g)
  | Launched => (DAGE_STATUS_OK, g)
  end.
(** csharp: [InvokeAsync] *)
Definition csharp_start (l : launch) (g : guarded) : Z * guarded :=
  match l with
  | NoContext => (DAGE_STATUS_EXECUTION_ERROR, g)
  | NotQueued => (DAGE_STATUS_OK, abandon g)
  | Launched => (DAGE_STATUS_OK, g)
  end.
(** python: the callback of [register_async_executor], which has the guard before anything fails. *)
Definition python_start (l : launch) (g : guarded) : Z * guarded :=
  match l with Launched => (DAGE_STATUS_OK, g) | _ => (DAGE_STATUS_OK, abandon g) end.
(** rust: [async_thunk], which says that returning a failure gives the handle back. *)
Definition rust_start (l : launch) (g : guarded) : Z * guarded :=
  match l with Launched => (DAGE_STATUS_OK, g) | _ => (DAGE_STATUS_EXECUTION_ERROR, g) end.
Definition start (b : binding) : launch -> guarded -> Z * guarded :=
  match b with Node => node_start | Java => java_start | CSharp => csharp_start | Python => python_start | Rust => rust_start end.
(** Whether the host's code can hold the context afterwards.  A rust callback may have
    cloned it before the spawner refuses. *)
Definition exposed (b : binding) (l : launch) : bool :=
  match l with
  | Launched => true
  | NoContext => false
  | NotQueued => match b with Node => false | _ => true end
  end.

(** What happens to a context: the function's end, what the function asks, and the
    engine's closing, which abandons what python still holds. *)
Inductive context_op := Settle (s : settlement) | AskCancelled | Commit | Close.
Definition context_do (b : binding) (o : context_op) : guarded -> guarded :=
  match o with
  | Settle s => settle b s
  | AskCancelled => ask_cancelled
  | Commit => commit_effect
  | Close => match b with Python => abandon | _ => id end
  end.
Definition context_ops (b : binding) (ops : list context_op) (g : guarded) : guarded := foldl (fun g o => context_do b o g) g ops.
Definition invocation (b : binding) (l : launch) (cancelled committer : bool) (ops : list context_op) : dage_executor_completion_t :=
  let '(status, g) := start b l (mkGuarded true (new_completion cancelled committer)) in
  let g := g <| gd_native := after_callback throws status (gd_native g) |> in
  gd_native (if exposed b l then context_ops b ops g else g).
End Guards.

(** ** One handle, one answer *)

(** A settlement that is passed on.  The others are a value that python cannot
    serialise and null from csharp. *)
Definition passed_on (b : binding) (s : settlement) : bool :=
  match b, s with (CSharp | Python), Value None => false | _, _ => true end.
Definition all_passed_on (b : binding) (ops : list context_op) : bool :=
  forallb (fun o => match o with Settle s => passed_on b s | _ => true end) ops.
Definition settles (ops : list context_op) : bool := existsb (fun o => match o with Settle _ => true | _ => false end) ops.

Section Laws.
Context {J : JsonLib} (throws : bool).
(** While the object holds the handle, it is alive and unanswered; afterwards it was
    answered and deleted, once, unless the answer was [lost]. *)
Record sound (lost : bool) (g : guarded) : Prop := mkSound {
  sd_fault : ch_fault (gd_native g) = false;
  sd_held : if gd_held g then ch_deleted (gd_native g) = 0%nat /\ ch_completion (gd_native g) = mkCompletion false true []
            else length (answers_of (gd_native g)) = ch_deleted (gd_native g)
                 /\ (ch_deleted (gd_native g) = 1%nat \/ lost = true /\ ch_deleted (gd_native g) = 0%nat)
}.
Lemma sound_probe lost call g :
  (forall h, exists h', call (Some h) = Some h' /\ ch_deleted h' = ch_deleted h /\ ch_completion h' = ch_completion h
     /\ (ch_deleted h = 0%nat -> ch_fault h' = ch_fault h)) ->
  sound lost g -> sound lost (probe call g).
Proof.
  intros Hc [Hf Hh]. unfold probe. destruct (gd_held g) eqn:E; [|split; [done|by rewrite E]].
  destruct Hh as [Hd Hcp]. destruct (Hc (gd_native g)) as (h' & Eh & Ed & Ec & Ef).
  split; cbn; rewrite Eh; cbn; [by rewrite Ef|]. by rewrite E, Ed, Ec.
Qed.
Lemma sound_ask lost g : sound lost g -> sound lost (ask_cancelled g).
Proof. apply sound_probe. intros h. eexists. split; [reflexivity|]. cbn. split_and!; [done..|]. intros ->. cbn. by rewrite orb_false_r. Qed.
Lemma sound_commit lost g : sound lost g -> sound lost (commit_effect g).
Proof.
  apply sound_probe. intros h. unfold dage_executor_completion_commit_effect. cbn.
  destruct (ch_committer h); (eexists; split; [reflexivity|]); cbn; split_and!; try done; intros ->; cbn; by rewrite orb_false_r.
Qed.
(** A call that answers and deletes the handle. *)
Definition consumes (call : option dage_executor_completion_t -> option dage_executor_completion_t) : Prop :=
  forall h, ch_deleted h = 0%nat -> ch_completion h = mkCompletion false true [] -> exists h', call (Some h) = Some h'
    /\ ch_deleted h' = 1%nat /\ ch_fault h' = ch_fault h /\ length (answers_of h') = 1%nat.
Lemma consumes_complete status output : consumes (fun h => (dage_executor_complete status output throws h).2).
Proof.
  intros h Hd Hc. unfold dage_executor_complete, Timer.complete. rewrite Hc. cbn. eexists. split; [reflexivity|]. cbn.
  rewrite Hd. cbn. by rewrite orb_false_r.
Qed.
Lemma consumes_abandon : consumes (dage_executor_abandon throws).
Proof.
  intros h Hd Hc. unfold dage_executor_abandon, Timer.complete. cbn. rewrite Hc. cbn. eexists. split; [reflexivity|]. cbn.
  rewrite Hd. cbn. by rewrite orb_false_r.
Qed.
Lemma sound_consume lost call g : consumes call -> sound lost g -> sound lost (consume call g) /\ gd_held (consume call g) = false.
Proof.
  intros Hc [Hf Hh]. unfold consume. destruct (gd_held g) eqn:E; [|by split; [split; [|rewrite E]|]].
  destruct Hh as [Hd Hcp]. destruct (Hc _ Hd Hcp) as (h' & Eh & Ed & Ef & Ea). rewrite Eh. split; [|done].
  split; cbn; [by rewrite Ef|]. split; [by rewrite Ea|by left].
Qed.
Lemma sound_lose g : sound true g -> sound true (consume id g) /\ gd_held (consume id g) = false.
Proof.
  intros [Hf Hh]. unfold consume. destruct (gd_held g) eqn:E; [|by split; [split; [|rewrite E]|]].
  destruct Hh as [Hd Hcp]. split; [|done]. split; cbn; [done|]. unfold answers_of. rewrite Hcp, Hd. cbn. auto.
Qed.
#[local] Hint Resolve consumes_complete consumes_abandon : core.

(** A settlement that is passed on leaves nothing to answer; any other is at worst lost. *)
Lemma sound_settle lost b s g : sound lost g -> passed_on b s = true \/ lost = true ->
  sound lost (settle throws b s g) /\ (passed_on b s = true -> gd_held (settle throws b s g) = false).
Proof.
  intros Hs Hp. destruct b, s as [[text|]| |]; cbn; unfold complete_with, complete_failed, abandon;
    try (split; [|intros _]; by eapply sound_consume; eauto).
  - by split.
  - destruct Hp as [[=]| ->]. destruct (sound_lose g Hs) as [H1 H2].
    destruct (negb (gd_held g)); [done|]. by destruct (sound_consume true _ _ (consumes_complete DAGE_STATUS_EXECUTION_ERROR None) H1).
Qed.
Lemma sound_do lost b o g : sound lost g -> (match o with Settle s => passed_on b s | _ => true end = true \/ lost = true) ->
  sound lost (context_do throws b o g).
Proof.
  intros Hs Hp. destruct o as [s| | |]; cbn [context_do].
  - by apply sound_settle.
  - by apply sound_ask.
  - by apply sound_commit.
  - destruct b; try done. by apply sound_consume.
Qed.
Lemma unheld_do b o g : gd_held g = false -> gd_held (context_do throws b o g) = false.
Proof.
  intros E. destruct b, o as [[[text|]| |]| | |]; cbn;
    unfold complete_with, complete_failed, abandon, ask_cancelled, commit_effect, consume, probe; by rewrite ?E.
Qed.
Lemma sound_ops lost b ops g : sound lost g -> (all_passed_on b ops = true \/ lost = true) ->
  sound lost (context_ops throws b ops g)
  /\ (gd_held g = false \/ settles ops = true /\ all_passed_on b ops = true -> gd_held (context_ops throws b ops g) = false).
Proof.
  unfold context_ops. revert g. induction ops as [|o ops IH]; intros g Hs Hp; cbn [foldl].
  - split; [done|]. by intros [?|[[=] _]].
  - cbn [all_passed_on forallb settles existsb] in *. rewrite andb_true_iff in *.
    destruct (IH (context_do throws b o g)) as [H1 H2]; [apply sound_do; tauto|tauto|]. split; [done|].
    intros [E|[E [Eo Ep]]]; [by apply H2; left; apply unheld_do|]. apply orb_true_iff in E as [E|E]; [|by apply H2; right].
    destruct o as [s| | |]; [|done..]. apply H2. left. cbn [context_do]. destruct (sound_settle lost b s g Hs); auto.
Qed.
Lemma sound_started b l cancelled committer : (b = Rust -> l = NotQueued -> False) ->
  let '(status, g) := start throws b l (mkGuarded true (new_completion cancelled committer)) in
  let g := g <| gd_native := after_callback throws status (gd_native g) |> in
  if exposed b l then sound false g /\ gd_held g = bool_decide (l = Launched)
  else ch_fault (gd_native g) = false /\ ch_deleted (gd_native g) = 1%nat /\ length (answers_of (gd_native g)) = 1%nat.
Proof.
  intros Hr. destruct b, l; try (by destruct Hr); cbn; split_and!; try done; split; cbn; auto.
Qed.


(** ** Where no answer comes, and where a handle dangles *)
Definition asks (o : context_op) : bool := match o with AskCancelled | Commit => true | _ => false end.
Lemma unheld_same b o g : gd_held g = false -> context_do throws b o g = g.
Proof.
  intros E. destruct b, o as [[[text|]| |]| | |]; cbn;
    unfold complete_with, complete_failed, abandon, ask_cancelled, commit_effect, consume, probe; by rewrite ?E; cbn; rewrite ?E.
Qed.
Lemma unheld_ops b ops g : gd_held g = false -> context_ops throws b ops g = g.
Proof. intros E. unfold context_ops. induction ops as [|o ops IH]; [done|]. cbn. by rewrite unheld_same. Qed.
Lemma asks_keep b o g : asks o = true -> answers_of (gd_native (context_do throws b o g)) = answers_of (gd_native g)
  /\ gd_held (context_do throws b o g) = gd_held g.
Proof.
  unfold answers_of. destruct o; try done; intros _; cbn; unfold ask_cancelled, commit_effect, probe;
    destruct (gd_held g) eqn:E; try done; cbn. by destruct (ch_committer (gd_native g)).
Qed.
Lemma asks_ops b ops g : forallb asks ops = true ->
  answers_of (gd_native (context_ops throws b ops g)) = answers_of (gd_native g) /\ gd_held (context_ops throws b ops g) = gd_held g.
Proof.
  unfold context_ops. revert g. induction ops as [|o ops IH]; intros g; [done|]. cbn. intros [Ho Hops]%andb_true_iff.
  destruct (IH (context_do throws b o g) Hops) as [-> ->]. by apply asks_keep.
Qed.

(** an answer can be lost.  Where a python coroutine ends with a value that is not
    serialisable, the run never gets a result for it, whatever happens to the context
    afterwards, the engine's closing included.  Where a csharp function ends with null,
    the run gets no result unless somebody settles the context once more. *)
Theorem settlement_lost cancelled committer pre post : forallb asks pre = true ->
  answers_of (invocation throws Python Launched cancelled committer (pre ++ Settle (Value None) :: post)) = []
  /\ (forallb asks post = true ->
     answers_of (invocation throws CSharp Launched cancelled committer (pre ++ Settle (Value None) :: post)) = []).
Proof.
  intros Hpre. unfold invocation. cbn [start python_start csharp_start exposed after_callback negb DAGE_STATUS_OK]. cbn [Z.eqb negb].
  set (g := (mkGuarded true _) <| gd_native := _ |>).
  assert (answers_of (gd_native g) = [] /\ gd_held g = true) as [Ha Hh] by done. clearbody g.
  unfold context_ops. rewrite !foldl_app. cbn [foldl]. fold (context_ops throws Python pre g) (context_ops throws CSharp pre g).
  split.
  - destruct (asks_ops Python pre g Hpre) as [Ha' Hh']. set (g' := context_ops throws Python pre g) in *.
    fold (context_ops throws Python post (context_do throws Python (Settle (Value None)) g')).
    cbn. rewrite Hh', Hh. cbn. unfold complete_failed, consume. rewrite Hh', Hh. cbn. rewrite unheld_ops by done. cbn. by rewrite Ha'.
  - intros Hpost. destruct (asks_ops CSharp pre g Hpre) as [Ha' Hh']. set (g' := context_ops throws CSharp pre g) in *.
    fold (context_ops throws CSharp post (context_do throws CSharp (Settle (Value None)) g')).
    destruct (asks_ops CSharp post (context_do throws CSharp (Settle (Value None)) g') Hpost) as [-> _]. cbn. by rewrite Ha'.
Qed.

(** A rust callback that kept a clone of its context before the spawner refused its
    task holds a handle the library deleted: whatever it asks touches freed memory. *)
Lemma rust_context_dangles cancelled committer o ops : asks o = true ->
  ch_fault (invocation throws Rust NotQueued cancelled committer (o :: ops)) = true.
Proof.
  intros Ho. unfold invocation. cbn [start rust_start exposed].
  set (g := (mkGuarded true _) <| gd_native := _ |>).
  assert (ch_deleted (gd_native g) = 1%nat /\ gd_held g = true) as [Hd Hh] by done. clearbody g.
  assert (forall o g, ch_fault (gd_native g) = true -> ch_fault (gd_native (context_do throws Rust o g)) = true) as Hk.
  { intros [[[text|]| |]| | |] x Hx; cbn; unfold complete_with, complete_failed, abandon, ask_cancelled, commit_effect, consume, probe;
      destruct (gd_held x) eqn:Ex; try done; cbn; unfold Timer.complete; repeat case_match; simplify_eq; cbn; by rewrite Hx. }
  unfold context_ops. cbn [foldl].
  assert (ch_fault (gd_native (context_do throws Rust o g)) = true) as H1.
  { destruct o; try done; cbn; unfold ask_cancelled, commit_effect, probe; rewrite Hh; cbn;
      [|destruct (ch_committer (gd_native g)); cbn]; rewrite Hd; cbn; by rewrite orb_true_r. }
  revert H1. generalize (context_do throws Rust o g). induction ops as [|o' ops IH]; intros x Hx; [done|]. cbn. apply IH. by apply Hk.
Qed.
End Laws.

(** ** Scheduler tasks in python (ScheduledTask, Engine.set_scheduler)

    [submit] of the host acts on the task and returns or raises.  [__del__] abandons. *)
Record scheduled := mkScheduled { sc_held : bool; sc_task : dage_scheduler_task_t }.
Definition scheduled_do (o : task_op) (s : scheduled) : scheduled :=
  if sc_held s then mkScheduled false (task_do o (sc_task s)) else s.
Definition scheduled_ops (ops : list task_op) (s : scheduled) : scheduled := foldl (fun s o => scheduled_do o s) s ops.
Definition python_submit (ops : list task_op) (raised : bool) (s : scheduled) : Z * scheduled :=
  let s := scheduled_ops ops s in
  if raised then (DAGE_STATUS_INTERNAL_ERROR, scheduled_do TaskAbandon s) else (DAGE_STATUS_OK, s).
(** A task from its submission, through what the host does later, to its collection. *)
Definition python_task (inside : list task_op) (raised : bool) (later : list task_op) : exc unit * scheduled :=
  let '(status, s) := python_submit inside raised (mkScheduled true new_task) in
  let '(r, t) := after_submit status (sc_task s) in
  (r, scheduled_do TaskAbandon (scheduled_ops later (mkScheduled (sc_held s) t))).

Lemma scheduled_spent ops s : sc_held s = false -> scheduled_ops ops s = s.
Proof. intros E. unfold scheduled_ops. induction ops as [|o ops IH]; [done|]. cbn. unfold scheduled_do at 2. by rewrite E. Qed.
Lemma scheduled_first o ops t : scheduled_ops (o :: ops) (mkScheduled true t) = mkScheduled false (task_do o t).
Proof. unfold scheduled_ops. cbn [foldl]. by apply scheduled_spent. Qed.
Lemma task_consumed o : let t := task_do o new_task in
  th_deleted t = 1%nat /\ th_fault t = false /\ (th_runs t <= 1)%nat /\ is_Some (th_future t).
Proof. destruct o as [[?|?]|]; cbn; split_and!; done || lia || by eexists. Qed.

(** C34: a python scheduler that raises frees a task twice.  Whatever the host does with
    the task it is given, and whenever: the native handle is freed once, after at most
    one run, and the runtime's future becomes ready, where [submit] returns.  Where it
    raises, the binding frees the handle and has the library free it again. *)
Theorem python_task_freed inside raised later :
  let '(r, s) := python_task inside raised later in
  th_fault (sc_task s) = raised
  /\ (raised = false -> r = Ok tt /\ th_deleted (sc_task s) = 1%nat /\ (th_runs (sc_task s) <= 1)%nat /\ is_Some (th_future (sc_task s)))
  /\ (raised = true -> is_ok r = false /\ th_deleted (sc_task s) = 2%nat).
Proof.
  unfold python_task, python_submit.
  assert (exists o, scheduled_do TaskAbandon (scheduled_ops inside (mkScheduled true new_task)) = mkScheduled false (task_do o new_task)) as [o Eo].
  { destruct inside as [|o inside]; [by exists TaskAbandon|]. exists o. by rewrite scheduled_first. }
  destruct (task_consumed o) as (Hd & Hf & Hr & Hp). destruct raised.
  - rewrite Eo. cbn [after_submit sc_task sc_held]. unfold after_submit. cbn [negb Z.eqb].
    change (DAGE_STATUS_INTERNAL_ERROR =? DAGE_STATUS_OK) with false. cbn [negb].
    rewrite scheduled_spent by done. cbn. rewrite Hd, Hf. by split_and!.
  - unfold after_submit. change (DAGE_STATUS_OK =? DAGE_STATUS_OK) with true. cbn [negb].
    clear o Eo Hd Hf Hr Hp. set (s := scheduled_ops inside _).
    assert (exists o, scheduled_do TaskAbandon (scheduled_ops later (mkScheduled (sc_held s) (sc_task s))) = mkScheduled false (task_do o new_task))
      as [o ->].
    { destruct inside as [|o inside]; [destruct later as [|o later]; [by exists TaskAbandon|exists o]|exists o]; subst s.
      - change (scheduled_ops [] (mkScheduled true new_task)) with (mkScheduled true new_task). cbn [sc_held sc_task]. by rewrite scheduled_first.
      - rewrite scheduled_first. cbn [sc_held sc_task]. by rewrite scheduled_spent. }
    destruct (task_consumed o) as (? & ? & ? & ?). by split_and!.
Qed.
