(* ===== verification/BindingRuns.v ===== *)
(** * Runs of the java and csharp bindings (bindings/java/io/dage/Run.java,
    bindings/csharp/DageRuntime.cs)

    A run is executed by a task on the host's executor while any thread may cancel or
    close it.  [j_step] interleaves the critical sections of the methods of Run.java and
    the native calls between them.  A native call on a destroyed run, and a destruction
    while the native execution is under way, is a [fault]. *)

From S2P Require Import Prelude.
Open Scope string_scope.
Open Scope list_scope.

(** Where the task of an [executeAsync] is: not begun; about to call or inside the native
    execution, by a thread and with the handle it copied; after it; and after the
    [finally] block, or the rejection, with the latch not yet counted down. *)
Inductive task_phase := TaskQueued | TaskInside (thread : nat) (handle : bool) | TaskLeft | TaskEnding.
(** A thread in [close], with the latch it waits for. *)
Record closer := mkCloser { cl_thread : nat; cl_exit : option nat }.

(** [jr_handle]: the handle is not 0.  An execution, its future and its latch share a
    number; [jr_released] are the latches counted down. *)
Record JavaRun := mkJavaRun {
  jr_handle : bool; jr_active : option nat; jr_native_exit : option nat; jr_runner : option nat;
  jr_tasks : list (nat * task_phase); jr_released : list nat; jr_closers : list closer; jr_next : nat;
  jr_destroyed : nat; jr_release_runs : nat; jr_fault : bool
}.
#[export] Instance eta_JavaRun : Settable JavaRun := fun r =>
  mkJavaRun (jr_handle r) (jr_active r) (jr_native_exit r) (jr_runner r) (jr_tasks r) (jr_released r) (jr_closers r) (jr_next r)
    (jr_destroyed r) (jr_release_runs r) (jr_fault r).
Definition new_java_run : JavaRun := mkJavaRun true None None None [] [] [] 0 0 0 false.

Definition is_inside (p : task_phase) : bool := match p with TaskInside _ true => true | _ => false end.
(** A native call other than the execution. *)
Definition native_call (r : JavaRun) : JavaRun := r <| jr_fault := jr_fault r || negb (jr_destroyed r =? 0)%nat |>.
Definition native_destroy (r : JavaRun) : JavaRun :=
  r <| jr_fault := jr_fault r || negb (jr_destroyed r =? 0)%nat || existsb (fun t => is_inside t.2) (jr_tasks r) |>
    <| jr_destroyed := S (jr_destroyed r) |>.

(** [executeAsync], its first block; it throws where the guard is false. *)
Definition execute_async (r : JavaRun) : option JavaRun :=
  if negb (jr_handle r) || bool_decide (is_Some (jr_active r)) then None else
  Some (r <| jr_active := Some (jr_next r) |> <| jr_native_exit := Some (jr_next r) |>
          <| jr_tasks := (jr_next r, TaskQueued) :: jr_tasks r |> <| jr_next := S (jr_next r) |>).
Definition set_task (pre post : list (nat * task_phase)) (n : nat) (p : task_phase) (r : JavaRun) : JavaRun :=
  r <| jr_tasks := pre ++ (n, p) :: post |>.
Definition no_longer_active (r : JavaRun) : JavaRun := r <| jr_active := None |> <| jr_native_exit := None |>.
(** [close], its two blocks. *)
Definition close_first (thread : nat) (r : JavaRun) : option JavaRun :=
  if negb (jr_handle r) || bool_decide (jr_runner r = Some thread) then None else
  let r' := if bool_decide (is_Some (jr_active r)) then native_call r else r in
  Some (r' <| jr_closers := mkCloser thread (jr_native_exit r) :: jr_closers r |>).
Definition close_last (r : JavaRun) : JavaRun :=
  if jr_handle r then (native_destroy r) <| jr_handle := false |> <| jr_release_runs := S (jr_release_runs r) |> else r.
Definition may_pass (c : closer) (r : JavaRun) : bool :=
  match cl_exit c with Some n => bool_decide (n ∈ jr_released r) | None => true end.

Inductive j_step : JavaRun -> JavaRun -> Prop :=
| JExecute r r' : execute_async r = Some r' -> j_step r r'
| JReject pre n post r : jr_tasks r = pre ++ (n, TaskQueued) :: post -> j_step r (no_longer_active (set_task pre post n TaskEnding r))
| JBegin pre n post t r : jr_tasks r = pre ++ (n, TaskQueued) :: post ->
    j_step r ((set_task pre post n (TaskInside t (jr_handle r)) r) <| jr_runner := Some t |>)
| JLeave pre n t h post r : jr_tasks r = pre ++ (n, TaskInside t h) :: post -> j_step r (set_task pre post n TaskLeft r)
| JFinally pre n post r : jr_tasks r = pre ++ (n, TaskLeft) :: post ->
    j_step r ((no_longer_active (set_task pre post n TaskEnding r)) <| jr_runner := None |>)
| JCountDown pre n post r : jr_tasks r = pre ++ (n, TaskEnding) :: post ->
    j_step r (r <| jr_tasks := pre ++ post |> <| jr_released := n :: jr_released r |>)
| JCancel r : jr_handle r = true -> j_step r (native_call r)
| JClose t r r' : close_first t r = Some r' -> j_step r r'
| JInterrupt c r : c ∈ jr_closers r -> is_Some (cl_exit c) -> j_step r (native_call r)
| JDestroy pre c post r : jr_closers r = pre ++ c :: post -> may_pass c r = true ->
    j_step r ((close_last r) <| jr_closers := pre ++ post |>).

(** One thread closes the run, and none executes it from then on. *)
Inductive disciplined : JavaRun -> JavaRun -> Prop :=
| Disciplined r r' : j_step r r' ->
    (jr_closers r <> [] -> jr_next r' = jr_next r /\ (length (jr_closers r') <= length (jr_closers r))%nat) -> disciplined r r'.

(** ** A disciplined host is safe *)
Definition live (p : task_phase) : bool := match p with TaskEnding => false | _ => true end.
Record run_inv (r : JavaRun) : Prop := mkRunInv {
  ri_fault : jr_fault r = false;
  ri_destroyed : jr_destroyed r = if jr_handle r then 0%nat else 1%nat;
  ri_releases : jr_release_runs r = jr_destroyed r;
  ri_nodup : NoDup (jr_released r ++ (jr_tasks r).*1);
  ri_fresh : forall n, n ∈ jr_released r ++ (jr_tasks r).*1 -> (n < jr_next r)%nat;
  ri_live : forall n p, (n, p) ∈ jr_tasks r -> live p = true -> jr_active r = Some n;
  ri_same : jr_native_exit r = jr_active r;
  ri_closers : forall c n p, c ∈ jr_closers r -> (n, p) ∈ jr_tasks r -> live p = true -> cl_exit c = Some n;
  ri_one : (length (jr_closers r) <= 1)%nat;
  ri_open : jr_closers r <> [] -> jr_handle r = true
}.
Lemma task_in (pre post : list (nat * task_phase)) t x : x ∈ pre ++ t :: post <-> x = t \/ x ∈ pre ++ post.
Proof. rewrite !elem_of_app, elem_of_cons. tauto. Qed.
Lemma task_ids (pre post : list (nat * task_phase)) n p q : (pre ++ (n, p) :: post).*1 = (pre ++ (n, q) :: post).*1.
Proof. by rewrite !fmap_app. Qed.
(** Another live task beside a live one has another number. *)
Lemma live_alone r pre n p post m q : run_inv r -> jr_tasks r = pre ++ (n, p) :: post -> live p = true ->
  (m, q) ∈ pre ++ post -> live q = true -> False.
Proof.
  intros Hi E Hp Hm Hq. assert (jr_active r = Some n) as H1 by (eapply ri_live; [done|rewrite E; apply task_in; by left|done]).
  assert (jr_active r = Some m) as H2 by (eapply ri_live; [done|rewrite E; apply task_in; by right|done]).
  rewrite H1 in H2. injection H2 as <-. pose proof (ri_nodup r Hi) as Hn. apply NoDup_app in Hn as (_ & _ & Hn).
  rewrite E, fmap_app, fmap_cons in Hn. cbn in Hn. apply NoDup_app in Hn as (_ & Hd & [Hc _]%NoDup_cons).
  apply elem_of_app in Hm as [Hm|Hm]; apply (list_elem_of_fmap_2 fst) in Hm; cbn in Hm; [by apply (Hd n); [|left]|done].
Qed.
(** A task moves on; its phase may stop being live. *)
Lemma inv_phase r pre n p q post : run_inv r -> jr_tasks r = pre ++ (n, p) :: post -> live p = true -> live q = true ->
  run_inv (set_task pre post n q r).
Proof.
  intros Hi E Hp Hq. destruct Hi as [? ? ? Hn Hf Hl Hs Hc ? ?] eqn:Eh. clear Eh. rewrite E, (task_ids _ _ _ p q) in Hn, Hf.
  split; cbn; try done.
  - intros m s [[= -> ->]|Hm]%task_in Hs'; [eapply Hl|eapply Hl]; [rewrite E; apply task_in; by left|done|rewrite E; apply task_in; by right|done].
  - intros c m s Hcl [[= -> ->]|Hm]%task_in Hs'; eapply Hc; [done|rewrite E; apply task_in; by left|done|done|rewrite E; apply task_in; by right|done].
Qed.
Lemma inv_ending r pre n p post : run_inv r -> jr_tasks r = pre ++ (n, p) :: post -> live p = true ->
  run_inv (no_longer_active (set_task pre post n TaskEnding r)).
Proof.
  intros Hi E Hp. pose proof (live_alone r pre n p post) as Ha. destruct Hi as [? ? ? Hn Hf Hl Hs Hc ? ?] eqn:Eh. clear Eh.
  rewrite E, (task_ids _ _ _ p TaskEnding) in Hn, Hf. split; cbn; try done.
  - intros m s [[= -> ->]|Hm]%task_in Hs'; [done|]. by destruct (Ha m s).
  - intros c m s Hcl [[= -> ->]|Hm]%task_in Hs'; [done|]. by destruct (Ha m s).
Qed.
Lemma inv_runner r t : run_inv r -> run_inv (r <| jr_runner := t |>).
Proof. intros []. by split. Qed.
Lemma inv_native r : run_inv r -> jr_handle r = true -> run_inv (native_call r).
Proof. intros [Hf Hd ? ? ? ? ? ? ? ?] Hh. split; try done. cbn. by rewrite Hf, Hd, Hh. Qed.
Lemma inv_execute r r' : run_inv r -> jr_closers r = [] -> execute_async r = Some r' -> run_inv r'.
Proof.
  intros [? ? ? Hn Hf Hl Hs Hc ? ?] Ec. unfold execute_async. destruct (jr_handle r) eqn:Eh; [|done]. cbn [negb orb].
  destruct (jr_active r) as [a|] eqn:Ea; [done|]. intros [= <-].
  assert (jr_next r ∉ jr_released r ++ (jr_tasks r).*1) as Hx by (intros Hx%Hf; lia).
  split; cbn; rewrite ?Ec; try done; cbn; try lia.
  - by rewrite Eh.
  - rewrite <- Permutation_middle. by apply NoDup_cons.
  - intros n [Hr|[->|Ht]%elem_of_cons]%elem_of_app; [|lia|]; enough (n < jr_next r)%nat by lia; apply Hf, elem_of_app; auto.
  - intros n p [[= -> ->]|Ht]%elem_of_cons Hp; [done|]. by specialize (Hl _ _ Ht Hp).
  - intros c n p []%elem_of_nil.
Qed.
Lemma inv_close r r' t : run_inv r -> jr_closers r = [] -> close_first t r = Some r' -> run_inv r'.
Proof.
  intros Hi Ec. unfold close_first. destruct (jr_handle r) eqn:Eh; [|done]. cbn [negb orb]. case_bool_decide; [done|]. intros [= <-].
  assert (forall x, run_inv x -> jr_handle x = true -> jr_closers x = [] -> jr_native_exit x = jr_native_exit r ->
    run_inv (x <| jr_closers := mkCloser t (jr_native_exit r) :: jr_closers r |>)) as H'.
  { intros x [? ? ? ? ? Hl Hs ? ? ?] Hx Hcx Ex. split; cbn; rewrite ?Ec; try done; cbn; try lia.
    intros c n p ->%list_elem_of_singleton Ht Hp. cbn. rewrite <- Ex, Hs. by eapply Hl. }
  case_bool_decide; apply H'; try done. by apply inv_native.
Qed.
Lemma inv_destroy r pre c post : run_inv r -> jr_closers r = pre ++ c :: post -> may_pass c r = true ->
  run_inv ((close_last r) <| jr_closers := pre ++ post |>).
Proof.
  intros [Hf Hd Hrl Hn ? Hl Hs Hc Ho Hop] Ec Hp.
  assert (jr_handle r = true) as Hh by (apply Hop; rewrite Ec; by destruct pre).
  assert (pre = [] /\ post = []) as [-> ->].
  { rewrite Ec, length_app in Ho. cbn in Ho. destruct pre, post; cbn in Ho; try lia. done. }
  assert (forall n p, (n, p) ∈ jr_tasks r -> live p = true -> False) as Hnone.
  { intros n p Ht Hlp. specialize (Hc c n p). rewrite Ec in Hc. specialize (Hc ltac:(by left) Ht Hlp).
    unfold may_pass in Hp. rewrite Hc in Hp. apply bool_decide_eq_true in Hp. apply NoDup_app in Hn as (_ & Hdj & _).
    apply (Hdj n Hp). apply (list_elem_of_fmap_2 fst) in Ht. done. }
  assert (existsb (fun t => is_inside t.2) (jr_tasks r) = false) as Hin.
  { apply not_true_iff_false. intros ([n p] & Ht%list_elem_of_In & Hp')%existsb_exists. apply (Hnone n p Ht). by destruct p. }
  unfold close_last. rewrite Hh. unfold native_destroy. split; cbn; try done.
  - by rewrite Hf, Hd, Hh, Hin.
  - by rewrite Hd, Hh.
  - by rewrite Hrl.
  - intros c' n p []%elem_of_nil.
  - lia.
Qed.
Lemma inv_count_down r pre n post : run_inv r -> jr_tasks r = pre ++ (n, TaskEnding) :: post ->
  run_inv (r <| jr_tasks := pre ++ post |> <| jr_released := n :: jr_released r |>).
Proof.
  intros [? ? ? Hn Hf Hl Hs Hc ? ?] E.
  assert ((n :: jr_released r) ++ (pre ++ post).*1 ≡ₚ jr_released r ++ (jr_tasks r).*1) as Hp.
  { rewrite E, !fmap_app, fmap_cons. cbn. rewrite <- !Permutation_middle. done. }
  split; cbn; try done.
  - by rewrite <- Hp in Hn.
  - intros m Hm. apply Hf. by rewrite <- Hp.
  - intros m p Hm. apply Hl. rewrite E. apply task_in. by right.
  - intros c m p Hcl Hm. apply (Hc c m p Hcl). rewrite E. apply task_in. by right.
Qed.
Lemma inv_step r r' : disciplined r r' -> run_inv r -> run_inv r'.
Proof.
  intros [x x' Hs Hd] Hi. clear r r'. destruct Hs as [r r' E|pre n post r E|pre n post t r E|pre n t h post r E|pre n post r E|pre n post r E
    |r Hh|t r r' E|c r Hc He|pre c post r E Hp].
  - destruct (decide (jr_closers r = [])) as [Ec|Ec]; [by eapply inv_execute|]. destruct (Hd Ec) as [Hn _]. exfalso.
    unfold execute_async in E. case_match; [done|]. injection E as <-. cbn in Hn. lia.
  - by eapply inv_ending.
  - apply inv_runner. by eapply inv_phase.
  - by eapply inv_phase.
  - apply inv_runner. by eapply inv_ending.
  - by eapply inv_count_down.
  - by apply inv_native.
  - destruct (decide (jr_closers r = [])) as [Ec|Ec]; [by eapply inv_close|]. destruct (Hd Ec) as [_ Hl]. exfalso.
    unfold close_first in E. case_match; [done|]. injection E as <-. cbn in Hl. lia.
  - apply inv_native; [done|]. apply (ri_open r Hi). intros Ec. rewrite Ec in Hc. by apply elem_of_nil in Hc.
  - by eapply inv_destroy.
Qed.

(** C8: closing a run is a fence.  However the critical sections and native calls of a
    java run's methods interleave, executions, cancellations and interrupts included:
    if one thread closes the run and none executes it from then on, no native call meets
    a destroyed run, the run is not destroyed under an execution, and it is destroyed at
    most once, its engine told so each time. *)
Theorem java_close_fences r : rtc disciplined new_java_run r ->
  jr_fault r = false /\ (jr_destroyed r <= 1)%nat /\ jr_release_runs r = jr_destroyed r.
Proof.
  intros Hr. assert (run_inv new_java_run -> run_inv r) as Hi.
  { induction Hr as [|x y z Hxy _ IH]; [done|]. intros Hx. by eapply IH, inv_step. }
  destruct Hi as [? Hd ? ? ? ? ? ? ? ?]; [|split_and!; [done|destruct (jr_handle r); lia|done]].
  split; cbn; try done; try lia; [constructor|by intros n ?%elem_of_nil|by intros n p ?%elem_of_nil|by intros c n p ?%elem_of_nil].
Qed.

(** Without that discipline the fence has a gap: [close] finds no execution, another
    thread starts one, and [close] destroys the run under it. *)
Lemma java_close_race : exists r, rtc j_step new_java_run r /\ jr_fault r = true.
Proof.
  eexists. split.
  - eapply rtc_l; [by eapply (JClose 1)|]. eapply rtc_l; [by eapply JExecute|].
    eapply rtc_l; [by eapply (JBegin [] 0 [] 2)|]. eapply rtc_l; [by eapply (JDestroy [] _ [])|]. reflexivity.
  - reflexivity.
Qed.

(** ** Live runs of an engine

    java's Engine and csharp's DageEngine count their runs and refuse to be closed while
    the count is not zero.  A thread closing a run passes a first critical section that
    looks at the handle and a last one that destroys it and tells the engine: java
    ([guarded]) only if the handle is still there, csharp always. *)
Record counted := mkCounted { ct_runs : list bool; ct_live : nat; ct_leaving : list nat; ct_engine : bool }.
Definition new_counted : counted := mkCounted [] 0 [] true.
Definition leave_run (guarded : bool) (i : nat) (leaving : list nat) (s : counted) : counted :=
  if guarded && negb (default false (ct_runs s !! i)) then mkCounted (ct_runs s) (ct_live s) leaving (ct_engine s)
  else mkCounted (<[i := false]> (ct_runs s)) (pred (ct_live s)) leaving (ct_engine s).
Inductive tally_step (guarded : bool) : counted -> counted -> Prop :=
| CountCreate s : ct_engine s = true ->
    tally_step guarded s (mkCounted (ct_runs s ++ [true]) (S (ct_live s)) (ct_leaving s) true)
| CountEnter i s : ct_runs s !! i = Some true ->
    tally_step guarded s (mkCounted (ct_runs s) (ct_live s) (i :: ct_leaving s) (ct_engine s))
| CountLeave pre i post s : ct_leaving s = pre ++ i :: post -> tally_step guarded s (leave_run guarded i (pre ++ post) s)
| CountEngine s : ct_live s = 0%nat -> tally_step guarded s (mkCounted (ct_runs s) 0 (ct_leaving s) false).

Definition open_runs (l : list bool) : nat := length (filter (fun b => b = true) l).
Lemma open_runs_insert l i : l !! i = Some true -> open_runs l = S (open_runs (<[i := false]> l)).
Proof.
  unfold open_runs. revert i. induction l as [|b l IH]; intros [|i] E; try done; cbn [list_insert insert]; rewrite !filter_cons.
  - injection E as ->. by rewrite decide_True, decide_False by done.
  - destruct (decide (b = true)); cbn; by rewrite (IH i E).
Qed.
(** The runs of a java engine are gone before it is. *)
Lemma java_engine_outlives s : rtc (tally_step true) new_counted s ->
  ct_live s = open_runs (ct_runs s) /\ (ct_engine s = false -> open_runs (ct_runs s) = 0%nat).
Proof.
  intros Hr. assert (ct_live new_counted = open_runs (ct_runs new_counted) /\ (ct_engine new_counted = false -> open_runs (ct_runs new_counted) = 0%nat)) as H0 by done.
  revert H0. induction Hr as [|x y z Hxy _ IH]; [done|]. intros [Hl He]. apply IH. clear IH z.
  destruct Hxy as [s E|i s E|pre i post s E|s E]; cbn.
  - split; [|done]. unfold open_runs in *. rewrite filter_app, length_app, Hl. change (filter (fun b => b = true) [true]) with [true]. cbn [length]. lia.
  - done.
  - unfold leave_run. destruct (ct_runs s !! i) as [[]|] eqn:Ei; cbn [andb negb default from_option id ct_live ct_runs ct_engine]; [|done..].
    rewrite (open_runs_insert _ _ Ei) in Hl, He.
    split; [lia|]. intros E'. specialize (He E'). lia.
  - rewrite E in Hl. done.
Qed.
(** Two threads that dispose the same csharp run count it twice: the engine can be
    destroyed while another run lives. *)
Lemma csharp_engine_dies_first : exists s, rtc (tally_step false) new_counted s /\ ct_engine s = false /\ open_runs (ct_runs s) = 1%nat.
Proof.
  eexists. split; [|split].
  - do 2 (eapply rtc_l; [by eapply CountCreate|]). do 2 (eapply rtc_l; [by eapply (CountEnter _ 0)|]).
    do 2 (eapply rtc_l; [by eapply (CountLeave _ [])|]). eapply rtc_l; [by eapply CountEngine|]. reflexivity.
  - reflexivity.
  - reflexivity.
Qed.

(** ** Cancelling a node run (bindings/node/native.cpp: RunControl, RunWorker::Execute)

    The worker creates the run, enters it in the control, executes it, and leaves it:
    its guard clears the control before it destroys the run.  The event loop cancels
    whenever it likes. *)
Inductive worker_phase := Creating | Executing | Cleared | Destroyed.
Record RunControl := mkControl { rc_run : bool; rc_cancel_requested : bool }.
Record node_run := mkNodeRun { nr_control : RunControl; nr_phase : worker_phase; nr_cancelled : bool; nr_fault : bool }.
Definition new_node_run : node_run := mkNodeRun (mkControl false false) Creating false false.
(** [api().cancel(run, view)] *)
Definition native_cancel (s : node_run) : node_run :=
  mkNodeRun (nr_control s) (nr_phase s) true (nr_fault s || match nr_phase s with Destroyed => true | _ => false end).
Definition control_set (s : node_run) : node_run :=
  let s' := mkNodeRun (mkControl true (rc_cancel_requested (nr_control s))) Executing (nr_cancelled s) (nr_fault s) in
  if rc_cancel_requested (nr_control s) then native_cancel s' else s'.
Definition control_clear (s : node_run) : node_run :=
  mkNodeRun (mkControl false (rc_cancel_requested (nr_control s))) Cleared (nr_cancelled s) (nr_fault s).
Definition control_cancel (s : node_run) : node_run :=
  let s' := mkNodeRun (mkControl (rc_run (nr_control s)) true) (nr_phase s) (nr_cancelled s) (nr_fault s) in
  if rc_run (nr_control s) then native_cancel s' else s'.
Definition destroy_run (s : node_run) : node_run := mkNodeRun (nr_control s) Destroyed (nr_cancelled s) (nr_fault s).
Inductive node_step : node_run -> node_run -> Prop :=
| NodeSet s : nr_phase s = Creating -> node_step s (control_set s)
| NodeClear s : nr_phase s = Executing -> node_step s (control_clear s)
| NodeDestroy s : nr_phase s = Cleared -> node_step s (destroy_run s)
| NodeCancel s : node_step s (control_cancel s).

(** A cancellation reaches a run that executes, also one that came before the run was
    there, and never a run that is destroyed. *)
Lemma node_cancel_reaches s : rtc node_step new_node_run s ->
  nr_fault s = false /\ (nr_phase s = Executing -> nr_cancelled s = rc_cancel_requested (nr_control s)).
Proof.
  intros Hr. assert (forall x, rtc node_step x s ->
    nr_fault x = false /\ rc_run (nr_control x) = match nr_phase x with Executing => true | _ => false end
      /\ (nr_phase x = Creating -> nr_cancelled x = false)
      /\ (nr_phase x = Executing -> nr_cancelled x = rc_cancel_requested (nr_control x)) ->
    nr_fault s = false /\ (nr_phase s = Executing -> nr_cancelled s = rc_cancel_requested (nr_control s))) as Hi.
  { clear Hr. intros x Hx. induction Hx as [x|x y z Hxy _ IH]; [tauto|]. intros (Hf & Hrun & Hc & He). apply IH. clear IH.
    destruct Hxy as [x E|x E|x E|x]; destruct x as [[run requested] phase cancelled fault]; cbn in *; subst;
      unfold control_set, control_clear, control_cancel, destroy_run, native_cancel; cbn;
      [destruct requested; cbn|..|destruct phase; cbn]; split_and!; (done || auto). }
  by apply (Hi new_node_run).
Qed.
