(* ===== verification/BindingCalls.v ===== *)
(** * Executing a run from the bindings (bindings/)

    A binding asks for an output twice: without a buffer to learn its size, then with
    one of that size.  The first part composes these calls with the C interface
    (CRun.v).  The C interface expects one call at a time on a run; the second part
    is how the bindings see to that, and to the end of a run. *)

From S2P Require Import Prelude Json Reliability RunState Drive CSpi CApi CRun Zip CHandles Bindings.
Open Scope string_scope.
Open Scope list_scope.
Open Scope Z_scope.

(** ** Reading an output

    [Output]: the bytes the language decodes; [NoOutput] is python's [None] for a run
    that waits for a person; [NotText]: the decoder refuses the bytes. *)
Inductive fetched := Output (text : string) | NoOutput | Failed (status : Z) | NotText.
Fixpoint until_nul (s : string) : string :=
  match s with
  | EmptyString => EmptyString
  | String a s => if Ascii.eqb a "000" then EmptyString else String a (until_nul s)
  end.
Definition drop_final_nul (s : string) : string :=
  if bool_decide (str_last s = Some "000"%char) then str_upto (String.length s - 1) s else s.
Definition decoded (s : string) : fetched := if valid_utf8 s then Output s else NotText.

(** What each binding does with the status of the first call. *)
Definition proceeds (b : binding) (status : Z) : bool :=
  (status =? DAGE_STATUS_BUFFER_TOO_SMALL)
  || match b with CSharp | Python => status =? DAGE_STATUS_OK | _ => false end.
Definition first_failed (b : binding) (status : Z) : fetched :=
  match b with Python => if status =? DAGE_STATUS_SUSPENDED then NoOutput else Failed status | _ => Failed status end.
(** And with the buffer the second call filled. *)
Definition read_output (b : binding) (required : Z) (memory : string) : fetched :=
  match b with
  | Node | Java => Output (str_upto (Z.to_nat (if required =? 0 then 0 else required - 1)) memory)
  | CSharp => Output (until_nul memory)
  | Python => decoded (until_nul memory)
  | Rust => decoded (drop_final_nul memory)
  end.

Section Fetch.
Context {J : JsonLib} {S : Type} `{StateStore S} {W : Type} (cfg : RunConfig) (host : Host W).
Definition unsized : buffers := mkBuffers None 0 true.
Definition sized (memory : string) : buffers := mkBuffers (Some memory) (str_len memory) true.
(** The end of the first call, for the result [r], and the second call; [memory n] is
    what [n] fresh bytes hold.  [None]: the second call would execute again. *)
Definition fetch_output (b : binding) (r : ExecutionResult) (memory : Z -> string) (h : dage_run_t (S := S) (W := W))
    : option (fetched * dage_run_t) :=
  '(c, _, h) ← copy_run_result r unsized h;
  if negb (proceeds b (cp_status c)) then Some (first_failed b (cp_status c), h) else
  text ← rh_pending h;
  '(c, h) ← copy_pending text (sized (memory (default 0 (cp_required c)))) h;
  if negb (cp_status c =? DAGE_STATUS_OK) then Some (Failed (cp_status c), h) else
  Some (read_output b (default 0 (cp_required c)) (default "" (cp_buffer c)), h).

Lemma until_nul_app s t : until_nul s = s -> until_nul (s +:+ String "000" t) = s.
Proof.
  induction s as [|a s IH]; cbn; [done|]. destruct (Ascii.eqb a "000"); [done|]. intros [= E]. by rewrite (IH E).
Qed.
Lemma drop_final_nul_app s : drop_final_nul (c_str s) = s.
Proof.
  unfold drop_final_nul, c_str, str_last. rewrite str_length_app. cbn [String.length].
  replace (String.length s + 1 - 1)%nat with (String.length s) by lia.
  rewrite bool_decide_eq_true_2 by (induction s; [done|exact IHs]). apply substring_0_app.
Qed.
Lemma memcpy_exact memory text : str_len memory = str_len text + 1 -> memcpy memory (c_str text) = Some (c_str text).
Proof.
  intros Hl. unfold memcpy. assert (str_len (c_str text) = str_len text + 1) as Hc by (unfold c_str, str_len; rewrite str_length_app; cbn; lia).
  rewrite (proj2 (Z.ltb_ge _ _)) by lia. f_equal. unfold str_from.
  replace (String.length memory - String.length (c_str text))%nat with 0%nat by (unfold str_len in *; lia).
  assert (forall n s, String.substring n 0 s = "") as -> by (induction n; intros []; cbn; auto). apply app_nil_str.
Qed.
Lemma failure_ends b r : proceeds b (failure_status r) = false.
Proof. unfold failure_status. repeat case_match; by destruct b. Qed.
Lemma read_exact b text : until_nul text = text -> valid_utf8 text = true -> read_output b (str_len text + 1) (c_str text) = Output text.
Proof.
  intros Hn Hu. destruct b; unfold read_output, decoded; rewrite ?drop_final_nul_app; unfold c_str; rewrite ?until_nul_app, ?Hu by done; try done.
  all: rewrite (proj2 (Z.eqb_neq _ _)) by (unfold str_len; lia); f_equal;
    replace (Z.to_nat (str_len text + 1 - 1)) with (String.length text) by (unfold str_len; lia); apply substring_0_app.
Qed.

(** C4: an output is read whole.  In each binding, where a call waits for the result
    of an execution and the C interface returns it, the binding ends with the whole
    output of that execution, or with the status of its failure.  Its second call
    takes the output the first one left and executes nothing; nothing stays behind for
    a later call. *)
Theorem output_read_whole b r n memory h l : rh_pending h = None -> (forall n, 0 <= n -> str_len (memory n) = n) ->
  given_answers (rh_run h) !! n = Some r ->
  until_nul (write_json (xr_output r) false) = write_json (xr_output r) false -> valid_utf8 (write_json (xr_output r) false) = true ->
  fetch_output b r memory h = Some (if xr_success r then Output (write_json (xr_output r) false) else first_failed b (failure_status (xr_error r)), h)
  /\ rtc (c_step cfg host) (mkSession h (Some (mkWaiting n unsized)) l) (mkSession h None (l ++ option_list (output_of r))).
Proof.
  intros Hp Hm Hr Hn Hu. unfold fetch_output, output_of. destruct (copy_run_result r unsized h) as [[[c error] h1]|] eqn:Ec.
  2: { unfold copy_run_result in Ec. by destruct (xr_success r). }
  assert (c_step cfg host (mkSession h (Some (mkWaiting n unsized)) l) (mkSession h1 None (l ++ received c))) as Hs by by eapply CReturn.
  unfold copy_run_result in Ec. destruct (xr_success r); cbn in Ec; injection Ec as <- _ <-.
  - set (text := write_json (xr_output r) false) in *.
    assert (copy_pending text (sized (memory (str_len text + 1))) (mkCRun (rh_run h) (Some text))
      = Some (mkCopied DAGE_STATUS_OK (Some (str_len text + 1)) (Some (c_str text)), h)) as Ep.
    { unfold copy_pending, copy_output, sized. cbn. rewrite Hm by (unfold str_len; lia). rewrite Z.ltb_irrefl, memcpy_exact by (apply Hm; unfold str_len; lia).
      cbn. destruct h; cbn in *. by subst. }
    destruct h as [run pending]. cbn [rh_run rh_pending] in *. subst pending.
    match type of Hs with c_step _ _ _ (mkSession ?h1 _ _) => change h1 with (mkCRun run (Some text)) in * end. split.
    + destruct b; cbn -[read_output copy_pending]; rewrite Ep; cbn -[read_output]; by rewrite read_exact.
    + eapply rtc_l; [exact Hs|]. rewrite app_nil_r. apply rtc_once.
      replace (option_list (Some text)) with (received (mkCopied DAGE_STATUS_OK (Some (str_len text + 1)) (Some (c_str text)))).
      2: { unfold received. cbn. f_equal. replace (Z.to_nat (str_len text + 1 - 1)) with (String.length text) by (unfold str_len; lia). apply substring_0_app. }
      by apply (CPending cfg host text (sized (memory (str_len text + 1)))); [|cbn|].
  - cbn. rewrite failure_ends. split; [done|]. by apply rtc_once.
Qed.
End Fetch.

(** ** One execution at a time

    Run.executeAsync (java), DageRun.ExecuteAsync and ExecuteCore (csharp), Run::execute
    and Run::execute_async (rust) and Run._operation (python): the field, flag or lock
    that says the run is busy, the executions handed to the host's executor, and those
    inside the native call.  A queued execution may be refused by the executor.
    [inline]: csharp's scheduler runs the task in the call that queues it, which is the
    thread that holds the lock; the task clears the field before the call sets it. *)
Record exclusive := mkExclusive { ex_active : bool; ex_queued : nat; ex_inside : nat }.
Definition idle : exclusive := mkExclusive false 0 0.
Inductive ex_step (inline : bool) : exclusive -> exclusive -> Prop :=
| XBegin queued inside : ex_step inline (mkExclusive false queued inside) (mkExclusive true (S queued) inside)
| XRefused active queued inside : ex_step inline (mkExclusive active (S queued) inside) (mkExclusive false queued inside)
| XEnter active queued inside : ex_step inline (mkExclusive active (S queued) inside) (mkExclusive active queued (S inside))
| XLeave active queued inside : ex_step inline (mkExclusive active queued (S inside)) (mkExclusive false queued inside)
| XInline queued inside : inline = true -> ex_step inline (mkExclusive false queued inside) (mkExclusive true queued inside).

(** At most one execution of a run is under way, and the run is free when there is none:
    what a session of CRun.v takes for granted. *)
Lemma one_execution s : rtc (ex_step false) idle s ->
  (ex_queued s + ex_inside s)%nat = if ex_active s then 1%nat else 0%nat.
Proof.
  intros Hr. assert ((ex_queued idle + ex_inside idle)%nat = if ex_active idle then 1%nat else 0%nat) as H0 by done.
  revert H0. induction Hr as [|x y z Hxy _ IH]; [done|]. intros Hx. apply IH.
  destruct Hxy as [| [] |[]|[]|]; cbn in *; (done || lia).
Qed.
(** A csharp run given to a scheduler that runs inline stays busy for ever. *)
Lemma csharp_inline_stuck : exists s, ex_step true idle s /\ (ex_queued s + ex_inside s)%nat = 0%nat /\ forall s', ~ ex_step true s s'.
Proof. exists (mkExclusive true 0 0). split_and!; [by constructor|done|]. by inversion 1. Qed.

(** ** The end of a python run (Run._operation, Run.cancel, Run.snapshot, Run.close)

    An operation holds the lock; [cancel] and [snapshot] do not: they read the handle
    and then call with what they read.  [close] cancels, then destroys the run under
    the lock. *)
Record PythonRun := mkPythonRun {
  py_handle : bool; py_locked : bool; py_reads : list bool; py_closing : nat; py_destroyed : nat;
  py_operation_fault : bool; py_fault : bool
}.
Definition new_python_run : PythonRun := mkPythonRun true false [] 0 0 false false.
Definition gone (r : PythonRun) : bool := negb (py_destroyed r =? 0)%nat.
Definition operate (r : PythonRun) : PythonRun :=
  mkPythonRun (py_handle r) true (py_reads r) (py_closing r) (py_destroyed r) (py_operation_fault r || gone r) (py_fault r).
Definition call_with (v : bool) (reads : list bool) (r : PythonRun) : PythonRun :=
  mkPythonRun (py_handle r) (py_locked r) reads (py_closing r) (py_destroyed r) (py_operation_fault r) (py_fault r || v && gone r).
Definition destroy_python (r : PythonRun) : PythonRun :=
  if py_handle r then mkPythonRun false false (py_reads r) (pred (py_closing r)) (S (py_destroyed r)) (py_operation_fault r) (py_fault r)
  else mkPythonRun false false (py_reads r) (pred (py_closing r)) (py_destroyed r) (py_operation_fault r) (py_fault r).
Inductive py_step : PythonRun -> PythonRun -> Prop :=
| PyOperate r : py_locked r = false -> py_handle r = true -> py_step r (operate r)
| PyCallAgain r : py_locked r = true -> py_step r (operate r)
| PyRelease r : py_locked r = true -> py_step r (mkPythonRun (py_handle r) false (py_reads r) (py_closing r) (py_destroyed r) (py_operation_fault r) (py_fault r))
| PyRead r : py_step r (mkPythonRun (py_handle r) (py_locked r) (py_handle r :: py_reads r) (py_closing r) (py_destroyed r) (py_operation_fault r) (py_fault r))
| PyCall pre v post r : py_reads r = pre ++ v :: post -> py_step r (call_with v (pre ++ post) r)
| PyClose r : py_handle r = true -> py_step r (mkPythonRun (py_handle r) (py_locked r) (py_reads r) (S (py_closing r)) (py_destroyed r) (py_operation_fault r) (py_fault r))
| PyDestroy n r : py_closing r = S n -> py_locked r = false -> py_step r (destroy_python r).

(** Whoever closes a python run and how often: it is destroyed once at most, and no
    operation under the lock is inside it then or enters it later. *)
Lemma python_close_fences r : rtc py_step new_python_run r ->
  (py_destroyed r <= 1)%nat /\ py_operation_fault r = false /\ (py_locked r = true -> py_destroyed r = 0%nat).
Proof.
  intros Hr. assert (forall x, rtc py_step x r ->
    py_destroyed x = (if py_handle x then 0 else 1)%nat /\ py_operation_fault x = false /\ (py_locked x = true -> py_handle x = true) ->
    (py_destroyed r <= 1)%nat /\ py_operation_fault r = false /\ (py_locked r = true -> py_destroyed r = 0%nat)) as Hi.
  { clear Hr. intros x Hx. induction Hx as [x|x y z Hxy _ IH].
    - intros (Hd & Hf & Hl). destruct (py_handle x); (split_and!; [lia|done|]); [done|]. intros E. by apply Hl in E.
    - intros (Hd & Hf & Hl). apply IH. clear IH.
      destruct Hxy as [r0 E1 E2|r0 E|r0 E|r0|pre v post r0 E|r0 E|n r0 E1 E2]; cbn; try done.
      + rewrite E2 in *. split_and!; [done|by rewrite Hf; unfold gone; rewrite Hd|done].
      + rewrite (Hl E) in *. split_and!; [done|by rewrite Hf; unfold gone; rewrite Hd|done].
      + unfold destroy_python. by destruct (py_handle r0); cbn; rewrite Hd. }
  by apply (Hi new_python_run).
Qed.
(** A cancellation that read the handle before another thread closed the run uses what is
    destroyed. *)
Lemma python_cancel_race : exists r, rtc py_step new_python_run r /\ py_fault r = true.
Proof.
  eexists. split.
  - eapply rtc_l; [apply PyRead|]. eapply rtc_l; [by apply PyClose|]. eapply rtc_l; [by eapply PyDestroy|].
    eapply rtc_l; [by apply (PyCall [])|]. reflexivity.
  - reflexivity.
Qed.
