(* ===== verification/PyStore.v ===== *)
(** * State stores of python (bindings/python/src/dage/__init__.py: Engine.set_state_store)

    The callbacks ctypes makes of a python object's methods.  A method returns or
    raises.  Assigning to a field of [output.contents] writes to the structure of the
    library; assigning to [output.contents] itself only makes the pointer object of
    python point elsewhere, and the structure stays as it was. *)

From S2P Require Import Prelude Json Sha256 Reliability Workflow Trace RunState Resource Bundle Resolver CSpi CSpiLaws.
Open Scope string_scope.
Open Scope list_scope.
Open Scope Z_scope.

Inductive py (A : Type) := Returned (a : A) | Raised.
Arguments Returned {A}. Arguments Raised {A}.
(** The object's methods, over its state; [None] is python's. *)
Record python_store (H : Type) := mkPythonStore {
  ps_put : string -> string -> H -> py unit * H;
  ps_get : string -> H -> py (option string) * H;
  ps_erase : string -> H -> py unit * H;
  ps_load : string -> H -> py (option StateRecord) * H;
  ps_compare_exchange : string -> Z -> string -> H -> py (option Z) * H;
  ps_claim : string -> Z -> string -> H -> py (option StateRecord) * H;
  ps_list : string -> H -> py (list string) * H
}.
Arguments mkPythonStore {H}. Arguments ps_put {H}. Arguments ps_get {H}. Arguments ps_erase {H}. Arguments ps_load {H}.
Arguments ps_compare_exchange {H}. Arguments ps_claim {H}. Arguments ps_list {H}.

Section Table.
(** [address]: where ctypes puts the buffer made of a text. *)
Context {H : Type} (store : python_store H) (address : string -> Z).
(** [_OwnedBufferPool.make] *)
Definition make (value : string) : dage_owned_buffer_t := mkOwned (Bytes value) (Some (address value)).
Definition no_record : dage_state_record_t := mkCRecord 0 0 no_buffer no_buffer.
Definition fill_record (r : StateRecord) : dage_state_record_t :=
  mkCRecord (u64 (sr_version r)) (u64 (sr_epoch r)) (make (sr_owner r)) (make (sr_checkpoint r)).
(** What a callback answers: the status of a method that returned, with what it left in
    the library's structure, or 100. *)
Definition answered {A B} (untouched : B) (f : A -> Z * B) (p : py A * H) : answer B * H :=
  (match p.1 with
   | Returned a => let '(status, out) := f a in mkAnswer (Ok status) out
   | Raised => mkAnswer (Ok DAGE_STATUS_INTERNAL_ERROR) untouched
   end, p.2).
Definition unless_none {A B} (status : Z) (untouched : B) (f : A -> B) (a : option A) : Z * B :=
  match a with Some a => (DAGE_STATUS_OK, f a) | None => (status, untouched) end.
Definition python_table : dage_state_store_vtable_t H := {|
  vt_put := fun id cp h => answered tt (fun _ => (DAGE_STATUS_OK, tt)) (ps_put store id cp h);
  vt_get := fun id h => answered no_buffer (unless_none DAGE_STATUS_NOT_FOUND no_buffer (fun _ => no_buffer)) (ps_get store id h);
  vt_erase := fun id h => answered tt (fun _ => (DAGE_STATUS_OK, tt)) (ps_erase store id h);
  vt_load := fun id h => answered no_record (unless_none DAGE_STATUS_NOT_FOUND no_record fill_record) (ps_load store id h);
  vt_compare_exchange := fun id expected cp h =>
    answered 0 (unless_none DAGE_STATUS_EXECUTION_ERROR 0 u64) (ps_compare_exchange store id expected cp h);
  vt_claim := fun id expected owner h =>
    answered no_record (unless_none DAGE_STATUS_EXECUTION_ERROR no_record fill_record) (ps_claim store id expected owner h);
  vt_list := fun prefix h => answered no_buffer (fun _ => (DAGE_STATUS_OK, no_buffer)) (ps_list store prefix h)
|}.
End Table.

(** ** What the library sees *)
Section Laws.
Context {J : JsonLib} {H : Type} `{StateStore H} (store : python_store H) (address : string -> Z).
(** The methods do what a store does in this state: they return its values, and raise
    or return [None] where it fails. *)
Definition agrees {A R} (value : A -> R -> Prop) (failed : py A -> Prop) (p : py A * H) (q : Result R * H) : Prop :=
  p.2 = q.2 /\ match q.1 with Ok r => exists a, p.1 = Returned a /\ value a r | Err _ => failed p.1 end.
Definition word (n : Z) : Prop := u64 n = n.
Definition same_record (a : option StateRecord) (r : StateRecord) : Prop := a = Some r /\ word (sr_version r) /\ word (sr_epoch r).
Definition raised {A} (p : py A) : Prop := p = Raised.
Definition no_value {A} (p : py (option A)) : Prop := p = Raised \/ p = Returned None.
Record python_implements (h : H) : Prop := mkPythonImplements {
  pi_put : forall id cp, agrees (fun _ _ => True) raised (ps_put store id cp h) (ss_put id cp h);
  pi_get : forall id, agrees (fun a r => a = Some r) no_value (ps_get store id h) (ss_get id h);
  pi_erase : forall id, agrees (fun _ _ => True) raised (ps_erase store id h) (ss_erase id h);
  pi_load : forall id, agrees same_record no_value (ps_load store id h) (ss_load id h);
  pi_cas : forall id e cp, agrees (fun a v => a = Some v /\ word v) no_value (ps_compare_exchange store id e cp h) (ss_compare_exchange id e cp h);
  pi_claim : forall id e o, agrees same_record no_value (ps_claim store id e o h) (ss_claim id e o h);
  pi_list : forall prefix, agrees eq raised (ps_list store prefix h) (ss_list prefix h)
}.
Abbreviation table := (python_table store address).
Lemma answered_answers {A B R} untouched (f : A -> Z * B) (value : A -> R -> Prop) failed (read : answer B -> R -> Prop) p q :
  agrees value failed p q ->
  (forall a r, value a r -> (f a).1 = DAGE_STATUS_OK /\ read (mkAnswer (Ok (f a).1) (f a).2) r) ->
  (forall a, failed (Returned a) -> (f a).1 <> DAGE_STATUS_OK) ->
  answers read (answered untouched f p) q.
Proof.
  unfold agrees, answers, answered. intros [Hh Hq] Hok Herr. destruct p as [p h]. cbn [fst snd] in *. split; [done|].
  destruct q.1 as [r|e].
  - destruct Hq as (a & -> & Hv). specialize (Hok a r Hv). destruct (f a) as [status out]. cbn in *. by destruct Hok as [-> ?].
  - destruct p as [a|]; [|done]. specialize (Herr a Hq). destruct (f a) as [status out]. unfold succeeded. cbn in *. by apply Z.eqb_neq.
Qed.
Lemma python_records status (f : py (option StateRecord) * H) q :
  agrees same_record no_value f q -> status <> DAGE_STATUS_OK ->
  answers holds_record (answered no_record (unless_none status no_record (fill_record address)) f) q.
Proof.
  intros Hf Hs. eapply answered_answers; [exact Hf| |].
  - intros a r (-> & Hv & He). cbn. split; [done|]. unfold holds_record. cbn. by rewrite Hv, He.
  - intros a [[=]|[= ->]]. done.
Qed.
Lemma python_done (p : py unit * H) (q : Result bool * H) : agrees (fun _ _ => True) raised p q ->
  answers (fun _ _ => True) (answered tt (fun _ => (DAGE_STATUS_OK, tt)) p) q.
Proof. intros Hp. eapply answered_answers; [exact Hp|done|]. by intros a [=]. Qed.

(** C15: a python store is a store but for [get] and [list].  Where the methods of a python
    object implement a store, the library's put, erase, load, compare_exchange and claim
    follow it.  But where the store has a checkpoint for a run, [get] gives the library
    the empty text, whatever the checkpoint is, and [list] always fails, because their
    results never reach the library's buffer. *)
Theorem python_store_refines id e cp owner prefix s : python_implements (cst_host s) -> is_ok (jl_parse "") = false ->
  let C := c_state_store table in let h := cst_host s in
  follows (ss_put (StateStore := C) id cp s) (done_ (ss_put id cp h))
  /\ follows (ss_erase (StateStore := C) id s) (done_ (ss_erase id h))
  /\ follows (ss_load (StateStore := C) id s) (ss_load id h)
  /\ follows (ss_compare_exchange (StateStore := C) id e cp s) (ss_compare_exchange id e cp h)
  /\ follows (ss_claim (StateStore := C) id e owner s) (ss_claim id e owner h)
  /\ (is_ok (ss_get id h).1 = true -> (ss_get (StateStore := C) id s).1 = Ok "")
  /\ is_ok (ss_list (StateStore := C) prefix s).1 = false.
Proof.
  intros Hi Hj C h. split_and!.
  - apply c_status_follows, python_done, Hi.
  - apply c_status_follows, python_done, Hi.
  - apply c_record_follows. cbn. by apply python_records; [apply Hi|].
  - apply c_version_follows. cbn. eapply answered_answers; [apply Hi| |].
    + intros a v [-> Hv]. by cbn.
    + intros a [[=]|[= ->]]. done.
  - apply c_record_follows. cbn. by apply python_records; [apply Hi|].
  - intros Hg. destruct (pi_get _ Hi id) as [_ Hq]. fold h in Hq. destruct (ss_get id h) as [[v|x] h']; [|done]. cbn in Hq.
    destruct Hq as (a & Ea & ->). cbn. unfold c_call, answered. cbn. fold h. by rewrite Ea.
  - cbn. unfold c_call, answered. cbn. destruct (ps_list store prefix (cst_host s)) as [[l|] h']; [|done]. cbn.
    unfold c_run_ids, c_strings, parse_strings. cbn. by destruct (jl_parse "") as [[]|].
Qed.
End Laws.
