(* ===== verification/Format.v ===== *)
(** * The loader's normal form (src/dage.cpp: Engine::load, Workflow::normalized_json)

    Loading fills in what a node leaves out.  A document that was loaded and printed is
    read back as it is. *)

From S2P Require Import Prelude Json Ir Workflow.
Open Scope string_scope.
Open Scope list_scope.
Open Scope Z_scope.

Section Normal.
Context {J : JsonLib}.
Definition normalized_json (w : Workflow) : string := write_json (wf_root w) true.

(** A node that has what the loader would give it. *)
Definition inherited (k : string) (root : list (string * json)) (m : list (string * json)) : Prop :=
  om_mem k m = true \/ exists d, om_get "defaults" root = Some d /\ jmember k d = Ok false.
Record node_normal (root : list (string * json)) (n : json) (m : list (string * json)) : Prop := mkNormal {
  nn_object : n = JObject m;
  nn_name : om_mem "name" m = true;
  nn_enabled : om_mem "enabled" m = true;
  nn_effects : om_mem "effects" m = true
               \/ exists type, get_string "type" "" n = Ok type /\ mem_str type ["llm"; "transform"; "condition"; "noop"] = false;
  nn_timeout : inherited "timeout_ms" root m;
  nn_retry : inherited "retry" root m
}.
Definition nodes_normal (root ns : list (string * json)) (ids : list string) : Prop :=
  forall id, id ∈ ids -> exists n m, om_get id ns = Some n /\ node_normal root n m.

(** ** Loading leaves a normal document

    A step of the loader adds members and leaves those that are there, and the type. *)
Definition filled (m m' : list (string * json)) : Prop :=
  (forall k, om_mem k m = true -> om_get k m' = om_get k m) /\ om_get "type" m' = om_get "type" m.
Lemma filled_refl m : filled m m.
Proof. by split. Qed.
Lemma filled_trans m1 m2 m3 : filled m1 m2 -> filled m2 m3 -> filled m1 m3.
Proof.
  intros [H1 T1] [H2 T2]. split; [|by rewrite T2]. intros k Hk. rewrite <- (H1 k Hk). apply H2. unfold om_mem in *. by rewrite (H1 k Hk).
Qed.
Lemma filled_mem m m' k : filled m m' -> om_mem k m = true -> om_mem k m' = true.
Proof. intros [H _] Hk. unfold om_mem in *. by rewrite (H k Hk). Qed.
Lemma filled_set k x m : om_mem k m = false -> k <> "type" -> filled m (om_set k x m) /\ om_mem k (om_set k x m) = true.
Proof.
  intros Hk Ht. split; [|unfold om_mem; by rewrite om_get_set_eq]. split; [|by apply om_get_set_ne].
  intros k' Hk'. apply om_get_set_ne. intros ->. congruence.
Qed.
Lemma set_missing_spec k x m n' : k <> "type" -> set_missing k x (JObject m) = Ok n' ->
  exists m', n' = JObject m' /\ filled m m' /\ om_mem k m' = true.
Proof.
  intros Ht. unfold set_missing. cbn. destruct (om_mem k m) eqn:E; intros [= <-]; eexists; (split; [done|]); [by split; [apply filled_refl|]|].
  by apply filled_set.
Qed.
Lemma declare_effects_spec kind m n' : om_mem "effects" m = false -> declare_effects kind (JObject m) = Ok n' ->
  exists m', n' = JObject m' /\ filled m m' /\ om_mem "effects" m' = true.
Proof.
  intros E. unfold declare_effects. cbn. unfold om_mem in E. destruct (om_get "effects" m) eqn:Eg; [done|]. cbn.
  rewrite om_get_set_eq. cbn. intros [= <-]. eexists. split; [done|].
  assert (om_mem "effects" m = false) as Em by (unfold om_mem; by rewrite Eg).
  split; [|unfold om_mem; by rewrite om_get_set_eq]. split.
  - intros k Hk. assert ("effects" <> k) by (intros <-; congruence). by rewrite !om_get_set_ne.
  - by rewrite !om_get_set_ne.
Qed.
(** The document only gets a null member for defaults it does not have. *)
Definition touched (root root' : list (string * json)) : Prop :=
  (forall k, k <> "defaults" -> om_get k root' = om_get k root)
  /\ (om_mem "defaults" root = true -> om_get "defaults" root' = om_get "defaults" root).
Lemma touched_refl r : touched r r.
Proof. by split. Qed.
Lemma touched_trans r1 r2 r3 : touched r1 r2 -> touched r2 r3 -> touched r1 r3.
Proof.
  intros [H1 D1] [H2 D2]. split; [intros k Hk; by rewrite H2, H1|]. intros Hd. rewrite <- (D1 Hd). apply D2.
  unfold om_mem in *. by rewrite (D1 Hd).
Qed.
Lemma inherit_default_spec k root m root' n' : k <> "type" -> inherit_default k (JObject root) (JObject m) = Ok (root', n') ->
  exists r' m', root' = JObject r' /\ n' = JObject m' /\ touched root r' /\ filled m m' /\ inherited k r' m'.
Proof.
  intros Hk. unfold inherit_default. cbn [jmember mbind res_bind]. destruct (om_mem k m) eqn:Em.
  { intros [= <- <-]. do 2 eexists. split_and!; [done|done|apply touched_refl|apply filled_refl|by left]. }
  intros E. simplify_res.
  assert (exists r' d, a = JObject r' /\ touched root r' /\ om_get "defaults" r' = Some d) as (r' & d & -> & Ht & Ed).
  { match goal with H : touch _ _ = Ok _ |- _ => unfold touch in H; cbn in H; revert H end.
    unfold om_mem. destruct (om_get "defaults" root) as [d|] eqn:Ed; intros [= <-].
    - exists root, d. by split_and!; [|apply touched_refl|].
    - exists (om_set "defaults" JNull root), JNull. split_and!; [done| |apply om_get_set_eq]. split.
      + intros k' Hk'. by apply om_get_set_ne.
      + unfold om_mem. by rewrite Ed. }
  match goal with H : jget "defaults" _ = Ok _ |- _ => cbn in H; rewrite Ed in H; injection H as <- end. cbn [default from_option id] in *.
  match goal with H : jmember k d = Ok ?b |- _ => destruct b eqn:? end; simplify_res.
  - match goal with H : jset k _ (JObject m) = Ok _ |- _ => cbn in H; injection H as <- end.
    do 2 eexists. destruct (filled_set k a m Em Hk). split_and!; try done. by left.
  - do 2 eexists. split_and!; [done|done|done|apply filled_refl|]. right. by exists d.
Qed.
Lemma inherited_touched k r r' m : touched r r' -> inherited k r m -> inherited k r' m.
Proof.
  intros [_ Ht] [H|(d & Ed & Hd)]; [by left|right]. exists d. split; [|done]. rewrite Ht; [done|]. unfold om_mem. by rewrite Ed.
Qed.
Lemma inherited_filled k r m m' : filled m m' -> inherited k r m -> inherited k r m'.
Proof. intros Hf [H|H]; [left; by eapply filled_mem|by right]. Qed.
Lemma type_filled m m' : filled m m' -> get_string "type" "" (JObject m') = get_string "type" "" (JObject m).
Proof. intros [_ Ht]. unfold get_string. cbn. by rewrite Ht. Qed.
Lemma node_touched r r' n m : touched r r' -> node_normal r n m -> node_normal r' n m.
Proof. intros Ht []. split; try done; by eapply inherited_touched. Qed.

Lemma effects_spec (b : bool) kind m n' :
  (if negb (om_mem "effects" m) && b then declare_effects kind (JObject m) else Ok (JObject m)) = Ok n' ->
  exists m', n' = JObject m' /\ filled m m' /\ (b = true -> om_mem "effects" m' = true).
Proof.
  destruct (om_mem "effects" m) eqn:E, b; cbn [negb andb]; intros H.
  1,2,4: injection H as <-; exists m; by split_and!; [|apply filled_refl|].
  apply declare_effects_spec in H as (m' & -> & F & Hm); [|done]. by exists m'.
Qed.
Lemma first_missing k x n n' : k <> "type" -> set_missing k x n = Ok n' -> exists m, n' = JObject m /\ om_mem k m = true.
Proof.
  intros Hk. destruct n as [| | | | | |l|m]; try done.
  - change (set_missing k x JNull) with (set_missing k x (JObject [])). intros (m' & ? & _ & ?)%set_missing_spec; [|done]. by exists m'.
  - intros (m' & ? & _ & ?)%set_missing_spec; [|done]. by exists m'.
Qed.
Lemma normalize_node_spec root ns i root' : om_get "nodes" root = Some (JObject ns) -> normalize_node (JObject root) i = Ok root' ->
  exists r n m, root' = JObject (om_set "nodes" (JObject (om_set i n ns)) r) /\ touched root r /\ node_normal r n m.
Proof.
  intros En. unfold normalize_node. intros E. apply bind_Ok in E as (n0 & _ & E).
  apply bind_Ok in E as (n1 & E1 & E). apply first_missing in E1 as (m1 & -> & H1); [|done].
  apply bind_Ok in E as (n2 & E2 & E). apply set_missing_spec in E2 as (m2 & -> & F2 & H2); [|done].
  apply bind_Ok in E as (type & Et & E). apply bind_Ok in E as (he & [= <-] & E).
  apply bind_Ok in E as (n3 & E3 & E). apply effects_spec in E3 as (m3 & -> & F3 & H3).
  apply bind_Ok in E as (he & [= <-] & E). apply bind_Ok in E as (n4 & E4 & E). apply effects_spec in E4 as (m4 & -> & F4 & H4).
  apply bind_Ok in E as ([r5 n5] & E5 & E). apply inherit_default_spec in E5 as (r5' & m5 & -> & -> & T5 & F5 & I5); [|done].
  apply bind_Ok in E as ([r6 n6] & E6 & E). apply inherit_default_spec in E6 as (r6' & m6 & -> & -> & T6 & F6 & I6); [|done].
  pose proof (touched_trans _ _ _ T5 T6) as T. assert (om_get "nodes" r6' = Some (JObject ns)) as En6 by (by rewrite (proj1 T)).
  cbn in E. rewrite En6 in E. cbn in E. injection E as <-. exists r6', (JObject m6), m6. split_and!; [done|done|].
  pose proof (filled_trans _ _ _ F5 F6) as F56. pose proof (filled_trans _ _ _ F4 F56) as F46. pose proof (filled_trans _ _ _ F3 F46) as F36.
  pose proof (filled_trans _ _ _ F2 F36) as F26. split; [done|by apply (filled_mem m1)|by apply (filled_mem m2)| | |done].
  - destruct (String.eqb type "llm") eqn:El; [left; eapply filled_mem; [exact F46|]; by apply H3|].
    destruct (mem_str type ["transform"; "condition"; "noop"]) eqn:Em; [left; eapply filled_mem; [exact F56|]; by apply H4|].
    right. exists type. split; [by rewrite (type_filled _ _ F36)|]. unfold mem_str in *. cbn [existsb] in *. by rewrite El.
  - apply (inherited_filled _ _ m5); [done|]. by apply (inherited_touched _ r5').
Qed.

(** The loop over the nodes. *)
Lemma nodes_set r n ns i m ids : node_normal r n m -> nodes_normal r ns ids -> nodes_normal r (om_set i n ns) (i :: ids).
Proof.
  intros Hn Hs j Hj. rewrite om_get_set. case_decide as E; [by exists n, m|].
  apply elem_of_cons in Hj as [->|Hj]; [done|by apply Hs].
Qed.
Lemma nodes_touched r r' ns ids : touched r r' -> nodes_normal r ns ids -> nodes_normal r' ns ids.
Proof. intros Ht Hs i Hi. destruct (Hs i Hi) as (n & m & ? & ?). exists n, m. split; [done|]. by eapply node_touched. Qed.
Lemma same_defaults r v ns ids : nodes_normal r ns ids -> nodes_normal (om_set "nodes" v r) ns ids.
Proof.
  intros Hs i Hi. destruct (Hs i Hi) as (n & m & En & [? ? ? ? Ht Hr]). exists n, m. split; [done|].
  split; try done; unfold inherited in *; by rewrite om_get_set_ne.
Qed.
Lemma normalize_nodes_spec names : forall root ns ids root',
  om_get "nodes" root = Some (JObject ns) -> nodes_normal root ns ids -> (forall k, k ∈ names -> om_mem k ns = true) ->
  normalize_nodes (JObject root) names = Ok root' ->
  exists r ns', root' = JObject r /\ om_get "nodes" r = Some (JObject ns') /\ nodes_normal r ns' (rev names ++ ids)
    /\ (forall k, om_mem k ns' = om_mem k ns).
Proof.
  induction names as [|i names IH]; intros root ns ids root' En Hs Hk E; cbn [normalize_nodes] in E.
  - injection E as <-. by exists root, ns.
  - apply bind_Ok in E as (r1 & E1 & E). apply normalize_node_spec with (ns := ns) in E1 as (r & n & m & -> & Ht & Hn); [|done].
    assert (forall k, om_mem k (om_set i n ns) = om_mem k ns) as Hm.
    { intros k. unfold om_mem at 1. rewrite om_get_set. case_decide as Ei; [subst; symmetry; apply Hk; by left|done]. }
    destruct (IH (om_set "nodes" (JObject (om_set i n ns)) r) (om_set i n ns) (i :: ids) root') as (r2 & ns' & -> & En' & Hs' & Hk');
      [apply om_get_set_eq| | |exact E|].
    + apply same_defaults. eapply nodes_set; [done|]. by eapply nodes_touched.
    + intros k Hk'. rewrite Hm. apply Hk. by right.
    + exists r2, ns'. split_and!; [done|done| |intros k; by rewrite Hk']. cbn [rev]. by rewrite <- app_assoc.
Qed.

(** ** A normal document stays as it is *)
Lemma om_set_same k (v : json) m : om_sorted m -> om_get k m = Some v -> om_set k v m = m.
Proof.
  intros Hs Hg. apply om_ext; [by apply om_set_sorted|done|]. intros k'. rewrite om_get_set. case_decide as E; [by subst|done].
Qed.
Lemma set_missing_same k x m : om_mem k m = true -> set_missing k x (JObject m) = Ok (JObject m).
Proof. intros E. unfold set_missing. cbn. by rewrite E. Qed.
Lemma inherit_same k root m : inherited k root m -> inherit_default k (JObject root) (JObject m) = Ok (JObject root, JObject m).
Proof.
  unfold inherit_default. cbn [jmember mbind res_bind]. intros [->|(d & Ed & Hd)]; [done|]. destruct (om_mem k m); [done|].
  unfold touch. cbn. unfold om_mem. rewrite Ed. cbn. rewrite Ed. cbn. by rewrite Hd.
Qed.
Lemma normalize_node_same root ns i n m : om_sorted root -> om_sorted ns ->
  om_get "nodes" root = Some (JObject ns) -> om_get i ns = Some n -> node_normal root n m ->
  is_ok (get_string "type" "" n) = true -> normalize_node (JObject root) i = Ok (JObject root).
Proof.
  intros Hsr Hsn Er Ei [-> Hn He Hf Ht Hr] Hty. unfold normalize_node.
  assert (jget_path ["nodes"; i] (JObject root) = Ok (JObject m)) as -> by (cbn; rewrite Er; cbn; by rewrite Ei).
  cbn [mbind res_bind]. rewrite (set_missing_same "name") by done. cbn [mbind res_bind].
  rewrite (set_missing_same "enabled") by done. cbn [mbind res_bind]. destruct (get_string "type" "" (JObject m)) as [t|]; [|done].
  cbn [mbind res_bind jmember].
  assert (negb (om_mem "effects" m) && String.eqb t "llm" = false /\ negb (om_mem "effects" m) && mem_str t ["transform"; "condition"; "noop"] = false) as [Hl Hp].
  { destruct Hf as [->|(t' & [= <-] & Hm)]; [done|]. unfold mem_str in *. cbn [existsb] in *. apply orb_false_iff in Hm as [-> ->]. by rewrite !andb_false_r. }
  rewrite Hl. cbn [mbind res_bind jmember]. rewrite Hp. cbn [mbind res_bind].
  rewrite inherit_same by done. cbn [mbind res_bind]. rewrite inherit_same by done. cbn [mbind res_bind].
  cbn [jset_path jget mbind res_bind jset]. rewrite Er. cbn. by rewrite (om_set_same i), (om_set_same "nodes").
Qed.
Lemma normalize_nodes_same root ns names : om_sorted root -> om_sorted ns -> om_get "nodes" root = Some (JObject ns) ->
  nodes_normal root ns names -> (forall i n, om_get i ns = Some n -> is_ok (get_string "type" "" n) = true) ->
  normalize_nodes (JObject root) names = Ok (JObject root).
Proof.
  intros Hsr Hsn Er Hs Hty. induction names as [|i names IH]; [done|]. cbn [normalize_nodes].
  destruct (Hs i) as (n & m & Ei & Hn); [by left|]. rewrite (normalize_node_same root ns i n m); try done; [|by eapply Hty]. cbn.
  apply IH. intros j Hj. apply Hs. by right.
Qed.
End Normal.

(** ** Printed and read back *)
Section Stable.
Context {J : JsonLib} {L : JsonLaws J}.
(** The types of nodes are texts, where there are any. *)
Definition string_types (root : json) : Prop :=
  forall ns i m t, jget "nodes" root = Ok (JObject ns) -> om_get i ns = Some (JObject m) -> om_get "type" m = Some t -> is_string t = true.
Abbreviation canons := (fun m : list (string * json) => prod_map id canon <$> m).
Lemma canons_get k m : om_get k (canons m) = canon <$> om_get k m.
Proof. induction m as [|[k' v] m IH]; [done|]. cbn. by destruct (String.eqb k k'). Qed.
Lemma canons_mem k m : om_mem k (canons m) = om_mem k m.
Proof. unfold om_mem. rewrite canons_get. by destruct (om_get k m). Qed.
Lemma canons_keys m : (canons m).*1 = m.*1.
Proof. induction m as [|[k v] m IH]; [done|]. cbn. by f_equal. Qed.
Lemma canons_sorted m : om_sorted m -> om_sorted (canons m).
Proof. unfold om_sorted. by rewrite canons_keys. Qed.
Lemma jmember_canon k v : jmember k (canon v) = jmember k v.
Proof. destruct v; cbn; try done; [by case_match|]. by rewrite canons_mem. Qed.
Lemma inherited_canon k root m : inherited k root m -> inherited k (canons root) (canons m).
Proof.
  intros [H|(d & Ed & Hd)]; [left; by rewrite canons_mem|right]. exists (canon d). by rewrite canons_get, Ed, jmember_canon.
Qed.
Lemma type_canon m : (forall t, om_get "type" m = Some t -> is_string t = true) ->
  get_string "type" "" (JObject (canons m)) = get_string "type" "" (JObject m) /\ is_ok (get_string "type" "" (JObject m)) = true.
Proof.
  intros Ht. unfold get_string. cbn. rewrite canons_get. destruct (om_get "type" m) as [t|]; cbn; [|by rewrite jl_as_string_string].
  specialize (Ht t eq_refl). destruct t; try done. cbn. by rewrite jl_as_string_string.
Qed.
Lemma node_canon root m m' : (forall t, om_get "type" m = Some t -> is_string t = true) ->
  node_normal root (JObject m) m' -> node_normal (canons root) (JObject (canons m)) (canons m).
Proof.
  intros Ht [[= <-] Hn He Hf Hti Hr]. split; rewrite ?canons_mem; try done; [|by apply inherited_canon..].
  destruct Hf as [Hf|(t & Et & Hm)]; [by left|right]. exists t. by rewrite (proj1 (type_canon m Ht)).
Qed.
#[local] Transparent text_ok.
Lemma text_ok_members d m : text_ok jl_str_ok jl_real_ok d (JObject m) ->
  om_sorted m /\ forall k v, om_get k m = Some v -> exists d', text_ok jl_str_ok jl_real_ok d' v.
Proof.
  destruct d as [|d]; [done|]. intros [Hs Hm]. split; [done|]. intros k v Hg. exists d. clear Hs.
  induction Hm as [|[k' v'] m [_ Hv] _ IH]; [done|]. cbn in Hg. destruct (String.eqb k k'); [by injection Hg as <-|by apply IH].
Qed.
#[local] Opaque text_ok.

Lemma touch_object root root' : touch "nodes" root = Ok root' -> exists r v, root' = JObject r /\ om_get "nodes" r = Some v.
Proof.
  unfold touch. destruct root as [| | | | | |l|r]; cbn; try done; [intros [= <-]; by do 2 eexists|].
  unfold om_mem. destruct (om_get "nodes" r) as [v|] eqn:E; intros [= <-]; [by exists r, v|].
  eexists _, JNull. split; [done|apply om_get_set_eq].
Qed.
(** The steps of a load after the checks. *)
Lemma load_root limits text w : load limits text = Ok w -> exists root root1 nodes names,
  parse_workflow_json limits text = Ok root /\ touch "nodes" root = Ok root1 /\ jget "nodes" root1 = Ok nodes
  /\ jmembers nodes = Ok names /\ normalize_nodes root1 names = Ok (wf_root w).
Proof.
  unfold load. intros E. apply bind_Ok in E as (d & _ & E). destruct (List.find is_error d); [done|].
  apply bind_Ok in E as (root & Er & E). apply bind_Ok in E as (root1 & E1 & E). apply bind_Ok in E as (nodes & En & E).
  apply bind_Ok in E as (names & Em & E). apply bind_Ok in E as (root2 & E2 & E). apply bind_Ok in E as (c & _ & [= <-]).
  by exists root, root1, nodes, names.
Qed.
Lemma load_normal limits text w : load limits text = Ok w -> exists r, wf_root w = JObject r
  /\ (om_get "nodes" r = Some JNull \/ exists ns, om_get "nodes" r = Some (JObject ns) /\ nodes_normal r ns ns.*1).
Proof.
  intros (root & root1 & nodes & names & _ & Et & En & Em & E)%load_root.
  apply touch_object in Et as (r & v & -> & Ev). cbn in En. rewrite Ev in En. injection En as <-. cbn in Em.
  destruct v as [| | | | | |l|ns]; try done; injection Em as <-.
  - cbn in E. injection E as <-. exists r. split; [done|by left].
  - apply (normalize_nodes_spec _ _ ns []) in E as (r' & ns' & -> & En' & Hs & Hm); [|done|by intros i []%elem_of_nil|].
    + exists r'. split; [done|right]. exists ns'. split; [done|]. intros i Hi%om_mem_keys. apply Hs. rewrite app_nil_r, elem_of_rev.
      apply om_mem_keys. by rewrite <- Hm.
    + intros k. apply om_mem_keys.
Qed.

(** C38: a formatted workflow is stable.  Where the text a loaded workflow is printed as is
    loaded again, the document is the one that was printed, up to the kind of its
    integers: nothing is filled in or declared a second time. *)
Theorem format_stable limits limits' text w w' : load limits text = Ok w ->
  text_ok jl_str_ok jl_real_ok 1000 (wf_root w) -> string_types (wf_root w) ->
  load limits' (normalized_json w) = Ok w' -> wf_root w' = canon (wf_root w).
Proof.
  intros Hl Ho Hty (root & root1 & nodes & names & Ep & Et & En & Em & E)%load_root.
  assert (root = canon (wf_root w)) as ->.
  { unfold parse_workflow_json in Ep. repeat case_match; try done. injection Ep as <-.
    match goal with H : jl_parse_limited _ _ = Ok _ |- _ => apply jl_parse_limited_parse in H; unfold normalized_json, write_json in H;
      rewrite jl_parse_write in H by done; by injection H as <- end. }
  destruct (load_normal _ _ _ Hl) as (r & Er & Hn). rewrite Er in *. cbn [canon] in *. fold (canons r) in *.
  destruct (text_ok_members _ _ Ho) as [Hsr Hm].
  destruct Hn as [Hn|(ns & Hn & Hs)]; unfold touch in Et; cbn in Et; unfold om_mem in Et; rewrite canons_get, Hn in Et; injection Et as <-;
    cbn in En; rewrite canons_get, Hn in En; injection En as <-; injection Em as <-; [by injection E as <-|].
  destruct (Hm _ _ Hn) as (d & [Hsn _]%text_ok_members).
  assert (forall i n, om_get i ns = Some n -> exists m, n = JObject m /\ node_normal r (JObject m) m
    /\ forall t, om_get "type" m = Some t -> is_string t = true) as Hall.
  { intros i n Hi. destruct (Hs i) as (n' & m & Hi' & Hnn); [apply om_mem_keys; unfold om_mem; by rewrite Hi|]. rewrite Hi in Hi'.
    injection Hi' as <-. pose proof (nn_object _ _ _ Hnn) as ->. exists m. split_and!; [done|done|].
    intros t. eapply (Hty ns); [cbn; by rewrite Hn|done]. }
  fold (canons ns) in E. rewrite (normalize_nodes_same _ (canons ns)) in E; [by injection E as <-|by apply canons_sorted..|by rewrite canons_get, Hn| |].
  - intros i Hi%om_mem_keys. rewrite canons_mem in Hi. unfold om_mem in Hi. rewrite canons_get.
    destruct (om_get i ns) as [n|] eqn:Ei; [|done]. destruct (Hall i n Ei) as (m & -> & Hnn & Ht). do 2 eexists. split; [done|]. by eapply node_canon.
  - intros i n. rewrite canons_get. destruct (om_get i ns) as [n'|] eqn:Ei; [|done]. destruct (Hall i n' Ei) as (m & -> & _ & Ht).
    intros [= <-]. destruct (type_canon m Ht) as [E1 E2]. cbn [canon]. fold (canons m). by rewrite E1.
Qed.
End Stable.
