(* ===== verification/Cli.v ===== *)
(** * The command line tool (tools/dage_cli.cpp)

    What [main] prints and returns, as a function of its arguments and of what their
    paths lead to.  Executing a run is left to the step relation of Drive.v: such a
    command prints the result once the run has one.  A path that leads to a directory
    opens and reads as the empty text; special files are not read. *)

From S2P Require Import Prelude Json Expr Sha256 Ir Reliability Workflow Trace RunState RunStep Restore Drive Replay Patch Resource Bundle Resolver Zip Directory Engine Format.
Open Scope string_scope.
Open Scope list_scope.
Open Scope Z_scope.

Record printed := mkPrinted { pr_exit : Z; pr_out : string; pr_err : string }.
(** A command has printed, or executes a run. *)
Inductive cli_state (W : Type) := Printed (p : printed) | Running (cfg : RunConfig) (d : Driver MemoryStateStore W).
Arguments Printed {W}. Arguments Running {W}.

Section Cli.
Context {J : JsonLib} {FT : FileTexts} {ZL : Zlib} {W : Type} (host : Host W) (world : W) (now : Z).
(** [bundle_tools]: DAGE_HAS_BUNDLE_TOOLS. *)
Context (bundle_tools : bool) (files : string -> option file).

Definition read_file (path : string) : exc string :=
  match files path with
  | Some (Regular seen) => if ob_opens seen then Ok (ob_bytes seen) else Err (RuntimeError ("cannot open " +:+ path))
  | Some (Folder _) => Ok EmptyString
  | _ => Err (RuntimeError ("cannot open " +:+ path))
  end.
Definition usage : string :=
  "Usage: dage <validate|format|mermaid|dot|run|patch|resume> WORKFLOW [ARG]" +:+ nl +:+
  "       dage <bundle-validate|bundle-inspect|bundle-run> BUNDLE WORKFLOW_ID [INPUT_JSON]" +:+ nl.
Definition cli_engine : exc Engine := register_executor "echo" (Some 0) new_engine.
Definition cout (text : string) : cli_state W := Printed (mkPrinted 0 text "").
Definition report (r : ExecutionResult) : printed :=
  if negb (xr_success r) then mkPrinted 1 "" (xe_code (xr_error r) +:+ ": " +:+ xe_message (xr_error r) +:+ nl)
  else mkPrinted 0 (write_json (xr_output r) true) "".

(** The runs: a new one, and one restored from a checkpoint. *)
Definition fresh_machine (w : Workflow) : machine MemoryStateStore W := mkMachine (create_run w default_options) (mkMemory []) world [] [].
Definition run_workflow (engine : Engine) (w : Workflow) (input : option string) : exc (cli_state W) :=
  input ← parse_json (default "{}" input);
  d ← begin_execute input (undriven (fresh_machine w));
  Ok (Running (run_config engine w) d).
Definition resume_workflow (engine : Engine) (w : Workflow) (checkpoint output : string) : exc (cli_state W) :=
  let cfg := run_config engine w in
  match restore_run cfg host (wf_bundle_digest w) checkpoint (fresh_machine w) with
  | (Err (Throw x), _) => Err x
  | (Err (Return r), _) => Ok (Printed (report r))
  | (Err Terminate, _) => Ok (Printed (mkPrinted 134 "" ""))
  | (Ok _, m) =>
    output ← parse_json output;
    started ← resume output now (undriven m);
    Ok (match started with inl r => Printed (report r) | inr d => Running cfg d end)
  end.

(** ** Bundles *)
(** Reading an archive inside its bounds gives a result (Zip.zip_reads_inside). *)
Definition zip_provider (z : ZipResourceProvider) : ResourceProvider :=
  mkResourceProvider (zip_list_resources z) (fun path => default (Err (error "" "")) (zip_read_resource z path)).
Definition open_provider (path : string) : exc ResourceProvider :=
  match files path with
  | Some (Folder children) => d ← directory_provider_new (Some (Folder children)) default_resource_limits; Ok (directory_provider d)
  | Some f => match zip_provider_new f default_zip_limits with Some z => z ← z; Ok (zip_provider z) | None => Err (RuntimeError "") end
  | None => Err (RuntimeError "ZIP_NOT_FOUND")
  end.
Definition bundle_command (command path : string) (rest : list string) (engine : Engine) : exc (cli_state W) :=
  if negb bundle_tools then Err (RuntimeError "bundle commands require DAGE_BUILD_BUNDLE_TOOLS") else
  match rest with
  | [] => Err (RuntimeError "bundle command requires BUNDLE_DIR and WORKFLOW_ID")
  | workflow_id :: rest =>
    provider ← open_provider path;
    bundle ← load_bundle_from_provider provider;
    w ← load_workflow engine bundle workflow_id;
    if String.eqb command "bundle-validate" then
      Ok (cout ("valid " +:+ bd_id bundle +:+ "@" +:+ bd_version bundle +:+ " " +:+ bd_digest bundle +:+ nl))
    else if String.eqb command "bundle-inspect" then
      Ok (cout ("canonical_manifest" +:+ nl +:+ bd_manifest bundle +:+ nl +:+
                "canonical_unsigned_manifest" +:+ nl +:+ bd_unsigned_manifest bundle +:+ nl +:+
                "signing_payload" +:+ nl +:+ bd_signing_payload bundle +:+ "digest" +:+ nl +:+ bd_digest bundle +:+ nl))
    else run_workflow engine w (head rest)
  end.

(** ** Workflows *)
Definition diagnostic_line (d : Diagnostic) : string := d_code d +:+ " " +:+ d_path d +:+ ": " +:+ d_message d +:+ nl.
Definition validate_command (engine : Engine) (text : string) : exc (cli_state W) :=
  d ← validate (en_limits engine) text;
  let failed := existsb is_error d in
  Ok (Printed (mkPrinted (if failed then 1 else 0) (String.concat "" (diagnostic_line <$> d) +:+ (if failed then "" else "valid" +:+ nl)) "")).
Definition workflow_command (command : string) (rest : list string) (engine : Engine) (w : Workflow) : exc (cli_state W) :=
  if String.eqb command "format" then Ok (cout (normalized_json w))
  else if String.eqb command "mermaid" then text ← export_mermaid w; Ok (cout text)
  else if String.eqb command "dot" then text ← export_dot w; Ok (cout text)
  else if String.eqb command "run" then run_workflow engine w (head rest)
  else if String.eqb command "patch" then
    match rest with
    | [] => Err (RuntimeError "patch requires a patch JSON file")
    | path :: _ => patch ← read_file path; changed ← apply_patch (en_limits engine) w patch; Ok (cout (normalized_json changed))
    end
  else if String.eqb command "resume" then
    match rest with
    | checkpoint :: output :: _ => text ← read_file checkpoint; resume_workflow engine w text output
    | _ => Err (RuntimeError "resume requires CHECKPOINT_FILE HUMAN_OUTPUT_JSON")
    end
  else Err (RuntimeError "unknown command").
Definition is_bundle_command (command : string) : bool := mem_str command ["bundle-validate"; "bundle-inspect"; "bundle-run"].
Definition commands (command path : string) (rest : list string) : exc (cli_state W) :=
  engine ← cli_engine;
  if is_bundle_command command then bundle_command command path rest engine else
  text ← read_file path;
  if String.eqb command "validate" then validate_command engine text else
  w ← load (en_limits engine) text;
  workflow_command command rest engine w.
(** The arguments after the name of the program. *)
Definition main (args : list string) : cli_state W :=
  match args with
  | command :: path :: rest =>
    match commands command path rest with Ok s => s | Err x => Printed (mkPrinted 1 "" (what x +:+ nl)) end
  | _ => Printed (mkPrinted 2 "" usage)
  end.
(** What a command prints: at once, or for the last answer of the run when its caller
    looks. *)
Definition prints (args : list string) (p : printed) : Prop :=
  main args = Printed p
  \/ exists cfg d d' r, main args = Running cfg d /\ rtc (drives cfg host) d d' /\ last (given_answers d') = Some r /\ p = report r.

(** ** The commands agree *)
Lemma cli_engine_Ok e : cli_engine = Ok e -> en_limits e = default_limits.
Proof. unfold cli_engine, register_executor. destruct (valid_id "echo"); [|done]. by intros [= <-]. Qed.
Lemma find_existsb {A} (f : A -> bool) l : existsb f l = match List.find f l with Some _ => true | None => false end.
Proof. induction l as [|x l IH]; [done|]. cbn. by destruct (f x). Qed.
Lemma load_valid limits text w : load limits text = Ok w -> exists d, validate limits text = Ok d /\ existsb is_error d = false.
Proof.
  unfold load. intros (d & Ed & E)%bind_Ok. exists d. split; [done|]. rewrite find_existsb. by destruct (List.find is_error d).
Qed.
Lemma load_invalid limits text d : validate limits text = Ok d -> existsb is_error d = true ->
  exists e, List.find is_error d = Some e /\ load limits text = Err (RuntimeError (d_code e +:+ ": " +:+ d_message e)).
Proof.
  intros Ed He. rewrite find_existsb in He. unfold load. rewrite Ed. cbn. destruct (List.find is_error d) as [e|]; [|done]. by exists e.
Qed.

Lemma line_not_empty s : s +:+ nl = "" -> False.
Proof. by destruct s. Qed.

(** C39: the tool's commands agree with its validation.  A command on a workflow file that
    returns 0, executing a run included, is on a file [validate] returns 0 for, its
    output ending with "valid".  Where [validate] returns 1 for an error, every other command
    returns 1, prints nothing but the error, the first [validate] lists. *)
Theorem cli_agrees command path rest : is_bundle_command command = false ->
  (forall p, prints (command :: path :: rest) p -> pr_exit p = 0 ->
     exists text, main ["validate"; path] = Printed (mkPrinted 0 (text +:+ "valid" +:+ nl) ""))
  /\ (forall text, main ["validate"; path] = Printed (mkPrinted 1 text "") -> command <> "validate" ->
     exists d e, List.find is_error d = Some e /\ text = String.concat "" (diagnostic_line <$> d)
       /\ main (command :: path :: rest) = Printed (mkPrinted 1 "" (d_code e +:+ ": " +:+ d_message e +:+ nl))).
Proof.
  intros Hb. unfold prints, main, commands. rewrite Hb. change (is_bundle_command "validate") with false.
  assert (exists e, cli_engine = Ok e) as [e Ee] by by eexists. pose proof (cli_engine_Ok e Ee) as El. rewrite Ee. cbn [mbind res_bind].
  destruct (read_file path) as [text|x]; cbn [mbind res_bind].
  2: { split; [by intros p [[= <-]|(? & ? & ? & ? & [=] & _)]|]. intros text [= _ Hx]. by apply line_not_empty in Hx. }
  change (String.eqb "validate" "validate") with true. cbn match. unfold validate_command. rewrite El.
  destruct (validate default_limits text) as [d|x] eqn:Ed; cbn [mbind res_bind].
  - split.
    + intros p Hp H0. assert (existsb is_error d = false) as ->; [|by eexists].
      destruct (existsb is_error d) eqn:He; [|done]. exfalso. destruct (String.eqb command "validate").
      * destruct Hp as [[= <-]|(? & ? & ? & ? & [=] & _)]. done.
      * destruct (load_invalid _ _ _ Ed He) as (x & _ & Hl). rewrite Hl in Hp. cbn in Hp.
        destruct Hp as [[= <-]|(? & ? & ? & ? & [=] & _)]. done.
    + intros out Ho Hc. apply String.eqb_neq in Hc as ->. destruct (existsb is_error d) eqn:He; [|done]. injection Ho as <-.
      destruct (load_invalid _ _ _ Ed He) as (x & Hx & Hl). exists d, x. rewrite Hl. split_and!; [done|by rewrite app_nil_str|]. cbn.
      by rewrite !str_app_assoc.
  - split; [|intros out [= _ Hx]; by apply line_not_empty in Hx]. intros p Hp H0. exfalso.
    destruct (String.eqb command "validate"); [by destruct Hp as [[= <-]|(? & ? & ? & ? & [=] & _)]|].
    unfold load in Hp. rewrite Ed in Hp. cbn in Hp. by destruct Hp as [[= <-]|(? & ? & ? & ? & [=] & _)].
Qed.
End Cli.
