(* ===== verification/BindingCases.v ===== *)
(** * The bindings at work

    Closed instances of the theorems about the language bindings. *)

From S2P Require Import Prelude Json Reliability Workflow RunState Drive Timer Scenario CSpi CSpiLaws CApi CRun CRunCases CHandles Bindings BindingRuns BindingCalls PyStore.
Open Scope string_scope.
Open Scope list_scope.
Open Scope Z_scope.
#[local] Existing Instance JsonRef.lib.

Lemma settlement_lost_witness :
  answers_of (invocation false Python Launched false true [Commit; Settle (Value None); Settle Failure; Close]) = []
  /\ answers_of (invocation false CSharp Launched false true [Commit; Settle (Value None); AskCancelled]) = [].
Proof.
  split.
  - exact (proj1 (settlement_lost false false true [Commit] [Settle Failure; Close] eq_refl)).
  - exact (proj2 (settlement_lost false false true [Commit] [AskCancelled] eq_refl) eq_refl).
Defined.

(** ** A run that is executed, closed while it executes, and destroyed *)
Definition closed_run : JavaRun := mkJavaRun false None None None [] [0%nat] [] 1 1 1 false.
Ltac host_step t := eapply rtc_l; [apply Disciplined; [t|let Hc := fresh in intros Hc; first [exfalso; apply Hc; reflexivity|split; cbn; lia]]|].
Lemma java_closes : rtc disciplined new_java_run closed_run.
Proof.
  host_step ltac:(by eapply JExecute). host_step ltac:(by eapply (JBegin [] 0 [] 2)). host_step ltac:(by eapply (JClose 1)).
  host_step ltac:(by eapply (JInterrupt (mkCloser 1 (Some 0%nat))); [left|]).
  host_step ltac:(by eapply (JLeave [] 0 2 true [])). host_step ltac:(by eapply (JFinally [] 0 [])).
  host_step ltac:(by eapply (JCountDown [] 0 [])). host_step ltac:(by eapply (JDestroy [] _ [])). reflexivity.
Qed.
Lemma java_close_fences_witness : jr_fault closed_run = false /\ (jr_destroyed closed_run <= 1)%nat.
Proof. destruct (java_close_fences closed_run java_closes) as (Hf & Hd & _). split; [exact Hf|exact Hd]. Defined.

(** ** A python object that keeps its records in memory *)
Definition py_value {A} (q : Result A * MemoryStateStore) : py (option A) * MemoryStateStore :=
  (match q.1 with Ok a => Returned (Some a) | Err _ => Returned None end, q.2).
Definition py_done {A B} (f : A -> B) (q : Result A * MemoryStateStore) : py B * MemoryStateStore :=
  (match q.1 with Ok a => Returned (f a) | Err _ => Raised end, q.2).
Definition py_memory : python_store MemoryStateStore := mkPythonStore
  (fun id cp s => py_done (fun _ => tt) (memory_put id cp s)) (fun id s => py_value (memory_get id s))
  (fun id s => py_done (fun _ => tt) (memory_erase id s)) (fun id s => py_value (memory_load id s))
  (fun id e cp s => py_value (memory_compare_exchange id e cp s)) (fun id e o s => py_value (memory_claim id e o s))
  (fun p s => py_done id (memory_list p s)).
Definition py_records : MemoryStateStore := mkMemory [("run-1", a_record)].
Lemma u64_word z : word (u64 z).
Proof. unfold word, u64. by rewrite Zmod_mod. Qed.
Lemma py_done_agrees {A B} (f : A -> B) (P : B -> A -> Prop) q : (forall a, P (f a) a) -> agrees P raised (py_done f q) q.
Proof. intros Hf. split; [done|]. unfold py_done. cbn. destruct q.1 as [a|e]; [|done]. by eexists. Qed.
Lemma py_value_agrees {A} (P : option A -> A -> Prop) q : (forall a, q.1 = Ok a -> P (Some a) a) -> agrees P no_value (py_value q) q.
Proof. intros Hf. split; [done|]. unfold py_value. cbn. destruct q.1 as [a|e]; [|by right]. eexists. split; [done|by apply Hf]. Qed.
Lemma py_loaded id r : om_get id (mem_states py_records) = Some r -> r = a_record.
Proof. cbn. destruct (String.eqb id "run-1"); [by intros [= <-]|done]. Qed.
Lemma py_memory_implements : python_implements py_memory py_records.
Proof.
  split; intros.
  - by apply py_done_agrees.
  - by apply py_value_agrees.
  - by apply py_done_agrees.
  - apply py_value_agrees. cbn [ss_load memory_store]. unfold memory_load. intros a. destruct (om_get id _) as [r|] eqn:E; [|done].
    apply py_loaded in E as ->. by intros [= <-].
  - apply py_value_agrees. cbn [ss_compare_exchange memory_store]. unfold memory_compare_exchange. intros a.
    destruct (negb _); [done|]. intros [= <-]. split; [done|apply u64_word].
  - apply py_value_agrees. cbn [ss_claim memory_store]. unfold memory_claim. intros a. destruct (om_get id _) as [r|]; [|done].
    destruct (negb _); [done|]. intros [= <-]. split_and!; [done|apply u64_word..].
  - by apply py_done_agrees.
Qed.
Lemma python_store_refines_witness :
  let C := c_state_store (python_table py_memory (fun _ => 1)) in
  (ss_load (StateStore := C) "run-1" (mkCStore py_records [])).1 = Ok a_record
  /\ (ss_get (StateStore := C) "run-1" (mkCStore py_records [])).1 = Ok ""
  /\ (memory_get "run-1" py_records).1 = Ok "{}".
Proof.
  assert (is_ok (jl_parse "") = false) as Hj by by vm_compute.
  destruct (python_store_refines py_memory (fun _ => 1) "run-1" 0 "{}" "p" "" (mkCStore py_records []) py_memory_implements Hj)
    as (_ & _ & [_ Hl] & _ & _ & Hg & _).
  split; [exact Hl|]. split; [by apply Hg|done].
Defined.

(** ** An output read by the rust binding *)
Definition blank_memory (n : Z) : string := Nat.iter (Z.to_nat n) (String " ") "".
Lemma blank_memory_length n : 0 <= n -> str_len (blank_memory n) = n.
Proof.
  intros Hn. unfold blank_memory, str_len. assert (forall k, String.length (Nat.iter k (String " ") "") = k) as -> by (induction k; cbn; auto). lia.
Qed.
Lemma output_read_whole_witness :
  fetch_output Rust outcome blank_memory (mkCRun Scenario.answered None) = Some (Output answered_text, mkCRun Scenario.answered None)
  /\ rtc (c_step cfg host) (mkSession (mkCRun Scenario.answered None) (Some (mkWaiting 0 unsized)) []) (mkSession (mkCRun Scenario.answered None) None [answered_text]).
Proof.
  exact (output_read_whole cfg host Rust outcome 0 blank_memory (mkCRun Scenario.answered None) [] eq_refl blank_memory_length
    ltac:(by vm_compute) ltac:(by vm_compute) ltac:(by vm_compute)).
Defined.
