(* ===== verification/CliCases.v ===== *)
(** * The command line tool at work

    Files, and what the tool prints for them. *)

From S2P Require Import Prelude Json Expr Sha256 Ir Reliability Workflow Trace RunState RunStep Restore Drive Replay Patch PatchInverse Resource Bundle Resolver Zip Directory Scenario PatchCases ProviderCases Engine Format Cli.
Open Scope string_scope.
Open Scope list_scope.
Open Scope Z_scope.
#[local] Existing Instance JsonRef.lib.
#[local] Existing Instance Tree.texts.
#[local] Existing Instance Archive.stored_only.

Definition in_file (content : string) : file := Regular (mkObserved (str_len content) true content (str_len content)).
(** The workflow, and one whose entry does not exist. *)
Definition lost_entry : string := write_json (obj [
  ("format", JString "dage-workflow"); ("format_version", JString "0.2.0"); ("id", JString "demo"); ("entry", JString "nowhere");
  ("nodes", obj [("done", obj [("type", JString "end")])])]) false.
Definition disk_of (path : string) : option file :=
  if String.eqb path "flow.json" then Some (in_file text) else if String.eqb path "lost.json" then Some (in_file lost_entry) else None.
Abbreviation dage := (main host world 0 true disk_of).
Lemma cli_agrees_witness :
  (exists out, dage ["validate"; "flow.json"] = Printed (mkPrinted 0 (out +:+ "valid" +:+ nl) ""))
  /\ (exists e, dage ["format"; "lost.json"] = Printed (mkPrinted 1 "" (d_code e +:+ ": " +:+ d_message e +:+ nl))).
Proof.
  split.
  - destruct (cli_agrees host world 0 true disk_of "format" "flow.json" [] eq_refl) as [H _].
    apply (H (mkPrinted 0 (match dage ["format"; "flow.json"] with Printed p => pr_out p | _ => "" end) "")); [left; by vm_compute|done].
  - destruct (cli_agrees host world 0 true disk_of "format" "lost.json" [] eq_refl) as [_ H].
    destruct (H (match dage ["validate"; "lost.json"] with Printed p => pr_out p | _ => "" end)) as (d & e & _ & _ & E); [by vm_compute|done|].
    exists e. exact E.
Defined.

(** The workflow of Scenario.v, formatted and loaded again. *)
Definition loaded : Workflow := Eval vm_compute in match load default_limits text with Ok w => w | Err _ => mkWf JNull no_workflow "" end.
Definition reloaded : Workflow := Eval vm_compute in
  match load default_limits (normalized_json loaded) with Ok w => w | Err _ => mkWf JNull no_workflow "" end.
Definition typed_node (n : json) : bool :=
  match n with JObject m => match om_get "type" m with Some t => is_string t | None => true end | _ => true end.
Lemma types_checked root : match jget "nodes" root with Ok (JObject ns) => forallb (fun p => typed_node p.2) ns | _ => true end = true ->
  string_types root.
Proof.
  intros Hc ns i m t Hn Hi Ht. rewrite Hn in Hc. clear Hn. induction ns as [|[k n] ns IH]; [done|]. cbn in Hc, Hi. apply andb_true_iff in Hc as [Hc Hr].
  destruct (String.eqb i k); [|by apply IH]. injection Hi as ->. cbn in Hc. by rewrite Ht in Hc.
Qed.
Lemma format_stable_witness : wf_root reloaded = canon (wf_root loaded) /\ om_mem "nodes" (members (wf_root reloaded)) = true.
Proof.
  split; [|by vm_compute].
  apply (format_stable (L := JsonRef.laws) default_limits default_limits text loaded reloaded).
  - by vm_compute.
  - apply readable_ref. by vm_compute.
  - apply types_checked. by vm_compute.
  - by vm_compute.
Defined.
